(* ===== verification/_CoqProject ===== *)
-Q . S2P
Prelude.v
GoStd.v
GoText.v
Wire.v
Io.v
Codec.v
Protobuf.v
Kinpb.v
Framing.v
Bolt.v
Catalog.v
CatalogSpec.v
CatalogProps.v
Peerstore.v
Base64.v
Crypto.v
Invite.v
Sha256.v
Path.v
Fs.v
Config.v
Transfer.v
TransferProps.v
Testutil.v
Download.v
Handler.v
HandlerProps.v
Offer.v
Exchange.v
RelayServer.v
RelayClient.v
Watcher.v
Folder.v
Identity.v
Transport.v
SendLock.v
Endpoint.v
Connmgr.v
Rendezvous.v
Discovery.v
Ipc.v
Daemon.v
Node.v
Cluster.v
Converge.v
Circulate.v
Boot.v
Cli.v
Launch.v
RelayMain.v
Flags.v
Tui.v
TuiPeers.v
TuiModel.v
TuiView.v
Rpc.v
