(* ===== verification/Prelude.v ===== *)
(** * Kin: peer-to-peer file sharing between trusted devices

    This library models the Go program under [src/] and proves the properties that
    make it correct. A node of kin watches a folder, hashes its files into a
    catalog, exchanges catalogs with the peers it trusts and downloads files from
    them by content hash. Two nodes meet through a one-time invite, directly over
    QUIC or by a relay that helps both sides punch through their NATs.

    ** Conventions

    - A Go [[]byte] or [string] is a [list byte]; an array [[n]byte] is an [arr n]; an
      integer is a [Z] with its conversions written out ([to_uint32], [to_int64]).
    - A call that returns [(T, error)] is an [outcome T]: [Ok], [Err] or [Panic]. An
      [error] keeps its wrapping, so that [errors.Is] is a function ([errors_Is]).
    - Stateful code takes its state and returns it with the result. A goroutine is a
      sequence of critical sections; concurrent code is a step relation over them
      ([rtc], or [run] of a list of steps), one step per critical section.
    - The clock, the random source and what [ctx.Err()] answers are arguments.
    - A library that is not part of the repository is a class: its calls are
      members, its documented behaviour is a second class of laws that only the
      theorems that need it assume, and an instance shows that the laws can hold
      (bbolt, [encoding/json], protobuf, Ed25519, QUIC, TLS and X.509, lipgloss and
      the text field of bubbles, [sort.Slice], [strings.ToLower], the text of an
      error). The parts of the standard library
      that can be read as a definition are definitions (SHA-256, base64, [filepath],
      [net.ParseIP], RFC 3339, hexadecimal).

    ** Files

    Language and libraries: [Prelude] (bytes, errors, outcomes, tactics, hints),
    [GoStd] and [GoText] (standard library functions), [Io] (readers and writers with
    failures), [Codec] (serializers), [Bolt] (database), [Crypto] (signatures),
    [Base64], [Sha256], [Path], [Fs] (file system with faults).

    Components, each after those it calls:
    - [Wire], [Framing]: the messages of [kinpb], and the two length-prefixed framings
      [internal/protocol/framing.go] and [internal/daemon/framing.go]. [Protobuf]: the
      wire format of the messages, an instance of the class that the framing assumes.
      [Kinpb]: the rest of the generated code, its embedded descriptor and the source
      [proto/kin.proto].
    - [Catalog], [CatalogSpec], [CatalogProps]: [internal/catalog]; the store, the
      abstract catalog it refines, and the properties.
    - [Peerstore]: [internal/peerstore]. [Invite]: [internal/invite], against the
      interface [NonceStore] that the peer store implements. [Identity]:
      [internal/identity]. [Config]: [internal/config].
    - [Transfer], [TransferProps]: [internal/transfer]. [Download]:
      [internal/download].
    - [Handler], [HandlerProps]: [internal/protocol/handler.go], against the interface
      [CatalogExchanger] that the catalog implements. [Offer]: the size of an offer and
      the limit of a message. [Exchange]: two handlers joined by a connection.
    - [RelayServer], [RelayClient]: [internal/relay].
    - [Watcher]: [internal/watcher]. [Folder]: the folder, the catalog and the index
      together.
    - [Transport]: authentication, streams and connections of [internal/transport];
      [SendLock]: the mutex that [connEntry] of [internal/protocol/handler.go] puts around
      the sends of a connection, write by write;
      [Endpoint]: its certificates, listening, dialing and closing; [Discovery]: the
      external address, with the echo of [cmd/relay]. [Connmgr]: [internal/connmgr]
      and [internal/nat]. [Rendezvous]: a relay with any number of clients.
    - [Ipc]: [internal/daemon/server.go] and [internal/ipc]. [Daemon]: the requests of
      [internal/daemon/handler.go] and the relay loop. [Node]: [daemon.go], the start,
      the shutdown and the running node in which watcher, protocol handler and control
      socket share their stores. [Cluster],
      [Converge], [Circulate]: any number of running nodes whose connections join them. The
      steps of each, in any order, are those of its goroutines: a file is indexed or
      removed, a connection accepted, dialed or ended, a message handled; and an offer,
      whose parts share no lock, is three steps, the copy of the connection table, the
      listing of the catalog for one connection and the sending of what was listed. [Boot]:
      how [Run] builds a node from the constructors of the packages, and its first scan in
      such a cluster.
    - [Cli]: the commands of [cmd/kin]. [Launch]: starting the interface or the daemon
      ([internal/tui/tui.go], [cmdRun], [ipc.TryDaemon]). [Flags]: the command lines of
      both programs. [RelayMain]: the start, the accept loop and the end of [cmd/relay].
    - [Testutil]: [testutil], the in-memory connections of the tests.
    - [Tui], [TuiPeers], [TuiModel], [TuiView]: [internal/tui]; the two lists and the
      transfers, the top-level model with its overlays and the program that runs it,
      and the text of every view.
    - [Rpc]: the typed methods of [internal/ipc], joined with the daemon and the
      interface.

    ** What the theorems show

    - Data: any run of catalog operations refines the abstract catalog
      ([catalog_refines]), whose buckets are well typed ([store_well_formed]); a known
      node's key never changes ([tofu_key_pinned]); framed messages, tokens, calls of
      the control socket and streams round trip; the generated message code is the code
      for [kin.proto] ([generated_code_agrees]).
    - Trust: a token that validates is signed, unexpired and unused, and is used up
      ([Validate_sound], [invite_one_time]); the certificate of an identity passes
      for exactly its node id and a dialed connection is with that node
      ([certificate_binds_identity], [Dial_authenticated]); no message touches the
      entries of another owner ([dispatch_isolated]); but everyone who connects is
      served ([stranger_served]).
    - Files: a request leaves the file with the requested hash or nothing
      ([RequestFile_integrity], [Download_safe]); a download succeeds when one owner
      answers, whatever the others do ([Download_available]); a sender and a receiver transfer a
      file byte for byte ([transfer_end_to_end]); after a scan every file of the folder is
      offered and served ([scan_shares_folder]).
    - Composition: an invite of one daemon lets another join ([invite_join]), with or
      without a daemon alike ([join_alike]); an offer gives the peer exactly the
      offered files ([catalog_sync]); a file written at one node can be fetched at
      the other ([file_reaches_peer]); the interface lists exactly the live entries of
      the daemon's store ([catalog_shown]); a conversation of two nodes is finite
      ([exchange_terminates]); a node that has started shares its folder with whoever
      connects, whenever, unless offers overtake each other ([boot_shares_folder]).
    - Clusters: whatever fails, every entry at any node is for a file that some node's
      folder has had ([entries_come_from_folders]); without failures and as long as the
      offers on a connection are sent in the order in which they were listed ([in_order]),
      a node that has read what its neighbour sent lists all that the neighbour shares
      ([catalogs_converge]). That order is not enforced: offers listed by two goroutines can
      be sent the other way round ([offers_overtake]). And a file that goes round a ring of
      nodes is listed for ever, also after its owner has removed it
      ([listed_file_persists]).
    - Rendezvous: over any run of a relay and its clients a request returns only what
      the requested node has registered ([rendezvous_authentic]), and two idle nodes
      can always find each other ([rendezvous_completes]); but a dial through the relay
      takes the dialing node off it ([dial_unregisters]).
    - State machines: the connection table, the relay's registry and the relay client
      under every interleaving, with confirmations and writes that fail ([conns_exact],
      [registry_exact], [client_no_panic]);
      concurrent sends on a connection are serialized ([sends_serialized]);
      the interface handles every event that finds room on its channel, in order and in
      finitely many steps; the client drops events only while 64 wait there
      ([event_pump]). It never panics in [Update] or [View] ([screen_no_panic]) and draws
      panels of exactly their height ([panels_fill]).
    - Resources and bounds: what [Run] and the interface open they close, except the
      UDP socket under the transport ([Run_releases], [launch_releases]); readers never allocate more than the
      limit ([ReadMsg_bounded]), and which catalogs fit into a message
      ([offer_delivery]); at most five debug logs ([debug_logs_bounded]).
    - Programs: what the flags before a command say is what the program gets
      ([command_line]); the relay keeps its identity over restarts
      ([relay_start_stable]) and ends by a signal unless a failing accept has taken it
      ([relay_signal]).
    - Behaviour that is not what the documentation says has theorems of its own next
      to these, such as [stale_hint_survives], [reconnect_forgotten], [Validate_race],
      [failed_join_burns_invite], [duplicate_unshared], [error_screen_final] and
      [refresh_can_go_back].

    ** Bounds and fuel

    [send_chunks] has the size of the file plus one as fuel, one step per chunk read
    and one for the end of the file; the loops of [handleConn] and [Subscribe] have
    one more than the bytes of their input, since every message consumes its header
    ([handleConn_loop_fuel], [subscribe_loop_fuel]); this is enough for every input,
    and the theorems prove the result, not only its correctness if there is one. The
    parser of protobuf fields and the reader of [kin.proto] have the length of their
    input, since every step consumes some of it; a varint has at most 10 bytes. The
    parser of IPv6 groups takes 8, the most an address has. The cube roots
    of the SHA-256 constants are searched over 36 bits. The other loops recurse on
    their data: messages, packets, rows, events, attempts.

    ** Not modelled

    - What QUIC, TLS, X.509, bbolt and JSON do inside; colours, borders and wrapping of
      lipgloss, whose styles in [styles.go] are values of that library; what is logged,
      and where to ([slog], [testutil.Logf]).
    - [String] and [ProtoReflect] of the generated messages, which only call the
      protobuf runtime, and the registration of the descriptor with it; the methods
      [Close] of stores and clients, the accessors and constructors that only return or
      set fields, and the names of buckets, which the fields of a store stand for.
    - The [e2e] package, which runs the built programs as processes and reads their
      screens, and the [go:generate] directive.
    - Timeouts: a dial or a wait that ends by its deadline is one of the outcomes its
      caller gets.
*)

From stdpp Require Export base gmap list strings relations.
From coqutil Require Export Byte Word.LittleEndianList.
From Stdlib Require Export ZArith Lia.
From Stdlib Require Strings.String.

#[export] Set Default Goal Selector "!".
Open Scope Z_scope.

Declare Scope go_scope.
Delimit Scope go_scope with go.

Create HintDb kin.
Create HintDb len discriminated.

(** * Bytes and byte strings *)

(** A Go [[]byte] and a Go [string] are both sequences of bytes. *)
Abbreviation bytes := (list byte).

#[global] Instance byte_eq_dec : EqDecision byte := Byte.byte_eq_dec.

Lemma byte_of_to_N (b : byte) : Byte.of_N (Byte.to_N b) = Some b.
Proof. apply Byte.of_to_N. Qed.

#[global] Instance byte_countable : Countable byte :=
  inj_countable Byte.to_N Byte.of_N byte_of_to_N.

(** A string literal of the source. *)
Definition str (s : string) : bytes := String.list_byte_of_string s.

(** [len(x)]. *)
Definition len {A} (l : list A) : Z := Z.of_nat (length l).

Lemma len_nonneg {A} (l : list A) : 0 ≤ len l.
Proof. unfold len. lia. Qed.

Lemma len_app {A} (l k : list A) : len (l ++ k) = len l + len k.
Proof. unfold len. rewrite length_app. lia. Qed.

Lemma len_nil {A} : len (@nil A) = 0.
Proof. done. Qed.

Lemma len_cons {A} (x : A) l : len (x :: l) = 1 + len l.
Proof. unfold len. simpl. lia. Qed.

Lemma len_zero_nil {A} (l : list A) : len l = 0 → l = [].
Proof. destruct l; [done|]. unfold len. simpl. lia. Qed.

Lemma len_pos {A} (l : list A) : l ≠ [] → 0 < len l.
Proof. destruct l; [done|]. intros _. unfold len. simpl. lia. Qed.

#[export] Hint Rewrite @len_app @len_nil @len_cons : len.
#[export] Hint Resolve len_nonneg : kin.

(** Arithmetic on lengths: unfolds [len] to [length] and calls [lia]. *)
Ltac len_lia :=
  unfold len in *; repeat rewrite length_app in *; simpl length in *; lia.

(** * Errors and results *)

(** A Go [error]: a package-level sentinel, a fresh error made by [errors.New]
    or by [fmt.Errorf] without [%w] (its integer arguments are kept), an error
    that wraps another one with [%w], and one that only prints another one with
    [%v] and so does not wrap it. *)
Inductive error :=
| Sentinel (name : string)
| Errorf (format : string) (args : list Z)
| Wrapf (format : string) (cause : error)
| Printf (format : string) (shown : error).

#[global] Instance error_eq_dec : EqDecision error.
Proof. solve_decision. Defined.

(** [errors.Is]. *)
Fixpoint errors_Is (e target : error) : bool :=
  bool_decide (e = target) ||
  match e with
  | Wrapf _ c => errors_Is c target
  | _ => false
  end.

Lemma errors_Is_refl e : errors_Is e e = true.
Proof. destruct e; simpl; rewrite bool_decide_true by done; done. Qed.

Definition io_EOF : error := Sentinel "EOF".
Definition io_ErrUnexpectedEOF : error := Sentinel "unexpected EOF".
Definition os_ErrNotExist : error := Sentinel "file does not exist".
Definition net_ErrClosed : error := Sentinel "use of closed network connection".

(** What a call of a Go function that returns [(T, error)] can do: return a
    value with a nil error, return an error, or panic. *)
Inductive outcome (A : Type) :=
| Ok (a : A)
| Err (e : error)
| Panic.
Arguments Ok {A} _.
Arguments Err {A} _.
Arguments Panic {A}.

#[global] Instance outcome_ret : MRet outcome := @Ok.
#[global] Instance outcome_bind : MBind outcome := λ A B f m,
  match m with Ok a => f a | Err e => Err e | Panic => Panic end.
#[global] Instance outcome_eq_dec {A} `{EqDecision A} : EqDecision (outcome A).
Proof. solve_decision. Defined.

(** [if err != nil { return fmt.Errorf("...: %w", err) }]. *)
Definition wrap {A} (format : string) (m : outcome A) : outcome A :=
  match m with Err e => Err (Wrapf format e) | _ => m end.

Definition is_Ok {A} (m : outcome A) : bool :=
  match m with Ok _ => true | _ => false end.

Lemma bind_Ok {A B} (m : outcome A) (f : A → outcome B) b :
  (m ≫= f) = Ok b ↔ ∃ a, m = Ok a ∧ f a = Ok b.
Proof. destruct m; simpl; naive_solver. Qed.

Lemma wrap_Ok {A} s (m : outcome A) a : wrap s m = Ok a ↔ m = Ok a.
Proof. destruct m; naive_solver. Qed.

Lemma pair_fst {A S} (r : A * S) a : fst r = a → r = (a, snd r).
Proof. by destruct r as [? ?]; intros <-. Qed.

(** Case analysis on the outcome of the calls of a goal, left to right. *)
Ltac step_outcome :=
  match goal with
  | H : (?m ≫= _) = Ok _ |- _ => apply bind_Ok in H as (? & ? & H)
  | H : wrap _ ?m = Ok _ |- _ => apply wrap_Ok in H
  end.

(** * Fixed-size arrays *)

(** A Go [[n]byte]: a byte sequence of length [n]. Equality of arrays is
    equality of their bytes. *)
Record arr (n : nat) := Arr {
  arr_bytes : bytes;
  arr_len : Nat.eqb (length arr_bytes) n = true
}.
Arguments Arr {n} _ _.
Arguments arr_bytes {n} _.
Arguments arr_len {n} _.

Lemma arr_eq {n} (a b : arr n) : arr_bytes a = arr_bytes b → a = b.
Proof.
  destruct a as [x Hx], b as [y Hy]. simpl. intros ->.
  f_equal. apply proof_irrel.
Qed.

#[global] Instance arr_bytes_inj {n} : Inj (=) (=) (@arr_bytes n).
Proof. intros a b. apply arr_eq. Qed.

Lemma arr_length {n} (a : arr n) : length (arr_bytes a) = n.
Proof. apply Nat.eqb_eq, arr_len. Qed.
#[export] Hint Resolve arr_length : kin.

#[global] Instance arr_eq_dec {n} : EqDecision (arr n).
Proof.
  refine (λ a b, cast_if (decide (arr_bytes a = arr_bytes b))); [by apply arr_eq|congruence].
Defined.

(** [var a [n]byte; copy(a[:], src)]: the first [n] bytes of [src], padded with
    zero bytes when [src] is shorter. *)
Definition copy_bytes (n : nat) (src : bytes) : bytes :=
  take n (src ++ replicate n Byte.x00).

Lemma copy_bytes_len n src : Nat.eqb (length (copy_bytes n src)) n = true.
Proof.
  apply Nat.eqb_eq. unfold copy_bytes.
  rewrite length_take, length_app, length_replicate. lia.
Qed.

(** The proof field is computed when the bytes are closed, so that arrays built
    from literals are convertible. *)
Definition copy_arr (n : nat) (src : bytes) : arr n :=
  let b := copy_bytes n src in
  match Nat.eqb (length b) n as t return (Nat.eqb (length b) n = t → arr n) with
  | true => λ H, Arr b H
  | false => λ _, Arr b (copy_bytes_len n src)
  end eq_refl.

Lemma copy_arr_bytes n src : arr_bytes (copy_arr n src) = copy_bytes n src.
Proof.
  unfold copy_arr.
  generalize (copy_bytes_len n src).
  generalize (copy_bytes n src) as b. intros b Hb.
  generalize (eq_refl (Nat.eqb (length b) n)).
  generalize (Nat.eqb (length b) n) at 2 3 as t.
  by intros [|] ?.
Qed.

Lemma copy_arr_exact n src :
  length src = n → arr_bytes (copy_arr n src) = src.
Proof.
  intros <-. rewrite copy_arr_bytes. unfold copy_bytes. by rewrite take_app_length.
Qed.

Lemma copy_arr_id {n} (a : arr n) : copy_arr n (arr_bytes a) = a.
Proof. apply arr_eq, copy_arr_exact, arr_length. Qed.

#[global] Instance arr_countable {n} : Countable (arr n).
Proof.
  refine (inj_countable' arr_bytes (copy_arr n) _). apply copy_arr_id.
Defined.

(** [[32]byte{}], the zero array. *)
Definition zero_arr (n : nat) : arr n := copy_arr n [].

(** Node and file identifiers are SHA-256 digests. *)
Abbreviation node_id := (arr 32).
Abbreviation file_id := (arr 32).

(** * Slices and machine integers *)

(** [s[lo:hi]] on a slice or string whose capacity is its length: it panics
    unless [0 <= lo <= hi <= len(s)]. *)
Definition slice {A} (s : list A) (lo hi : Z) : outcome (list A) :=
  if (0 <=? lo) && (lo <=? hi) && (hi <=? len s)
  then Ok (take (Z.to_nat (hi - lo)) (drop (Z.to_nat lo) s))
  else Panic.

(** [s[lo:]]. *)
Definition slice_from {A} (s : list A) (lo : Z) : outcome (list A) :=
  slice s lo (len s).

Lemma slice_Ok {A} (s : list A) lo hi :
  0 ≤ lo ≤ hi → hi ≤ len s →
  slice s lo hi = Ok (take (Z.to_nat (hi - lo)) (drop (Z.to_nat lo) s)).
Proof.
  intros. unfold slice.
  rewrite !(proj2 (Z.leb_le _ _)) by lia. done.
Qed.

(** Reading a field that sits between a prefix and a rest. *)
Lemma slice_mid {A} (p m r : list A) lo hi :
  lo = len p → hi = len p + len m → slice (p ++ m ++ r) lo hi = Ok m.
Proof.
  intros -> ->. rewrite slice_Ok by len_lia. f_equal.
  replace (Z.to_nat (len p + len m - len p)) with (length m) by len_lia.
  replace (Z.to_nat (len p)) with (length p) by len_lia.
  by rewrite drop_app_length, take_app_length.
Qed.

Lemma slice_length {A} (s : list A) lo hi t :
  slice s lo hi = Ok t → len t = hi - lo.
Proof.
  unfold slice. case_match eqn:E; [|done]. intros [= <-].
  rewrite !andb_true_iff, !Z.leb_le in E. unfold len in *.
  rewrite length_take, length_drop. lia.
Qed.

(** Conversions between machine integers. *)
Definition to_uint16 (z : Z) : Z := z mod 2 ^ 16.
Definition to_uint32 (z : Z) : Z := z mod 2 ^ 32.
Definition to_uint64 (z : Z) : Z := z mod 2 ^ 64.
Definition to_int64 (z : Z) : Z := (z + 2 ^ 63) mod 2 ^ 64 - 2 ^ 63.
Definition is_int64 (z : Z) : Prop := - 2 ^ 63 ≤ z < 2 ^ 63.

Lemma to_int64_uint64 z : is_int64 z → to_int64 (to_uint64 z) = z.
Proof.
  unfold is_int64, to_int64, to_uint64. intros H.
  rewrite Z.add_mod_idemp_l by lia. rewrite Z.mod_small by lia. lia.
Qed.

(** [binary.BigEndian.PutUintN] and [UintN]: [n] bytes, most significant
    first. *)
Definition be_put (n : nat) (z : Z) : bytes := rev (le_split n z).
Definition be_get (b : bytes) : Z := le_combine (rev b).

Arguments be_put : simpl never.
Arguments be_get : simpl never.

Lemma be_put_length n z : length (be_put n z) = n.
Proof. unfold be_put. by rewrite length_rev, length_le_split. Qed.

Lemma be_get_put n z : be_get (be_put n z) = z mod 2 ^ (Z.of_nat n * 8).
Proof. unfold be_get, be_put. by rewrite rev_involutive, le_combine_split. Qed.

Lemma be_get_put_small n z :
  0 ≤ z < 2 ^ (Z.of_nat n * 8) → be_get (be_put n z) = z.
Proof. intros. rewrite be_get_put. by apply Z.mod_small. Qed.

Lemma be_put_get b : be_put (length b) (be_get b) = b.
Proof.
  unfold be_get, be_put. rewrite <- (length_rev b), split_le_combine.
  apply rev_involutive.
Qed.

Lemma be_get_bound b : 0 ≤ be_get b < 2 ^ (8 * len b).
Proof. unfold be_get, len. rewrite <- (length_rev b). apply le_combine_bound. Qed.

#[export] Hint Resolve be_put_length : kin.
