(* ===== verification/GoStd.v ===== *)
(** Functions of Go's standard library that several components call on byte
    sequences: comparison and prefixes ([bytes], [strings]), lowercase
    hexadecimal ([encoding/hex], the [%x] verb), the UTF-8 repair that
    [encoding/json] applies to strings, and instants of [time]. *)

From S2P Require Import Prelude.

(** * bytes.Compare *)

Fixpoint bytes_ltb (a b : bytes) : bool :=
  match a, b with
  | _, [] => false
  | [], _ :: _ => true
  | x :: a', y :: b' =>
      (byte.unsigned x <? byte.unsigned y) ||
      (bool_decide (x = y) && bytes_ltb a' b')
  end.

Lemma unsigned_eq x y : byte.unsigned x = byte.unsigned y ↔ x = y.
Proof. split; [apply byte.unsigned_inj|congruence]. Qed.

Lemma bytes_ltb_cons x a y b :
  bytes_ltb (x :: a) (y :: b) = true ↔
  byte.unsigned x < byte.unsigned y ∨ (x = y ∧ bytes_ltb a b = true).
Proof. simpl. rewrite orb_true_iff, andb_true_iff, Z.ltb_lt, bool_decide_eq_true. done. Qed.

Lemma bytes_ltb_irrefl a : bytes_ltb a a = false.
Proof.
  induction a as [|x a IH]; [done|]. apply not_true_is_false. rewrite bytes_ltb_cons.
  rewrite IH. intros [?|[_ ?]]; [lia|done].
Qed.

Lemma bytes_ltb_trans a b c :
  bytes_ltb a b = true → bytes_ltb b c = true → bytes_ltb a c = true.
Proof.
  revert b c. induction a as [|x a IH]; intros [|y b] [|z c]; try done.
  rewrite !bytes_ltb_cons. intros [H1|[-> H1]] [H2|[-> H2]]; eauto with lia.
Qed.

Lemma bytes_ltb_total a b : bytes_ltb a b = true ∨ a = b ∨ bytes_ltb b a = true.
Proof.
  revert b. induction a as [|x a IH]; intros [|y b]; [by auto..|].
  rewrite !bytes_ltb_cons.
  destruct (Z.lt_trichotomy (byte.unsigned x) (byte.unsigned y)) as [?|[->%unsigned_eq|?]]; auto.
  destruct (IH b) as [?|[->|?]]; auto.
Qed.

Lemma bytes_ltb_asym a b : bytes_ltb a b = true → bytes_ltb b a = false.
Proof.
  intros H. apply not_true_is_false. intros H'.
  pose proof (bytes_ltb_trans _ _ _ H H') as Hc. by rewrite bytes_ltb_irrefl in Hc.
Qed.

(** * bytes.HasPrefix, strings.HasPrefix, strings.TrimPrefix *)

Fixpoint HasPrefix (s prefix : bytes) {struct prefix} : bool :=
  match prefix, s with
  | [], _ => true
  | _ :: _, [] => false
  | p :: prefix', x :: s' => bool_decide (x = p) && HasPrefix s' prefix'
  end.

Definition TrimPrefix (s prefix : bytes) : bytes :=
  if HasPrefix s prefix then drop (length prefix) s else s.

Lemma HasPrefix_spec s p : HasPrefix s p = true ↔ ∃ t, s = p ++ t.
Proof.
  revert s. induction p as [|b p IH]; intros s; simpl.
  { split; [by exists s|done]. }
  destruct s as [|x s]; simpl; [split; [done|by intros [t [=]]]|].
  rewrite andb_true_iff, bool_decide_eq_true, IH. split.
  - intros [-> [t ->]]. by exists t.
  - intros [t [= -> ->]]. by split; [|exists t].
Qed.

Lemma HasPrefix_app p t : HasPrefix (p ++ t) p = true.
Proof. apply HasPrefix_spec. eauto. Qed.

Lemma TrimPrefix_app p t : TrimPrefix (p ++ t) p = t.
Proof. unfold TrimPrefix. by rewrite HasPrefix_app, drop_app_length. Qed.

(** A key with prefix [p] does not sort before [p]. *)
Lemma HasPrefix_not_lt k p : HasPrefix k p = true → bytes_ltb k p = false.
Proof.
  intros (t & ->)%HasPrefix_spec. induction p as [|x p IH]; simpl; [by destruct t|].
  rewrite bool_decide_true by done. rewrite Z.ltb_irrefl. done.
Qed.

(** The keys with a given prefix are an interval of the key order. *)
Lemma HasPrefix_interval p k k' :
  bytes_ltb k p = false → bytes_ltb k k' = true → HasPrefix k' p = true →
  HasPrefix k p = true.
Proof.
  revert k k'. induction p as [|x p IH]; intros k k' Hp Hk Hk'; [done|].
  destruct k as [|y k]; [done|]. destruct k' as [|z k']; [done|].
  simpl in Hk'. apply andb_true_iff in Hk' as [->%bool_decide_eq_true Hk'].
  apply not_true_iff_false in Hp. rewrite bytes_ltb_cons in Hp, Hk.
  assert (y = x) as ->.
  { destruct Hk as [?|[? _]]; [|done]. exfalso. apply Hp. by left. }
  simpl. rewrite bool_decide_true by done. simpl.
  apply (IH k k'); [|naive_solver lia|done].
  apply not_true_iff_false. naive_solver.
Qed.

(** * encoding/hex *)

Definition hex_digit (n : Z) : byte :=
  byte.of_Z (if n <? 10 then 48 + n else 87 + n).

(** [hex.EncodeToString(b)] and [fmt.Sprintf("%x", b)]. *)
Fixpoint hex_encode (b : bytes) : bytes :=
  match b with
  | [] => []
  | x :: b' =>
      hex_digit (byte.unsigned x / 16) :: hex_digit (byte.unsigned x mod 16) :: hex_encode b'
  end.

Lemma hex_encode_length b : length (hex_encode b) = (2 * length b)%nat.
Proof. induction b as [|x b IH]; simpl; [done|]. rewrite IH. lia. Qed.

Lemma hex_digit_unsigned n :
  0 ≤ n < 16 → byte.unsigned (hex_digit n) = if n <? 10 then 48 + n else 87 + n.
Proof.
  intros. unfold hex_digit. rewrite byte.unsigned_of_Z. unfold byte.wrap.
  apply Z.mod_small. case_match; lia.
Qed.

Lemma hex_digit_inj n k : 0 ≤ n < 16 → 0 ≤ k < 16 → hex_digit n = hex_digit k → n = k.
Proof.
  intros Hn Hk Heq. apply (f_equal byte.unsigned) in Heq.
  rewrite !hex_digit_unsigned in Heq by done.
  destruct (Z.ltb_spec n 10), (Z.ltb_spec k 10); lia.
Qed.

Lemma nibble_bounds x :
  0 ≤ byte.unsigned x / 16 < 16 ∧ 0 ≤ byte.unsigned x mod 16 < 16.
Proof.
  pose proof (byte.unsigned_range x). split; [|apply Z.mod_pos_bound; lia].
  split; [apply Z.div_pos|apply Z.div_lt_upper_bound]; lia.
Qed.

#[global] Instance hex_encode_inj : Inj (=) (=) hex_encode.
Proof.
  intros a. induction a as [|x a IH]; intros [|y b]; simpl; try done.
  intros [= H1 H2 H3]. destruct (nibble_bounds x), (nibble_bounds y).
  apply (hex_digit_inj _ _) in H1; [|done|done]. apply (hex_digit_inj _ _) in H2; [|done|done].
  f_equal; [|by apply IH]. apply unsigned_eq.
  rewrite (Z.div_mod (byte.unsigned x) 16), (Z.div_mod (byte.unsigned y) 16) by lia. lia.
Qed.

(** * UTF-8 *)

Definition byte_in (lo hi : Z) (b : byte) : bool :=
  (lo <=? byte.unsigned b) && (byte.unsigned b <=? hi).

(** [utf8.DecodeRuneInString]: the size of the rune at the head of [s] when it is
    well-formed, [None] when it is [RuneError] of width one (or [s] is empty). *)
Definition rune_size (s : bytes) : option nat :=
  match s with
  | [] => None
  | b0 :: r =>
      let x := byte.unsigned b0 in
      if x <? 128 then Some 1%nat
      else if byte_in 194 223 b0 then
        match r with
        | b1 :: _ => if byte_in 128 191 b1 then Some 2%nat else None
        | _ => None
        end
      else if byte_in 224 239 b0 then
        match r with
        | b1 :: b2 :: _ =>
            if byte_in (if x =? 224 then 160 else 128) (if x =? 237 then 159 else 191) b1
               && byte_in 128 191 b2
            then Some 3%nat else None
        | _ => None
        end
      else if byte_in 240 244 b0 then
        match r with
        | b1 :: b2 :: b3 :: _ =>
            if byte_in (if x =? 240 then 144 else 128) (if x =? 244 then 143 else 191) b1
               && byte_in 128 191 b2 && byte_in 128 191 b3
            then Some 4%nat else None
        | _ => None
        end
      else None
  end.

Arguments rune_size : simpl never.

(** Copy [s], replacing every byte that is not part of a well-formed rune by
    U+FFFD; [skip] counts the bytes left of the rune being copied. *)
Fixpoint repair_from (skip : nat) (s : bytes) : bytes :=
  match s with
  | [] => []
  | b :: r =>
      match skip with
      | S k => b :: repair_from k r
      | O =>
          match rune_size (b :: r) with
          | Some k => b :: repair_from (pred k) r
          | None => Byte.xef :: Byte.xbf :: Byte.xbd :: repair_from 0 r
          end
      end
  end.

(** What [encoding/json] stores for the string [s]. *)
Definition utf8_repair (s : bytes) : bytes := repair_from 0 s.

Lemma rune_size_prefix s k :
  rune_size s = Some k →
  (1 ≤ k ≤ length s)%nat ∧ ∀ t, take k t = take k s → rune_size t = Some k.
Proof.
  unfold rune_size. destruct s as [|b0 r]; [done|].
  repeat case_match; intros [= <-]; (split; [simpl; lia|]);
    intros [|? [|? [|? [|? t]]]] Ht; simpl in Ht; simplify_eq/=;
    repeat (case_match; try congruence); done.
Qed.

Lemma repair_from_take k s :
  (k ≤ length s)%nat → take k (repair_from k s) = take k s.
Proof.
  revert k. induction s as [|b s IH]; intros k Hk; simpl in *; [done|].
  destruct k as [|k]; [done|]. simpl. rewrite IH by lia. done.
Qed.

Lemma repair_from_idemp s k :
  (k ≤ length s)%nat → repair_from k (repair_from k s) = repair_from k s.
Proof.
  revert k. induction s as [|b s IH]; intros k Hk; [done|]. simpl in Hk.
  destruct k as [|k]; simpl; [|rewrite IH by lia; done].
  destruct (rune_size (b :: s)) as [n|] eqn:Hn.
  - apply rune_size_prefix in Hn as [Hlen Hn]. destruct n as [|n]; [lia|].
    simpl in *. rewrite (Hn (b :: repair_from n s)).
    + simpl. rewrite IH by lia. done.
    + simpl. rewrite repair_from_take by lia. done.
  - change (rune_size (Byte.xef :: Byte.xbf :: Byte.xbd :: repair_from 0 s)) with (Some 3%nat).
    simpl. rewrite IH by lia. done.
Qed.

Lemma utf8_repair_idemp s : utf8_repair (utf8_repair s) = utf8_repair s.
Proof. apply repair_from_idemp. lia. Qed.

(** A string that [encoding/json] stores unchanged. *)
Definition utf8_ok (s : bytes) : bool := bool_decide (utf8_repair s = s).

(** * Instants *)

(** A [time.Time] is the number of nanoseconds since the Unix epoch. Go keeps the
    seconds since the year 1 in an int64, so [time.Unix] wraps around for seconds
    close to the largest int64. *)
Definition unixToInternal : Z := 62135596800.

(** [time.Unix(sec, 0)] and [t.Unix()]. *)
Definition time_Unix (sec : Z) : Z :=
  (to_int64 (sec + unixToInternal) - unixToInternal) * 10 ^ 9.
Definition Unix (t : Z) : Z := to_int64 (t / 10 ^ 9).

(** [time.Time{}], the first second of the year 1. *)
Definition zero_time : Z := - unixToInternal * 10 ^ 9.

Lemma Unix_time_Unix sec : is_int64 sec → Unix (time_Unix sec) = sec.
Proof.
  intros Hs. unfold Unix, time_Unix. rewrite Z.div_mul by done.
  unfold to_int64, is_int64, unixToInternal in *.
  set (x := sec + 62135596800 + 2 ^ 63).
  replace (x mod 2 ^ 64 - 2 ^ 63 - 62135596800 + 2 ^ 63) with (x mod 2 ^ 64 - 62135596800) by lia.
  rewrite Zminus_mod_idemp_l. subst x. rewrite Z.mod_small by lia. lia.
Qed.

(** Seconds that every clock and every token in practice has: no wrap-around. *)
Definition is_sec (sec : Z) : Prop := - 2 ^ 62 ≤ sec < 2 ^ 62.

Lemma time_Unix_Unix t : is_sec (t / 10 ^ 9) → time_Unix (Unix t) = t / 10 ^ 9 * 10 ^ 9.
Proof.
  unfold is_sec, time_Unix, Unix, to_int64, unixToInternal. intros Hs.
  rewrite !(Z.mod_small (t / 10 ^ 9 + 2 ^ 63)) by lia.
  rewrite (Z.mod_small (_ + 62135596800 + 2 ^ 63)) by lia. lia.
Qed.
