(* ===== verification/GoText.v ===== *)
(** Textual forms of Go's standard library: host and port ([net.SplitHostPort]), IP
    addresses ([net.ParseIP]), decimal numbers ([strconv], the [%d] verb) and times
    ([time.RFC3339]). *)

From stdpp Require Import pretty.
From S2P Require Import Prelude.

(** * Host and port *)

Definition colon : byte := Byte.x3a.

(** The parts before and after the last colon. *)
Fixpoint split_last_colon (s : bytes) : option (bytes * bytes) :=
  match s with
  | [] => None
  | b :: s' =>
      match split_last_colon s' with
      | Some (h, p) => Some (b :: h, p)
      | None => if bool_decide (b = colon) then Some ([], s') else None
      end
  end.

Definition addr_error : error := Errorf "address error" [].

Definition lbracket : byte := Byte.x5b.
Definition rbracket : byte := Byte.x5d.

(** [net.SplitHostPort]. *)
Definition SplitHostPort (s : bytes) : outcome (bytes * bytes) :=
  match split_last_colon s with
  | None => Err addr_error
  | Some (h, p) =>
      match h with
      | b :: h' =>
          if bool_decide (b = lbracket) then
            match rev h' with
            | r :: inner =>
                if bool_decide (r = rbracket) && negb (bool_decide (rbracket ∈ inner)) &&
                   negb (bool_decide (lbracket ∈ inner)) &&
                   negb (bool_decide (lbracket ∈ p)) && negb (bool_decide (rbracket ∈ p))
                then Ok (rev inner, p) else Err addr_error
            | [] => Err addr_error
            end
          else if bool_decide (colon ∈ h) || bool_decide (lbracket ∈ s) || bool_decide (rbracket ∈ s)
          then Err addr_error else Ok (h, p)
      | [] => if bool_decide (lbracket ∈ s) || bool_decide (rbracket ∈ s) then Err addr_error
              else Ok ([], p)
      end
  end.

Definition digit (b : byte) : option Z :=
  let x := byte.unsigned b - 48 in
  if (0 <=? x) && (x <=? 9) then Some x else None.

Fixpoint parse_digits (acc : Z) (s : bytes) : option Z :=
  match s with
  | [] => Some acc
  | b :: s' => d ← digit b; parse_digits (acc * 10 + d) s'
  end.

(** [strconv.ParseUint(s, 10, 32)]. *)
Definition ParseUint32 (s : bytes) : outcome Z :=
  match s with
  | [] => Err (Errorf "invalid syntax" [])
  | _ =>
      match parse_digits 0 s with
      | None => Err (Errorf "invalid syntax" [])
      | Some v => if v <? 2 ^ 32 then Ok v else Err (Errorf "value out of range" [])
      end
  end.

(** * IP addresses *)

Definition period : byte := Byte.x2e.

Fixpoint split_on (sep : byte) (s : bytes) : list bytes :=
  match s with
  | [] => [[]]
  | b :: s' =>
      match split_on sep s' with
      | [] => [[]]
      | p :: ps => if bool_decide (b = sep) then [] :: p :: ps else (b :: p) :: ps
      end
  end.

(** One of the four numbers: no leading zero, at most 255. *)
Definition ipv4_field (s : bytes) : option Z :=
  match s with
  | [] => None
  | b :: s' =>
      if bool_decide (b = Byte.x30) && negb (bool_decide (s' = [])) then None
      else
        v ← parse_digits 0 s;
        if v <=? 255 then Some v else None
  end.

(** [parseIPv4Fields]. *)
Definition parse_ipv4 (s : bytes) : option (list Z) :=
  match split_on period s with
  | [a; b; c; d] =>
      a ← ipv4_field a; b ← ipv4_field b; c ← ipv4_field c; d ← ipv4_field d;
      Some [a; b; c; d]
  | _ => None
  end.

Definition hex_value (b : byte) : option Z :=
  let x := byte.unsigned b in
  if (48 <=? x) && (x <=? 57) then Some (x - 48)
  else if (97 <=? x) && (x <=? 102) then Some (x - 87)
  else if (65 <=? x) && (x <=? 70) then Some (x - 55)
  else None.

(** The hexadecimal digits at the head, and the rest. *)
Fixpoint hex_run (s : bytes) : list Z * bytes :=
  match s with
  | [] => ([], [])
  | b :: s' =>
      match hex_value b with
      | Some d => let '(ds, rest) := hex_run s' in (d :: ds, rest)
      | None => ([], s)
      end
  end.

(** The loop of [parseIPv6]: the bytes so far in [ip], the position of the ellipsis;
    the result has what is left of the text. There are at most eight groups. *)
Fixpoint parse_groups (fuel : nat) (s : bytes) (ip : list Z) (ellipsis : option nat) :
    option (list Z * option nat * bytes) :=
  match fuel with
  | O => Some (ip, ellipsis, s)
  | S fuel' =>
      let '(ds, rest) := hex_run s in
      if (length ds =? 0)%nat || (4 <? length ds)%nat then None
      else
        match rest with
        | [] =>
            let acc := foldl (λ acc d, acc * 16 + d) 0 ds in
            Some (ip ++ [acc / 256; acc mod 256], ellipsis, [])
        | c :: rest' =>
            if bool_decide (c = period) then
              if negb (bool_decide (is_Some ellipsis)) && negb (length ip =? 12)%nat then None
              else if (16 <? length ip + 4)%nat then None
              else v4 ← parse_ipv4 s; Some (ip ++ v4, ellipsis, [])
            else
              let acc := foldl (λ acc d, acc * 16 + d) 0 ds in
              let ip := ip ++ [acc / 256; acc mod 256] in
              if negb (bool_decide (c = colon)) then None
              else
                match rest' with
                | [] => None
                | c' :: rest'' =>
                    if bool_decide (c' = colon) then
                      match ellipsis with
                      | Some _ => None
                      | None =>
                          match rest'' with
                          | [] => Some (ip, Some (length ip), [])
                          | _ => parse_groups fuel' rest'' ip (Some (length ip))
                          end
                      end
                    else parse_groups fuel' rest' ip ellipsis
                end
        end
  end.

(** The end of [parseIPv6]: the ellipsis stands for at least one zero group. *)
Definition expand (r : list Z * option nat * bytes) : option (list Z) :=
  let '(ip, ellipsis, s) := r in
  match s with
  | _ :: _ => None
  | [] =>
      match ellipsis with
      | Some e =>
          if (length ip <? 16)%nat
          then Some (take e ip ++ replicate (16 - length ip) 0 ++ drop e ip) else None
      | None => if (length ip <? 16)%nat then None else Some ip
      end
  end.

Definition parse_ipv6 (s : bytes) : option (list Z) :=
  match s with
  | a :: b :: s' =>
      if bool_decide (a = colon) && bool_decide (b = colon) then
        match s' with
        | [] => Some (replicate 16 0)
        | _ => parse_groups 8 s' [] (Some 0%nat) ≫= expand
        end
      else parse_groups 8 s [] None ≫= expand
  | _ => parse_groups 8 s [] None ≫= expand
  end.

(** [net.ParseIP]: the sixteen bytes of the address; an address with a zone is
    refused. *)
Fixpoint ip_kind (s : bytes) : option byte :=
  match s with
  | [] => None
  | b :: s' =>
      if bool_decide (b = period) || bool_decide (b = colon) || bool_decide (b = Byte.x25) then Some b
      else ip_kind s'
  end.

Definition ParseIP (s : bytes) : option (list Z) :=
  match ip_kind s with
  | Some Byte.x2e => v4 ← parse_ipv4 s; Some (replicate 10 0 ++ [255; 255] ++ v4)
  | Some Byte.x3a => if bool_decide (Byte.x25 ∈ s) then None else parse_ipv6 s
  | _ => None
  end.

(** [ip.IsUnspecified()]. *)
Definition IsUnspecified (ip : list Z) : bool :=
  bool_decide (ip = replicate 16 0) ||
  bool_decide (ip = replicate 10 0 ++ [255; 255; 0; 0; 0; 0]).

Lemma ParseIP_examples :
  ParseIP (str "192.168.0.1") = Some (replicate 10 0 ++ [255; 255; 192; 168; 0; 1]) ∧
  ParseIP (str "::") = Some (replicate 16 0) ∧
  ParseIP (str "fe80::1:2") = Some ([254; 128] ++ replicate 10 0 ++ [0; 1; 0; 2]) ∧
  ParseIP (str "::ffff:1.2.3.4") = ParseIP (str "1.2.3.4") ∧
  ParseIP (str "1:2:3:4:5:6:7:8") = Some [0; 1; 0; 2; 0; 3; 0; 4; 0; 5; 0; 6; 0; 7; 0; 8] ∧
  Forall (λ s, ParseIP (str s) = None)
    ["1.2.3"; "1.2.3.04"; "1.2.3.256"; "1:2"; "1::2::3"; "1:2:3:4:5:6:7:8:9"; "12345::"; "fe80::1%eth0";
     "::1:2:3:4:5:6:7:8"; "1.2.3.4.5"; "1:"; "host"; ""]%string.
Proof. split_and!; [by vm_compute..|]. repeat constructor; by vm_compute. Qed.

(** * Times *)

(** The digits of [n], at least [w] of them. *)
Definition padded (w : nat) (n : Z) : bytes :=
  let ds := str (pretty (Z.abs n)) in
  (if n <? 0 then str "-" else []) ++ replicate (w - length ds) Byte.x30 ++ ds.

(** Year, month and day of the [n]-th day after 1970-01-01 in the proleptic
    Gregorian calendar; years are counted from March. *)
Definition civil (n : Z) : Z * Z * Z :=
  let z := n + 719468 in
  let era := z / 146097 in
  let doe := z - era * 146097 in
  let yoe := (doe - doe / 1460 + doe / 36524 - doe / 146096) / 365 in
  let doy := doe - (365 * yoe + yoe / 4 - yoe / 100) in
  let mp := (5 * doy + 2) / 153 in
  let d := doy - (153 * mp + 2) / 5 + 1 in
  let m := if mp <? 10 then mp + 3 else mp - 9 in
  let y := yoe + era * 400 in
  (if m <=? 2 then y + 1 else y, m, d).

(** [t.Format(time.RFC3339)] of a time in UTC. *)
Definition Format_RFC3339 (t : Z) : bytes :=
  let sec := t / 10 ^ 9 in
  let '(y, m, d) := civil (sec / 86400) in
  let s := sec mod 86400 in
  padded 4 y ++ str "-" ++ padded 2 m ++ str "-" ++ padded 2 d ++ str "T" ++
  padded 2 (s / 3600) ++ str ":" ++ padded 2 (s / 60 mod 60) ++ str ":" ++ padded 2 (s mod 60) ++ str "Z".

Lemma Format_examples :
  Format_RFC3339 (1700000000 * 10 ^ 9) = str "2023-11-14T22:13:20Z" ∧
  Format_RFC3339 (951782400 * 10 ^ 9) = str "2000-02-29T00:00:00Z" ∧
  Format_RFC3339 (- 62135596800 * 10 ^ 9) = str "0001-01-01T00:00:00Z".
Proof. by vm_compute. Qed.

(** * Decimal numbers *)

(** [strconv.Itoa] and the [%d] verb. *)
Definition Itoa (n : Z) : bytes := str (pretty n).

Lemma digit_of_char (x : N) :
  (x < 10)%N → digit (Ascii.byte_of_ascii (pretty_N_char x)) = Some (Z.of_N x).
Proof.
  intros Hx.
  assert (x = 0 ∨ x = 1 ∨ x = 2 ∨ x = 3 ∨ x = 4 ∨ x = 5 ∨ x = 6 ∨ x = 7 ∨ x = 8 ∨ x = 9)%N as Hd by lia.
  by destruct_or! Hd; subst x.
Qed.

Lemma parse_pretty_go (x : N) (s : string) :
  parse_digits 0 (str (pretty_N_go x s)) = parse_digits (Z.of_N x) (str s).
Proof.
  revert s. induction (N.lt_wf_0 x) as [x _ IH]. intros s.
  destruct (decide (x = 0%N)) as [->|Hx]; [done|].
  rewrite pretty_N_go_step by lia. rewrite IH by (apply N.div_lt; lia).
  change (str (String (pretty_N_char (x `mod` 10)) s))
    with (Ascii.byte_of_ascii (pretty_N_char (x `mod` 10)) :: str s).
  cbn [parse_digits]. rewrite digit_of_char by (apply N.mod_lt; lia). simpl.
  f_equal. rewrite N2Z.inj_div, N2Z.inj_mod. pose proof (Z.div_mod (Z.of_N x) 10). lia.
Qed.

Lemma parse_Itoa (n : Z) : 0 ≤ n → parse_digits 0 (Itoa n) = Some n.
Proof.
  intros Hn. unfold Itoa, pretty, pretty_Z. destruct n as [|p|p]; [done| |lia].
  unfold pretty, pretty_positive, pretty, pretty_N. case_decide; [done|]. by rewrite parse_pretty_go.
Qed.

Lemma Itoa_nonempty (n : Z) : 0 ≤ n → Itoa n ≠ [].
Proof.
  intros Hn E. pose proof (parse_Itoa n Hn) as H. rewrite E in H. injection H as <-.
  by vm_compute in E.
Qed.

Lemma ParseUint32_Itoa (n : Z) : 0 ≤ n < 2 ^ 32 → ParseUint32 (Itoa n) = Ok n.
Proof.
  intros Hn. pose proof (parse_Itoa n ltac:(lia)) as Hp. pose proof (Itoa_nonempty n ltac:(lia)) as Hne.
  unfold ParseUint32. destruct (Itoa n); [done|]. rewrite Hp.
  by rewrite (proj2 (Z.ltb_lt _ _)) by lia.
Qed.

(** A number below [10^k] has at most [k] digits. *)
Lemma pretty_go_short (k : nat) (x : N) (s : string) :
  (x < 10 ^ N.of_nat k)%N → (length (str (pretty_N_go x s)) ≤ k + length (str s))%nat.
Proof.
  revert x s. induction k as [|k IH]; intros x s Hx.
  { assert (x = 0%N) as -> by (simpl in Hx; lia). done. }
  destruct (decide (x = 0%N)) as [->|Hne].
  { rewrite pretty_N_go_0. lia. }
  rewrite pretty_N_go_step by lia.
  etrans; [apply IH|].
  - apply N.Div0.div_lt_upper_bound. rewrite Nat2N.inj_succ, N.pow_succ_r' in Hx. lia.
  - change (str (String ?c s)) with (Ascii.byte_of_ascii c :: str s). simpl. lia.
Qed.

Lemma Itoa_short n : 0 ≤ n < 65536 → (length (Itoa n) ≤ 5)%nat.
Proof.
  intros Hn. unfold Itoa, pretty, pretty_Z. destruct n as [|p|p]; [simpl; lia| |lia].
  unfold pretty, pretty_positive, pretty, pretty_N. case_decide; [done|].
  pose proof (pretty_go_short 5 (N.pos p) ""%string) as Hs.
  change (length (str "")) with 0%nat in Hs. rewrite Nat.add_0_r in Hs. apply Hs.
  change (10 ^ N.of_nat 5)%N with 100000%N. lia.
Qed.

(** What parses as digits has no other characters. *)
Lemma parse_digits_chars acc s v b : parse_digits acc s = Some v → b ∈ s → is_Some (digit b).
Proof.
  revert acc. induction s as [|x s IH]; intros acc; simpl; [by intros _ ?%not_elem_of_nil|].
  destruct (digit x) as [d|] eqn:Hd; [|done]. simpl. intros Hs [->|Hb]%elem_of_cons; [by eexists|eauto].
Qed.

Lemma Itoa_chars n b : 0 ≤ n → b ∈ Itoa n → is_Some (digit b).
Proof. intros Hn. eapply parse_digits_chars. by apply parse_Itoa. Qed.

(** The last colon of a text whose end has none. *)
Lemma split_last_colon_app h p : colon ∉ p → split_last_colon (h ++ colon :: p) = Some (h, p).
Proof.
  intros Hp. assert (∀ q, colon ∉ q → split_last_colon q = None) as Hnone.
  { induction q as [|b q IH]; intros Hq; [done|]. apply not_elem_of_cons in Hq as [Hb Hq].
    simpl. by rewrite IH, bool_decide_false by auto. }
  induction h as [|b h IH]; simpl; [by rewrite Hnone|by rewrite IH].
Qed.

(** * Socket addresses *)

(** [net.JoinHostPort]. *)
Definition JoinHostPort (host port : bytes) : bytes :=
  if bool_decide (colon ∈ host) then lbracket :: host ++ [rbracket; colon] ++ port
  else host ++ colon :: port.

(** A host without brackets and a decimal port come back. *)
Lemma SplitHostPort_Join host port :
  lbracket ∉ host → rbracket ∉ host → colon ∉ port → lbracket ∉ port → rbracket ∉ port →
  SplitHostPort (JoinHostPort host port) = Ok (host, port).
Proof.
  intros Hl Hr Hc Hpl Hpr. unfold JoinHostPort. case_bool_decide as Hh.
  - unfold SplitHostPort.
    change (lbracket :: host ++ [rbracket; colon] ++ port) with ((lbracket :: host) ++ [rbracket] ++ colon :: port).
    rewrite app_assoc, split_last_colon_app by done. cbn [app rev].
    rewrite bool_decide_true by done. rewrite rev_app_distr. cbn [rev app].
    rewrite (bool_decide_true (rbracket = rbracket)) by done.
    rewrite !bool_decide_false; [simpl; by rewrite rev_involutive|done|done|..];
      by rewrite list_elem_of_In, <- in_rev, <- list_elem_of_In.
  - unfold SplitHostPort. rewrite split_last_colon_app by done.
    assert (∀ b, b ∈ host ++ colon :: port → b = colon ∨ b ∈ host ∨ b ∈ port) as Hin
      by (intros b; rewrite elem_of_app, elem_of_cons; tauto).
    assert (lbracket ∉ host ++ colon :: port) as Hl' by (intros [?|[?|?]]%Hin; done).
    assert (rbracket ∉ host ++ colon :: port) as Hr' by (intros [?|[?|?]]%Hin; done).
    destruct host as [|b host]; [by rewrite !bool_decide_false|].
    rewrite (bool_decide_false (b = lbracket)) by (intros ->; apply Hl; left).
    by rewrite !bool_decide_false.
Qed.
