(* ===== verification/Wire.v ===== *)
(** Wire messages of the peer and relay protocols: the Go types that protoc
    generates from [proto/kin.proto] (src/kinpb/kin.pb.go) and the accessors the
    handlers use. A nil and an empty byte slice are the same message on the wire
    and the same value here; unknown fields are not kept. *)

From S2P Require Import Prelude.

Record Handshake := { Handshake_NodeId : bytes; Handshake_PublicKey : bytes }.
Record HandshakeAck := { HandshakeAck_NodeId : bytes; HandshakeAck_PublicKey : bytes }.
Record FileRequest := { FileRequest_FileId : bytes }.
Record FileResponse := {
  FileResponse_FileId : bytes;
  FileResponse_Size : Z;
  FileResponse_NotFound : bool
}.
Record FileChunk := {
  FileChunk_FileId : bytes;
  FileChunk_Data : bytes;
  FileChunk_Eof : bool
}.
Record ErrorMsg := { Error_Code : bytes; Error_Message : bytes }.
Record RelayRegister := {
  RelayRegister_NodeId : bytes;
  RelayRegister_PublicKey : bytes;
  RelayRegister_ListenPort : Z
}.
Record RelayRegistered := { RelayRegistered_ExternalAddr : bytes }.
Record RelayConnect := { RelayConnect_TargetNodeId : bytes }.
Record RelayRendezvous := {
  RelayRendezvous_PeerNodeId : bytes;
  RelayRendezvous_PeerPublicKey : bytes;
  RelayRendezvous_PeerExternalAddr : bytes
}.
Record RelayError := { RelayError_Reason : bytes }.
Record CatalogFile := {
  CatalogFile_FileId : bytes;
  CatalogFile_Name : bytes;
  CatalogFile_Size : Z;
  CatalogFile_ModTimeUnix : Z;
  CatalogFile_OwnerNodeId : bytes;
  CatalogFile_Deleted : bool
}.
Record CatalogOffer := { CatalogOffer_Files : list CatalogFile }.
Record CatalogAck := { CatalogAck_ReceivedCount : Z }.

(** The oneof of [Envelope]. *)
Inductive payload :=
| Envelope_Handshake (m : Handshake)
| Envelope_HandshakeAck (m : HandshakeAck)
| Envelope_FileRequest (m : FileRequest)
| Envelope_FileResponse (m : FileResponse)
| Envelope_FileChunk (m : FileChunk)
| Envelope_RelayRegister (m : RelayRegister)
| Envelope_RelayRegistered (m : RelayRegistered)
| Envelope_RelayConnect (m : RelayConnect)
| Envelope_RelayRendezvous (m : RelayRendezvous)
| Envelope_RelayError (m : RelayError)
| Envelope_CatalogOffer (m : CatalogOffer)
| Envelope_CatalogAck (m : CatalogAck)
| Envelope_Error (m : ErrorMsg).

(** An envelope whose payload is not set ([&kinpb.Envelope{}]) is a value that
    occurs on the wire: the framing layer returns it for an empty frame. *)
Record Envelope := { Payload : option payload }.

Definition empty_Envelope : Envelope := {| Payload := None |}.
Definition envelope (p : payload) : Envelope := {| Payload := Some p |}.

Definition GetFileRequest (x : Envelope) : option FileRequest :=
  match Payload x with Some (Envelope_FileRequest m) => Some m | _ => None end.

Definition GetFileResponse (x : Envelope) : option FileResponse :=
  match Payload x with Some (Envelope_FileResponse m) => Some m | _ => None end.

Definition GetFileChunk (x : Envelope) : option FileChunk :=
  match Payload x with Some (Envelope_FileChunk m) => Some m | _ => None end.

Definition GetRelayRegister (x : Envelope) : option RelayRegister :=
  match Payload x with Some (Envelope_RelayRegister m) => Some m | _ => None end.

Definition GetRelayRegistered (x : Envelope) : option RelayRegistered :=
  match Payload x with Some (Envelope_RelayRegistered m) => Some m | _ => None end.

#[global] Instance Handshake_eq_dec : EqDecision Handshake.
Proof. solve_decision. Defined.
#[global] Instance HandshakeAck_eq_dec : EqDecision HandshakeAck.
Proof. solve_decision. Defined.
#[global] Instance FileRequest_eq_dec : EqDecision FileRequest.
Proof. solve_decision. Defined.
#[global] Instance FileResponse_eq_dec : EqDecision FileResponse.
Proof. solve_decision. Defined.
#[global] Instance FileChunk_eq_dec : EqDecision FileChunk.
Proof. solve_decision. Defined.
#[global] Instance ErrorMsg_eq_dec : EqDecision ErrorMsg.
Proof. solve_decision. Defined.
#[global] Instance RelayRegister_eq_dec : EqDecision RelayRegister.
Proof. solve_decision. Defined.
#[global] Instance RelayRegistered_eq_dec : EqDecision RelayRegistered.
Proof. solve_decision. Defined.
#[global] Instance RelayConnect_eq_dec : EqDecision RelayConnect.
Proof. solve_decision. Defined.
#[global] Instance RelayRendezvous_eq_dec : EqDecision RelayRendezvous.
Proof. solve_decision. Defined.
#[global] Instance RelayError_eq_dec : EqDecision RelayError.
Proof. solve_decision. Defined.
#[global] Instance CatalogFile_eq_dec : EqDecision CatalogFile.
Proof. solve_decision. Defined.
#[global] Instance CatalogOffer_eq_dec : EqDecision CatalogOffer.
Proof. solve_decision. Defined.
#[global] Instance CatalogAck_eq_dec : EqDecision CatalogAck.
Proof. solve_decision. Defined.
#[global] Instance payload_eq_dec : EqDecision payload.
Proof. solve_decision. Defined.
#[global] Instance Envelope_eq_dec : EqDecision Envelope.
Proof. solve_decision. Defined.
