(* ===== verification/Io.v ===== *)
(** The parts of Go's [io] package that the framing layers use: a reader that
    delivers a byte stream and then an error, a writer that may fail in the
    middle of a write, and [io.ReadFull]. *)

From S2P Require Import Prelude.

(** An [io.Reader] on a stream: the bytes that will still arrive and the error
    that [Read] returns once they are consumed ([io.EOF] for a clean end). *)
Record Reader := { r_in : bytes; r_end : error }.

(** An [io.Writer] on a stream: the bytes delivered so far, how many more bytes
    it accepts ([None]: no limit) and the error it returns beyond that. *)
Record Writer := { w_out : bytes; w_room : option nat; w_err : error }.

(** [w.Write(p)]: a writer that runs out of room delivers the bytes that fit and
    returns its error. *)
Definition Write (w : Writer) (p : bytes) : outcome unit * Writer :=
  match w_room w with
  | None => (Ok tt, {| w_out := w_out w ++ p; w_room := None; w_err := w_err w |})
  | Some room =>
      if (length p <=? room)%nat
      then (Ok tt, {| w_out := w_out w ++ p;
                      w_room := Some (room - length p)%nat; w_err := w_err w |})
      else (Err (w_err w), {| w_out := w_out w ++ take room p;
                              w_room := Some 0%nat; w_err := w_err w |})
  end.

(** [io.ReadFull(r, buf)] with [len(buf) = n]: the error is the reader's when no
    byte was read, and [io.ErrUnexpectedEOF] in place of [io.EOF] when some but
    not all were. *)
Definition ReadFull (r : Reader) (n : nat) : outcome bytes * Reader :=
  if (n <=? length (r_in r))%nat
  then (Ok (take n (r_in r)), {| r_in := drop n (r_in r); r_end := r_end r |})
  else
    let rest := {| r_in := []; r_end := r_end r |} in
    if bool_decide (r_end r = io_EOF) && negb (bool_decide (r_in r = []))
    then (Err io_ErrUnexpectedEOF, rest)
    else (Err (r_end r), rest).

(** The writer has room for [p]. *)
Definition accepts (w : Writer) (p : bytes) : Prop :=
  match w_room w with None => True | Some room => (length p ≤ room)%nat end.

Definition after_write (w : Writer) (p : bytes) : Writer :=
  {| w_out := w_out w ++ p;
     w_room := (λ room, room - length p)%nat <$> w_room w;
     w_err := w_err w |}.

Lemma Write_Ok w p : accepts w p → Write w p = (Ok tt, after_write w p).
Proof.
  unfold accepts, Write, after_write. destruct (w_room w) as [room|]; [|done].
  intros H. by rewrite (proj2 (Nat.leb_le _ _) H).
Qed.

Lemma accepts_app w p q :
  accepts w (p ++ q) → accepts w p ∧ accepts (after_write w p) q.
Proof.
  unfold accepts, after_write. destruct (w_room w) as [room|]; simpl; [|done].
  rewrite length_app. lia.
Qed.

Lemma after_write_app w p q :
  after_write (after_write w p) q = after_write w (p ++ q).
Proof.
  unfold after_write; simpl. rewrite <- app_assoc.
  destruct (w_room w) as [room|]; simpl; [|done].
  do 2 f_equal. rewrite length_app. lia.
Qed.

Lemma ReadFull_Ok p rest e n :
  length p = n →
  ReadFull {| r_in := p ++ rest; r_end := e |} n = (Ok p, {| r_in := rest; r_end := e |}).
Proof.
  intros <-. unfold ReadFull; simpl. rewrite length_app, (proj2 (Nat.leb_le _ _)) by lia.
  by rewrite take_app_length, drop_app_length.
Qed.

(** What is left in the reader after a call is a suffix of what was there. *)
Lemma ReadFull_suffix r n res r' :
  ReadFull r n = (res, r') →
  r_end r' = r_end r ∧
  match res with
  | Ok p => length p = n ∧ r_in r = p ++ r_in r'
  | Err _ => (length (r_in r) < n)%nat ∧ r_in r' = []
  | Panic => False
  end.
Proof.
  unfold ReadFull. destruct (Nat.leb_spec n (length (r_in r))).
  - intros [= <- <-]; simpl. split; [done|]. split; [rewrite length_take; lia|].
    by rewrite take_drop.
  - case_match; intros [= <- <-]; simpl; done.
Qed.

Lemma Write_inv w p w' :
  Write w p = (Ok tt, w') → accepts w p ∧ w' = after_write w p.
Proof.
  unfold Write, accepts, after_write. destruct (w_room w) as [room|]; simpl.
  - destruct (Nat.leb_spec (length p) room); [|done]. by intros [= <-].
  - by intros [= <-].
Qed.

(** A stream that ends cleanly before [n] bytes arrived. *)
Lemma ReadFull_short p n :
  (length p < n)%nat →
  ReadFull {| r_in := p; r_end := io_EOF |} n =
    (Err (if decide (p = []) then io_EOF else io_ErrUnexpectedEOF),
     {| r_in := []; r_end := io_EOF |}).
Proof.
  intros Hlt. unfold ReadFull; simpl. rewrite (proj2 (Nat.leb_gt _ _)) by lia.
  destruct p; done.
Qed.
