(* ===== verification/Codec.v ===== *)
(** Interfaces of the two serializers the program calls: protobuf
    ([google.golang.org/protobuf/proto]) for peer messages and [encoding/json]
    for the control socket and the database records. The functions are class
    members, so every definition that serializes takes the codec as an argument;
    the laws are a second class, and only the theorems that need a round trip
    assume it. *)

From S2P Require Import Prelude Wire.

(** [proto.Marshal] and [proto.Unmarshal] at [*kinpb.Envelope]. *)
Class ProtoCodec := {
  proto_Marshal : Envelope → outcome bytes;
  proto_Unmarshal : bytes → outcome Envelope
}.

(** Unmarshalling what was marshalled gives the message back; the message with
    no field set is the empty byte string; unmarshalling malformed input is an
    error, not a panic. *)
Class ProtoLaws `{ProtoCodec} : Prop := {
  proto_roundtrip env data : proto_Marshal env = Ok data → proto_Unmarshal data = Ok env;
  proto_empty : proto_Unmarshal [] = Ok empty_Envelope;
  proto_no_panic data : proto_Unmarshal data ≠ Panic
}.

(** [json.Marshal(v)] and [json.Unmarshal(data, &v)] at type [A]. The target's
    previous value is an argument: fields absent from the text keep it. *)
Class JsonCodec (A : Type) := {
  json_zero : A;
  json_Marshal : A → outcome bytes;
  json_Unmarshal : bytes → A → outcome A;
  (** the value with every string made valid UTF-8 *)
  json_canon : A → A
}.

(** A value decoded into a zero target is the value that was encoded, up to the
    replacement of invalid UTF-8 by U+FFFD in its strings, which is idempotent and
    also done when decoding; JSON text is never empty. *)
Class JsonLaws (A : Type) `{JsonCodec A} : Prop := {
  json_roundtrip v data :
    json_Marshal v = Ok data → json_Unmarshal data json_zero = Ok (json_canon v);
  json_decoded_canon data v :
    json_Unmarshal data json_zero = Ok v → json_canon v = v;
  json_canon_idemp v : json_canon (json_canon v) = json_canon v;
  json_nonempty v : json_Marshal v ≠ Ok []
}.

(** A small codec with these laws: it carries file requests and catalog
    acknowledgements below 256, tagged by one byte, and refuses to marshal
    anything else. *)
Module TinyCodec.

Definition Marshal (env : Envelope) : outcome bytes :=
  match Payload env with
  | None => Ok []
  | Some (Envelope_FileRequest m) => Ok (Byte.x03 :: FileRequest_FileId m)
  | Some (Envelope_CatalogAck m) =>
      if (0 <=? CatalogAck_ReceivedCount m) && (CatalogAck_ReceivedCount m <? 256)
      then Ok [Byte.x0c; byte.of_Z (CatalogAck_ReceivedCount m)]
      else Err (Errorf "unsupported" [])
  | Some _ => Err (Errorf "unsupported" [])
  end.

Definition Unmarshal (data : bytes) : outcome Envelope :=
  match data with
  | [] => Ok empty_Envelope
  | Byte.x03 :: id => Ok (envelope (Envelope_FileRequest {| FileRequest_FileId := id |}))
  | [Byte.x0c; n] =>
      Ok (envelope (Envelope_CatalogAck {| CatalogAck_ReceivedCount := byte.unsigned n |}))
  | _ => Err (Errorf "malformed" [])
  end.

#[export] Instance codec : ProtoCodec :=
  {| proto_Marshal := Marshal; proto_Unmarshal := Unmarshal |}.

#[export] Instance laws : ProtoLaws.
Proof.
  split.
  - intros [[p|]] data; simpl; unfold Marshal; simpl; [|by intros [= <-]].
    destruct p as [| |[m]| | | | | | | | |[n]|]; try done; simpl.
    { by intros [= <-]. }
    case_match eqn:E; [|done]. intros [= <-].
    rewrite andb_true_iff, Z.leb_le, Z.ltb_lt in E. simpl.
    rewrite byte.unsigned_of_Z. unfold byte.wrap. rewrite Z.mod_small by lia. done.
  - done.
  - intros [|b [|c [|d l]]]; simpl; try done; destruct b; done.
Qed.

End TinyCodec.

(** [json.Unmarshal] into a fresh variable, as an option: [None] is
    [err != nil]. *)
Definition json_decode {A} `{JsonCodec A} (raw : bytes) : option A :=
  match json_Unmarshal raw json_zero with Ok v => Some v | _ => None end.

Lemma json_decode_Marshal `{JsonLaws A} (v : A) data :
  json_Marshal v = Ok data → json_decode data = Some (json_canon v).
Proof. intros Hm. unfold json_decode. by rewrite (json_roundtrip _ _ Hm). Qed.

(** A JSON codec with the laws, for any countable type: the text is an opening
    brace followed by the bits of the repaired value's number. *)
Module TinyJson.

Fixpoint pos_bytes (p : positive) : bytes :=
  match p with
  | xH => []
  | xO p' => Byte.x00 :: pos_bytes p'
  | xI p' => Byte.x01 :: pos_bytes p'
  end.

Fixpoint bytes_pos (b : bytes) : positive :=
  match b with
  | [] => xH
  | Byte.x00 :: b' => xO (bytes_pos b')
  | _ :: b' => xI (bytes_pos b')
  end.

Lemma bytes_pos_bytes p : bytes_pos (pos_bytes p) = p.
Proof. induction p as [p IH|p IH|]; simpl; congruence. Qed.

Section Tiny.
Context {A : Type} `{Countable A} (zero : A) (canon : A → A).
Context (canon_idemp : ∀ v, canon (canon v) = canon v).

Definition Marshal (v : A) : outcome bytes := Ok (Byte.x7b :: pos_bytes (encode (canon v))).

Definition Unmarshal (raw : bytes) (_ : A) : outcome A :=
  match raw with
  | Byte.x7b :: raw' =>
      match decode (bytes_pos raw') with
      | Some v => Ok (canon v)
      | None => Err (Errorf "malformed" [])
      end
  | _ => Err (Errorf "unexpected end of JSON input" [])
  end.

Definition codec : JsonCodec A :=
  {| json_zero := zero; json_Marshal := Marshal; json_Unmarshal := Unmarshal;
     json_canon := canon |}.

Lemma laws : @JsonLaws A codec.
Proof.
  split; simpl; [| |done|done].
  - intros v data [= <-]. simpl. by rewrite bytes_pos_bytes, decode_encode; simpl; rewrite canon_idemp.
  - intros data v. unfold Unmarshal. repeat case_match; try done. by intros [= <-].
Qed.

End Tiny.

End TinyJson.
