(* ===== verification/Protobuf.v ===== *)
(** The protobuf wire format of the messages of [kinpb/kin.pb.go]: varints, tags and
    length-delimited fields, and for every message the field numbers and types that
    the struct tags of the generated code declare. It is an instance of the codec
    interface that satisfies its laws, so the theorems that assume a codec hold for
    the format the program really uses; the runtime library itself is not modelled. *)

From S2P Require Import Prelude GoStd Wire Codec.

(** * Varints *)

(** Seven bits to a byte, least significant first; [k] bounds the number of bytes. *)
Fixpoint put_varint (k : nat) (n : Z) : bytes :=
  match k with
  | O => []
  | S k' =>
      if n <? 128 then [byte.of_Z n]
      else byte.of_Z (n mod 128 + 128) :: put_varint k' (n / 128)
  end.

(** At most ten bytes, of which the tenth may only have its lowest bit set. *)
Fixpoint get_varint (k : nat) (data : bytes) : option (Z * bytes) :=
  match k, data with
  | S k', b :: rest =>
      let x := byte.unsigned b in
      if x <? 128 then
        if (k' =? 0)%nat && (1 <? x) then None else Some (x, rest)
      else
        '(n, rest) ← get_varint k' rest;
        Some (x - 128 + 128 * n, rest)
  | _, _ => None
  end.

Definition max_varint : nat := 10.

Lemma of_Z_unsigned n : 0 ≤ n < 256 → byte.unsigned (byte.of_Z n) = n.
Proof. intros Hn. rewrite byte.unsigned_of_Z. unfold byte.wrap. by apply Z.mod_small. Qed.

Lemma put_varint_S k n :
  put_varint (S k) n = if n <? 128 then [byte.of_Z n]
                       else byte.of_Z (n mod 128 + 128) :: put_varint k (n / 128).
Proof. done. Qed.

Lemma get_varint_S k b rest :
  get_varint (S k) (b :: rest) =
    let x := byte.unsigned b in
    if x <? 128 then if (k =? 0)%nat && (1 <? x) then None else Some (x, rest)
    else '(n, rest) ← get_varint k rest; Some (x - 128 + 128 * n, rest).
Proof. done. Qed.

Lemma get_put_varint_from k n rest :
  0 ≤ n < 2 ^ (7 * Z.of_nat k + 1) → get_varint (S k) (put_varint (S k) n ++ rest) = Some (n, rest).
Proof.
  revert n. induction k as [|k IH]; intros n Hn.
  - cbn. rewrite (proj2 (Z.ltb_lt n 128)) by lia. cbn. rewrite of_Z_unsigned by lia.
    rewrite (proj2 (Z.ltb_lt n 128)) by lia. cbn. rewrite (proj2 (Z.ltb_ge 1 n)) by lia. done.
  - assert (2 ^ (7 * Z.of_nat (S k) + 1) = 128 * 2 ^ (7 * Z.of_nat k + 1)) as E
      by (rewrite <- (Z.pow_add_r 2 7); [f_equal|..]; lia).
    rewrite put_varint_S. destruct (Z.ltb_spec n 128) as [Hs|Hs]; cbn [app]; rewrite get_varint_S; cbv zeta.
    + by rewrite of_Z_unsigned, (proj2 (Z.ltb_lt n 128)) by lia.
    + pose proof (Z.mod_pos_bound n 128 ltac:(lia)) as Hm. rewrite of_Z_unsigned by lia.
      rewrite (proj2 (Z.ltb_ge _ 128)) by lia. rewrite IH.
      * cbn. do 2 f_equal. pose proof (Z.div_mod n 128). lia.
      * split; [apply Z.div_pos; lia|]. apply Z.div_lt_upper_bound; lia.
Qed.

Lemma get_put_varint n rest :
  0 ≤ n < 2 ^ 64 → get_varint max_varint (put_varint max_varint n ++ rest) = Some (n, rest).
Proof. intros Hn. by apply (get_put_varint_from 9). Qed.

Lemma put_varint_nonempty k n : put_varint (S k) n ≠ [].
Proof. cbn. by destruct (n <? 128). Qed.

Lemma get_varint_shorter k data n rest :
  get_varint k data = Some (n, rest) → (length rest < length data)%nat.
Proof.
  revert data n. induction k as [|k IH]; intros [|b data] n; try done. cbn.
  destruct (_ <? 128).
  - destruct (_ && _); [done|]. intros [= _ <-]. lia.
  - destruct (get_varint k data) as [[m r]|] eqn:E; [|done]. cbn. intros [= _ <-].
    apply IH in E. lia.
Qed.

Arguments put_varint : simpl never.
Arguments get_varint : simpl never.

(** * Fields *)

(** The value of a field as it is on the wire. A group is kept as the bytes between
    its two tags; no message of the program has one. *)
Inductive raw :=
| RVarint (n : Z)
| RFixed64 (b : bytes)
| RLen (b : bytes)
| RGroup (b : bytes)
| RFixed32 (b : bytes).

Definition max_field : Z := 536870911.

Definition get_tag (data : bytes) : option (Z * Z * bytes) :=
  '(v, rest) ← get_varint max_varint data;
  let num := v / 8 in
  if (1 <=? num) && (num <=? max_field) then Some (num, v mod 8, rest) else None.

Definition take_bytes (n : Z) (data : bytes) : option (bytes * bytes) :=
  if n <=? len data then Some (take (Z.to_nat n) data, drop (Z.to_nat n) data) else None.

(** The value after a tag; [skip] finds the end of a group. *)
Definition get_value (skip : Z → bytes → option (bytes * bytes)) (num typ : Z) (data : bytes) :
    option (raw * bytes) :=
  if typ =? 0 then '(n, rest) ← get_varint max_varint data; Some (RVarint n, rest)
  else if typ =? 1 then '(b, rest) ← take_bytes 8 data; Some (RFixed64 b, rest)
  else if typ =? 2 then
    '(n, rest) ← get_varint max_varint data;
    '(b, rest) ← take_bytes n rest;
    Some (RLen b, rest)
  else if typ =? 3 then '(b, rest) ← skip num data; Some (RGroup b, rest)
  else if typ =? 5 then '(b, rest) ← take_bytes 4 data; Some (RFixed32 b, rest)
  else None.

Fixpoint skip_group (fuel : nat) (num : Z) (data : bytes) : option (bytes * bytes) :=
  match fuel with
  | O => None
  | S fuel' =>
      '(num', typ, rest) ← get_tag data;
      if typ =? 4 then
        if num' =? num then Some (take (length data - length rest) data, rest) else None
      else
        '(_, rest) ← get_value (skip_group fuel') num' typ rest;
        '(_, rest') ← skip_group fuel' num rest;
        Some (take (length data - length rest') data, rest')
  end.

(** Every field takes a byte at least, so the length of the input is enough fuel. *)
Fixpoint parse_from (fuel : nat) (data : bytes) : option (list (Z * raw)) :=
  match fuel, data with
  | _, [] => Some []
  | O, _ => None
  | S fuel', _ =>
      '(num, typ, rest) ← get_tag data;
      '(v, rest) ← get_value (skip_group fuel') num typ rest;
      fs ← parse_from fuel' rest;
      Some ((num, v) :: fs)
  end.

Definition parse (data : bytes) : option (list (Z * raw)) := parse_from (length data) data.

(** The fields that the program writes: varints and length-delimited values. *)
Definition put_field (f : Z * raw) : option bytes :=
  let '(num, v) := f in
  if (1 <=? num) && (num <=? max_field) then
    match v with
    | RVarint n =>
        if (0 <=? n) && (n <? 2 ^ 64)
        then Some (put_varint max_varint (num * 8) ++ put_varint max_varint n) else None
    | RLen b =>
        if len b <? 2 ^ 63
        then Some (put_varint max_varint (num * 8 + 2) ++ put_varint max_varint (len b) ++ b) else None
    | _ => None
    end
  else None.

Definition put_fields (fs : list (Z * raw)) : option bytes := (λ bs, concat bs) <$> mapM put_field fs.

Lemma get_put_tag num typ rest :
  1 ≤ num ≤ max_field → 0 ≤ typ < 8 →
  get_tag (put_varint max_varint (num * 8 + typ) ++ rest) = Some (num, typ, rest).
Proof.
  unfold max_field. intros Hn Ht.
  assert ((num * 8 + typ) / 8 = num ∧ (num * 8 + typ) mod 8 = typ) as [Ed Em] by (Z.div_mod_to_equations; lia).
  unfold get_tag, max_field. rewrite get_put_varint by lia. cbn [mbind option_bind]. rewrite Ed, Em.
  by rewrite (proj2 (Z.leb_le 1 num)), (proj2 (Z.leb_le num _)) by lia.
Qed.

Lemma take_bytes_app b rest : take_bytes (len b) (b ++ rest) = Some (b, rest).
Proof.
  unfold take_bytes. rewrite (proj2 (Z.leb_le _ _)) by len_lia.
  unfold len. by rewrite Nat2Z.id, take_app_length, drop_app_length.
Qed.

(** A written field is read back, and what follows it is left. *)
Lemma get_put_field f b skip rest :
  put_field f = Some b →
  ∃ typ rest', get_tag (b ++ rest) = Some (f.1, typ, rest') ∧ get_value skip f.1 typ rest' = Some (f.2, rest).
Proof.
  destruct f as [num v]. cbn. destruct ((1 <=? num) && (num <=? max_field)) eqn:E; [|done].
  rewrite andb_true_iff, !Z.leb_le in E. destruct v as [n| |l| |]; try done.
  - destruct ((0 <=? n) && (n <? 2 ^ 64)) eqn:En; [|done]. rewrite andb_true_iff, Z.leb_le, Z.ltb_lt in En.
    intros [= <-]. rewrite <- app_assoc, <- (Z.add_0_r (num * 8)). do 2 eexists.
    split; [by rewrite get_put_tag by lia|]. cbn. by rewrite get_put_varint.
  - destruct (Z.ltb_spec (len l) (2 ^ 63)) as [Hl|]; [|done]. intros [= <-]. rewrite <- !app_assoc.
    do 2 eexists. split; [by rewrite get_put_tag by lia|]. cbn.
    rewrite get_put_varint by (pose proof (len_nonneg l); lia). cbn. by rewrite take_bytes_app.
Qed.

Lemma put_field_nonempty f b : put_field f = Some b → b ≠ [].
Proof.
  destruct f as [num v]. cbn. destruct (_ && _); [|done].
  assert (∀ n l, put_varint max_varint n ++ l ≠ []) as Hne.
  { intros n l [E _]%app_nil. by apply (put_varint_nonempty 9 n). }
  destruct v; try done; (destruct (_ : bool); [|done]); intros [= <-]; apply Hne.
Qed.

Lemma parse_put_from fs data fuel :
  put_fields fs = Some data → (length data ≤ fuel)%nat → parse_from fuel data = Some fs.
Proof.
  unfold put_fields. revert data fuel. induction fs as [|f fs IH]; intros data fuel; cbn.
  { intros [= <-] _. by destruct fuel. }
  destruct (put_field f) as [b|] eqn:Hb; cbn; [|done].
  destruct (mapM put_field fs) as [bs|] eqn:Hbs; cbn; [|done]. intros [= <-] Hf.
  pose proof (put_field_nonempty f b Hb) as Hne. cbn [concat] in *.
  destruct fuel as [|fuel]; [destruct b; [done|cbn in Hf; lia]|].
  destruct (get_put_field f b (skip_group fuel) (concat bs) Hb) as (typ & rest & Et & Ev).
  cbn [parse_from]. destruct (b ++ concat bs) as [|c l] eqn:El; [by apply app_nil in El as [-> _]|].
  rewrite <- El in *. rewrite Et. cbn. rewrite Ev. cbn. rewrite (IH (concat bs) fuel); [|done|].
  - cbn. by destruct f.
  - rewrite length_app in Hf. destruct b; [done|]. cbn in Hf. lia.
Qed.

Lemma parse_put fs data : put_fields fs = Some data → parse data = Some fs.
Proof. intros E. by apply (parse_put_from fs data). Qed.

(** * Messages of scalar fields *)

Inductive stype := SBytes | SString | SInt64 | SUint32 | SBool.

#[global] Instance stype_eq_dec : EqDecision stype.
Proof. solve_decision. Defined.

(** A byte or string field, and an integer or boolean one. *)
Inductive sval := VB (b : bytes) | VZ (z : Z).

#[global] Instance sval_eq_dec : EqDecision sval.
Proof. solve_decision. Defined.

Definition zero_val (t : stype) : sval :=
  match t with SBytes | SString => VB [] | _ => VZ 0 end.

(** The values of a type. A proto3 string is valid UTF-8. *)
Definition valid_val (t : stype) (v : sval) : bool :=
  match t, v with
  | SBytes, VB _ => true
  | SString, VB b => utf8_ok b
  | SInt64, VZ z => (- 2 ^ 63 <=? z) && (z <? 2 ^ 63)
  | SUint32, VZ z => (0 <=? z) && (z <? 2 ^ 32)
  | SBool, VZ z => (z =? 0) || (z =? 1)
  | _, _ => false
  end.

Definition raw_of (v : sval) : raw :=
  match v with VB b => RLen b | VZ z => RVarint (to_uint64 z) end.

(** What a field of type [t] does with a value on the wire: a value of another wire
    type is an unknown field and leaves it, a malformed one is an error. *)
Inductive decoded := Take (v : sval) | Skip | Malformed.

Definition val_of (t : stype) (r : raw) : decoded :=
  match t, r with
  | SBytes, RLen b => Take (VB b)
  | SString, RLen b => if utf8_ok b then Take (VB b) else Malformed
  | SInt64, RVarint n => Take (VZ (to_int64 n))
  | SUint32, RVarint n => Take (VZ (to_uint32 n))
  | SBool, RVarint n => Take (VZ (if n =? 0 then 0 else 1))
  | _, _ => Skip
  end.

Abbreviation schema := (list (Z * stype)).

(** Fields with the zero value are not written. *)
Fixpoint fields_of (sch : schema) (vs : list sval) : option (list (Z * raw)) :=
  match sch, vs with
  | (num, t) :: sch', v :: vs' =>
      fs ← fields_of sch' vs';
      if valid_val t v then
        Some (if bool_decide (v = zero_val t) then fs else (num, raw_of v) :: fs)
      else None
  | [], [] => Some []
  | _, _ => None
  end.

Fixpoint set_field (sch : schema) (vs : list sval) (f : Z * raw) : option (list sval) :=
  match sch, vs with
  | (num, t) :: sch', v :: vs' =>
      if f.1 =? num then
        match val_of t f.2 with
        | Take v' => Some (v' :: vs')
        | Skip => Some (v :: vs')
        | Malformed => None
        end
      else vs'' ← set_field sch' vs' f; Some (v :: vs'')
  | _, _ => Some vs
  end.

(** The fields in the order of the input: the last one of a number wins. *)
Fixpoint set_fields (sch : schema) (vs : list sval) (fs : list (Z * raw)) : option (list sval) :=
  match fs with
  | [] => Some vs
  | f :: fs' => vs ← set_field sch vs f; set_fields sch vs fs'
  end.

Lemma val_of_raw t v : valid_val t v = true → val_of t (raw_of v) = Take v.
Proof.
  destruct t, v as [b|z]; cbn -[utf8_ok to_uint64 to_uint32]; try done.
  - by intros ->.
  - rewrite andb_true_iff, Z.leb_le, Z.ltb_lt. intros Hz. by rewrite to_int64_uint64.
  - rewrite andb_true_iff, Z.leb_le, Z.ltb_lt. intros Hz. unfold to_uint64, to_uint32.
    by rewrite !Z.mod_small by (rewrite ?Z.mod_small; lia).
  - rewrite orb_true_iff, !Z.eqb_eq. by intros [-> | ->].
Qed.

Lemma fields_of_nums sch vs fs : fields_of sch vs = Some fs → ∀ f, f ∈ fs → f.1 ∈ sch.*1.
Proof.
  revert vs fs. induction sch as [|[num t] sch IH]; intros [|v vs] fs; cbn -[valid_val]; try done.
  { intros [= <-] f ?%elem_of_nil. done. }
  destruct (fields_of sch vs) as [fs'|] eqn:E; cbn -[valid_val]; [|done]. destruct (valid_val t v); [|done].
  intros [= <-] f Hf. apply elem_of_cons. case_bool_decide; [right; by apply (IH vs fs')|].
  apply elem_of_cons in Hf as [-> |Hf]; [by left|right; by apply (IH vs fs')].
Qed.

(** Fields of other numbers do not touch the first one. *)
Lemma set_fields_other num t sch v vs fs :
  (∀ f, f ∈ fs → f.1 ≠ num) →
  set_fields ((num, t) :: sch) (v :: vs) fs = (λ vs', v :: vs') <$> set_fields sch vs fs.
Proof.
  revert vs. induction fs as [|f fs IH]; intros vs Hf; [done|]. cbn [set_fields set_field].
  rewrite (proj2 (Z.eqb_neq _ _)) by (apply Hf; by left).
  destruct (set_field sch vs f) as [vs'|]; cbn; [|done]. apply IH. intros g Hg. apply Hf. by right.
Qed.

(** Values that were written are read back into a message of zero values. *)
Lemma set_fields_of sch vs fs :
  NoDup sch.*1 → fields_of sch vs = Some fs → set_fields sch (map (λ f, zero_val f.2) sch) fs = Some vs.
Proof.
  revert vs fs. induction sch as [|[num t] sch IH]; intros [|v vs] fs; cbn -[valid_val set_fields]; try done.
  { by intros _ [= <-]. }
  intros [Hnum Hnd]%NoDup_cons. destruct (fields_of sch vs) as [fs'|] eqn:E; cbn -[valid_val set_fields]; [|done].
  destruct (valid_val t v) eqn:Hv; [|done]. intros [= <-].
  assert (∀ f, f ∈ fs' → f.1 ≠ num) as Hother.
  { intros f Hf Heq. apply Hnum. rewrite <- Heq. by apply (fields_of_nums sch vs fs'). }
  case_bool_decide as Hz.
  - rewrite set_fields_other, (IH vs fs') by done. by subst v.
  - cbn [set_fields set_field fst snd]. rewrite Z.eqb_refl, val_of_raw by done. cbn [mbind option_bind].
    by rewrite set_fields_other, (IH vs fs') by done.
Qed.

(** A message type: its schema, and its values in the order of the schema. *)
Class Message (M : Type) := {
  m_schema : schema;
  m_vals : M → list sval;
  m_of : list sval → M
}.

Class MessageLaws (M : Type) `{Message M} : Prop := {
  m_of_vals (m : M) : m_of (m_vals m) = m;
  m_zero_vals : m_vals (m_of (map (λ f, zero_val f.2) (m_schema (M := M)))) =
                map (λ f, zero_val f.2) (m_schema (M := M));
  m_nodup : NoDup (m_schema (M := M)).*1
}.

Section Message.
Context {M : Type} `{MessageLaws M}.

Definition zero_msg : M := m_of (map (λ f, zero_val f.2) (m_schema (M := M))).

Definition marshal (m : M) : option bytes :=
  fs ← fields_of (m_schema (M := M)) (m_vals m); put_fields fs.

(** The fields of [data] merged into a message. *)
Definition unmarshal_into (m : M) (data : bytes) : option M :=
  fs ← parse data;
  vs ← set_fields (m_schema (M := M)) (m_vals m) fs;
  Some (m_of vs).

Lemma unmarshal_marshal m data : marshal m = Some data → unmarshal_into zero_msg data = Some m.
Proof.
  unfold marshal, unmarshal_into. destruct (fields_of _ _) as [fs|] eqn:E; cbn; [|done].
  intros Hp%parse_put. rewrite Hp. cbn. unfold zero_msg. rewrite m_zero_vals.
  rewrite (set_fields_of _ _ fs m_nodup E). cbn. by rewrite m_of_vals.
Qed.

End Message.
Arguments zero_msg M {_}.

(** * The messages of kin.proto *)

(** The field at a position of a message's values. *)
Definition vb (i : nat) (vs : list sval) : bytes := match vs !! i with Some (VB b) => b | _ => [] end.
Definition vz (i : nat) (vs : list sval) : Z := match vs !! i with Some (VZ z) => z | _ => 0 end.
Definition vbool (i : nat) (vs : list sval) : bool := negb (vz i vs =? 0).

(** Numbers and types as in the struct tags. *)
Definition Handshake_schema : schema := [(1, SBytes); (2, SBytes)].
Definition HandshakeAck_schema : schema := [(1, SBytes); (2, SBytes)].
Definition FileRequest_schema : schema := [(1, SBytes)].
Definition FileResponse_schema : schema := [(1, SBytes); (2, SInt64); (3, SBool)].
Definition FileChunk_schema : schema := [(1, SBytes); (2, SBytes); (3, SBool)].
Definition Error_schema : schema := [(1, SString); (2, SString)].
Definition RelayRegister_schema : schema := [(1, SBytes); (2, SBytes); (3, SUint32)].
Definition RelayRegistered_schema : schema := [(1, SString)].
Definition RelayConnect_schema : schema := [(1, SBytes)].
Definition RelayRendezvous_schema : schema := [(1, SBytes); (2, SBytes); (3, SString)].
Definition RelayError_schema : schema := [(1, SString)].
Definition CatalogFile_schema : schema := [(1, SBytes); (2, SString); (3, SInt64); (4, SInt64); (5, SBytes); (6, SBool)].
Definition CatalogAck_schema : schema := [(1, SUint32)].

#[export] Instance Handshake_message : Message Handshake := {|
  m_schema := Handshake_schema;
  m_vals m := [VB (Handshake_NodeId m); VB (Handshake_PublicKey m)];
  m_of vs := Build_Handshake (vb 0 vs) (vb 1 vs) |}.
#[export] Instance HandshakeAck_message : Message HandshakeAck := {|
  m_schema := HandshakeAck_schema;
  m_vals m := [VB (HandshakeAck_NodeId m); VB (HandshakeAck_PublicKey m)];
  m_of vs := Build_HandshakeAck (vb 0 vs) (vb 1 vs) |}.
#[export] Instance FileRequest_message : Message FileRequest := {|
  m_schema := FileRequest_schema;
  m_vals m := [VB (FileRequest_FileId m)];
  m_of vs := Build_FileRequest (vb 0 vs) |}.
#[export] Instance FileResponse_message : Message FileResponse := {|
  m_schema := FileResponse_schema;
  m_vals m := [VB (FileResponse_FileId m); VZ (FileResponse_Size m); VZ (Z.b2z (FileResponse_NotFound m))];
  m_of vs := Build_FileResponse (vb 0 vs) (vz 1 vs) (vbool 2 vs) |}.
#[export] Instance FileChunk_message : Message FileChunk := {|
  m_schema := FileChunk_schema;
  m_vals m := [VB (FileChunk_FileId m); VB (FileChunk_Data m); VZ (Z.b2z (FileChunk_Eof m))];
  m_of vs := Build_FileChunk (vb 0 vs) (vb 1 vs) (vbool 2 vs) |}.
#[export] Instance Error_message : Message ErrorMsg := {|
  m_schema := Error_schema;
  m_vals m := [VB (Error_Code m); VB (Error_Message m)];
  m_of vs := Build_ErrorMsg (vb 0 vs) (vb 1 vs) |}.
#[export] Instance RelayRegister_message : Message RelayRegister := {|
  m_schema := RelayRegister_schema;
  m_vals m := [VB (RelayRegister_NodeId m); VB (RelayRegister_PublicKey m); VZ (RelayRegister_ListenPort m)];
  m_of vs := Build_RelayRegister (vb 0 vs) (vb 1 vs) (vz 2 vs) |}.
#[export] Instance RelayRegistered_message : Message RelayRegistered := {|
  m_schema := RelayRegistered_schema;
  m_vals m := [VB (RelayRegistered_ExternalAddr m)];
  m_of vs := Build_RelayRegistered (vb 0 vs) |}.
#[export] Instance RelayConnect_message : Message RelayConnect := {|
  m_schema := RelayConnect_schema;
  m_vals m := [VB (RelayConnect_TargetNodeId m)];
  m_of vs := Build_RelayConnect (vb 0 vs) |}.
#[export] Instance RelayRendezvous_message : Message RelayRendezvous := {|
  m_schema := RelayRendezvous_schema;
  m_vals m := [VB (RelayRendezvous_PeerNodeId m); VB (RelayRendezvous_PeerPublicKey m); VB (RelayRendezvous_PeerExternalAddr m)];
  m_of vs := Build_RelayRendezvous (vb 0 vs) (vb 1 vs) (vb 2 vs) |}.
#[export] Instance RelayError_message : Message RelayError := {|
  m_schema := RelayError_schema;
  m_vals m := [VB (RelayError_Reason m)];
  m_of vs := Build_RelayError (vb 0 vs) |}.
#[export] Instance CatalogFile_message : Message CatalogFile := {|
  m_schema := CatalogFile_schema;
  m_vals m := [VB (CatalogFile_FileId m); VB (CatalogFile_Name m); VZ (CatalogFile_Size m); VZ (CatalogFile_ModTimeUnix m); VB (CatalogFile_OwnerNodeId m); VZ (Z.b2z (CatalogFile_Deleted m))];
  m_of vs := Build_CatalogFile (vb 0 vs) (vb 1 vs) (vz 2 vs) (vz 3 vs) (vb 4 vs) (vbool 5 vs) |}.
#[export] Instance CatalogAck_message : Message CatalogAck := {|
  m_schema := CatalogAck_schema;
  m_vals m := [VZ (CatalogAck_ReceivedCount m)];
  m_of vs := Build_CatalogAck (vz 0 vs) |}.

Lemma vbool_b2z i vs b : vs !! i = Some (VZ (Z.b2z b)) → vbool i vs = b.
Proof. unfold vbool, vz. intros ->. by destruct b. Qed.

Ltac message_laws :=
  split; [intros []; cbn; f_equal; by apply vbool_b2z|done|repeat constructor; set_solver].

#[export] Instance Handshake_laws : MessageLaws Handshake.
Proof. message_laws. Qed.
#[export] Instance HandshakeAck_laws : MessageLaws HandshakeAck.
Proof. message_laws. Qed.
#[export] Instance FileRequest_laws : MessageLaws FileRequest.
Proof. message_laws. Qed.
#[export] Instance FileResponse_laws : MessageLaws FileResponse.
Proof. message_laws. Qed.
#[export] Instance FileChunk_laws : MessageLaws FileChunk.
Proof. message_laws. Qed.
#[export] Instance Error_laws : MessageLaws ErrorMsg.
Proof. message_laws. Qed.
#[export] Instance RelayRegister_laws : MessageLaws RelayRegister.
Proof. message_laws. Qed.
#[export] Instance RelayRegistered_laws : MessageLaws RelayRegistered.
Proof. message_laws. Qed.
#[export] Instance RelayConnect_laws : MessageLaws RelayConnect.
Proof. message_laws. Qed.
#[export] Instance RelayRendezvous_laws : MessageLaws RelayRendezvous.
Proof. message_laws. Qed.
#[export] Instance RelayError_laws : MessageLaws RelayError.
Proof. message_laws. Qed.
#[export] Instance CatalogFile_laws : MessageLaws CatalogFile.
Proof. message_laws. Qed.
#[export] Instance CatalogAck_laws : MessageLaws CatalogAck.
Proof. message_laws. Qed.

(** [CatalogOffer]: one length-delimited field per file. *)
Definition CatalogOffer_files : Z := 1.

Definition marshal_offer (m : CatalogOffer) : option bytes :=
  bs ← mapM marshal (CatalogOffer_Files m);
  put_fields (map (λ b, (CatalogOffer_files, RLen b)) bs).

Fixpoint add_files (files : list CatalogFile) (fs : list (Z * raw)) : option (list CatalogFile) :=
  match fs with
  | [] => Some files
  | (num, RLen b) :: fs' =>
      if num =? CatalogOffer_files then
        f ← unmarshal_into (zero_msg CatalogFile) b;
        add_files (files ++ [f]) fs'
      else add_files files fs'
  | _ :: fs' => add_files files fs'
  end.

Definition unmarshal_offer (m : CatalogOffer) (data : bytes) : option CatalogOffer :=
  fs ← parse data;
  files ← add_files (CatalogOffer_Files m) fs;
  Some {| CatalogOffer_Files := files |}.

Lemma add_files_marshalled files ms bs :
  mapM marshal ms = Some bs →
  add_files files (map (λ b, (CatalogOffer_files, RLen b)) bs) = Some (files ++ ms).
Proof.
  revert files bs. induction ms as [|m ms IH]; intros files bs; cbn [mapM].
  { intros [= <-]. cbn. by rewrite app_nil_r. }
  destruct (marshal m) as [b|] eqn:Hb; cbn; [|done]. destruct (mapM marshal ms) as [bs'|] eqn:E; cbn; [|done].
  intros [= <-]. cbn [map add_files]. rewrite Z.eqb_refl, (unmarshal_marshal m b Hb). cbn.
  rewrite (IH _ bs' eq_refl). by rewrite <- app_assoc.
Qed.

Lemma unmarshal_marshal_offer m data :
  marshal_offer m = Some data → unmarshal_offer {| CatalogOffer_Files := [] |} data = Some m.
Proof.
  unfold marshal_offer, unmarshal_offer. destruct (mapM marshal _) as [bs|] eqn:E; cbn; [|done].
  intros Hp%parse_put. rewrite Hp. cbn [mbind option_bind]. rewrite (add_files_marshalled _ _ _ E). by destruct m.
Qed.

(** [Envelope]: the members of the oneof with their numbers. *)
Definition marshal_payload (p : payload) : option (Z * bytes) :=
  match p with
  | Envelope_Handshake m => b ← marshal m; Some (1, b)
  | Envelope_HandshakeAck m => b ← marshal m; Some (2, b)
  | Envelope_FileRequest m => b ← marshal m; Some (3, b)
  | Envelope_FileResponse m => b ← marshal m; Some (4, b)
  | Envelope_FileChunk m => b ← marshal m; Some (5, b)
  | Envelope_RelayRegister m => b ← marshal m; Some (6, b)
  | Envelope_RelayRegistered m => b ← marshal m; Some (7, b)
  | Envelope_RelayConnect m => b ← marshal m; Some (8, b)
  | Envelope_RelayRendezvous m => b ← marshal m; Some (9, b)
  | Envelope_RelayError m => b ← marshal m; Some (10, b)
  | Envelope_CatalogOffer m => b ← marshal_offer m; Some (11, b)
  | Envelope_CatalogAck m => b ← marshal m; Some (12, b)
  | Envelope_Error m => b ← marshal m; Some (15, b)
  end.

(** A member that is set already is merged into; another one is replaced. A number
    that is no member's is an unknown field. *)
Definition set_payload (cur : option payload) (num : Z) (b : bytes) : option (option payload) :=
  match num with
  | 1 =>
      let m0 := match cur with Some (Envelope_Handshake m) => m | _ => zero_msg Handshake end in
      m ← unmarshal_into m0 b; Some (Some (Envelope_Handshake m))
  | 2 =>
      let m0 := match cur with Some (Envelope_HandshakeAck m) => m | _ => zero_msg HandshakeAck end in
      m ← unmarshal_into m0 b; Some (Some (Envelope_HandshakeAck m))
  | 3 =>
      let m0 := match cur with Some (Envelope_FileRequest m) => m | _ => zero_msg FileRequest end in
      m ← unmarshal_into m0 b; Some (Some (Envelope_FileRequest m))
  | 4 =>
      let m0 := match cur with Some (Envelope_FileResponse m) => m | _ => zero_msg FileResponse end in
      m ← unmarshal_into m0 b; Some (Some (Envelope_FileResponse m))
  | 5 =>
      let m0 := match cur with Some (Envelope_FileChunk m) => m | _ => zero_msg FileChunk end in
      m ← unmarshal_into m0 b; Some (Some (Envelope_FileChunk m))
  | 6 =>
      let m0 := match cur with Some (Envelope_RelayRegister m) => m | _ => zero_msg RelayRegister end in
      m ← unmarshal_into m0 b; Some (Some (Envelope_RelayRegister m))
  | 7 =>
      let m0 := match cur with Some (Envelope_RelayRegistered m) => m | _ => zero_msg RelayRegistered end in
      m ← unmarshal_into m0 b; Some (Some (Envelope_RelayRegistered m))
  | 8 =>
      let m0 := match cur with Some (Envelope_RelayConnect m) => m | _ => zero_msg RelayConnect end in
      m ← unmarshal_into m0 b; Some (Some (Envelope_RelayConnect m))
  | 9 =>
      let m0 := match cur with Some (Envelope_RelayRendezvous m) => m | _ => zero_msg RelayRendezvous end in
      m ← unmarshal_into m0 b; Some (Some (Envelope_RelayRendezvous m))
  | 10 =>
      let m0 := match cur with Some (Envelope_RelayError m) => m | _ => zero_msg RelayError end in
      m ← unmarshal_into m0 b; Some (Some (Envelope_RelayError m))
  | 11 =>
      let m0 := match cur with Some (Envelope_CatalogOffer m) => m | _ => {| CatalogOffer_Files := [] |} end in
      m ← unmarshal_offer m0 b; Some (Some (Envelope_CatalogOffer m))
  | 12 =>
      let m0 := match cur with Some (Envelope_CatalogAck m) => m | _ => zero_msg CatalogAck end in
      m ← unmarshal_into m0 b; Some (Some (Envelope_CatalogAck m))
  | 15 =>
      let m0 := match cur with Some (Envelope_Error m) => m | _ => zero_msg ErrorMsg end in
      m ← unmarshal_into m0 b; Some (Some (Envelope_Error m))
  | _ => Some cur
  end.

Fixpoint set_payloads (cur : option payload) (fs : list (Z * raw)) : option (option payload) :=
  match fs with
  | [] => Some cur
  | (num, RLen b) :: fs' => cur ← set_payload cur num b; set_payloads cur fs'
  | _ :: fs' => set_payloads cur fs'
  end.

Definition proto_error : error := Sentinel "proto: cannot parse invalid wire-format data".
Definition utf8_error : error := Errorf "string field contains invalid UTF-8" [].

Definition Marshal (env : Envelope) : outcome bytes :=
  match Payload env with
  | None => Ok []
  | Some p =>
      match f ← marshal_payload p; put_fields [(f.1, RLen f.2)] with
      | Some data => Ok data
      | None => Err utf8_error
      end
  end.

Definition Unmarshal (data : bytes) : outcome Envelope :=
  match fs ← parse data; set_payloads None fs with
  | Some p => Ok {| Payload := p |}
  | None => Err proto_error
  end.

Lemma set_marshal_payload p num b :
  marshal_payload p = Some (num, b) → set_payload None num b = Some (Some p).
Proof.
  destruct p as [m|m|m|m|m|m|m|m|m|m|m|m|m]; cbn [marshal_payload].
  all: first [destruct (marshal_offer m) as [b'|] eqn:E|destruct (marshal m) as [b'|] eqn:E]; [|done].
  all: cbn [mbind option_bind]; intros [= <- <-]; cbn [set_payload].
  all: first [rewrite (unmarshal_marshal_offer _ _ E)|rewrite (unmarshal_marshal _ _ E)]; done.
Qed.

#[export] Instance codec : ProtoCodec := {| proto_Marshal := Marshal; proto_Unmarshal := Unmarshal |}.

#[export] Instance laws : ProtoLaws.
Proof.
  split; cbn [proto_Marshal proto_Unmarshal codec].
  - intros [[p|]] data; unfold Marshal; cbn [Payload]; [|by intros [= <-]].
    destruct (marshal_payload p) as [[num b]|] eqn:Hp; cbn [mbind option_bind fst snd]; [|done].
    destruct (put_fields _) as [d|] eqn:Hd; [|done]. intros [= <-]. apply parse_put in Hd.
    unfold Unmarshal. rewrite Hd. cbn [mbind option_bind set_payloads].
    by rewrite (set_marshal_payload p num b Hp).
  - done.
  - intros data. unfold Unmarshal. by destruct (_ ≫= _).
Qed.
