(* ===== verification/Kinpb.v ===== *)
(** The generated code, [kinpb/kin.pb.go]: the accessors, which may be called on a nil
    message, [Reset], and the tables with which it registers its types: the
    serialized descriptor, the Go types, the dependency indexes and the wrappers of the
    oneof. The descriptor is read with the wire format of [Protobuf] and compared with
    the source it was generated from, [proto/kin.proto], and with the field numbers
    that the codec uses. [String] and [ProtoReflect] are calls of the runtime. *)

From S2P Require Import Prelude GoStd Wire Codec Protobuf.

(** * Accessors *)

(** A pointer to a message is an option. *)
Definition Envelope_GetPayload (x : option Envelope) : option payload := x ≫= Payload.
Definition Envelope_GetHandshake (x : option Envelope) : option Handshake :=
  match Envelope_GetPayload x with Some (Envelope_Handshake m) => Some m | _ => None end.
Definition Envelope_GetHandshakeAck (x : option Envelope) : option HandshakeAck :=
  match Envelope_GetPayload x with Some (Envelope_HandshakeAck m) => Some m | _ => None end.
Definition Envelope_GetFileRequest (x : option Envelope) : option FileRequest :=
  match Envelope_GetPayload x with Some (Envelope_FileRequest m) => Some m | _ => None end.
Definition Envelope_GetFileResponse (x : option Envelope) : option FileResponse :=
  match Envelope_GetPayload x with Some (Envelope_FileResponse m) => Some m | _ => None end.
Definition Envelope_GetFileChunk (x : option Envelope) : option FileChunk :=
  match Envelope_GetPayload x with Some (Envelope_FileChunk m) => Some m | _ => None end.
Definition Envelope_GetRelayRegister (x : option Envelope) : option RelayRegister :=
  match Envelope_GetPayload x with Some (Envelope_RelayRegister m) => Some m | _ => None end.
Definition Envelope_GetRelayRegistered (x : option Envelope) : option RelayRegistered :=
  match Envelope_GetPayload x with Some (Envelope_RelayRegistered m) => Some m | _ => None end.
Definition Envelope_GetRelayConnect (x : option Envelope) : option RelayConnect :=
  match Envelope_GetPayload x with Some (Envelope_RelayConnect m) => Some m | _ => None end.
Definition Envelope_GetRelayRendezvous (x : option Envelope) : option RelayRendezvous :=
  match Envelope_GetPayload x with Some (Envelope_RelayRendezvous m) => Some m | _ => None end.
Definition Envelope_GetRelayError (x : option Envelope) : option RelayError :=
  match Envelope_GetPayload x with Some (Envelope_RelayError m) => Some m | _ => None end.
Definition Envelope_GetCatalogOffer (x : option Envelope) : option CatalogOffer :=
  match Envelope_GetPayload x with Some (Envelope_CatalogOffer m) => Some m | _ => None end.
Definition Envelope_GetCatalogAck (x : option Envelope) : option CatalogAck :=
  match Envelope_GetPayload x with Some (Envelope_CatalogAck m) => Some m | _ => None end.
Definition Envelope_GetError (x : option Envelope) : option ErrorMsg :=
  match Envelope_GetPayload x with Some (Envelope_Error m) => Some m | _ => None end.
Definition Handshake_GetNodeId (x : option Handshake) : bytes := from_option Handshake_NodeId [] x.
Definition Handshake_GetPublicKey (x : option Handshake) : bytes := from_option Handshake_PublicKey [] x.
Definition HandshakeAck_GetNodeId (x : option HandshakeAck) : bytes := from_option HandshakeAck_NodeId
    [] x.
Definition HandshakeAck_GetPublicKey (x : option HandshakeAck) : bytes := from_option
    HandshakeAck_PublicKey [] x.
Definition FileRequest_GetFileId (x : option FileRequest) : bytes := from_option FileRequest_FileId [] x.
Definition FileResponse_GetFileId (x : option FileResponse) : bytes := from_option FileResponse_FileId
    [] x.
Definition FileResponse_GetSize (x : option FileResponse) : Z := from_option FileResponse_Size 0 x.
Definition FileResponse_GetNotFound (x : option FileResponse) : bool := from_option
    FileResponse_NotFound false x.
Definition FileChunk_GetFileId (x : option FileChunk) : bytes := from_option FileChunk_FileId [] x.
Definition FileChunk_GetData (x : option FileChunk) : bytes := from_option FileChunk_Data [] x.
Definition FileChunk_GetEof (x : option FileChunk) : bool := from_option FileChunk_Eof false x.
Definition Error_GetCode (x : option ErrorMsg) : bytes := from_option Error_Code [] x.
Definition Error_GetMessage (x : option ErrorMsg) : bytes := from_option Error_Message [] x.
Definition RelayRegister_GetNodeId (x : option RelayRegister) : bytes := from_option
    RelayRegister_NodeId [] x.
Definition RelayRegister_GetPublicKey (x : option RelayRegister) : bytes := from_option
    RelayRegister_PublicKey [] x.
Definition RelayRegister_GetListenPort (x : option RelayRegister) : Z := from_option
    RelayRegister_ListenPort 0 x.
Definition RelayRegistered_GetExternalAddr (x : option RelayRegistered) : bytes := from_option
    RelayRegistered_ExternalAddr [] x.
Definition RelayConnect_GetTargetNodeId (x : option RelayConnect) : bytes := from_option
    RelayConnect_TargetNodeId [] x.
Definition RelayRendezvous_GetPeerNodeId (x : option RelayRendezvous) : bytes := from_option
    RelayRendezvous_PeerNodeId [] x.
Definition RelayRendezvous_GetPeerPublicKey (x : option RelayRendezvous) : bytes := from_option
    RelayRendezvous_PeerPublicKey [] x.
Definition RelayRendezvous_GetPeerExternalAddr (x : option RelayRendezvous) : bytes := from_option
    RelayRendezvous_PeerExternalAddr [] x.
Definition RelayError_GetReason (x : option RelayError) : bytes := from_option RelayError_Reason [] x.
Definition CatalogFile_GetFileId (x : option CatalogFile) : bytes := from_option CatalogFile_FileId [] x.
Definition CatalogFile_GetName (x : option CatalogFile) : bytes := from_option CatalogFile_Name [] x.
Definition CatalogFile_GetSize (x : option CatalogFile) : Z := from_option CatalogFile_Size 0 x.
Definition CatalogFile_GetModTimeUnix (x : option CatalogFile) : Z := from_option
    CatalogFile_ModTimeUnix 0 x.
Definition CatalogFile_GetOwnerNodeId (x : option CatalogFile) : bytes := from_option
    CatalogFile_OwnerNodeId [] x.
Definition CatalogFile_GetDeleted (x : option CatalogFile) : bool := from_option CatalogFile_Deleted
    false x.
Definition CatalogOffer_GetFiles (x : option CatalogOffer) : list CatalogFile := from_option
    CatalogOffer_Files [] x.
Definition CatalogAck_GetReceivedCount (x : option CatalogAck) : Z := from_option
    CatalogAck_ReceivedCount 0 x.

(** * Reset and Descriptor *)

(** [Reset] leaves the zero message and stores the message's entry of
    [file_kin_proto_msgTypes], given by its index. *)
Definition Envelope_Reset (x : Envelope) : Envelope * nat := (empty_Envelope, 0%nat).
Definition Handshake_Reset (x : Handshake) : Handshake * nat := (zero_msg Handshake, 1%nat).
Definition HandshakeAck_Reset (x : HandshakeAck) : HandshakeAck * nat := (zero_msg HandshakeAck, 2%nat).
Definition FileRequest_Reset (x : FileRequest) : FileRequest * nat := (zero_msg FileRequest, 3%nat).
Definition FileResponse_Reset (x : FileResponse) : FileResponse * nat := (zero_msg FileResponse, 4%nat).
Definition FileChunk_Reset (x : FileChunk) : FileChunk * nat := (zero_msg FileChunk, 5%nat).
Definition Error_Reset (x : ErrorMsg) : ErrorMsg * nat := (zero_msg ErrorMsg, 6%nat).
Definition RelayRegister_Reset (x : RelayRegister) : RelayRegister * nat := (zero_msg RelayRegister,
    7%nat).
Definition RelayRegistered_Reset (x : RelayRegistered) : RelayRegistered * nat := (zero_msg
    RelayRegistered, 8%nat).
Definition RelayConnect_Reset (x : RelayConnect) : RelayConnect * nat := (zero_msg RelayConnect, 9%nat).
Definition RelayRendezvous_Reset (x : RelayRendezvous) : RelayRendezvous * nat := (zero_msg
    RelayRendezvous, 10%nat).
Definition RelayError_Reset (x : RelayError) : RelayError * nat := (zero_msg RelayError, 11%nat).
Definition CatalogFile_Reset (x : CatalogFile) : CatalogFile * nat := (zero_msg CatalogFile, 12%nat).
Definition CatalogOffer_Reset (x : CatalogOffer) : CatalogOffer * nat := ({| CatalogOffer_Files := []
    |}, 13%nat).
Definition CatalogAck_Reset (x : CatalogAck) : CatalogAck * nat := (zero_msg CatalogAck, 14%nat).

(** The serialized [FileDescriptorProto], line by line. *)
Definition file_kin_proto_rawDesc : bytes :=
  [Byte.x0a] ++
  [Byte.x09] ++ str "kin.proto" ++ [Byte.x12; Byte.x03] ++ str "kin" ++
    [Byte.x22; Byte.xe4; Byte.x05; Byte.x0a] ++
  [Byte.x08] ++ str "Envelope" ++ [Byte.x12] ++ str "." ++ [Byte.x0a] ++
  [Byte.x09] ++ str "handshake" ++ [Byte.x18; Byte.x01] ++ str " " ++ [Byte.x01] ++ str "(" ++
    [Byte.x0b] ++ str "2" ++ [Byte.x0e] ++ str ".kin.HandshakeH" ++ [Byte.x00] ++ str "R" ++
    [Byte.x09] ++ str "handshake" ++ [Byte.x12] ++ str "8" ++ [Byte.x0a] ++
  [Byte.x0d] ++ str "handshake_ack" ++ [Byte.x18; Byte.x02] ++ str " " ++ [Byte.x01] ++ str "(" ++
    [Byte.x0b] ++ str "2" ++ [Byte.x11] ++ str ".kin.HandshakeAckH" ++ [Byte.x00] ++ str "R" ++
    [Byte.x0c] ++ str "handshakeAck" ++ [Byte.x12] ++ str "5" ++ [Byte.x0a] ++
  [Byte.x0c] ++ str "file_request" ++ [Byte.x18; Byte.x03] ++ str " " ++ [Byte.x01] ++ str "(" ++
    [Byte.x0b] ++ str "2" ++ [Byte.x10] ++ str ".kin.FileRequestH" ++ [Byte.x00] ++ str "R" ++
    [Byte.x0b] ++ str "fileRequest" ++ [Byte.x12] ++ str "8" ++ [Byte.x0a] ++
  [Byte.x0d] ++ str "file_response" ++ [Byte.x18; Byte.x04] ++ str " " ++ [Byte.x01] ++ str "(" ++
    [Byte.x0b] ++ str "2" ++ [Byte.x11] ++ str ".kin.FileResponseH" ++ [Byte.x00] ++ str "R" ++
    [Byte.x0c] ++ str "fileResponse" ++ [Byte.x12] ++ str "/" ++ [Byte.x0a] ++
  [Byte.x0a] ++
  str "file_chunk" ++ [Byte.x18; Byte.x05] ++ str " " ++ [Byte.x01] ++ str "(" ++ [Byte.x0b] ++
    str "2" ++ [Byte.x0e] ++ str ".kin.FileChunkH" ++ [Byte.x00] ++ str "R" ++ [Byte.x09] ++
    str "fileChunk" ++ [Byte.x12] ++ str ";" ++ [Byte.x0a] ++
  [Byte.x0e] ++ str "relay_register" ++ [Byte.x18; Byte.x06] ++ str " " ++ [Byte.x01] ++ str "(" ++
    [Byte.x0b] ++ str "2" ++ [Byte.x12] ++ str ".kin.RelayRegisterH" ++ [Byte.x00] ++ str "R" ++
    [Byte.x0d] ++ str "relayRegister" ++ [Byte.x12] ++ str "A" ++ [Byte.x0a] ++
  [Byte.x10] ++ str "relay_registered" ++ [Byte.x18; Byte.x07] ++ str " " ++ [Byte.x01] ++ str "(" ++
    [Byte.x0b] ++ str "2" ++ [Byte.x14] ++ str ".kin.RelayRegisteredH" ++ [Byte.x00] ++ str "R" ++
    [Byte.x0f] ++ str "relayRegistered" ++ [Byte.x12] ++ str "8" ++ [Byte.x0a] ++
  [Byte.x0d] ++ str "relay_connect" ++ [Byte.x18; Byte.x08] ++ str " " ++ [Byte.x01] ++ str "(" ++
    [Byte.x0b] ++ str "2" ++ [Byte.x11] ++ str ".kin.RelayConnectH" ++ [Byte.x00] ++ str "R" ++
    [Byte.x0c] ++ str "relayConnect" ++ [Byte.x12] ++ str "A" ++ [Byte.x0a] ++
  [Byte.x10] ++ str "relay_rendezvous" ++ [Byte.x18; Byte.x09] ++ str " " ++ [Byte.x01] ++ str "(" ++
    [Byte.x0b] ++ str "2" ++ [Byte.x14] ++ str ".kin.RelayRendezvousH" ++ [Byte.x00] ++ str "R" ++
    [Byte.x0f] ++ str "relayRendezvous" ++ [Byte.x12] ++ str "2" ++ [Byte.x0a] ++
  [Byte.x0b] ++ str "relay_error" ++ [Byte.x18; Byte.x0a] ++
  str " " ++ [Byte.x01] ++ str "(" ++ [Byte.x0b] ++ str "2" ++ [Byte.x0f] ++ str ".kin.RelayErrorH" ++
    [Byte.x00] ++ str "R" ++ [Byte.x0a] ++
  str "relayError" ++ [Byte.x12] ++ str "8" ++ [Byte.x0a] ++
  [Byte.x0d] ++ str "catalog_offer" ++ [Byte.x18; Byte.x0b] ++ str " " ++ [Byte.x01] ++ str "(" ++
    [Byte.x0b] ++ str "2" ++ [Byte.x11] ++ str ".kin.CatalogOfferH" ++ [Byte.x00] ++ str "R" ++
    [Byte.x0c] ++ str "catalogOffer" ++ [Byte.x12] ++ str "2" ++ [Byte.x0a] ++
  [Byte.x0b] ++ str "catalog_ack" ++ [Byte.x18; Byte.x0c] ++ str " " ++ [Byte.x01] ++ str "(" ++
    [Byte.x0b] ++ str "2" ++ [Byte.x0f] ++ str ".kin.CatalogAckH" ++ [Byte.x00] ++ str "R" ++
    [Byte.x0a] ++
  str "catalogAck" ++ [Byte.x12; Byte.x22; Byte.x0a] ++
  [Byte.x05] ++ str "error" ++ [Byte.x18; Byte.x0f] ++ str " " ++ [Byte.x01] ++ str "(" ++
    [Byte.x0b] ++ str "2" ++ [Byte.x0a] ++
  str ".kin.ErrorH" ++ [Byte.x00] ++ str "R" ++ [Byte.x05] ++ str "errorB" ++ [Byte.x09; Byte.x0a] ++
  [Byte.x07] ++ str "payload" ++ [Byte.x22] ++ str "C" ++ [Byte.x0a] ++
  [Byte.x09] ++ str "Handshake" ++ [Byte.x12; Byte.x17; Byte.x0a] ++
  [Byte.x07] ++ str "node_id" ++ [Byte.x18; Byte.x01] ++ str " " ++ [Byte.x01] ++ str "(" ++
    [Byte.x0c] ++ str "R" ++ [Byte.x06] ++ str "nodeId" ++ [Byte.x12; Byte.x1d; Byte.x0a] ++
  [Byte.x0a] ++
  str "public_key" ++ [Byte.x18; Byte.x02] ++ str " " ++ [Byte.x01] ++ str "(" ++ [Byte.x0c] ++
    str "R" ++ [Byte.x09] ++ str "publicKey" ++ [Byte.x22] ++ str "F" ++ [Byte.x0a] ++
  [Byte.x0c] ++ str "HandshakeAck" ++ [Byte.x12; Byte.x17; Byte.x0a] ++
  [Byte.x07] ++ str "node_id" ++ [Byte.x18; Byte.x01] ++ str " " ++ [Byte.x01] ++ str "(" ++
    [Byte.x0c] ++ str "R" ++ [Byte.x06] ++ str "nodeId" ++ [Byte.x12; Byte.x1d; Byte.x0a] ++
  [Byte.x0a] ++
  str "public_key" ++ [Byte.x18; Byte.x02] ++ str " " ++ [Byte.x01] ++ str "(" ++ [Byte.x0c] ++
    str "R" ++ [Byte.x09] ++ str "publicKey" ++ [Byte.x22] ++ str "&" ++ [Byte.x0a] ++
  [Byte.x0b] ++ str "FileRequest" ++ [Byte.x12; Byte.x17; Byte.x0a] ++
  [Byte.x07] ++ str "file_id" ++ [Byte.x18; Byte.x01] ++ str " " ++ [Byte.x01] ++ str "(" ++
    [Byte.x0c] ++ str "R" ++ [Byte.x06] ++ str "fileId" ++ [Byte.x22] ++ str "X" ++ [Byte.x0a] ++
  [Byte.x0c] ++ str "FileResponse" ++ [Byte.x12; Byte.x17; Byte.x0a] ++
  [Byte.x07] ++ str "file_id" ++ [Byte.x18; Byte.x01] ++ str " " ++ [Byte.x01] ++ str "(" ++
    [Byte.x0c] ++ str "R" ++ [Byte.x06] ++ str "fileId" ++ [Byte.x12; Byte.x12; Byte.x0a] ++
  [Byte.x04] ++ str "size" ++ [Byte.x18; Byte.x02] ++ str " " ++ [Byte.x01] ++ str "(" ++ [Byte.x03] ++
    str "R" ++ [Byte.x04] ++ str "size" ++ [Byte.x12; Byte.x1b; Byte.x0a] ++
  [Byte.x09] ++ str "not_found" ++ [Byte.x18; Byte.x03] ++ str " " ++ [Byte.x01] ++ str "(" ++
    [Byte.x08] ++ str "R" ++ [Byte.x08] ++ str "notFound" ++ [Byte.x22] ++ str "J" ++ [Byte.x0a] ++
  [Byte.x09] ++ str "FileChunk" ++ [Byte.x12; Byte.x17; Byte.x0a] ++
  [Byte.x07] ++ str "file_id" ++ [Byte.x18; Byte.x01] ++ str " " ++ [Byte.x01] ++ str "(" ++
    [Byte.x0c] ++ str "R" ++ [Byte.x06] ++ str "fileId" ++ [Byte.x12; Byte.x12; Byte.x0a] ++
  [Byte.x04] ++ str "data" ++ [Byte.x18; Byte.x02] ++ str " " ++ [Byte.x01] ++ str "(" ++ [Byte.x0c] ++
    str "R" ++ [Byte.x04] ++ str "data" ++ [Byte.x12; Byte.x10; Byte.x0a] ++
  [Byte.x03] ++ str "eof" ++ [Byte.x18; Byte.x03] ++ str " " ++ [Byte.x01] ++ str "(" ++ [Byte.x08] ++
    str "R" ++ [Byte.x03] ++ str "eof" ++ [Byte.x22] ++ str "5" ++ [Byte.x0a] ++
  [Byte.x05] ++ str "Error" ++ [Byte.x12; Byte.x12; Byte.x0a] ++
  [Byte.x04] ++ str "code" ++ [Byte.x18; Byte.x01] ++ str " " ++ [Byte.x01] ++ str "(" ++ [Byte.x09] ++
    str "R" ++ [Byte.x04] ++ str "code" ++ [Byte.x12; Byte.x18; Byte.x0a] ++
  [Byte.x07] ++ str "message" ++ [Byte.x18; Byte.x02] ++ str " " ++ [Byte.x01] ++ str "(" ++
    [Byte.x09] ++ str "R" ++ [Byte.x07] ++ str "message" ++ [Byte.x22] ++ str "h" ++ [Byte.x0a] ++
  [Byte.x0d] ++ str "RelayRegister" ++ [Byte.x12; Byte.x17; Byte.x0a] ++
  [Byte.x07] ++ str "node_id" ++ [Byte.x18; Byte.x01] ++ str " " ++ [Byte.x01] ++ str "(" ++
    [Byte.x0c] ++ str "R" ++ [Byte.x06] ++ str "nodeId" ++ [Byte.x12; Byte.x1d; Byte.x0a] ++
  [Byte.x0a] ++
  str "public_key" ++ [Byte.x18; Byte.x02] ++ str " " ++ [Byte.x01] ++ str "(" ++ [Byte.x0c] ++
    str "R" ++ [Byte.x09] ++ str "publicKey" ++ [Byte.x12; Byte.x1f; Byte.x0a] ++
  [Byte.x0b] ++ str "listen_port" ++ [Byte.x18; Byte.x03] ++ str " " ++ [Byte.x01] ++ str "(" ++
    [Byte.x0d] ++ str "R" ++ [Byte.x0a] ++
  str "listenPort" ++ [Byte.x22] ++ str "6" ++ [Byte.x0a] ++
  [Byte.x0f] ++ str "RelayRegistered" ++ [Byte.x12] ++ str "#" ++ [Byte.x0a] ++
  [Byte.x0d] ++ str "external_addr" ++ [Byte.x18; Byte.x01] ++ str " " ++ [Byte.x01] ++ str "(" ++
    [Byte.x09] ++ str "R" ++ [Byte.x0c] ++ str "externalAddr" ++ [Byte.x22] ++ str "4" ++ [Byte.x0a] ++
  [Byte.x0c] ++ str "RelayConnect" ++ [Byte.x12] ++ str "$" ++ [Byte.x0a] ++
  [Byte.x0e] ++ str "target_node_id" ++ [Byte.x18; Byte.x01] ++ str " " ++ [Byte.x01] ++ str "(" ++
    [Byte.x0c] ++ str "R" ++ [Byte.x0c] ++ str "targetNodeId" ++
    [Byte.x22; Byte.x89; Byte.x01; Byte.x0a] ++
  [Byte.x0f] ++ str "RelayRendezvous" ++ [Byte.x12] ++ str " " ++ [Byte.x0a] ++
  [Byte.x0c] ++ str "peer_node_id" ++ [Byte.x18; Byte.x01] ++ str " " ++ [Byte.x01] ++ str "(" ++
    [Byte.x0c] ++ str "R" ++ [Byte.x0a] ++
  str "peerNodeId" ++ [Byte.x12] ++ str "&" ++ [Byte.x0a] ++
  [Byte.x0f] ++ str "peer_public_key" ++ [Byte.x18; Byte.x02] ++ str " " ++ [Byte.x01] ++ str "(" ++
    [Byte.x0c] ++ str "R" ++ [Byte.x0d] ++ str "peerPublicKey" ++ [Byte.x12] ++ str "," ++ [Byte.x0a] ++
  [Byte.x12] ++ str "peer_external_addr" ++ [Byte.x18; Byte.x03] ++ str " " ++ [Byte.x01] ++ str "(" ++
    [Byte.x09] ++ str "R" ++ [Byte.x10] ++ str "peerExternalAddr" ++ [Byte.x22] ++ str "$" ++
    [Byte.x0a] ++
  [Byte.x0a] ++
  str "RelayError" ++ [Byte.x12; Byte.x16; Byte.x0a] ++
  [Byte.x06] ++ str "reason" ++ [Byte.x18; Byte.x01] ++ str " " ++ [Byte.x01] ++ str "(" ++
    [Byte.x09] ++ str "R" ++ [Byte.x06] ++ str "reason" ++ [Byte.x22; Byte.xb0; Byte.x01; Byte.x0a] ++
  [Byte.x0b] ++ str "CatalogFile" ++ [Byte.x12; Byte.x17; Byte.x0a] ++
  [Byte.x07] ++ str "file_id" ++ [Byte.x18; Byte.x01] ++ str " " ++ [Byte.x01] ++ str "(" ++
    [Byte.x0c] ++ str "R" ++ [Byte.x06] ++ str "fileId" ++ [Byte.x12; Byte.x12; Byte.x0a] ++
  [Byte.x04] ++ str "name" ++ [Byte.x18; Byte.x02] ++ str " " ++ [Byte.x01] ++ str "(" ++ [Byte.x09] ++
    str "R" ++ [Byte.x04] ++ str "name" ++ [Byte.x12; Byte.x12; Byte.x0a] ++
  [Byte.x04] ++ str "size" ++ [Byte.x18; Byte.x03] ++ str " " ++ [Byte.x01] ++ str "(" ++ [Byte.x03] ++
    str "R" ++ [Byte.x04] ++ str "size" ++ [Byte.x12; Byte.x22; Byte.x0a] ++
  [Byte.x0d] ++ str "mod_time_unix" ++ [Byte.x18; Byte.x04] ++ str " " ++ [Byte.x01] ++ str "(" ++
    [Byte.x03] ++ str "R" ++ [Byte.x0b] ++ str "modTimeUnix" ++ [Byte.x12; Byte.x22; Byte.x0a] ++
  [Byte.x0d] ++ str "owner_node_id" ++ [Byte.x18; Byte.x05] ++ str " " ++ [Byte.x01] ++ str "(" ++
    [Byte.x0c] ++ str "R" ++ [Byte.x0b] ++ str "ownerNodeId" ++ [Byte.x12; Byte.x18; Byte.x0a] ++
  [Byte.x07] ++ str "deleted" ++ [Byte.x18; Byte.x06] ++ str " " ++ [Byte.x01] ++ str "(" ++
    [Byte.x08] ++ str "R" ++ [Byte.x07] ++ str "deleted" ++ [Byte.x22] ++ str "6" ++ [Byte.x0a] ++
  [Byte.x0c] ++ str "CatalogOffer" ++ [Byte.x12] ++ str "&" ++ [Byte.x0a] ++
  [Byte.x05] ++ str "files" ++ [Byte.x18; Byte.x01] ++ str " " ++ [Byte.x03] ++ str "(" ++
    [Byte.x0b] ++ str "2" ++ [Byte.x10] ++ str ".kin.CatalogFileR" ++ [Byte.x05] ++ str "files" ++
    [Byte.x22] ++ str "3" ++ [Byte.x0a] ++
  [Byte.x0a] ++
  str "CatalogAck" ++ [Byte.x12] ++ str "%" ++ [Byte.x0a] ++
  [Byte.x0e] ++ str "received_count" ++ [Byte.x18; Byte.x01] ++ str " " ++ [Byte.x01] ++ str "(" ++
    [Byte.x0d] ++ str "R" ++ [Byte.x0d] ++ str "receivedCountB" ++ [Byte.x1d] ++ str "Z" ++
    [Byte.x1b] ++ str "github.com/niklod/kin/kinpbb" ++ [Byte.x06] ++ str "proto3".

Section Descriptor.

(** [protoimpl.X.CompressGZIP]. *)
Variable CompressGZIP : bytes → bytes.

(** [file_kin_proto_rawDescGZIP], whose [sync.Once] makes every call return the result of
    the first. *)
Definition file_kin_proto_rawDescGZIP : bytes := CompressGZIP file_kin_proto_rawDesc.

Definition Envelope_Descriptor : bytes * list Z := (file_kin_proto_rawDescGZIP, [0]).
Definition Handshake_Descriptor : bytes * list Z := (file_kin_proto_rawDescGZIP, [1]).
Definition HandshakeAck_Descriptor : bytes * list Z := (file_kin_proto_rawDescGZIP, [2]).
Definition FileRequest_Descriptor : bytes * list Z := (file_kin_proto_rawDescGZIP, [3]).
Definition FileResponse_Descriptor : bytes * list Z := (file_kin_proto_rawDescGZIP, [4]).
Definition FileChunk_Descriptor : bytes * list Z := (file_kin_proto_rawDescGZIP, [5]).
Definition Error_Descriptor : bytes * list Z := (file_kin_proto_rawDescGZIP, [6]).
Definition RelayRegister_Descriptor : bytes * list Z := (file_kin_proto_rawDescGZIP, [7]).
Definition RelayRegistered_Descriptor : bytes * list Z := (file_kin_proto_rawDescGZIP, [8]).
Definition RelayConnect_Descriptor : bytes * list Z := (file_kin_proto_rawDescGZIP, [9]).
Definition RelayRendezvous_Descriptor : bytes * list Z := (file_kin_proto_rawDescGZIP, [10]).
Definition RelayError_Descriptor : bytes * list Z := (file_kin_proto_rawDescGZIP, [11]).
Definition CatalogFile_Descriptor : bytes * list Z := (file_kin_proto_rawDescGZIP, [12]).
Definition CatalogOffer_Descriptor : bytes * list Z := (file_kin_proto_rawDescGZIP, [13]).
Definition CatalogAck_Descriptor : bytes * list Z := (file_kin_proto_rawDescGZIP, [14]).

Definition Descriptors : list (bytes * list Z) :=
  [Envelope_Descriptor; Handshake_Descriptor; HandshakeAck_Descriptor; FileRequest_Descriptor;
    FileResponse_Descriptor; FileChunk_Descriptor; Error_Descriptor; RelayRegister_Descriptor;
    RelayRegistered_Descriptor; RelayConnect_Descriptor; RelayRendezvous_Descriptor;
    RelayError_Descriptor; CatalogFile_Descriptor; CatalogOffer_Descriptor; CatalogAck_Descriptor].

End Descriptor.

(** * Tables *)

Definition file_kin_proto_goTypes : list bytes :=
  map str ["Envelope"; "Handshake"; "HandshakeAck"; "FileRequest"; "FileResponse"; "FileChunk"; "Error";
    "RelayRegister"; "RelayRegistered"; "RelayConnect"; "RelayRendezvous"; "RelayError"; "CatalogFile";
    "CatalogOffer"; "CatalogAck"].

Definition file_kin_proto_depIdxs : list Z :=
  [1; 2; 3; 4; 5; 7; 8; 9; 10; 11; 13; 14; 6; 12; 14; 14; 14; 14; 0].

(** [file_kin_proto_msgTypes[0].OneofWrappers]. *)
Definition OneofWrappers : list bytes :=
  map str ["Envelope_Handshake"; "Envelope_HandshakeAck"; "Envelope_FileRequest";
    "Envelope_FileResponse"; "Envelope_FileChunk"; "Envelope_RelayRegister"; "Envelope_RelayRegistered";
    "Envelope_RelayConnect"; "Envelope_RelayRendezvous"; "Envelope_RelayError"; "Envelope_CatalogOffer";
    "Envelope_CatalogAck"; "Envelope_Error"].

(** [NumEnums], [NumMessages], [NumExtensions] and [NumServices] of the builder. *)
Definition builder_counts : list Z := [0; 15; 0; 0].

(** * Descriptors *)

(** A field: its name and number, whether it is repeated, its type (the number of the
    [FieldDescriptorProto.Type]), the name of its message type, and the name of its oneof. *)
Record fdesc := mk_fdesc {
  fd_name : bytes;
  fd_number : Z;
  fd_repeated : bool;
  fd_type : Z;
  fd_type_name : bytes;
  fd_oneof : option bytes
}.

Record mdesc := mk_mdesc { md_name : bytes; md_fields : list fdesc }.

Record filedesc := mk_filedesc {
  file_package : bytes;
  file_go_package : bytes;
  file_syntax : bytes;
  file_messages : list mdesc
}.

#[global] Instance fdesc_eq_dec : EqDecision fdesc.
Proof. solve_decision. Defined.
#[global] Instance mdesc_eq_dec : EqDecision mdesc.
Proof. solve_decision. Defined.
#[global] Instance filedesc_eq_dec : EqDecision filedesc.
Proof. solve_decision. Defined.

Definition TYPE_INT64 : Z := 3.
Definition TYPE_BOOL : Z := 8.
Definition TYPE_STRING : Z := 9.
Definition TYPE_MESSAGE : Z := 11.
Definition TYPE_BYTES : Z := 12.
Definition TYPE_UINT32 : Z := 13.
Definition LABEL_REPEATED : Z := 3.

(** The values of a field number in a parsed message. *)
Definition lens (num : Z) (fs : list (Z * raw)) : list bytes :=
  omap (λ f, match f.2 with RLen b => if f.1 =? num then Some b else None | _ => None end) fs.
Definition ints (num : Z) (fs : list (Z * raw)) : list Z :=
  omap (λ f, match f.2 with RVarint n => if f.1 =? num then Some n else None | _ => None end) fs.
Definition one_len (num : Z) (fs : list (Z * raw)) : bytes := default [] (last (lens num fs)).
Definition one_int (num : Z) (fs : list (Z * raw)) : Z := default 0 (last (ints num fs)).

(** [FieldDescriptorProto]: name = 1, number = 3, label = 4, type = 5, type_name = 6,
    oneof_index = 9. *)
Definition read_fdesc (oneofs : list bytes) (data : bytes) : option fdesc :=
  fs ← parse data;
  Some {| fd_name := one_len 1 fs; fd_number := one_int 3 fs;
          fd_repeated := one_int 4 fs =? LABEL_REPEATED; fd_type := one_int 5 fs;
          fd_type_name := one_len 6 fs;
          fd_oneof := i ← last (ints 9 fs); oneofs !! Z.to_nat i |}.

(** [DescriptorProto]: name = 1, field = 2, oneof_decl = 8, whose name is 1. *)
Definition read_mdesc (data : bytes) : option mdesc :=
  fs ← parse data;
  decls ← mapM parse (lens 8 fs);
  fields ← mapM (read_fdesc (map (one_len 1) decls)) (lens 2 fs);
  Some {| md_name := one_len 1 fs; md_fields := fields |}.

(** [FileDescriptorProto]: package = 2, message_type = 4, options = 8 with go_package = 11,
    syntax = 12. *)
Definition read_file (data : bytes) : option filedesc :=
  fs ← parse data;
  options ← parse (one_len 8 fs);
  messages ← mapM read_mdesc (lens 4 fs);
  Some {| file_package := one_len 2 fs; file_go_package := one_len 11 options;
          file_syntax := one_len 12 fs; file_messages := messages |}.

(** * kin.proto *)

(** The part of the protocol buffers language that the file uses. *)
Definition newline : byte := Byte.x0a.
Definition dquote : bytes := [Byte.x22].
Definition lines (ls : list bytes) : bytes := concat (map (λ l, l ++ [newline]) ls).

Definition is_word (b : byte) : bool :=
  byte_in 48 57 b || byte_in 65 90 b || byte_in 97 122 b || bool_decide (b = Byte.x5f) || bool_decide (b
    = Byte.x2e).
Definition is_blank (b : byte) : bool := bool_decide (b ∈ [Byte.x20; Byte.x09; Byte.x0d; newline]).

Inductive token := Word (w : bytes) | Quoted (s : bytes) | Punct (b : byte).

#[global] Instance token_eq_dec : EqDecision token.
Proof. solve_decision. Defined.

(** The state of the scanner: between tokens, after a slash, in a comment, in a word or
    in a quoted string, whose bytes so far are reversed. *)
Inductive scan_state := Between | Slash | InComment | InWord (w : bytes) | InQuotes (s : bytes).

Definition scan_start (b : byte) : scan_state * list token :=
  if is_blank b then (Between, [])
  else if is_word b then (InWord [b], [])
  else if bool_decide (b = Byte.x22) then (InQuotes [], [])
  else if bool_decide (b = Byte.x2f) then (Slash, [])
  else (Between, [Punct b]).

Definition scan_step (st : scan_state) (b : byte) : scan_state * list token :=
  match st with
  | Between => scan_start b
  | Slash =>
      if bool_decide (b = Byte.x2f) then (InComment, [])
      else let '(st', ts) := scan_start b in (st', Punct Byte.x2f :: ts)
  | InComment => if bool_decide (b = newline) then (Between, []) else (InComment, [])
  | InWord w =>
      if is_word b then (InWord (b :: w), [])
      else let '(st', ts) := scan_start b in (st', Word (reverse w) :: ts)
  | InQuotes s => if bool_decide (b = Byte.x22) then (Between, [Quoted (reverse s)]) else (InQuotes (b
    :: s), [])
  end.

Fixpoint scan (st : scan_state) (text : bytes) : list token :=
  match text with
  | [] => match st with InWord w => [Word (reverse w)] | _ => [] end
  | b :: text' => let '(st', ts) := scan_step st b in ts ++ scan st' text'
  end.

(** A decimal number. *)
Definition read_number (w : bytes) : option Z :=
  foldl (λ acc b, n ← acc; if byte_in 48 57 b then Some (10 * n + (byte.unsigned b - 48)) else None)
    (Some 0) w.

(** The type a field is declared with: its number and the name of a message type. *)
Definition field_type (package w : bytes) : Z * bytes :=
  if bool_decide (w = str "int64") then (TYPE_INT64, [])
  else if bool_decide (w = str "bool") then (TYPE_BOOL, [])
  else if bool_decide (w = str "string") then (TYPE_STRING, [])
  else if bool_decide (w = str "bytes") then (TYPE_BYTES, [])
  else if bool_decide (w = str "uint32") then (TYPE_UINT32, [])
  else (TYPE_MESSAGE, str "." ++ package ++ str "." ++ w).

(** The fields of a message up to its closing brace; [oneof] is the oneof that is open. *)
Fixpoint read_body (package : bytes) (fuel : nat) (oneof : option bytes) (fields : list fdesc)
    (ts : list token) : option (list fdesc * list token) :=
  match fuel with
  | O => None
  | S fuel' =>
      let add (repeated : bool) (ty name num : bytes) (ts' : list token) :=
        n ← read_number num;
        let '(t, tn) := field_type package ty in
        read_body package fuel' oneof
          (fields ++ [mk_fdesc name n repeated t tn oneof]) ts' in
      match ts with
      | Punct Byte.x7d :: ts' =>
          match oneof with
          | Some _ => read_body package fuel' None fields ts'
          | None => Some (fields, ts')
          end
      | Word w :: Word name :: Punct Byte.x7b :: ts' =>
          if bool_decide (w = str "oneof") then read_body package fuel' (Some name) fields ts' else None
      | Word w :: Word ty :: Word name :: Punct Byte.x3d :: Word num :: Punct Byte.x3b :: ts' =>
          if bool_decide (w = str "repeated") then add true ty name num ts' else None
      | Word ty :: Word name :: Punct Byte.x3d :: Word num :: Punct Byte.x3b :: ts' => add false ty name
    num ts'
      | _ => None
      end
  end.

(** The statements of a file. *)
Fixpoint read_proto_from (fuel : nat) (d : filedesc) (ts : list token) : option filedesc :=
  match fuel with
  | O => None
  | S fuel' =>
      match ts with
      | [] => Some d
      | Word w :: Punct Byte.x3d :: Quoted s :: Punct Byte.x3b :: ts' =>
          if bool_decide (w = str "syntax")
          then read_proto_from fuel' (mk_filedesc (file_package d) (file_go_package d) s (file_messages
    d)) ts'
          else None
      | Word w :: Word name :: Punct Byte.x3b :: ts' =>
          if bool_decide (w = str "package")
          then read_proto_from fuel' (mk_filedesc name (file_go_package d) (file_syntax d)
    (file_messages d)) ts'
          else None
      | Word w :: Word name :: Punct Byte.x3d :: Quoted s :: Punct Byte.x3b :: ts' =>
          if bool_decide (w = str "option") && bool_decide (name = str "go_package")
          then read_proto_from fuel' (mk_filedesc (file_package d) s (file_syntax d) (file_messages d))
    ts'
          else None
      | Word w :: Word name :: Punct Byte.x7b :: ts' =>
          if bool_decide (w = str "message") then
            '(fields, ts'') ← read_body (file_package d) fuel' None [] ts';
            read_proto_from fuel'
              (mk_filedesc (file_package d) (file_go_package d) (file_syntax d)
                 (file_messages d ++ [mk_mdesc name fields])) ts''
          else None
      | _ => None
      end
  end.

(** Every statement and every field takes a token at least. *)
Definition read_proto (text : bytes) : option filedesc :=
  let ts := scan Between text in
  read_proto_from (S (length ts)) (mk_filedesc [] [] [] []) ts.

Definition kin_proto : bytes := lines [
  str "syntax = " ++ dquote ++ str "proto3" ++ dquote ++ str ";";
  str "";
  str "package kin;";
  str "";
  str "option go_package = " ++ dquote ++ str "github.com/niklod/kin/kinpb" ++ dquote ++ str ";";
  str "";
  str "message Envelope {";
  str "  oneof payload {";
  str "    Handshake       handshake        = 1;";
  str "    HandshakeAck    handshake_ack    = 2;";
  str "    FileRequest     file_request     = 3;";
  str "    FileResponse    file_response    = 4;";
  str "    FileChunk       file_chunk       = 5;";
  str "    // Relay signaling messages (6–10)";
  str "    RelayRegister   relay_register   = 6;";
  str "    RelayRegistered relay_registered = 7;";
  str "    RelayConnect    relay_connect    = 8;";
  str "    RelayRendezvous relay_rendezvous = 9;";
  str "    RelayError      relay_error      = 10;";
  str "    // Catalog exchange messages (11–12)";
  str "    CatalogOffer    catalog_offer    = 11;";
  str "    CatalogAck      catalog_ack      = 12;";
  str "    Error           error            = 15;";
  str "  }";
  str "}";
  str "";
  str "message Handshake {";
  str "  bytes node_id    = 1; // 32-byte SHA-256(pubkey)";
  str "  bytes public_key = 2; // 32-byte Ed25519 pubkey";
  str "}";
  str "";
  str "message HandshakeAck {";
  str "  bytes node_id    = 1;";
  str "  bytes public_key = 2;";
  str "}";
  str "";
  str "message FileRequest {";
  str "  bytes file_id = 1; // 32-byte SHA-256 hash";
  str "}";
  str "";
  str "message FileResponse {";
  str "  bytes file_id   = 1;";
  str "  int64 size      = 2;";
  str "  bool  not_found = 3;";
  str "}";
  str "";
  str "message FileChunk {";
  str "  bytes file_id = 1;";
  str "  bytes data    = 2;";
  str "  bool  eof     = 3;";
  str "}";
  str "";
  str "message Error {";
  str "  string code    = 1;";
  str "  string message = 2;";
  str "}";
  str "";
  str "// ── Relay signaling ──────────────────────────────────────────────────────────";
  str "";
  str "// Node → Relay: register this node.";
  str "message RelayRegister {";
  str "  bytes  node_id     = 1; // 32 bytes";
  str "  bytes  public_key  = 2; // 32 bytes Ed25519";
  str "  uint32 listen_port = 3; // internal TCP port the node listens on for kin connections";
  str "}";
  str "";
  str "// Relay → Node: registration confirmed.";
  str "message RelayRegistered {";
  str "  string external_addr = 1; // " ++ dquote ++ str "ip:port" ++ dquote ++ str " as seen by relay's TCP listener";
  str "}";
  str "";
  str "// Node B → Relay: request rendezvous with target node.";
  str "message RelayConnect {";
  str "  bytes target_node_id = 1; // 32 bytes";
  str "}";
  str "";
  str "// Relay → both A and B: peer info for simultaneous TCP connect.";
  str "message RelayRendezvous {";
  str "  bytes  peer_node_id       = 1; // 32 bytes";
  str "  bytes  peer_public_key    = 2; // 32 bytes — for TLS verification after punch";
  str "  string peer_external_addr = 3; // " ++ dquote ++ str "ip:listen_port" ++ dquote ++ str " — punch target";
  str "}";
  str "";
  str "// Relay → Node: rendezvous failed.";
  str "message RelayError {";
  str "  string reason = 1; // " ++ dquote ++ str "peer_not_registered" ++ dquote ++ str ", " ++ dquote ++ str "peer_not_found" ++ dquote ++ str "";
  str "}";
  str "";
  str "// ── Catalog exchange ────────────────────────────────────────────────────────";
  str "";
  str "// A single file catalog entry sent between peers.";
  str "message CatalogFile {";
  str "  bytes  file_id       = 1; // 32-byte SHA-256";
  str "  string name          = 2; // original filename (base name)";
  str "  int64  size          = 3; // file size in bytes";
  str "  int64  mod_time_unix = 4; // modification time, unix seconds";
  str "  bytes  owner_node_id = 5; // 32-byte NodeID of file owner";
  str "  bool   deleted       = 6; // tombstone";
  str "}";
  str "";
  str "// Node → Peer: offer this node's full catalog.";
  str "message CatalogOffer {";
  str "  repeated CatalogFile files = 1;";
  str "}";
  str "";
  str "// Peer → Node: acknowledge catalog receipt.";
  str "message CatalogAck {";
  str "  uint32 received_count = 1;";
  str "}"].

(** * The tables agree *)

(** The scalar fields of a message as the codec's schemas have them. *)
Definition scalar_type (t : Z) : option stype :=
  if t =? TYPE_BYTES then Some SBytes
  else if t =? TYPE_STRING then Some SString
  else if t =? TYPE_INT64 then Some SInt64
  else if t =? TYPE_UINT32 then Some SUint32
  else if t =? TYPE_BOOL then Some SBool
  else None.

Definition schema_of (m : mdesc) : option schema :=
  mapM (λ f, if fd_repeated f then None else t ← scalar_type (fd_type f); Some (fd_number f, t))
    (md_fields m).

(** The schemas of the codec by message. *)
Definition codec_schemas : list (bytes * schema) :=
  [(str "Handshake", Handshake_schema); (str "HandshakeAck", HandshakeAck_schema);
   (str "FileRequest", FileRequest_schema); (str "FileResponse", FileResponse_schema);
   (str "FileChunk", FileChunk_schema); (str "Error", Error_schema);
   (str "RelayRegister", RelayRegister_schema); (str "RelayRegistered", RelayRegistered_schema);
   (str "RelayConnect", RelayConnect_schema); (str "RelayRendezvous", RelayRendezvous_schema);
   (str "RelayError", RelayError_schema); (str "CatalogFile", CatalogFile_schema);
   (str "CatalogAck", CatalogAck_schema)].

(** [GoCamelCase]: the name of the Go field of a field. *)
Fixpoint camel (upper : bool) (s : bytes) : bytes :=
  match s with
  | [] => []
  | b :: s' =>
      if bool_decide (b = Byte.x5f) then camel true s'
      else (if upper && byte_in 97 122 b then byte.of_Z (byte.unsigned b - 32) else b) :: camel false s'
  end.

Fixpoint index_of (x : bytes) (l : list bytes) : Z :=
  match l with [] => 0 | y :: l' => if bool_decide (x = y) then 0 else 1 + index_of x l' end.

(** What the dependency table has to be: for every field with a message type, in
    order, the index of the type; and the bounds of the five sub-lists. *)
Definition expected_deps (d : filedesc) : list Z :=
  let names := map md_name (file_messages d) in
  let deps := omap (λ f, if fd_type f =? TYPE_MESSAGE
                         then Some (index_of (TrimPrefix (fd_type_name f) (str "." ++ file_package d ++ str ".")) names)
                         else None)
                (concat (map md_fields (file_messages d))) in
  deps ++ [len deps; len deps; len deps; len deps; 0].

Definition oneof_fields (m : mdesc) : list fdesc :=
  filter (λ f, is_Some (fd_oneof f)) (md_fields m).

(** The type of a member of the oneof. *)
Definition member_type (p : payload) : bytes :=
  str match p with
      | Envelope_Handshake _ => "Handshake"
      | Envelope_HandshakeAck _ => "HandshakeAck"
      | Envelope_FileRequest _ => "FileRequest"
      | Envelope_FileResponse _ => "FileResponse"
      | Envelope_FileChunk _ => "FileChunk"
      | Envelope_RelayRegister _ => "RelayRegister"
      | Envelope_RelayRegistered _ => "RelayRegistered"
      | Envelope_RelayConnect _ => "RelayConnect"
      | Envelope_RelayRendezvous _ => "RelayRendezvous"
      | Envelope_RelayError _ => "RelayError"
      | Envelope_CatalogOffer _ => "CatalogOffer"
      | Envelope_CatalogAck _ => "CatalogAck"
      | Envelope_Error _ => "Error"
      end.

(** The members of the oneof with their numbers and types. *)
Definition members (d : filedesc) : list (Z * bytes) :=
  map (λ f, (fd_number f, TrimPrefix (fd_type_name f) (str "." ++ file_package d ++ str ".")))
    (concat (map oneof_fields (file_messages d))).

(** The index at which a message's [Reset] finds its type. *)
Definition reset_indexes : list nat :=
  [snd (Envelope_Reset empty_Envelope); snd (Handshake_Reset (zero_msg Handshake)); snd
    (HandshakeAck_Reset (zero_msg HandshakeAck)); snd (FileRequest_Reset (zero_msg FileRequest)); snd
    (FileResponse_Reset (zero_msg FileResponse)); snd (FileChunk_Reset (zero_msg FileChunk)); snd
    (Error_Reset (zero_msg ErrorMsg)); snd (RelayRegister_Reset (zero_msg RelayRegister)); snd
    (RelayRegistered_Reset (zero_msg RelayRegistered)); snd (RelayConnect_Reset (zero_msg
    RelayConnect)); snd (RelayRendezvous_Reset (zero_msg RelayRendezvous)); snd (RelayError_Reset
    (zero_msg RelayError)); snd (CatalogFile_Reset (zero_msg CatalogFile)); snd (CatalogOffer_Reset ({|
    CatalogOffer_Files := [] |})); snd (CatalogAck_Reset (zero_msg CatalogAck))].

(** * Properties *)

(** The number of a member of the oneof does not depend on its message. *)
Definition member_number (p : payload) : Z :=
  match p with
  | Envelope_Handshake _ => 1 | Envelope_HandshakeAck _ => 2 | Envelope_FileRequest _ => 3
  | Envelope_FileResponse _ => 4 | Envelope_FileChunk _ => 5 | Envelope_RelayRegister _ => 6
  | Envelope_RelayRegistered _ => 7 | Envelope_RelayConnect _ => 8 | Envelope_RelayRendezvous _ => 9
  | Envelope_RelayError _ => 10 | Envelope_CatalogOffer _ => 11 | Envelope_CatalogAck _ => 12
  | Envelope_Error _ => 15
  end.

Lemma marshal_payload_number p n b : marshal_payload p = Some (n, b) → n = member_number p.
Proof. destruct p; cbn [marshal_payload]; by intros (? & _ & [= <- _])%bind_Some. Qed.

(** The descriptor that the generated code registers. *)
Definition kin_file : filedesc :=
  match read_file file_kin_proto_rawDesc with Some d => d | None => mk_filedesc [] [] [] [] end.

Lemma kin_file_read :
  read_file file_kin_proto_rawDesc = Some kin_file ∧ read_proto kin_proto = Some kin_file.
Proof. by vm_compute. Qed.

Lemma member_declared p : (member_number p, member_type p) ∈ members kin_file.
Proof.
  apply (bool_decide_unpack _).
  by destruct p; vm_compute.
Qed.

(** C34. The generated code is the code for [kin.proto]: the serialized descriptor that
    it registers, read with the wire format itself, is what the source file declares;
    the table of Go types lists the messages in that order, [Reset] and [Descriptor]
    use the index of their message, the dependency table points to the types of the
    message fields, the wrappers are the members of the oneof; and the codec uses for
    every message and every member the declared numbers and types. *)
Theorem generated_code_agrees :
  ∃ d, read_file file_kin_proto_rawDesc = Some d ∧ read_proto kin_proto = Some d ∧
    map md_name (file_messages d) = file_kin_proto_goTypes ∧
    expected_deps d = file_kin_proto_depIdxs ∧
    concat (map (λ m, map (λ f, md_name m ++ str "_" ++ camel true (fd_name f)) (oneof_fields m))
              (file_messages d)) = OneofWrappers ∧
    [0; len (file_messages d); 0; 0] = builder_counts ∧
    reset_indexes = seq 0 15 ∧
    (∀ gz, map snd (Descriptors gz) = map (λ i, [Z.of_nat i]) (seq 0 15)) ∧
    omap (λ m, s ← schema_of m; Some (md_name m, s)) (file_messages d) = codec_schemas ∧
    (∀ p n b, marshal_payload p = Some (n, b) → (n, member_type p) ∈ members d) ∧
    ∃ m, last (take 14 (file_messages d)) = Some (mk_mdesc (str "CatalogOffer") [m]) ∧
      fd_repeated m = true ∧ fd_number m = CatalogOffer_files ∧ fd_type_name m = str ".kin.CatalogFile".
Proof.
  exists kin_file.
  split_and!; [apply kin_file_read|apply kin_file_read|by vm_compute..|done|by vm_compute| |].
  - intros p n b E. rewrite (marshal_payload_number p n b E). exact (member_declared p).
  - exists (mk_fdesc (str "files") 1 true TYPE_MESSAGE (str ".kin.CatalogFile") None). by vm_compute.
Qed.

(** Reading a nil message gives the values of an empty one, and at most one member of
    the oneof is not nil: the one that is set. *)
Theorem accessors_agree (x : option Envelope) :
  Envelope_GetPayload None = Envelope_GetPayload (Some (fst (Envelope_Reset empty_Envelope))) ∧
  match x with
  | None | Some {| Payload := None |} =>
      (Envelope_GetHandshake x, Envelope_GetHandshakeAck x, Envelope_GetFileRequest x,
       Envelope_GetFileResponse x, Envelope_GetFileChunk x, Envelope_GetRelayRegister x) =
        (None, None, None, None, None, None) ∧
      (Envelope_GetRelayRegistered x, Envelope_GetRelayConnect x, Envelope_GetRelayRendezvous x,
       Envelope_GetRelayError x, Envelope_GetCatalogOffer x, Envelope_GetCatalogAck x, Envelope_GetError x) =
        (None, None, None, None, None, None, None)
  | Some {| Payload := Some p |} =>
      map fst (filter (λ g, g.2 = true)
        [(1, bool_decide (is_Some (Envelope_GetHandshake x))); (2, bool_decide (is_Some (Envelope_GetHandshakeAck x)));
         (3, bool_decide (is_Some (Envelope_GetFileRequest x))); (4, bool_decide (is_Some (Envelope_GetFileResponse x)));
         (5, bool_decide (is_Some (Envelope_GetFileChunk x))); (6, bool_decide (is_Some (Envelope_GetRelayRegister x)));
         (7, bool_decide (is_Some (Envelope_GetRelayRegistered x))); (8, bool_decide (is_Some (Envelope_GetRelayConnect x)));
         (9, bool_decide (is_Some (Envelope_GetRelayRendezvous x))); (10, bool_decide (is_Some (Envelope_GetRelayError x)));
         (11, bool_decide (is_Some (Envelope_GetCatalogOffer x))); (12, bool_decide (is_Some (Envelope_GetCatalogAck x)));
         (15, bool_decide (is_Some (Envelope_GetError x)))]) = [member_number p]
  end.
Proof. split; [done|]. destruct x as [[[p|]]|]; [by destruct p|done|done]. Qed.
