(* ===== verification/Framing.v ===== *)
(** Length-prefixed framing: [internal/protocol/framing.go] (protobuf frames
    between peers and with the relay) and [internal/daemon/framing.go] (JSON
    frames on the control socket). Both write a 4-byte big-endian length and the
    payload, and refuse payloads over 4 MiB. *)

From S2P Require Import Prelude Wire Io Codec.

Definition maxMsgSize : Z := Z.shiftl 4 20.
Definition maxIPCMsgSize : Z := Z.shiftl 4 20.

(** The bytes of one frame: what the theorems compare streams with. *)
Definition frame (data : bytes) : bytes := be_put 4 (len data) ++ data.

Section Protocol.
Context `{ProtoCodec}.

Definition WriteMsg (w : Writer) (env : Envelope) : outcome unit * Writer :=
  match proto_Marshal env with
  | Err e => (Err (Wrapf "framing: marshal: %w" e), w)
  | Panic => (Panic, w)
  | Ok data =>
      if len data >? maxMsgSize
      then (Err (Errorf "framing: message too large (%d > %d)" [len data; maxMsgSize]), w)
      else
        let header := be_put 4 (to_uint32 (len data)) in
        match Write w header with
        | (Ok _, w1) =>
            let '(res, w2) := Write w1 data in
            (wrap "framing: write body: %w" res, w2)
        | (res, w1) => (wrap "framing: write header: %w" res, w1)
        end
  end.

Definition ReadMsg (r : Reader) : outcome Envelope * Reader :=
  match ReadFull r 4 with
  | (Err e, r1) =>
      if errors_Is e io_EOF || errors_Is e io_ErrUnexpectedEOF
      then (Err io_EOF, r1)
      else (Err (Wrapf "framing: read header: %w" e), r1)
  | (Panic, r1) => (Panic, r1)
  | (Ok header, r1) =>
      let size := be_get header in
      if size =? 0 then (Ok empty_Envelope, r1)
      else if size >? maxMsgSize
      then (Err (Errorf "framing: message too large (%d > %d)" [size; maxMsgSize]), r1)
      else
        match ReadFull r1 (Z.to_nat size) with
        | (Err e, r2) => (Err (Wrapf "framing: read body: %w" e), r2)
        | (Panic, r2) => (Panic, r2)
        | (Ok buf, r2) => (wrap "framing: unmarshal: %w" (proto_Unmarshal buf), r2)
        end
  end.

(** A run of consecutive calls of [WriteMsg] that stops at the first error, and
    a run of [n] consecutive calls of [ReadMsg]. *)
Fixpoint WriteMsgs (w : Writer) (envs : list Envelope) : outcome unit * Writer :=
  match envs with
  | [] => (Ok tt, w)
  | env :: envs' =>
      match WriteMsg w env with
      | (Ok _, w1) => WriteMsgs w1 envs'
      | (res, w1) => (res, w1)
      end
  end.

Fixpoint ReadMsgs (n : nat) (r : Reader) : outcome (list Envelope) * Reader :=
  match n with
  | O => (Ok [], r)
  | S n' =>
      match ReadMsg r with
      | (Ok env, r1) =>
          let '(res, r2) := ReadMsgs n' r1 in
          (envs ← res; Ok (env :: envs), r2)
      | (Err e, r1) => (Err e, r1)
      | (Panic, r1) => (Panic, r1)
      end
  end.

End Protocol.

Section Json.
Context {A : Type} `{JsonCodec A}.

Definition WriteJSON (w : Writer) (v : A) : outcome unit * Writer :=
  match json_Marshal v with
  | Err e => (Err (Wrapf "ipc: marshal: %w" e), w)
  | Panic => (Panic, w)
  | Ok data =>
      if len data >? maxIPCMsgSize
      then (Err (Errorf "ipc: message too large (%d > %d)" [len data; maxIPCMsgSize]), w)
      else
        let header := be_put 4 (to_uint32 (len data)) in
        match Write w header with
        | (Ok _, w1) =>
            let '(res, w2) := Write w1 data in
            (wrap "ipc: write body: %w" res, w2)
        | (res, w1) => (wrap "ipc: write header: %w" res, w1)
        end
  end.

(** [v] is the value of the target before the call; an empty frame leaves it. *)
Definition ReadJSON (r : Reader) (v : A) : outcome A * Reader :=
  match ReadFull r 4 with
  | (Err e, r1) => (Err (Wrapf "ipc: read header: %w" e), r1)
  | (Panic, r1) => (Panic, r1)
  | (Ok header, r1) =>
      let size := be_get header in
      if size =? 0 then (Ok v, r1)
      else if size >? maxIPCMsgSize
      then (Err (Errorf "ipc: message too large (%d > %d)" [size; maxIPCMsgSize]), r1)
      else
        match ReadFull r1 (Z.to_nat size) with
        | (Err e, r2) => (Err (Wrapf "ipc: read body: %w" e), r2)
        | (Panic, r2) => (Panic, r2)
        | (Ok buf, r2) => (wrap "ipc: unmarshal: %w" (json_Unmarshal buf v), r2)
        end
  end.

End Json.

(** * Frames *)

Implicit Types data : bytes.

Lemma maxMsgSize_val : maxMsgSize = 4194304.
Proof. done. Qed.

Lemma header_small data :
  len data ≤ maxMsgSize → be_put 4 (to_uint32 (len data)) = be_put 4 (len data).
Proof.
  rewrite maxMsgSize_val. pose proof (len_nonneg data). intros.
  unfold to_uint32. by rewrite Z.mod_small by lia.
Qed.

Lemma header_get data :
  len data ≤ maxMsgSize → be_get (be_put 4 (len data)) = len data.
Proof.
  rewrite maxMsgSize_val. pose proof (len_nonneg data). intros.
  apply be_get_put_small. simpl. lia.
Qed.

Lemma frame_prefix data p q :
  frame data = p ++ q → (4 ≤ length p)%nat →
  ∃ p', p = be_put 4 (len data) ++ p' ∧ data = p' ++ q.
Proof.
  unfold frame. intros Hf Hl. pose proof (be_put_length 4 (len data)) as Hb.
  exists (drop 4 p). split.
  - apply (f_equal (take 4)) in Hf.
    rewrite take_app_length', (take_app_le p) in Hf by done. by rewrite Hf, take_drop.
  - apply (f_equal (drop 4)) in Hf.
    by rewrite drop_app_length', (drop_app_le p) in Hf by done.
Qed.

Lemma frame_len data : len (frame data) = 4 + len data.
Proof. unfold frame. rewrite len_app. unfold len at 1. by rewrite be_put_length. Qed.

(** * Peer frames *)

Section ProtocolFacts.
Context `{ProtoLaws}.

(** A successful [WriteMsg] appended exactly one frame. *)
Lemma WriteMsg_inv w env w' :
  WriteMsg w env = (Ok tt, w') →
  ∃ data, proto_Marshal env = Ok data ∧ len data ≤ maxMsgSize ∧
          w' = after_write w (frame data).
Proof.
  unfold WriteMsg. destruct (proto_Marshal env) as [data|e|]; [|done|done].
  destruct (Z.gtb_spec (len data) maxMsgSize); [done|].
  rewrite header_small by lia.
  destruct (Write w _) as [[[]|e|] w1] eqn:E1; [|done|done].
  destruct (Write w1 data) as [[[]|e|] w2] eqn:E2; [|done|done].
  intros [= <-]. apply Write_inv in E1 as [_ ->]. apply Write_inv in E2 as [_ ->].
  exists data. rewrite after_write_app. auto.
Qed.

(** One frame is read back as the message it was made from, and the rest of the
    stream is untouched. *)
Lemma ReadMsg_frame env data rest e :
  proto_Marshal env = Ok data → len data ≤ maxMsgSize →
  ReadMsg {| r_in := frame data ++ rest; r_end := e |} =
    (Ok env, {| r_in := rest; r_end := e |}).
Proof.
  intros Hm Hlen. unfold ReadMsg, frame. rewrite <- app_assoc.
  rewrite ReadFull_Ok by apply be_put_length. rewrite header_get by done.
  apply proto_roundtrip in Hm.
  destruct (Z.eqb_spec (len data) 0) as [Hz|Hz].
  { apply len_zero_nil in Hz as ->. rewrite proto_empty in Hm. simplify_eq/=. done. }
  destruct (Z.gtb_spec (len data) maxMsgSize); [lia|].
  rewrite ReadFull_Ok by len_lia. by rewrite Hm.
Qed.

Lemma ReadMsg_progress r env r' :
  ReadMsg r = (Ok env, r') → (length (r_in r') + 4 ≤ length (r_in r))%nat.
Proof.
  unfold ReadMsg. destruct (ReadFull r 4) as [[h|e|] r1] eqn:E1; [|by case_match|done].
  apply ReadFull_suffix in E1 as (_ & H4 & ->). rewrite length_app.
  case_match; [intros [= _ <-]; lia|]. case_match; [done|].
  destruct (ReadFull r1 _) as [[buf|e|] r2] eqn:E2; [|done|done].
  apply ReadFull_suffix in E2 as (_ & _ & ->). rewrite length_app.
  destruct (proto_Unmarshal buf); intros [= _ <-]; lia.
Qed.

End ProtocolFacts.

(** * Control frames *)

Section JsonFacts.
Context {A : Type} `{JsonLaws A}.

Lemma ipc_header data :
  len data ≤ maxIPCMsgSize →
  be_put 4 (to_uint32 (len data)) = be_put 4 (len data) ∧
  be_get (be_put 4 (len data)) = len data.
Proof. intros Hlen. split; [by apply header_small|by apply header_get]. Qed.

(** A value that [WriteJSON] sends, with its text. *)
Definition sendable (v : A) (data : bytes) : Prop :=
  json_Marshal v = Ok data ∧ len data ≤ maxIPCMsgSize.

Lemma WriteJSON_Ok w v data :
  sendable v data → accepts w (frame data) → WriteJSON w v = (Ok tt, after_write w (frame data)).
Proof.
  intros [Hm Hlen] Hacc. unfold WriteJSON. rewrite Hm.
  destruct (Z.gtb_spec (len data) maxIPCMsgSize); [lia|].
  rewrite (proj1 (ipc_header _ Hlen)). unfold frame in *.
  apply accepts_app in Hacc as [Ha1 Ha2]. rewrite (Write_Ok _ _ Ha1), (Write_Ok _ _ Ha2).
  by rewrite after_write_app.
Qed.

Lemma WriteJSON_inv w v w' :
  WriteJSON w v = (Ok tt, w') →
  ∃ data, sendable v data ∧ accepts w (frame data) ∧ w' = after_write w (frame data).
Proof.
  unfold WriteJSON. destruct (json_Marshal v) as [data|e|] eqn:Hm; [|done|done].
  destruct (Z.gtb_spec (len data) maxIPCMsgSize); [done|].
  rewrite (proj1 (ipc_header _ ltac:(done))).
  destruct (Write w _) as [[[]|e|] w1] eqn:E1; [|done|done].
  destruct (Write w1 data) as [[[]|e|] w2] eqn:E2; [|done|done].
  intros [= <-]. apply Write_inv in E1 as [Ha1 ->]. apply Write_inv in E2 as [Ha2 ->].
  exists data. rewrite after_write_app. split_and!; [done| |done].
  unfold accepts, after_write, frame in *. rewrite length_app.
  destruct (w_room w); simpl in *; [lia|done].
Qed.

Lemma ReadJSON_progress r v v' r' :
  ReadJSON r v = (Ok v', r') → (length (r_in r') + 4 ≤ length (r_in r))%nat.
Proof.
  unfold ReadJSON. destruct (ReadFull r 4) as [[h|e|] r1] eqn:E1; [|done|done].
  apply ReadFull_suffix in E1 as (_ & H4 & ->). rewrite length_app. cbv zeta.
  case_match; [intros [= _ <-]; lia|]. case_match; [done|].
  destruct (ReadFull r1 _) as [[buf|e|] r2] eqn:E2; [|done|done].
  apply ReadFull_suffix in E2 as (_ & _ & ->). rewrite length_app. intros [= _ <-]. lia.
Qed.

Lemma ReadJSON_frame v data rest e :
  sendable v data →
  ReadJSON {| r_in := frame data ++ rest; r_end := e |} json_zero =
    (Ok (json_canon v), {| r_in := rest; r_end := e |}).
Proof.
  intros [Hm Hlen]. unfold ReadJSON, frame. rewrite <- app_assoc.
  rewrite ReadFull_Ok by apply be_put_length. rewrite (proj2 (ipc_header _ Hlen)).
  destruct (Z.eqb_spec (len data) 0) as [Hz|Hz].
  { apply len_zero_nil in Hz as ->. by destruct (json_nonempty v). }
  destruct (Z.gtb_spec (len data) maxIPCMsgSize); [lia|].
  rewrite ReadFull_Ok by len_lia. by rewrite (json_roundtrip _ _ Hm).
Qed.

End JsonFacts.

Lemma WriteMsgs_stream `{ProtoLaws} (w w' : Writer) (envs : list Envelope) :
  WriteMsgs w envs = (Ok tt, w') →
  ∃ stream, w_out w' = w_out w ++ stream ∧
    ∀ rest e, ReadMsgs (length envs) {| r_in := stream ++ rest; r_end := e |} =
                (Ok envs, {| r_in := rest; r_end := e |}).
Proof.
  revert w. induction envs as [|env envs IH]; intros w; simpl.
  { intros [= <-]. exists []. by rewrite app_nil_r. }
  destruct (WriteMsg w env) as [[[]|e|] w1] eqn:E; [|done|done].
  apply WriteMsg_inv in E as (data & Hm & Hlen & ->). intros (s & Hs & Hr)%IH.
  exists (frame data ++ s). split; [by rewrite Hs, app_assoc|].
  intros rest e. rewrite <- app_assoc, ReadMsg_frame with (env := env) by done.
  by rewrite Hr.
Qed.

(** C13. A batch of messages written with [WriteMsg] is a self-delimiting byte
    stream: whatever follows it, reading as many messages gives the batch back
    in order and leaves exactly what followed. *)
Theorem WriteMsgs_ReadMsgs `{ProtoLaws} (w w' : Writer) (envs : list Envelope) :
  WriteMsgs w envs = (Ok tt, w') →
  ∃ stream, w_out w' = w_out w ++ stream ∧
    ∀ rest e, ReadMsgs (length envs) {| r_in := stream ++ rest; r_end := e |} =
                (Ok envs, {| r_in := rest; r_end := e |}).
Proof. apply WriteMsgs_stream. Qed.

(** A connection that dies inside a frame never yields a message: on any
    proper prefix of a frame [ReadMsg] fails and leaves nothing unread. The
    caller sees it as a clean end of stream ([errors.Is(err, io.EOF)]) exactly
    when no byte of the body had arrived. *)
Theorem ReadMsg_truncated `{ProtoLaws} (env : Envelope) (data p q : bytes) :
  proto_Marshal env = Ok data → len data ≤ maxMsgSize →
  frame data = p ++ q → q ≠ [] →
  ∃ e, ReadMsg {| r_in := p; r_end := io_EOF |} =
         (Err e, {| r_in := []; r_end := io_EOF |}) ∧
       (errors_Is e io_EOF = true ↔ (length p ≤ 4)%nat).
Proof.
  intros Hm Hlen Hf Hq. unfold ReadMsg.
  destruct (decide (length p < 4)%nat) as [Hlt|Hge].
  { rewrite ReadFull_short by done. exists io_EOF.
    case_decide; (split; [done|]); (split; [lia|done]). }
  apply frame_prefix in Hf as (p' & -> & Hd); [|lia].
  assert (Hdl : len data = len p' + len q) by (rewrite Hd; apply len_app).
  apply len_pos in Hq. pose proof (len_nonneg p').
  rewrite ReadFull_Ok by apply be_put_length. rewrite header_get by done.
  rewrite (proj2 (Z.eqb_neq _ _)) by lia.
  destruct (Z.gtb_spec (len data) maxMsgSize); [lia|].
  rewrite ReadFull_short by len_lia. rewrite length_app, be_put_length.
  eexists; split; [reflexivity|]. destruct p' as [|b p']; simpl; split; done || lia.
Qed.

(** Whatever bytes a peer sends, [ReadMsg] does not panic, consumes a prefix
    of the stream of at most 4 bytes plus [maxMsgSize], and stops after the
    header when it announces more than [maxMsgSize] bytes. *)
Theorem ReadMsg_bounded `{ProtoLaws} (r r' : Reader) (res : outcome Envelope) :
  ReadMsg r = (res, r') →
  res ≠ Panic ∧
  ∃ used, r_in r = used ++ r_in r' ∧ len used ≤ 4 + maxMsgSize ∧
    (4 ≤ len (r_in r) → be_get (take 4 (r_in r)) > maxMsgSize →
     len used = 4 ∧ is_Ok res = false).
Proof.
  unfold ReadMsg. rewrite maxMsgSize_val.
  destruct (ReadFull r 4) as [[h|e|] r1] eqn:E1; apply ReadFull_suffix in E1 as (_ & HE); [|..|done].
  2: { destruct HE as [Hlt Hnil]. intros Hc.
       assert (r' = r1 ∧ res ≠ Panic) as [-> ?] by (case_match; simplify_eq; done).
       split; [done|]. exists (r_in r). rewrite Hnil, app_nil_r.
       split_and!; [done|len_lia|intros; exfalso; len_lia]. }
  destruct HE as [Hh Hin]. rewrite Hin, <- Hh, take_app_length.
  destruct (Z.eqb_spec (be_get h) 0) as [Hz|Hz].
  { intros [= <- <-]. split; [done|]. exists h. split_and!; [done|len_lia|lia]. }
  destruct (Z.gtb_spec (be_get h) 4194304).
  { intros [= <- <-]. split; [done|]. exists h. unfold len. by rewrite Hh. }
  destruct (ReadFull r1 _) as [[buf|e|] r2] eqn:E2; apply ReadFull_suffix in E2 as (_ & HE); [|..|done].
  - destruct HE as [Hb ->]. intros [= <- <-].
    pose proof (proto_no_panic buf). split; [by destruct (proto_Unmarshal buf)|].
    exists (h ++ buf). pose proof (be_get_bound h).
    split_and!; [by rewrite app_assoc|len_lia|lia].
  - destruct HE as [Hb Hnil]. intros [= <- <-]. split; [done|].
    exists (h ++ r_in r1). pose proof (be_get_bound h).
    split_and!; [by rewrite Hnil, app_nil_r|len_lia|lia].
Qed.

Module FramingWitness.
Import TinyCodec.

Definition envs : list Envelope :=
  [envelope (Envelope_FileRequest {| FileRequest_FileId := str "abc" |}); empty_Envelope;
   envelope (Envelope_CatalogAck {| CatalogAck_ReceivedCount := 7 |})].
Definition w0 : Writer := {| w_out := []; w_room := Some 19%nat; w_err := net_ErrClosed |}.
Definition w1 : Writer := snd (WriteMsgs w0 envs).

Lemma WriteMsgs_ReadMsgs_witness :
  ∃ stream, w_out w1 = w_out w0 ++ stream ∧
    ∀ rest e, ReadMsgs (length envs) {| r_in := stream ++ rest; r_end := e |} =
                (Ok envs, {| r_in := rest; r_end := e |}).
Proof. apply (WriteMsgs_ReadMsgs w0 w1 envs). vm_compute. reflexivity. Defined.

(** The frame of a three-byte request, cut after the header and one byte. *)
Definition req : Envelope := envelope (Envelope_FileRequest {| FileRequest_FileId := str "abc" |}).
Definition cut : bytes := be_put 4 4 ++ [Byte.x03].

Lemma ReadMsg_truncated_witness :
  ∃ e, ReadMsg {| r_in := cut; r_end := io_EOF |} =
         (Err e, {| r_in := []; r_end := io_EOF |}) ∧
       (errors_Is e io_EOF = true ↔ (length cut ≤ 4)%nat).
Proof.
  apply (ReadMsg_truncated req (Byte.x03 :: str "abc") cut (str "abc")); vm_compute; easy.
Defined.

(** A header that announces 4 MiB and one byte, followed by data. *)
Definition huge : Reader := {| r_in := be_put 4 4194305 ++ str "abc"; r_end := io_EOF |}.

Lemma ReadMsg_bounded_witness :
  fst (ReadMsg huge) ≠ Panic ∧
  ∃ used, r_in huge = used ++ r_in (snd (ReadMsg huge)) ∧ len used ≤ 4 + maxMsgSize ∧
    (4 ≤ len (r_in huge) → be_get (take 4 (r_in huge)) > maxMsgSize →
     len used = 4 ∧ is_Ok (fst (ReadMsg huge)) = false).
Proof. apply ReadMsg_bounded. apply surjective_pairing. Defined.

End FramingWitness.
