(* ===== verification/Bolt.v ===== *)
(** The database the stores are built on, [go.etcd.io/bbolt]. A bucket is a
    parameter of the development: the class [Bolt] has the calls the program
    makes and [BoltLaws] what the library documents about them. Transactions
    over a pair of buckets and scans over a key prefix are defined on top of the
    class. [MapBolt] is an instance, a finite map. *)

From stdpp Require Import sorting.
From S2P Require Import Prelude GoStd.

(** A bucket of type [B]. [bucket_items] is the order in which [ForEach] and a
    cursor visit the pairs; [tx_commit] is writing the two buckets of a
    transaction to disk, which can fail. *)
Class Bolt (B : Type) := {
  bucket_empty : B;
  bucket_Get : B → bytes → option bytes;
  bucket_Put : B → bytes → bytes → outcome B;
  bucket_Delete : B → bytes → outcome B;
  bucket_items : B → list (bytes * bytes);
  tx_commit : B → B → outcome unit
}.

Definition MaxKeySize : Z := 32768.
Definition MaxValueSize : Z := 2 ^ 31 - 2.

Definition key_lt (x y : bytes * bytes) : Prop := bytes_ltb x.1 y.1 = true.

Class BoltLaws (B : Type) `{Bolt B} : Prop := {
  empty_get k : bucket_Get bucket_empty k = None;
  put_get b k v b' :
    bucket_Put b k v = Ok b' →
    ∀ k', bucket_Get b' k' = if decide (k = k') then Some v else bucket_Get b k';
  put_ok b k v :
    0 < len k ≤ MaxKeySize → len v ≤ MaxValueSize → is_Ok (bucket_Put b k v) = true;
  put_no_panic b k v : bucket_Put b k v ≠ Panic;
  delete_get b k b' :
    bucket_Delete b k = Ok b' →
    ∀ k', bucket_Get b' k' = if decide (k = k') then None else bucket_Get b k';
  delete_ok b k : is_Ok (bucket_Delete b k) = true;
  items_get b k v : (k, v) ∈ bucket_items b ↔ bucket_Get b k = Some v;
  items_sorted b : StronglySorted key_lt (bucket_items b)
}.

(** [db.Update(fn)]: the new state is kept when [fn] returns nil and the commit
    succeeds; otherwise, and when [fn] panics, the transaction is rolled back. *)
Definition db_Update {T} (commit : T → outcome unit) (fn : T → outcome T) (db : T) :
    outcome unit * T :=
  match fn db with
  | Ok db' =>
      match commit db' with
      | Ok _ => (Ok tt, db')
      | Err e => (Err e, db)
      | Panic => (Panic, db)
      end
  | Err e => (Err e, db)
  | Panic => (Panic, db)
  end.

Lemma db_Update_Ok {T} commit fn (db db' : T) :
  db_Update commit fn db = (Ok tt, db') → fn db = Ok db'.
Proof. unfold db_Update. repeat case_match; naive_solver. Qed.

Lemma db_Update_rollback {T} commit fn (db db' : T) res :
  db_Update commit fn db = (res, db') → res ≠ Ok tt → db' = db.
Proof. unfold db_Update. repeat case_match; by intros [= <- <-]. Qed.

Section Scan.
Context {A : Type}.

Fixpoint drop_while (f : A → bool) (l : list A) : list A :=
  match l with
  | [] => []
  | x :: l' => if f x then drop_while f l' else l
  end.

Fixpoint take_while (f : A → bool) (l : list A) : list A :=
  match l with
  | [] => []
  | x :: l' => if f x then x :: take_while f l' else []
  end.

End Scan.

(** The pairs a cursor visits from [Seek(prefix)] on, while the key has the
    prefix. *)
Definition Seek (l : list (bytes * bytes)) (prefix : bytes) : list (bytes * bytes) :=
  drop_while (λ kv, bytes_ltb kv.1 prefix) l.

Definition scan_prefix (l : list (bytes * bytes)) (prefix : bytes) : list (bytes * bytes) :=
  take_while (λ kv, HasPrefix kv.1 prefix) (Seek l prefix).

(** [c.Delete()] at every pair of a scan. *)
Fixpoint delete_keys `{Bolt B} (b : B) (l : list (bytes * bytes)) : outcome B :=
  match l with
  | [] => Ok b
  | kv :: l' => b' ← bucket_Delete b kv.1; delete_keys b' l'
  end.

Lemma take_while_prefix (l : list (bytes * bytes)) prefix :
  StronglySorted key_lt l →
  Forall (λ kv, bytes_ltb kv.1 prefix = false) l →
  take_while (λ kv, HasPrefix kv.1 prefix) l = List.filter (λ kv, HasPrefix kv.1 prefix) l.
Proof.
  induction 1 as [|x l Hs IH Hx]; intros Hf; [done|].
  apply Forall_cons in Hf as [Hp Hf]. simpl. case_match eqn:E; [by rewrite IH|].
  clear IH Hs. induction l as [|y l IH]; [done|]. simpl.
  apply Forall_cons in Hx as [Hxy Hx]. apply Forall_cons in Hf as [_ Hf].
  rewrite <- IH by done. case_match eqn:Ey; [|done].
  by rewrite (HasPrefix_interval _ _ _ Hp Hxy Ey) in E.
Qed.

(** A scan of a sorted bucket visits exactly the pairs whose key has the
    prefix. *)
Lemma scan_prefix_filter (l : list (bytes * bytes)) prefix :
  StronglySorted key_lt l →
  scan_prefix l prefix = List.filter (λ kv, HasPrefix kv.1 prefix) l.
Proof.
  intros Hs. unfold scan_prefix, Seek. induction Hs as [|x l Hs IH Hx]; [done|].
  simpl. destruct (bytes_ltb x.1 prefix) eqn:E.
  - rewrite IH. case_match eqn:Ep; [|done].
    apply HasPrefix_not_lt in Ep. congruence.
  - apply (take_while_prefix (x :: l)); [by constructor|]. constructor; [done|].
    eapply Forall_impl; [exact Hx|]. intros y Hxy. apply not_true_iff_false. intros Hy.
    pose proof (bytes_ltb_trans _ _ _ Hxy Hy). congruence.
Qed.

Section BoltFacts.
Context `{BoltLaws B}.

Lemma elem_of_scan b prefix k v :
  (k, v) ∈ scan_prefix (bucket_items b) prefix ↔
  HasPrefix k prefix = true ∧ bucket_Get b k = Some v.
Proof.
  rewrite scan_prefix_filter by apply items_sorted.
  rewrite list_elem_of_In, filter_In, <- list_elem_of_In, items_get. naive_solver.
Qed.

Lemma delete_keys_Ok b l : is_Ok (delete_keys b l) = true.
Proof.
  revert b. induction l as [|kv l IH]; intros b; simpl; [done|].
  pose proof (delete_ok b kv.1). destruct (bucket_Delete b kv.1); simpl; done.
Qed.

Lemma delete_keys_get b l b' :
  delete_keys b l = Ok b' →
  ∀ k, bucket_Get b' k = if decide (k ∈ l.*1) then None else bucket_Get b k.
Proof.
  revert b. induction l as [|kv l IH]; intros b; simpl.
  { by intros [= <-]. }
  intros (b1 & Hd & Hb)%bind_Ok k. rewrite (IH _ Hb), (delete_get _ _ _ Hd).
  change ((kv :: l).*1) with (kv.1 :: l.*1). repeat case_decide; set_solver.
Qed.

End BoltFacts.

(** * A bucket that is a finite map *)

Module MapBolt.

Definition key_le (x y : bytes * bytes) : Prop := bytes_ltb y.1 x.1 = false.

#[export] Instance key_le_dec : RelDecision key_le.
Proof. intros x y. unfold key_le. apply _. Defined.

#[export] Instance key_le_total : Total key_le.
Proof.
  intros x y. unfold key_le.
  destruct (bytes_ltb_total x.1 y.1) as [Hl|[->|Hl]].
  - left. by apply bytes_ltb_asym.
  - left. apply bytes_ltb_irrefl.
  - right. by apply bytes_ltb_asym.
Qed.

#[export] Instance key_le_trans : Transitive key_le.
Proof.
  intros x y z. unfold key_le. intros Hxy Hyz. apply not_true_iff_false. intros Hzx.
  destruct (bytes_ltb_total y.1 x.1) as [Hl|[Hl|Hl]]; [congruence| |].
  - rewrite Hl in Hyz. congruence.
  - pose proof (bytes_ltb_trans _ _ _ Hzx Hl). congruence.
Qed.

Definition items (m : gmap bytes bytes) : list (bytes * bytes) :=
  merge_sort key_le (map_to_list m).

#[export] Instance bolt : Bolt (gmap bytes bytes) := {|
  bucket_empty := ∅;
  bucket_Get m k := m !! k;
  bucket_Put m k v :=
    if (0 <? len k) && (len k <=? MaxKeySize) && (len v <=? MaxValueSize)
    then Ok (<[k := v]> m) else Err (Sentinel "invalid key or value");
  bucket_Delete m k := Ok (delete k m);
  bucket_items := items;
  tx_commit _ _ := Ok tt
|}.

Lemma sorted_strict (l : list (bytes * bytes)) :
  NoDup l.*1 → StronglySorted key_le l → StronglySorted key_lt l.
Proof.
  intros Hd. induction 1 as [|x l Hs IH Hx]; [constructor|].
  simpl in Hd. apply NoDup_cons in Hd as [Hn Hd]. constructor; [by apply IH|].
  rewrite Forall_forall in *. intros y Hy. unfold key_lt.
  destruct (bytes_ltb_total x.1 y.1) as [?|[Heq|Hl]]; [done| |].
  - exfalso. apply Hn. rewrite Heq. apply list_elem_of_fmap. eauto.
  - specialize (Hx y Hy). unfold key_le in Hx. congruence.
Qed.

#[export] Instance laws : BoltLaws (gmap bytes bytes).
Proof.
  split; simpl.
  - intros k. apply lookup_empty.
  - intros m k v m'. case_match; [|done]. intros [= <-] k'. apply lookup_insert.
  - intros m k v [H1 H2] H3. rewrite !(proj2 (Z.leb_le _ _)), (proj2 (Z.ltb_lt _ _)) by done. done.
  - intros m k v. by case_match.
  - intros m k m' [= <-] k'. apply lookup_delete.
  - done.
  - intros m k v. unfold items. rewrite merge_sort_Permutation. apply elem_of_map_to_list.
  - intros m. apply sorted_strict; unfold items.
    + rewrite merge_sort_Permutation. apply NoDup_fst_map_to_list.
    + apply StronglySorted_merge_sort; apply _.
Qed.

End MapBolt.
