(* ===== verification/Catalog.v ===== *)
(** The file catalog, [internal/catalog]: [entry.go] (the records), [convert.go]
    (conversion to and from wire messages) and [store.go] (the bbolt-backed
    store). The store has two buckets: [entries], keyed by owner and file id, and
    [availability], keyed by file id. A JSON codec and a bucket implementation
    are parameters.

    [time.Now()] is a parameter of the operations that call it: the [k]-th call
    made by one operation returns [clk k]. Times are nanoseconds since the Unix
    epoch. *)

From S2P Require Import Prelude GoStd Wire Codec Bolt.

Record Entry := mk_Entry {
  Entry_FileID : file_id;
  Entry_Name : bytes;
  Entry_Size : Z;
  Entry_ModTime : Z;
  Entry_OwnerNodeID : node_id;
  Entry_LocalPath : bytes;
  Entry_Deleted : bool;
  Entry_UpdatedAt : Z
}.

Record OwnerHint := mk_OwnerHint { Hint_NodeID : node_id; Hint_SeenAt : Z }.

#[global] Instance Entry_eq_dec : EqDecision Entry.
Proof. solve_decision. Defined.
#[global] Instance OwnerHint_eq_dec : EqDecision OwnerHint.
Proof. solve_decision. Defined.

(** * convert.go *)

Definition EntryToProto (e : Entry) : CatalogFile := {|
  CatalogFile_FileId := arr_bytes (Entry_FileID e);
  CatalogFile_Name := Entry_Name e;
  CatalogFile_Size := Entry_Size e;
  CatalogFile_ModTimeUnix := Unix (Entry_ModTime e);
  CatalogFile_OwnerNodeId := arr_bytes (Entry_OwnerNodeID e);
  CatalogFile_Deleted := Entry_Deleted e
|}.

Definition ProtoToEntry (f : CatalogFile) : outcome Entry :=
  if negb (len (CatalogFile_FileId f) =? 32)
  then Err (Errorf "file_id must be 32 bytes, got %d" [len (CatalogFile_FileId f)])
  else if negb (len (CatalogFile_OwnerNodeId f) =? 32)
  then Err (Errorf "owner_node_id must be 32 bytes, got %d" [len (CatalogFile_OwnerNodeId f)])
  else Ok {|
    Entry_FileID := copy_arr 32 (CatalogFile_FileId f);
    Entry_Name := CatalogFile_Name f;
    Entry_Size := CatalogFile_Size f;
    Entry_ModTime := time_Unix (CatalogFile_ModTimeUnix f);
    Entry_OwnerNodeID := copy_arr 32 (CatalogFile_OwnerNodeId f);
    Entry_LocalPath := [];
    Entry_Deleted := CatalogFile_Deleted f;
    Entry_UpdatedAt := zero_time
  |}.

Definition EntriesToProto (entries : list Entry) : list CatalogFile :=
  map EntryToProto entries.

(** * store.go *)

Section Store.
Context {B : Type} `{Bolt B} `{JsonCodec Entry} `{JsonCodec (list OwnerHint)}.

Record Store := mk_Store { entries : B; availability : B; selfID : node_id }.

Definition with_entries (s : Store) (b : B) : Store :=
  {| entries := b; availability := availability s; selfID := selfID s |}.
Definition with_availability (s : Store) (b : B) : Store :=
  {| entries := entries s; availability := b; selfID := selfID s |}.

Definition Update (fn : Store → outcome Store) (s : Store) : outcome unit * Store :=
  db_Update (λ s', tx_commit (entries s') (availability s')) fn s.

Definition compositeKey (ownerNodeID fileID : arr 32) : bytes :=
  arr_bytes ownerNodeID ++ arr_bytes fileID.

Definition putEntry (s : Store) (e : Entry) : outcome Store :=
  data ← json_Marshal e;
  b ← bucket_Put (entries s) (compositeKey (Entry_OwnerNodeID e) (Entry_FileID e)) data;
  Ok (with_entries s b).

(** The decoded live entries of a list of pairs; pairs that do not decode are
    skipped. *)
Definition live_entries (kvs : list (bytes * bytes)) : list Entry :=
  omap (λ kv, e ← json_decode kv.2; if Entry_Deleted e then None else Some e) kvs.

Definition listByPrefixTx (s : Store) (ownerNodeID : node_id) : list Entry :=
  live_entries (scan_prefix (bucket_items (entries s)) (arr_bytes ownerNodeID)).

Definition deleteByPrefix (s : Store) (ownerNodeID : node_id) : outcome Store :=
  b ← delete_keys (entries s) (scan_prefix (bucket_items (entries s)) (arr_bytes ownerNodeID));
  Ok (with_entries s b).

(** The loop of [addAvailability] over the hints: [Some] when the node was found
    and its [SeenAt] updated. *)
Fixpoint touch_hint (now : Z) (nodeID : node_id) (hints : list OwnerHint) :
    option (list OwnerHint) :=
  match hints with
  | [] => None
  | h :: hints' =>
      if bool_decide (Hint_NodeID h = nodeID)
      then Some ({| Hint_NodeID := Hint_NodeID h; Hint_SeenAt := now |} :: hints')
      else (h ::.) <$> touch_hint now nodeID hints'
  end.

Definition addAvailability (now : Z) (s : Store) (fileID : file_id) (nodeID : node_id) :
    outcome Store :=
  let hints :=
    match bucket_Get (availability s) (arr_bytes fileID) with
    | Some raw => default [] (json_decode raw)
    | None => []
    end in
  let hints' :=
    match touch_hint now nodeID hints with
    | Some hs => hs
    | None => hints ++ [{| Hint_NodeID := nodeID; Hint_SeenAt := now |}]
    end in
  data ← json_Marshal hints';
  b ← bucket_Put (availability s) (arr_bytes fileID) data;
  Ok (with_availability s b).

Definition removeAvailability (s : Store) (fileID : file_id) (nodeID : node_id) :
    outcome Store :=
  match bucket_Get (availability s) (arr_bytes fileID) with
  | None => Ok s
  | Some raw =>
      match json_decode raw with
      | None => b ← bucket_Delete (availability s) (arr_bytes fileID); Ok (with_availability s b)
      | Some hints =>
          let filtered := List.filter (λ h, negb (bool_decide (Hint_NodeID h = nodeID))) hints in
          match filtered with
          | [] => b ← bucket_Delete (availability s) (arr_bytes fileID); Ok (with_availability s b)
          | _ =>
              data ← json_Marshal filtered;
              b ← bucket_Put (availability s) (arr_bytes fileID) data;
              Ok (with_availability s b)
          end
      end
  end.

(** [disk] is the result of [bolt.Open]: the buckets found in the file. *)
Definition Open (disk : outcome (option B * option B)) (self : node_id) : outcome Store :=
  match wrap "catalog open: %w" disk with
  | Ok (eb, ab) =>
      let s := {| entries := default bucket_empty eb;
                  availability := default bucket_empty ab; selfID := self |} in
      match wrap "catalog init buckets: %w" (tx_commit (entries s) (availability s)) with
      | Ok _ => Ok s
      | Err e => Err e
      | Panic => Panic
      end
  | Err e => Err e
  | Panic => Panic
  end.

Definition set_owner (e : Entry) (o : node_id) (now : Z) (deleted : bool) : Entry := {|
  Entry_FileID := Entry_FileID e; Entry_Name := Entry_Name e; Entry_Size := Entry_Size e;
  Entry_ModTime := Entry_ModTime e; Entry_OwnerNodeID := o;
  Entry_LocalPath := Entry_LocalPath e; Entry_Deleted := deleted; Entry_UpdatedAt := now
|}.

Definition PutLocal (clk : nat → Z) (s : Store) (entry : Entry) : outcome unit * Store :=
  let e := set_owner entry (selfID s) (clk 0%nat) false in
  Update (λ tx,
    tx ← wrap "put local: %w" (putEntry tx e);
    addAvailability (clk 1%nat) tx (Entry_FileID e) (selfID s)) s.

Definition DeleteLocal (clk : nat → Z) (s : Store) (fileID : file_id) : outcome unit * Store :=
  Update (λ tx,
    match bucket_Get (entries tx) (compositeKey (selfID s) fileID) with
    | None => Ok tx
    | Some raw =>
        e ← wrap "delete local unmarshal: %w" (json_Unmarshal raw json_zero);
        let e := set_owner e (Entry_OwnerNodeID e) (clk 0%nat) true in
        tx ← wrap "delete local: %w" (putEntry tx e);
        removeAvailability tx fileID (selfID s)
    end) s.

Definition listByPrefix (s : Store) (ownerNodeID : node_id) : outcome (list Entry) :=
  Ok (listByPrefixTx s ownerNodeID).

Definition ListByOwner (s : Store) (nodeID : node_id) : outcome (list Entry) :=
  listByPrefix s nodeID.

Definition ListLocal (s : Store) : outcome (list Entry) := listByPrefix s (selfID s).

Definition LookupLocalByPath (s : Store) (path : bytes) : outcome (option Entry) :=
  Ok (List.find (λ e, bool_decide (Entry_LocalPath e = path)) (listByPrefixTx s (selfID s))).

(** The loop over the offered entries: [k] counts the calls of [time.Now()]. *)
Fixpoint put_peer_entries (clk : nat → Z) (k : nat) (s : Store) (peerNodeID : node_id)
    (es : list Entry) : outcome Store :=
  match es with
  | [] => Ok s
  | entry :: es' =>
      let e := set_owner entry peerNodeID (clk k) (Entry_Deleted entry) in
      s ← wrap "put peer entry: %w" (putEntry s e);
      if Entry_Deleted e then put_peer_entries clk (S k) s peerNodeID es'
      else
        s ← wrap "put peer availability: %w"
              (addAvailability (clk (S k)) s (Entry_FileID e) peerNodeID);
        put_peer_entries clk (S (S k)) s peerNodeID es'
  end.

Definition PutPeerEntries (clk : nat → Z) (s : Store) (peerNodeID : node_id)
    (es : list Entry) : outcome unit * Store :=
  Update (λ tx,
    tx ← wrap "put peer clear: %w" (deleteByPrefix tx peerNodeID);
    put_peer_entries clk 0 tx peerNodeID es) s.

Fixpoint remove_hints (s : Store) (peerNodeID : node_id) (es : list Entry) : outcome Store :=
  match es with
  | [] => Ok s
  | e :: es' =>
      s ← wrap "remove peer availability: %w" (removeAvailability s (Entry_FileID e) peerNodeID);
      remove_hints s peerNodeID es'
  end.

Definition RemovePeer (s : Store) (peerNodeID : node_id) : outcome unit * Store :=
  Update (λ tx,
    let es := listByPrefixTx tx peerNodeID in
    tx ← remove_hints tx peerNodeID es;
    deleteByPrefix tx peerNodeID) s.

(** [ForEach] with a callback that decodes and keeps the entries that satisfy
    [keep]; the first pair that does not decode aborts the iteration. *)
Fixpoint collect (keep : Entry → bool) (kvs : list (bytes * bytes)) : outcome (list Entry) :=
  match kvs with
  | [] => Ok []
  | kv :: kvs' =>
      e ← json_Unmarshal kv.2 json_zero;
      es ← collect keep kvs';
      Ok (if keep e then e :: es else es)
  end.

Definition ListAll (s : Store) : outcome (list Entry) :=
  collect (λ e, negb (Entry_Deleted e)) (bucket_items (entries s)).

Definition GetOwners (s : Store) (fileID : file_id) : outcome (list OwnerHint) :=
  match bucket_Get (availability s) (arr_bytes fileID) with
  | None => Ok []
  | Some raw => json_Unmarshal raw json_zero
  end.

Definition GetEntry (s : Store) (ownerNodeID fileID : arr 32) : outcome (option Entry) :=
  match bucket_Get (entries s) (compositeKey ownerNodeID fileID) with
  | None => Ok None
  | Some raw => e ← wrap "get entry: %w" (json_Unmarshal raw json_zero); Ok (Some e)
  end.

Definition ListForPeer (s : Store) (excludeNodeID : node_id) : outcome (list Entry) :=
  collect (λ e, negb (Entry_Deleted e) &&
                negb (bool_decide (Entry_OwnerNodeID e = excludeNodeID)))
          (bucket_items (entries s)).

End Store.
Arguments Store : clear implicits.
