(* ===== verification/CatalogSpec.v ===== *)
(** What the catalog promises: an abstract catalog is a finite map from owner and
    file id to entries and a finite map from file id to owner hints. [Abs]
    relates a store to the abstract catalog it represents; every operation of
    [Catalog] implements its abstract counterpart, and the invariants are proved
    on the abstract side. *)

From S2P Require Import Prelude GoStd Wire Codec Bolt Catalog.

(** * The abstract catalog *)

Record ACat := mk_ACat {
  files : gmap (node_id * file_id) Entry;
  owners : gmap file_id (list OwnerHint)
}.

Definition empty_cat : ACat := {| files := ∅; owners := ∅ |}.

(** An entry as it comes back from the database. *)
Definition canon_entry (e : Entry) : Entry := {|
  Entry_FileID := Entry_FileID e; Entry_Name := utf8_repair (Entry_Name e);
  Entry_Size := Entry_Size e; Entry_ModTime := Entry_ModTime e;
  Entry_OwnerNodeID := Entry_OwnerNodeID e;
  Entry_LocalPath := utf8_repair (Entry_LocalPath e);
  Entry_Deleted := Entry_Deleted e; Entry_UpdatedAt := Entry_UpdatedAt e
|}.

Definition put_file (e : Entry) (a : ACat) : ACat :=
  {| files := <[(Entry_OwnerNodeID e, Entry_FileID e) := canon_entry e]> (files a);
     owners := owners a |}.

Definition put_hint (now : Z) (n : node_id) (hs : list OwnerHint) : list OwnerHint :=
  match touch_hint now n hs with
  | Some hs' => hs'
  | None => hs ++ [{| Hint_NodeID := n; Hint_SeenAt := now |}]
  end.

Definition add_owner (now : Z) (f : file_id) (n : node_id) (a : ACat) : ACat :=
  {| files := files a;
     owners := <[f := put_hint now n (default [] (owners a !! f))]> (owners a) |}.

Definition others (n : node_id) (hs : list OwnerHint) : list OwnerHint :=
  List.filter (λ h, negb (bool_decide (Hint_NodeID h = n))) hs.

Arguments others : simpl never.

(** No hint list is stored empty. *)
Definition nonempty (hs : list OwnerHint) : option (list OwnerHint) :=
  match hs with [] => None | _ => Some hs end.

Definition remove_owner (f : file_id) (n : node_id) (a : ACat) : ACat :=
  {| files := files a;
     owners := partial_alter (λ o, hs ← o; nonempty (others n hs)) f (owners a) |}.

Definition drop_files (p : node_id) (a : ACat) : ACat :=
  {| files := filter (λ kv, kv.1.1 ≠ p) (files a); owners := owners a |}.

Definition live (a : ACat) (o : node_id) (f : file_id) : Prop :=
  ∃ e, files a !! (o, f) = Some e ∧ Entry_Deleted e = false.

#[global] Instance live_dec a o f : Decision (live a o f).
Proof.
  unfold live. destruct (files a !! (o, f)) as [e|]; [|right; naive_solver].
  destruct (Entry_Deleted e) eqn:E; [right|left]; naive_solver congruence.
Defined.

(** * The abstract operations *)

Inductive op :=
| OpPutLocal (clk : nat → Z) (e : Entry)
| OpDeleteLocal (clk : nat → Z) (f : file_id)
| OpPutPeerEntries (clk : nat → Z) (p : node_id) (es : list Entry)
| OpRemovePeer (p : node_id).

Fixpoint spec_put_peer (clk : nat → Z) (k : nat) (p : node_id) (es : list Entry) (a : ACat) :
    ACat :=
  match es with
  | [] => a
  | e :: es' =>
      let a := put_file (set_owner e p (clk k) (Entry_Deleted e)) a in
      if Entry_Deleted e then spec_put_peer clk (S k) p es' a
      else spec_put_peer clk (S (S k)) p es' (add_owner (clk (S k)) (Entry_FileID e) p a)
  end.

Definition spec_remove_hints (p : node_id) (a : ACat) : ACat :=
  {| files := files a;
     owners := map_imap (λ f hs, if decide (live a p f) then nonempty (others p hs) else Some hs)
                        (owners a) |}.

Definition spec (self : node_id) (o : op) (a : ACat) : ACat :=
  match o with
  | OpPutLocal clk e =>
      add_owner (clk 1%nat) (Entry_FileID e) self
        (put_file (set_owner e self (clk 0%nat) false) a)
  | OpDeleteLocal clk f =>
      match files a !! (self, f) with
      | None => a
      | Some e => remove_owner f self (put_file (set_owner e self (clk 0%nat) true) a)
      end
  | OpPutPeerEntries clk p es => spec_put_peer clk 0 p es (drop_files p a)
  | OpRemovePeer p => drop_files p (spec_remove_hints p a)
  end.

(** The laws of the JSON codec at the two types the catalog stores: only the
    strings of an entry are touched by UTF-8 repair. *)
Class CatalogJson `{JsonCodec Entry, JsonCodec (list OwnerHint)} : Prop := {
  catalog_entry_laws :: JsonLaws Entry;
  catalog_hints_laws :: JsonLaws (list OwnerHint);
  entry_canon (e : Entry) : json_canon e = canon_entry e;
  hints_canon (hs : list OwnerHint) : json_canon hs = hs
}.

Section Refinement.
Context {B : Type} `{BoltLaws B} `{CatalogJson}.
Implicit Types (s : Store B) (a : ACat) (e : Entry).

Definition exec (o : op) (s : Store B) : outcome unit * Store B :=
  match o with
  | OpPutLocal clk e => PutLocal clk s e
  | OpDeleteLocal clk f => DeleteLocal clk s f
  | OpPutPeerEntries clk p es => PutPeerEntries clk s p es
  | OpRemovePeer p => RemovePeer s p
  end.

(** A run of operations; an operation that fails leaves the abstract catalog as
    it is. *)
Fixpoint exec_all (os : list op) (s : Store B) : list (outcome unit) * Store B :=
  match os with
  | [] => ([], s)
  | o :: os' =>
      let '(res, s1) := exec o s in
      let '(ress, s2) := exec_all os' s1 in
      (res :: ress, s2)
  end.

Fixpoint spec_all (self : node_id) (os : list op) (ress : list (outcome unit)) (a : ACat) :
    ACat :=
  match os, ress with
  | o :: os', Ok _ :: ress' => spec_all self os' ress' (spec self o a)
  | _ :: os', _ :: ress' => spec_all self os' ress' a
  | _, _ => a
  end.

Definition stored (e : Entry) (o : node_id) (f : file_id) : Prop :=
  Entry_OwnerNodeID e = o ∧ Entry_FileID e = f ∧ canon_entry e = e.

(** [s] represents [a]: every pair of the entries bucket is an entry under its
    own composite key, every availability record decodes, and lookups agree. *)
Record Abs s a : Prop := {
  abs_files o f : bucket_Get (entries s) (compositeKey o f) ≫= json_decode = files a !! (o, f);
  abs_keys k v :
    bucket_Get (entries s) k = Some v →
    ∃ o f e, k = compositeKey o f ∧ json_decode v = Some e ∧ stored e o f;
  abs_owners f :
    bucket_Get (availability s) (arr_bytes f) ≫= json_decode = owners a !! f;
  abs_hints (f : file_id) v :
    bucket_Get (availability s) (arr_bytes f) = Some v →
    is_Some (json_decode (A := list OwnerHint) v)
}.

Lemma canon_entry_idemp e : canon_entry (canon_entry e) = canon_entry e.
Proof. unfold canon_entry; simpl. by rewrite !utf8_repair_idemp. Qed.

Lemma compositeKey_inj o f o' f' :
  compositeKey o f = compositeKey o' f' → o = o' ∧ f = f'.
Proof.
  unfold compositeKey. intros [Ho Hf]%app_inj_1; [|by rewrite !arr_length].
  split; by apply arr_eq.
Qed.

Lemma compositeKey_prefix o f p :
  HasPrefix (compositeKey o f) (arr_bytes p) = true ↔ o = p.
Proof.
  split.
  - intros (t & Ht)%HasPrefix_spec. unfold compositeKey in Ht.
    apply app_inj_1 in Ht as [Ho _]; [by apply arr_eq|by rewrite !arr_length].
  - intros ->. apply HasPrefix_app.
Qed.

Lemma abs_lookup s a o f e :
  Abs s a → files a !! (o, f) = Some e →
  ∃ v, bucket_Get (entries s) (compositeKey o f) = Some v ∧ json_decode v = Some e ∧ stored e o f.
Proof.
  intros HA Hl. rewrite <- (abs_files _ _ HA) in Hl.
  destruct (bucket_Get _ _) as [v|] eqn:Hg; simpl in Hl; [|done].
  destruct (abs_keys _ _ HA _ _ Hg) as (o' & f' & e' & Hk & Hd & Hs).
  apply compositeKey_inj in Hk as [-> ->]. exists v. naive_solver congruence.
Qed.

Lemma Abs_empty (self : node_id) :
  Abs {| entries := bucket_empty; availability := bucket_empty; selfID := self |} empty_cat.
Proof. split; intros; simpl in *; rewrite empty_get in *; done. Qed.

(** ** The helpers of store.go *)

Lemma putEntry_abs s a e s' :
  Abs s a → putEntry s e = Ok s' → Abs s' (put_file e a) ∧ selfID s' = selfID s.
Proof.
  intros HA. unfold putEntry. intros (data & Hm & (b & Hb & [= <-])%bind_Ok)%bind_Ok.
  apply json_decode_Marshal in Hm. rewrite entry_canon in Hm.
  split; [|done]. split; simpl.
  - intros o f. rewrite (put_get _ _ _ _ Hb), lookup_insert. case_decide as Hk; simpl.
    + apply compositeKey_inj in Hk as [-> ->]. by rewrite decide_True.
    + rewrite decide_False by naive_solver. apply (abs_files _ _ HA).
  - intros k v. rewrite (put_get _ _ _ _ Hb). case_decide as Hk; [|apply (abs_keys _ _ HA)].
    intros [= <-]. exists (Entry_OwnerNodeID e), (Entry_FileID e), (canon_entry e).
    unfold stored. by rewrite canon_entry_idemp.
  - apply (abs_owners _ _ HA).
  - apply (abs_hints _ _ HA).
Qed.

(** Replacing the availability record of one file. *)
Lemma availability_abs s a b (f : file_id) (r : option (list OwnerHint)) :
  Abs s a →
  (∀ k, arr_bytes f ≠ k → bucket_Get b k = bucket_Get (availability s) k) →
  bucket_Get b (arr_bytes f) ≫= json_decode = r →
  (∀ v, bucket_Get b (arr_bytes f) = Some v → is_Some (json_decode (A := list OwnerHint) v)) →
  Abs (with_availability s b)
    {| files := files a; owners := partial_alter (λ _, r) f (owners a) |}.
Proof.
  intros HA Hne Heq Hdec. split; simpl.
  - apply (abs_files _ _ HA).
  - apply (abs_keys _ _ HA).
  - intros f'. rewrite lookup_partial_alter. case_decide as Hf; [by subst f'|].
    rewrite Hne; [apply (abs_owners _ _ HA)|]. intros ?%arr_eq. done.
  - intros f' v. destruct (decide (f = f')) as [<-|Hf]; [apply Hdec|].
    rewrite Hne; [apply (abs_hints _ _ HA)|]. intros ?%arr_eq. done.
Qed.

Lemma put_availability_abs s a (f : file_id) hs data b :
  Abs s a → json_Marshal hs = Ok data →
  bucket_Put (availability s) (arr_bytes f) data = Ok b →
  Abs (with_availability s b)
    {| files := files a; owners := partial_alter (λ _, Some hs) f (owners a) |}.
Proof.
  intros HA Hm Hb. apply json_decode_Marshal in Hm. rewrite hints_canon in Hm.
  apply availability_abs; [done|..].
  - intros k Hk. by rewrite (put_get _ _ _ _ Hb), decide_False.
  - by rewrite (put_get _ _ _ _ Hb), decide_True.
  - intros v. rewrite (put_get _ _ _ _ Hb), decide_True by done. intros [= <-]. by rewrite Hm.
Qed.

Lemma delete_availability_abs s a (f : file_id) b :
  Abs s a → bucket_Delete (availability s) (arr_bytes f) = Ok b →
  Abs (with_availability s b)
    {| files := files a; owners := partial_alter (λ _, None) f (owners a) |}.
Proof.
  intros HA Hb. apply availability_abs; [done|..].
  - intros k Hk. by rewrite (delete_get _ _ _ Hb), decide_False.
  - by rewrite (delete_get _ _ _ Hb), decide_True.
  - intros v. by rewrite (delete_get _ _ _ Hb), decide_True.
Qed.

Lemma addAvailability_abs now s a (f : file_id) (n : node_id) s' :
  Abs s a → addAvailability now s f n = Ok s' →
  Abs s' (add_owner now f n a) ∧ selfID s' = selfID s.
Proof.
  intros HA. unfold addAvailability. intros (data & Hm & (b & Hb & [= <-])%bind_Ok)%bind_Ok.
  split; [|done].
  assert (match bucket_Get (availability s) (arr_bytes f) with
          | Some raw => default [] (json_decode raw) | None => [] end
          = default [] (owners a !! f)) as Hhs.
  { rewrite <- (abs_owners _ _ HA). by destruct (bucket_Get _ _). }
  rewrite Hhs in Hm. by apply (put_availability_abs _ _ _ _ _ _ HA Hm Hb).
Qed.

Lemma removeAvailability_abs s a (f : file_id) (n : node_id) s' :
  Abs s a → removeAvailability s f n = Ok s' →
  Abs s' (remove_owner f n a) ∧ selfID s' = selfID s.
Proof.
  intros HA. unfold removeAvailability, remove_owner.
  pose proof (abs_owners _ _ HA f) as Hf.
  destruct (bucket_Get _ _) as [raw|] eqn:Hg; simpl in Hf.
  2: { intros [= <-]. split; [|done]. rewrite partial_alter_id; [by destruct a|].
       by rewrite <- Hf. }
  destruct (abs_hints _ _ HA _ _ Hg) as [hs Hhs]. rewrite Hhs in Hf |- *.
  rewrite (partial_alter_ext _ (λ _, nonempty (others n hs))); [|by intros ? <-; rewrite <- Hf].
  unfold others. destruct (List.filter _ hs) as [|h l] eqn:Hl.
  - intros (b & Hb & [= <-])%bind_Ok. split; [|done]. by apply delete_availability_abs.
  - intros (data & Hm & (b & Hb & [= <-])%bind_Ok)%bind_Ok. split; [|done].
    by apply (put_availability_abs _ _ _ _ _ _ HA Hm Hb).
Qed.

Lemma deleteByPrefix_abs s a (p : node_id) s' :
  Abs s a → deleteByPrefix s p = Ok s' → Abs s' (drop_files p a) ∧ selfID s' = selfID s.
Proof.
  intros HA. unfold deleteByPrefix. intros (b & Hb & [= <-])%bind_Ok. split; [|done].
  assert (Hget : ∀ k v, bucket_Get b k = Some v →
    bucket_Get (entries s) k = Some v ∧ HasPrefix k (arr_bytes p) = false).
  { intros k v. rewrite (delete_keys_get _ _ _ Hb). case_decide as Hk; [done|].
    intros Hv. split; [done|]. apply not_true_iff_false. intros Hp. apply Hk.
    apply list_elem_of_fmap. exists (k, v). split; [done|]. by apply elem_of_scan. }
  assert (Hkeep : ∀ k, HasPrefix k (arr_bytes p) = false →
    bucket_Get b k = bucket_Get (entries s) k).
  { intros k Hk. rewrite (delete_keys_get _ _ _ Hb). rewrite decide_False; [done|].
    intros ([k' v'] & -> & [Hp _]%elem_of_scan)%list_elem_of_fmap. simpl in *. congruence. }
  split; simpl.
  - intros o f. rewrite map_lookup_filter. destruct (decide (o = p)) as [->|Hne].
    + destruct (bucket_Get b _) as [v|] eqn:Hv; simpl.
      { apply Hget in Hv as [_ Hv]. by rewrite (proj2 (compositeKey_prefix p f p)) in Hv. }
      destruct (files a !! (p, f)); simpl; [|done]. by rewrite option_guard_False by naive_solver.
    + rewrite Hkeep; [|apply not_true_iff_false; by rewrite compositeKey_prefix].
      rewrite (abs_files _ _ HA). destruct (files a !! (o, f)); simpl; [|done].
      by rewrite option_guard_True.
  - intros k v [Hv _]%Hget. by apply (abs_keys _ _ HA).
  - apply (abs_owners _ _ HA).
  - apply (abs_hints _ _ HA).
Qed.

Lemma elem_of_listByPrefixTx s a (o : node_id) e :
  Abs s a →
  e ∈ listByPrefixTx s o ↔ ∃ f, files a !! (o, f) = Some e ∧ Entry_Deleted e = false.
Proof.
  intros HA. unfold listByPrefixTx, live_entries. rewrite list_elem_of_omap. split.
  - intros ([k v] & [Hp Hg]%elem_of_scan & He).
    destruct (abs_keys _ _ HA _ _ Hg) as (o' & f & e' & -> & Hd & _).
    apply compositeKey_prefix in Hp as ->. simpl in He. rewrite Hd in He. simpl in He.
    case_match; simplify_eq. exists f. rewrite <- (abs_files _ _ HA), Hg. done.
  - intros (f & Hf & Hdel). destruct (abs_lookup _ _ _ _ _ HA Hf) as (v & Hg & Hd & _).
    exists (compositeKey o f, v). split.
    + apply elem_of_scan. split; [by apply compositeKey_prefix|done].
    + simpl. rewrite Hd. simpl. by rewrite Hdel.
Qed.

(** ** The operations *)

Lemma others_idemp n hs : others n (others n hs) = others n hs.
Proof.
  unfold others. induction hs as [|h hs IH]; simpl; [done|].
  destruct (negb _) eqn:E; simpl; [by rewrite E, IH|done].
Qed.

Lemma nonempty_others n r :
  (hs ← (hs ← r; nonempty (others n hs)); nonempty (others n hs)) =
  (hs ← r; nonempty (others n hs)).
Proof.
  destruct r as [hs|]; simpl; [|done]. destruct (others n hs) as [|h l] eqn:E; simpl; [done|].
  assert (others n (h :: l) = h :: l) as -> by (rewrite <- E; apply others_idemp). done.
Qed.

Definition remove_owners (p : node_id) (es : list Entry) (a : ACat) : ACat :=
  foldl (λ a e, remove_owner (Entry_FileID e) p a) a es.

Lemma remove_owners_files p es a : files (remove_owners p es a) = files a.
Proof.
  unfold remove_owners. revert a. induction es as [|e es IH]; intros a; simpl; [done|].
  by rewrite IH.
Qed.

Lemma remove_owners_lookup p es a f :
  owners (remove_owners p es a) !! f =
    if decide (f ∈ map Entry_FileID es) then (hs ← owners a !! f; nonempty (others p hs))
    else owners a !! f.
Proof.
  unfold remove_owners. revert a. induction es as [|e es IH]; intros a; simpl; [done|].
  rewrite IH. simpl. rewrite lookup_partial_alter.
  destruct (decide (Entry_FileID e = f)) as [->|Hne].
  - rewrite (decide_True (P := f ∈ f :: _)) by set_solver. case_decide; [|done].
    apply nonempty_others.
  - repeat case_decide; set_solver.
Qed.

Lemma remove_hints_abs s a p es s' :
  Abs s a → remove_hints s p es = Ok s' →
  Abs s' (remove_owners p es a) ∧ selfID s' = selfID s.
Proof.
  revert s a. induction es as [|e es IH]; intros s a HA; simpl; [by intros [= <-]|].
  intros (s1 & Hs1 & Hs')%bind_Ok. apply wrap_Ok in Hs1.
  apply (removeAvailability_abs _ _ _ _ _ HA) in Hs1 as [HA1 <-]. by apply (IH s1).
Qed.

Lemma put_peer_entries_abs clk k s a p es s' :
  Abs s a → put_peer_entries clk k s p es = Ok s' →
  Abs s' (spec_put_peer clk k p es a) ∧ selfID s' = selfID s.
Proof.
  revert k s a. induction es as [|e es IH]; intros k s a HA; simpl; [by intros [= <-]|].
  intros (s1 & Hs1 & Hs')%bind_Ok. apply wrap_Ok in Hs1.
  apply (putEntry_abs _ _ _ _ HA) in Hs1 as [HA1 <-].
  destruct (Entry_Deleted e); [by apply (IH _ s1)|].
  apply bind_Ok in Hs' as (s2 & Hs2 & Hs'). apply wrap_Ok in Hs2.
  apply (addAvailability_abs _ _ _ _ _ _ HA1) in Hs2 as [HA2 <-]. by apply (IH _ s2).
Qed.

Lemma Abs_ext s a a' :
  Abs s a → files a = files a' → (∀ f, owners a !! f = owners a' !! f) → Abs s a'.
Proof.
  intros HA Hf Ho. replace a' with a; [done|].
  destruct a, a'; simpl in *. subst. f_equal. by apply map_eq.
Qed.

Lemma RemovePeer_hints_abs s a p :
  Abs s a → ∀ f, owners (remove_owners p (listByPrefixTx s p) a) !! f =
                 owners (spec_remove_hints p a) !! f.
Proof.
  intros HA f. rewrite remove_owners_lookup. simpl. rewrite map_lookup_imap.
  assert (f ∈ map Entry_FileID (listByPrefixTx s p) ↔ live a p f) as Hiff.
  { rewrite list_elem_of_fmap. unfold live. setoid_rewrite (elem_of_listByPrefixTx _ _ _ _ HA).
    split.
    - intros (e & -> & f' & Hf & Hd). destruct (abs_lookup _ _ _ _ _ HA Hf) as (_ & _ & _ & _ & <- & _).
      eauto.
    - intros (e & Hf & Hd). exists e. destruct (abs_lookup _ _ _ _ _ HA Hf) as (_ & _ & _ & _ & <- & _).
      eauto. }
  destruct (decide (live a p f)) as [Hl|Hl].
  - rewrite decide_True by tauto. by destruct (owners a !! f).
  - rewrite decide_False by tauto. by destruct (owners a !! f).
Qed.

Lemma exec_refines o s a res s' :
  Abs s a → exec o s = (res, s') →
  Abs s' (if is_Ok res then spec (selfID s) o a else a) ∧ selfID s' = selfID s.
Proof.
  intros HA Hex.
  assert (Hroll : is_Ok res = false → s' = s).
  { intros Hr. assert (res ≠ Ok tt) by (by intros ->).
    destruct o; apply (db_Update_rollback _ _ _ _ _ Hex); done. }
  destruct res as [[]|e|]; simpl; [|by rewrite Hroll..]. clear Hroll.
  destruct o as [clk e|clk f|clk p es|p]; pose proof (db_Update_Ok _ _ _ _ Hex) as Hfn;
    clear Hex; rename Hfn into Hex; cbv beta in Hex; simpl.
  - apply bind_Ok in Hex as (s1 & Hs1%wrap_Ok & Hs').
    apply (putEntry_abs _ _ _ _ HA) in Hs1 as [HA1 Hid1].
    apply (addAvailability_abs _ _ _ _ _ _ HA1) in Hs' as [HA2 Hid2]. split; [done|congruence].
  - pose proof (abs_files _ _ HA (selfID s) f) as Hf.
    destruct (bucket_Get _ _) as [raw|] eqn:Hg; simpl in Hf.
    2: { simplify_eq. by rewrite <- Hf. }
    apply bind_Ok in Hex as (e & He%wrap_Ok & (s1 & Hs1%wrap_Ok & Hs')%bind_Ok).
    unfold json_decode in Hf. rewrite He in Hf. rewrite <- Hf.
    destruct (abs_lookup _ _ _ _ _ HA (eq_sym Hf)) as (_ & _ & _ & Ho & _ & _).
    rewrite Ho in Hs1. apply (putEntry_abs _ _ _ _ HA) in Hs1 as [HA1 Hid1].
    apply (removeAvailability_abs _ _ _ _ _ HA1) in Hs' as [HA2 Hid2]. split; [done|congruence].
  - apply bind_Ok in Hex as (s1 & Hs1%wrap_Ok & Hs').
    apply (deleteByPrefix_abs _ _ _ _ HA) in Hs1 as [HA1 Hid1].
    apply (put_peer_entries_abs _ _ _ _ _ _ _ HA1) in Hs' as [HA2 Hid2]. split; [done|congruence].
  - apply bind_Ok in Hex as (s1 & Hs1 & Hs').
    apply (remove_hints_abs _ _ _ _ _ HA) in Hs1 as [HA1 Hid1].
    apply (Abs_ext _ _ (spec_remove_hints p a)) in HA1;
      [|by rewrite remove_owners_files|by apply RemovePeer_hints_abs].
    apply (deleteByPrefix_abs _ _ _ _ HA1) in Hs' as [HA2 Hid2]. split; [done|congruence].
Qed.

End Refinement.

(** A codec and a bucket for the catalog, to run it. *)
Module CatalogInstance.
Import MapBolt.

Definition entry_tuple (e : Entry) :=
  (Entry_FileID e, Entry_Name e, Entry_Size e, Entry_ModTime e, Entry_OwnerNodeID e,
   Entry_LocalPath e, Entry_Deleted e, Entry_UpdatedAt e).
Definition tuple_entry (t : file_id * bytes * Z * Z * node_id * bytes * bool * Z) : Entry :=
  let '(f, n, sz, mt, o, lp, d, u) := t in mk_Entry f n sz mt o lp d u.

#[export] Instance Entry_countable : Countable Entry.
Proof. refine (inj_countable' entry_tuple tuple_entry _). by intros []. Defined.

#[export] Instance OwnerHint_countable : Countable OwnerHint.
Proof.
  refine (inj_countable' (λ h, (Hint_NodeID h, Hint_SeenAt h))
                         (λ t, mk_OwnerHint t.1 t.2) _). by intros [].
Defined.

Definition zero_Entry : Entry :=
  mk_Entry (zero_arr 32) [] 0 zero_time (zero_arr 32) [] false zero_time.

#[export] Instance entry_codec : JsonCodec Entry := TinyJson.codec zero_Entry canon_entry.
#[export] Instance hints_codec : JsonCodec (list OwnerHint) := TinyJson.codec [] id.

#[export] Instance catalog_json : CatalogJson.
Proof.
  split; [apply TinyJson.laws, canon_entry_idemp|by apply TinyJson.laws|done|done].
Qed.

Definition new_store (self : node_id) : Store (gmap bytes bytes) :=
  {| entries := ∅; availability := ∅; selfID := self |}.

Definition self : node_id := copy_arr 32 (str "self").
Definition peer : node_id := copy_arr 32 (str "peer").
Definition file1 : file_id := copy_arr 32 (str "file-1").
Definition file2 : file_id := copy_arr 32 (str "file-2").

Definition entry (f : file_id) (name : string) : Entry :=
  mk_Entry f (str name) 5 0 (zero_arr 32) (str "/srv/" ++ str name) false 0.

End CatalogInstance.
