(* ===== verification/CatalogProps.v ===== *)
(** The properties of the catalog store: it implements the abstract catalog of
    [CatalogSpec], every live entry is findable through the availability index,
    the peer listing excludes its receiver, a peer's offer replaces its previous
    one, and stale availability hints survive. *)

From S2P Require Import Prelude GoStd Wire Codec Bolt Catalog CatalogSpec.

(** * The availability index, abstractly *)

Section Hints.
Implicit Types (a : ACat) (hs : list OwnerHint) (o n : node_id) (f g : file_id).

Definition hint_nodes a f : list node_id := map Hint_NodeID (default [] (owners a !! f)).

Lemma touch_hint_nodes now n hs :
  match touch_hint now n hs with
  | Some hs' => n ∈ map Hint_NodeID hs ∧ map Hint_NodeID hs' = map Hint_NodeID hs
  | None => n ∉ map Hint_NodeID hs
  end.
Proof.
  induction hs as [|h hs IH]; simpl; [set_solver|].
  destruct (bool_decide _) eqn:E; [apply bool_decide_eq_true in E|apply bool_decide_eq_false in E].
  - simpl. set_solver.
  - destruct (touch_hint now n hs); simpl; [|set_solver]. destruct IH as [? ->]. set_solver.
Qed.

Lemma put_hint_elem now n hs m :
  m ∈ map Hint_NodeID (put_hint now n hs) ↔ m ∈ map Hint_NodeID hs ∨ m = n.
Proof.
  unfold put_hint. pose proof (touch_hint_nodes now n hs).
  destruct (touch_hint now n hs); [destruct H as [? ->]; set_solver|].
  rewrite map_app. set_solver.
Qed.

Lemma put_hint_NoDup now n hs :
  NoDup (map Hint_NodeID hs) → NoDup (map Hint_NodeID (put_hint now n hs)).
Proof.
  intros Hd. unfold put_hint. pose proof (touch_hint_nodes now n hs) as Ht.
  destruct (touch_hint now n hs) as [hs'|]; [by destruct Ht as [_ ->]|].
  rewrite map_app. apply NoDup_app. split_and!; [done|set_solver|apply NoDup_singleton].
Qed.

Lemma others_nodes n hs :
  map Hint_NodeID (others n hs) = filter (λ m, m ≠ n) (map Hint_NodeID hs).
Proof.
  unfold others. induction hs as [|h hs IH]; simpl; [done|]. rewrite filter_cons.
  destruct (decide (Hint_NodeID h = n)) as [E|E]; simpl.
  - rewrite bool_decide_true, decide_False by tauto. done.
  - rewrite bool_decide_false, decide_True by done. simpl. by rewrite IH.
Qed.

Lemma default_nonempty hs : default [] (nonempty hs) = hs.
Proof. by destruct hs. Qed.

Lemma hint_nodes_add now f n a g m :
  m ∈ hint_nodes (add_owner now f n a) g ↔ m ∈ hint_nodes a g ∨ (g = f ∧ m = n).
Proof.
  unfold hint_nodes, add_owner; simpl. rewrite lookup_insert.
  case_decide as E; simpl; [subst; rewrite put_hint_elem|]; naive_solver.
Qed.

Lemma hint_nodes_remove f n a g m :
  m ∈ hint_nodes (remove_owner f n a) g ↔ m ∈ hint_nodes a g ∧ ¬ (g = f ∧ m = n).
Proof.
  unfold hint_nodes, remove_owner; simpl. rewrite lookup_partial_alter.
  case_decide as E; [subst|naive_solver].
  destruct (owners a !! g) as [hs|]; simpl; [|set_solver].
  rewrite default_nonempty, others_nodes, list_elem_of_filter. naive_solver.
Qed.

Lemma hint_nodes_spec_remove p a g m :
  m ∈ hint_nodes (spec_remove_hints p a) g ↔ m ∈ hint_nodes a g ∧ ¬ (m = p ∧ live a p g).
Proof.
  unfold hint_nodes, spec_remove_hints; simpl. rewrite map_lookup_imap.
  destruct (owners a !! g) as [hs|]; simpl; [|set_solver].
  case_decide; simpl; [|naive_solver].
  rewrite default_nonempty, others_nodes, list_elem_of_filter. naive_solver.
Qed.

Lemma live_put_file e a o f :
  live (put_file e a) o f ↔
  if decide ((Entry_OwnerNodeID e, Entry_FileID e) = (o, f)) then Entry_Deleted e = false
  else live a o f.
Proof.
  unfold live, put_file; simpl. rewrite lookup_insert. case_decide; [|done].
  split; [naive_solver|]. intros Hd. exists (canon_entry e). done.
Qed.

Lemma live_drop_files p a o f : live (drop_files p a) o f ↔ o ≠ p ∧ live a o f.
Proof.
  unfold live, drop_files; simpl. setoid_rewrite map_lookup_filter_Some. naive_solver.
Qed.

(** * Invariants *)

(** Every entry is stored under its own ids, every live entry has its owner among
    the hints of its file, and a hint list is not empty and names no node twice. *)
Record Inv a : Prop := {
  inv_stored o f e : files a !! (o, f) = Some e → stored e o f;
  inv_live o f : live a o f → o ∈ hint_nodes a f;
  inv_hints f hs : owners a !! f = Some hs → hs ≠ [] ∧ NoDup (map Hint_NodeID hs)
}.

(** The converse for one node: a hint for it is backed by a live entry. *)
Definition sound_for n a : Prop := ∀ f, n ∈ hint_nodes a f → live a n f.

Lemma put_file_stored e a :
  Inv a → ∀ o f e', files (put_file e a) !! (o, f) = Some e' → stored e' o f.
Proof.
  intros HI o f e'. simpl. rewrite lookup_insert. case_decide as E; [|apply (inv_stored _ HI)].
  intros [= <-]. simplify_eq. unfold stored. by rewrite canon_entry_idemp.
Qed.

Lemma put_hint_nonempty now n hs : put_hint now n hs ≠ [].
Proof.
  intros E. assert (n ∈ map Hint_NodeID (put_hint now n hs)) as Hin by (apply put_hint_elem; auto).
  rewrite E in Hin. set_solver.
Qed.

Lemma nodup_default a f : Inv a → NoDup (map Hint_NodeID (default [] (owners a !! f))).
Proof.
  intros HI. destruct (owners a !! f) eqn:E; simpl; [|constructor].
  by destruct (inv_hints _ HI _ _ E).
Qed.

Lemma add_owner_hints now f n a :
  Inv a → ∀ g hs, owners (add_owner now f n a) !! g = Some hs →
  hs ≠ [] ∧ NoDup (map Hint_NodeID hs).
Proof.
  intros HI g hs. simpl. rewrite lookup_insert. case_decide; [|apply (inv_hints _ HI)].
  intros [= <-]. split; [apply put_hint_nonempty|]. by apply put_hint_NoDup, nodup_default.
Qed.

Lemma nonempty_hints hs n hs' :
  NoDup (map Hint_NodeID hs) → nonempty (others n hs) = Some hs' →
  hs' ≠ [] ∧ NoDup (map Hint_NodeID hs').
Proof.
  intros Hd. pose proof (others_nodes n hs) as Ho. destruct (others n hs) as [|h l]; [done|].
  intros [= <-]. split; [done|]. rewrite Ho. by apply NoDup_filter.
Qed.

Lemma Inv_empty : Inv empty_cat.
Proof. split; unfold live; simpl; intros; simplify_map_eq; naive_solver. Qed.

Lemma Inv_put_live now e a :
  Inv a → Entry_Deleted e = false →
  Inv (add_owner now (Entry_FileID e) (Entry_OwnerNodeID e) (put_file e a)).
Proof.
  intros HI Hd. split; [by apply put_file_stored| |by apply (add_owner_hints _ _ _ a)].
  intros o f. rewrite hint_nodes_add. change (live (put_file e a) o f → o ∈ hint_nodes a f ∨ f = Entry_FileID e ∧ o = Entry_OwnerNodeID e).
  rewrite live_put_file. case_decide; [naive_solver|]. intros Hl. left. by apply (inv_live _ HI).
Qed.

Lemma Inv_put_deleted e a : Inv a → Entry_Deleted e = true → Inv (put_file e a).
Proof.
  intros HI Hd. split; [by apply put_file_stored| |apply (inv_hints _ HI)].
  intros o f. rewrite live_put_file. case_decide; [congruence|]. apply (inv_live _ HI).
Qed.

Lemma Inv_drop_files p a : Inv a → Inv (drop_files p a).
Proof.
  intros HI. split; [| |apply (inv_hints _ HI)].
  - intros o f e. simpl. rewrite map_lookup_filter_Some. intros [? _]. by apply (inv_stored _ HI).
  - intros o f [_ Hl]%live_drop_files. by apply (inv_live _ HI).
Qed.

Lemma Inv_put_peer clk k p es a : Inv a → Inv (spec_put_peer clk k p es a).
Proof.
  revert k a. induction es as [|e es IH]; intros k a HI; simpl; [done|].
  destruct (Entry_Deleted e) eqn:E; apply IH; [by apply Inv_put_deleted|].
  apply (Inv_put_live _ (set_owner e p (clk k) false)); done.
Qed.

Lemma Inv_delete_local now f self e a :
  Inv a → files a !! (self, f) = Some e →
  Inv (remove_owner f self (put_file (set_owner e self now true) a)).
Proof.
  intros HI Hf. destruct (inv_stored _ HI _ _ _ Hf) as (Ho & Hfid & _).
  split; [by apply put_file_stored| |].
  - intros o g. rewrite hint_nodes_remove.
    change (live (put_file (set_owner e self now true) a) o g →
            o ∈ hint_nodes a g ∧ ¬ (g = f ∧ o = self)).
    rewrite live_put_file. simpl. case_decide as E; [done|]. intros Hl.
    split; [by apply (inv_live _ HI)|]. intros [-> ->]. by rewrite Hfid in E.
  - intros g hs. simpl. rewrite lookup_partial_alter. case_decide; [|apply (inv_hints _ HI)].
    destruct (owners a !! f) eqn:Hg; simpl; [|done]. apply nonempty_hints.
    by destruct (inv_hints _ HI _ _ Hg).
Qed.

Lemma Inv_remove_peer p a : Inv a → Inv (drop_files p (spec_remove_hints p a)).
Proof.
  intros HI. split.
  - intros o f e. simpl. rewrite map_lookup_filter_Some. intros [? _]. by apply (inv_stored _ HI).
  - intros o f [Hne Hl]%live_drop_files.
    apply (hint_nodes_spec_remove p a). split; [by apply (inv_live _ HI)|naive_solver].
  - intros f hs. simpl. rewrite map_lookup_imap. destruct (owners a !! f) as [hs'|] eqn:E; simpl; [|done].
    apply (inv_hints _ HI) in E as [E1 E2]. case_decide; [by apply nonempty_hints|naive_solver].
Qed.

Lemma Inv_spec self (o : op) a : Inv a → Inv (spec self o a).
Proof.
  intros HI. destruct o as [clk e|clk f|clk p es|p]; simpl.
  - by apply (Inv_put_live _ (set_owner e self (clk 0%nat) false)).
  - destruct (files a !! (self, f)) eqn:E; [by apply Inv_delete_local|done].
  - by apply Inv_put_peer, Inv_drop_files.
  - by apply Inv_remove_peer.
Qed.

Lemma Inv_spec_all self os ress a : Inv a → Inv (spec_all self os ress a).
Proof.
  revert ress a. induction os as [|o os IH]; intros ress a HI;
    destruct ress as [|[[]|e|] ress]; simpl; auto using Inv_spec.
Qed.

(** ** Hints for this node are exact *)

Definition peer_op self (o : op) : Prop :=
  match o with OpPutPeerEntries _ p _ | OpRemovePeer p => p ≠ self | _ => True end.

Lemma sound_put_peer self clk k p es a :
  p ≠ self → sound_for self a → sound_for self (spec_put_peer clk k p es a).
Proof.
  intros Hne. revert k a. induction es as [|e es IH]; intros k a Hs; simpl; [done|].
  assert (Hs1 : sound_for self (put_file (set_owner e p (clk k) (Entry_Deleted e)) a)).
  { intros f Hf. apply live_put_file. simpl. rewrite decide_False by naive_solver. by apply Hs. }
  destruct (Entry_Deleted e); apply IH; [done|].
  intros f [Hf|[_ ->]]%hint_nodes_add; [by apply Hs1|done].
Qed.

Lemma sound_spec self (o : op) a :
  Inv a → peer_op self o → sound_for self a → sound_for self (spec self o a).
Proof.
  intros HI Hp Hs. destruct o as [clk e|clk f|clk p es|p]; simpl in *.
  - intros f Hf. apply live_put_file. simpl.
    apply hint_nodes_add in Hf as [Hf|[-> _]]; [|by rewrite decide_True].
    case_decide; [done|]. by apply Hs.
  - destruct (files a !! (self, f)) as [e|] eqn:E; [|done].
    destruct (inv_stored _ HI _ _ _ E) as (_ & Hfid & _).
    intros g [Hg Hne]%hint_nodes_remove. apply live_put_file. simpl.
    rewrite decide_False by naive_solver. by apply Hs.
  - apply sound_put_peer; [done|]. intros f Hf. apply live_drop_files. split; [done|]. by apply Hs.
  - intros f [Hf _]%hint_nodes_spec_remove. apply live_drop_files. split; [done|]. by apply Hs.
Qed.

End Hints.

(** * Reachable stores *)

Section Reachable.
Context {B : Type} `{BoltLaws B} `{CatalogJson}.
Implicit Types (s : Store B) (a : ACat) (e : Entry).

Definition new_store (self : node_id) : Store B :=
  {| entries := bucket_empty; availability := bucket_empty; selfID := self |}.

(** The stores that a node reaches from a fresh database by operations that
    satisfy [P], whatever their results. *)
Inductive reachable (P : op → Prop) (self : node_id) : Store B → Prop :=
| reach_new : reachable P self (new_store self)
| reach_step s o : reachable P self s → P o → reachable P self (snd (exec o s)).

Lemma reachable_abs P self s :
  reachable P self s →
  selfID s = self ∧ ∃ a, Abs s a ∧ Inv a ∧ ((∀ o, P o → peer_op self o) → sound_for self a).
Proof.
  induction 1 as [|s o _ [Hid (a & HA & HI & Hs)] Ho]; simpl.
  - split; [done|]. exists empty_cat. split_and!; [apply Abs_empty|apply Inv_empty|].
    intros _ f. unfold hint_nodes; simpl. rewrite lookup_empty. set_solver.
  - destruct (exec o s) as [res s'] eqn:E. apply (exec_refines _ _ a) in E as [HA' Hid']; [|done].
    simpl. split; [congruence|]. eexists; split; [exact HA'|]. rewrite Hid.
    destruct (is_Ok res); [|done]. split; [by apply Inv_spec|]. intros HP.
    apply sound_spec; auto.
Qed.

(** The read operations on a represented catalog. *)
Lemma GetEntry_abs s a o f : Abs s a → GetEntry s o f = Ok (files a !! (o, f)).
Proof.
  intros HA. unfold GetEntry. pose proof (abs_files _ _ HA o f) as Hf.
  destruct (bucket_Get _ _) as [raw|] eqn:Hg; simpl in Hf; [|by rewrite <- Hf].
  destruct (abs_keys _ _ HA _ _ Hg) as (o' & f' & e & Hk & Hd & _).
  rewrite <- Hf, Hd. unfold json_decode in Hd. by destruct (json_Unmarshal raw json_zero); simplify_eq/=.
Qed.

Lemma GetOwners_abs s a f : Abs s a → GetOwners s f = Ok (default [] (owners a !! f)).
Proof.
  intros HA. unfold GetOwners. pose proof (abs_owners _ _ HA f) as Hf.
  destruct (bucket_Get _ _) as [raw|] eqn:Hg; simpl in Hf; [|by rewrite <- Hf].
  destruct (abs_hints _ _ HA _ _ Hg) as [hs Hd].
  rewrite <- Hf, Hd. unfold json_decode in Hd. by destruct (json_Unmarshal raw json_zero); simplify_eq/=.
Qed.

Lemma collect_Ok (keep : Entry → bool) (kvs : list (bytes * bytes)) :
  Forall (λ kv, is_Some (json_decode (A := Entry) kv.2)) kvs →
  collect keep kvs = Ok (List.filter keep (omap (λ kv, json_decode kv.2) kvs)).
Proof.
  induction 1 as [|kv kvs [e He] _ IH]; simpl; [done|]. rewrite He, IH. simpl.
  unfold json_decode in He. destruct (json_Unmarshal kv.2 json_zero); simplify_eq/=. done.
Qed.

Lemma collect_abs s a keep :
  Abs s a →
  ∃ l, collect keep (bucket_items (entries s)) = Ok l ∧
       ∀ e, e ∈ l ↔ keep e = true ∧ ∃ o f, files a !! (o, f) = Some e.
Proof.
  intros HA. eexists; split.
  - apply collect_Ok, Forall_forall. intros [k v] Hkv%items_get.
    destruct (abs_keys _ _ HA _ _ Hkv) as (o & f & e & _ & Hd & _). simpl. by rewrite Hd.
  - intros e. rewrite list_elem_of_In, filter_In, <- list_elem_of_In, list_elem_of_omap. split.
    + intros [([k v] & Hkv%items_get & Hd) Hkeep]. split; [done|].
      destruct (abs_keys _ _ HA _ _ Hkv) as (o & f & e' & -> & _ & _).
      exists o, f. simpl in Hd. by rewrite <- (abs_files _ _ HA), Hkv.
    + intros (Hkeep & o & f & Hf). split; [|done].
      destruct (abs_lookup _ _ _ _ _ HA Hf) as (v & Hg & Hd & _).
      exists (compositeKey o f, v). by rewrite items_get.
Qed.

(** Which entry of the catalog it is. *)
Definition entry_key (e : Entry) : node_id * file_id := (Entry_OwnerNodeID e, Entry_FileID e).

Lemma collect_keys keep kvs l :
  NoDup (map fst kvs) →
  (∀ kv, kv ∈ kvs → ∃ e, json_decode kv.2 = Some e ∧ kv.1 = compositeKey (Entry_OwnerNodeID e) (Entry_FileID e)) →
  collect keep kvs = Ok l →
  NoDup (map entry_key l) ∧ ∀ e, e ∈ l → compositeKey (Entry_OwnerNodeID e) (Entry_FileID e) ∈ map fst kvs.
Proof.
  revert l. induction kvs as [|[k v] kvs IH]; intros l Hnd Hkv; simpl.
  { intros [= <-]. split; [constructor|by intros ? ?%elem_of_nil]. }
  apply NoDup_cons in Hnd as [Hk Hnd]. destruct (Hkv (k, v) (list_elem_of_here _ _)) as (e & Hd & Hek). simpl in *.
  unfold json_decode in Hd. destruct (json_Unmarshal v json_zero) as [e'| |]; simplify_eq/=.
  destruct (collect keep kvs) as [l'| |] eqn:Ec; [|done..].
  destruct (IH l' Hnd) as [Hnd' Hin']; [intros kv Hin; apply Hkv; by right|done|]. intros [= <-].
  destruct (keep e); [|split; [done|intros x Hx; right; by apply Hin']]. simpl. split.
  - constructor; [|done]. intros (x & [= Ho Hf] & Hx)%list_elem_of_fmap. apply Hk. rewrite Ho, Hf. by apply Hin'.
  - intros x [->|Hx]%elem_of_cons; [by left|right; by apply Hin'].
Qed.

(** Every entry is collected once. *)
Lemma collect_once s a keep l :
  Abs s a → collect keep (bucket_items (entries s)) = Ok l → NoDup (map entry_key l).
Proof.
  intros HA Hc. refine (proj1 (collect_keys keep (bucket_items (entries s)) l _ _ Hc)).
  - clear Hc. pose proof (items_sorted (entries s)) as Hs. induction Hs as [|x kvs _ IH Hx]; [constructor|].
    simpl. constructor; [|done]. intros (y & Hxy & Hy)%list_elem_of_fmap. rewrite Forall_forall in Hx.
    specialize (Hx y Hy). unfold key_lt in Hx. rewrite Hxy, bytes_ltb_irrefl in Hx. done.
  - intros [k v] Hkv%items_get. destruct (abs_keys _ _ HA _ _ Hkv) as (o & f & e & -> & Hd & Ho & Hf & _).
    exists e. simpl. by rewrite Ho, Hf.
Qed.

End Reachable.

(** * Properties *)

Section Facts.
Context {B : Type} `{BoltLaws B} `{CatalogJson}.
Implicit Types (s : Store B) (a : ACat) (e : Entry).

Lemma exec_all_refines os s a :
  Abs s a →
  Abs (snd (exec_all os s)) (spec_all (selfID s) os (fst (exec_all os s)) a) ∧
  selfID (snd (exec_all os s)) = selfID s.
Proof.
  revert s a. induction os as [|o os IH]; intros s a HA; simpl; [done|].
  destruct (exec o s) as [res s1] eqn:E. apply (exec_refines _ _ a) in E as [HA1 Hid]; [|done].
  destruct (IH _ _ HA1) as [HA2 Hid2]. rewrite Hid in HA2, Hid2.
  destruct (exec_all os s1) as [ress s2]. by destruct res.
Qed.

(** What an offer leaves for a file: its last entry for that file. *)
Definition offered (es : list Entry) (f : file_id) : option Entry :=
  last (filter (λ e, Entry_FileID e = f) es).

Lemma spec_put_peer_files clk k p es a o f :
  (o ≠ p → files (spec_put_peer clk k p es a) !! (o, f) = files a !! (o, f)) ∧
  match offered es f with
  | None => files (spec_put_peer clk k p es a) !! (p, f) = files a !! (p, f)
  | Some e => ∃ now, files (spec_put_peer clk k p es a) !! (p, f) =
                       Some (canon_entry (set_owner e p now (Entry_Deleted e)))
  end.
Proof.
  revert k a. induction es as [|e es IH]; intros k a; [done|].
  set (a1 := put_file (set_owner e p (clk k) (Entry_Deleted e)) a).
  assert (∃ k' a', files a' = files a1 ∧
            spec_put_peer clk k p (e :: es) a = spec_put_peer clk k' p es a')
    as (k' & a' & Hf & ->).
  { subst a1. simpl. destruct (Entry_Deleted e); do 2 eexists; (split; [|reflexivity]); done. }
  specialize (IH k' a'). rewrite Hf in IH. simpl in IH. rewrite !lookup_insert in IH.
  destruct IH as [IH1 IH2]. split.
  { intros Hne. rewrite IH1 by done. by rewrite decide_False by naive_solver. }
  unfold offered in *. rewrite filter_cons. destruct (decide (Entry_FileID e = f)) as [<-|Hne].
  - rewrite last_cons. destruct (last _); [done|]. exists (clk k).
    by rewrite decide_True in IH2.
  - by rewrite decide_False in IH2 by naive_solver.
Qed.

Definition storable {A} `{JsonCodec A} (v : A) : Prop :=
  ∃ data, json_Marshal v = Ok data ∧ len data ≤ MaxValueSize.

Lemma put_storable (b : B) k data :
  0 < len k ≤ MaxKeySize → len data ≤ MaxValueSize → ∃ b', bucket_Put b k data = Ok b'.
Proof.
  intros Hk Hd. pose proof (put_ok b k data Hk Hd). destruct (bucket_Put b k data); eauto; done.
Qed.

Lemma len_arr n (x : arr n) : len (arr_bytes x) = Z.of_nat n.
Proof. unfold len. by rewrite arr_length. Qed.

Lemma PutLocal_Ok clk s a e :
  Abs s a → (∀ b b', tx_commit b b' = Ok tt) →
  storable (set_owner e (selfID s) (clk 0%nat) false) →
  storable (put_hint (clk 1%nat) (selfID s) (default [] (owners a !! Entry_FileID e))) →
  fst (PutLocal clk s e) = Ok tt.
Proof.
  intros HA Hc (d1 & Hm1 & Hd1) (d2 & Hm2 & Hd2). unfold PutLocal, Update, db_Update, putEntry.
  rewrite Hm1; simpl.
  destruct (put_storable (entries s) (compositeKey (selfID s) (Entry_FileID e)) d1) as [b1 Hb1];
    [unfold compositeKey; rewrite len_app, !len_arr; done|done|].
  rewrite Hb1; simpl. unfold addAvailability; simpl.
  pose proof (abs_owners _ _ HA (Entry_FileID e)) as Ho.
  assert (match bucket_Get (availability s) (arr_bytes (Entry_FileID e)) with
          | Some raw => default [] (json_decode raw) | None => [] end
          = default [] (owners a !! Entry_FileID e)) as ->.
  { rewrite <- Ho. by destruct (bucket_Get _ _). }
  unfold put_hint in Hm2. rewrite Hm2. simpl.
  destruct (put_storable (availability s) (arr_bytes (Entry_FileID e)) d2) as [b2 Hb2];
    [by rewrite len_arr|done|]. rewrite Hb2. simpl. by rewrite Hc.
Qed.

Lemma LookupLocalByPath_abs s a path :
  Abs s a →
  match LookupLocalByPath s path with
  | Ok (Some e) => ∃ f, files a !! (selfID s, f) = Some e ∧ Entry_Deleted e = false ∧
                        Entry_LocalPath e = path
  | Ok None => ∀ f e, files a !! (selfID s, f) = Some e → Entry_Deleted e = false →
                      Entry_LocalPath e ≠ path
  | _ => False
  end.
Proof.
  intros HA. unfold LookupLocalByPath. destruct (List.find _ _) as [e|] eqn:E.
  - apply find_some in E as [Hin%list_elem_of_In Hp%bool_decide_eq_true].
    apply (elem_of_listByPrefixTx _ _ _ _ HA) in Hin as (f & ? & ?). eauto.
  - intros f e Hf Hd Hp. apply (find_none _ _) with (x := e) in E.
    + by apply bool_decide_eq_false in E.
    + apply list_elem_of_In, (elem_of_listByPrefixTx _ _ _ _ HA). eauto.
Qed.

End Facts.

(** C1. The bbolt store implements the abstract catalog: whatever operations a
    node performs on a fresh store, and whichever of them fail, the entries and
    owner hints it holds are those of the abstract run in which the successful
    operations took effect in order and the failed ones changed nothing. *)
Theorem catalog_refines {B : Type} `{BoltLaws B} `{CatalogJson}
    (self : node_id) (os : list op) :
  Abs (B := B) (snd (exec_all os (new_store self)))
      (spec_all self os (fst (exec_all os (new_store (B := B) self))) empty_cat).
Proof. apply (exec_all_refines os (new_store self)). apply Abs_empty. Qed.

Lemma GetOwners_live {B : Type} `{BoltLaws B} `{CatalogJson}
    (P : op → Prop) (self : node_id) (s : Store B) (o f : arr 32) (e : Entry) :
  reachable P self s →
  GetEntry s o f = Ok (Some e) → Entry_Deleted e = false →
  ∃ hs, GetOwners s f = Ok hs ∧ NoDup (map Hint_NodeID hs) ∧ o ∈ map Hint_NodeID hs.
Proof.
  intros (_ & a & HA & HI & _)%reachable_abs. rewrite (GetEntry_abs _ _ _ _ HA).
  intros [= Hf] Hd. rewrite (GetOwners_abs _ _ _ HA). eexists; split; [reflexivity|].
  split; [by apply nodup_default|]. apply (inv_live _ HI). by exists e.
Qed.

(** Every live entry of a reachable store is findable: [GetOwners] of its
    file succeeds and names its owner, and no owner is named twice. *)
Theorem GetOwners_complete {B : Type} `{BoltLaws B} `{CatalogJson}
    (P : op → Prop) (self : node_id) (s : Store B) (o f : arr 32) (e : Entry) :
  reachable P self s →
  GetEntry s o f = Ok (Some e) → Entry_Deleted e = false →
  ∃ hs, GetOwners s f = Ok hs ∧ NoDup (map Hint_NodeID hs) ∧ o ∈ map Hint_NodeID hs.
Proof. apply GetOwners_live. Qed.

(** For files of this node the hints are exact: as long as no remote peer uses
    the node's own id, [GetOwners] names the node if and only if the node has a
    live entry for the file. *)
Theorem GetOwners_self_exact {B : Type} `{BoltLaws B} `{CatalogJson}
    (self : node_id) (s : Store B) (f : file_id) :
  reachable (peer_op self) self s →
  ∃ hs, GetOwners s f = Ok hs ∧
    (self ∈ map Hint_NodeID hs ↔
     ∃ e, GetEntry s self f = Ok (Some e) ∧ Entry_Deleted e = false).
Proof.
  intros (_ & a & HA & HI & Hs)%reachable_abs. rewrite (GetOwners_abs _ _ _ HA).
  eexists; split; [reflexivity|]. rewrite (GetEntry_abs _ _ _ _ HA). split.
  - intros (e & He & Hd)%(Hs (λ _ Ho, Ho)). exists e. by rewrite He.
  - intros (e & [= He] & Hd). apply (inv_live _ HI). by exists e.
Qed.

Lemma ListForPeer_elems {B : Type} `{BoltLaws B} `{CatalogJson}
    (P : op → Prop) (self : node_id) (s : Store B) (x : node_id) :
  reachable P self s →
  ∃ l, ListForPeer s x = Ok l ∧
    ∀ e, e ∈ l ↔ Entry_Deleted e = false ∧ Entry_OwnerNodeID e ≠ x ∧
                 GetEntry s (Entry_OwnerNodeID e) (Entry_FileID e) = Ok (Some e).
Proof.
  intros (_ & a & HA & HI & _)%reachable_abs. unfold ListForPeer.
  destruct (collect_abs s a (λ e, negb (Entry_Deleted e) &&
              negb (bool_decide (Entry_OwnerNodeID e = x))) HA) as (l & -> & Hl).
  exists l. split; [done|]. intros e. rewrite Hl, (GetEntry_abs _ _ _ _ HA).
  rewrite andb_true_iff, !negb_true_iff, bool_decide_eq_false. split.
  - intros ([? ?] & o & f & Hf). destruct (inv_stored _ HI _ _ _ Hf) as (<- & <- & _).
    naive_solver congruence.
  - intros (? & ? & [= Hf]). eauto.
Qed.

(** C17. The typing of the two buckets: on every store a node can reach, a pair of the
    entries bucket is a 64 byte key, owner then file, whose value decodes to an
    entry with exactly that owner and file; the record of a file in the
    availability bucket decodes to hints that are not empty and name no node
    twice; and the owner of every live entry is among the owners of its file. *)
Theorem store_well_formed {B : Type} `{BoltLaws B} `{CatalogJson}
    (P : op → Prop) (self : node_id) (s : Store B) :
  reachable P self s →
  selfID s = self ∧
  (∀ k v, bucket_Get (entries s) k = Some v →
     len k = 64 ∧
     ∃ e, json_decode v = Some e ∧ k = compositeKey (Entry_OwnerNodeID e) (Entry_FileID e) ∧
          GetEntry s (Entry_OwnerNodeID e) (Entry_FileID e) = Ok (Some e)) ∧
  (∀ (f : file_id) v, bucket_Get (availability s) (arr_bytes f) = Some v →
     ∃ hs, json_decode v = Some hs ∧ GetOwners s f = Ok hs ∧
           hs ≠ [] ∧ NoDup (map Hint_NodeID hs)) ∧
  (∀ o f e, GetEntry s o f = Ok (Some e) → Entry_Deleted e = false →
     ∃ hs, GetOwners s f = Ok hs ∧ o ∈ map Hint_NodeID hs).
Proof.
  intros (Hid & a & HA & HI & _)%reachable_abs. split_and!; [done| | |].
  - intros k v Hk. destruct (abs_keys _ _ HA _ _ Hk) as (o & f & e & -> & Hd & <- & <- & _).
    split; [unfold compositeKey; by rewrite len_app, !len_arr|].
    exists e. split_and!; [done..|].
    rewrite (GetEntry_abs _ _ _ _ HA), <- (abs_files _ _ HA), Hk. simpl. by rewrite Hd.
  - intros f v Hv. destruct (abs_hints _ _ HA _ _ Hv) as [hs Hd].
    assert (owners a !! f = Some hs) as Ho by (by rewrite <- (abs_owners _ _ HA), Hv).
    exists hs. rewrite (GetOwners_abs _ _ _ HA), Ho.
    split_and!; [done..| |]; by apply (inv_hints _ HI f).
  - intros o f e He Hd. rewrite (GetEntry_abs _ _ _ _ HA) in He. injection He as He.
    exists (default [] (owners a !! f)). split; [apply (GetOwners_abs _ _ _ HA)|].
    apply (inv_live _ HI). by exists e.
Qed.

(** The catalog sent to a peer is exactly the live entries of everybody else:
    on a reachable store [ListForPeer] succeeds and returns the entries that are
    not deleted and not owned by the excluded node, and no others. *)
Theorem ListForPeer_exact {B : Type} `{BoltLaws B} `{CatalogJson}
    (P : op → Prop) (self : node_id) (s : Store B) (x : node_id) :
  reachable P self s →
  ∃ l, ListForPeer s x = Ok l ∧
    ∀ e, e ∈ l ↔ Entry_Deleted e = false ∧ Entry_OwnerNodeID e ≠ x ∧
                 GetEntry s (Entry_OwnerNodeID e) (Entry_FileID e) = Ok (Some e).
Proof. apply ListForPeer_elems. Qed.

Lemma PutPeerEntries_effect {B : Type} `{BoltLaws B} `{CatalogJson}
    (P : op → Prop) (self : node_id) (clk : nat → Z) (s s' : Store B) (p : node_id)
    (es : list Entry) (f : file_id) :
  reachable P self s →
  PutPeerEntries clk s p es = (Ok tt, s') →
  (∀ o, o ≠ p → GetEntry s' o f = GetEntry s o f) ∧
  match offered es f with
  | None => GetEntry s' p f = Ok None
  | Some e => ∃ now, GetEntry s' p f =
                Ok (Some (canon_entry (set_owner e p now (Entry_Deleted e))))
  end.
Proof.
  intros (_ & a & HA & _ & _)%reachable_abs Hput.
  apply (exec_refines (OpPutPeerEntries clk p es) s a _ _ HA) in Hput as [HA' _]. simpl in HA'.
  split.
  - intros o Hne. rewrite (GetEntry_abs _ _ _ _ HA'), (GetEntry_abs _ _ _ _ HA).
    rewrite (proj1 (spec_put_peer_files clk 0 p es (drop_files p a) o f) Hne). simpl.
    rewrite map_lookup_filter. destruct (files a !! (o, f)); simpl; [|done].
    by rewrite option_guard_True.
  - rewrite (GetEntry_abs _ _ _ _ HA').
    destruct (spec_put_peer_files clk 0 p es (drop_files p a) p f) as [_ Hf].
    destruct (offered es f).
    + destruct Hf as [now ->]. eauto.
    + rewrite Hf. simpl. rewrite map_lookup_filter. destruct (files a !! (p, f)); simpl; [|done].
      by rewrite option_guard_False by naive_solver.
Qed.

(** A peer's offer replaces its previous one: after a successful
    [PutPeerEntries] the peer's entry for a file is the last one the offer has for
    that file, under the peer's id whatever owner the offer claims, or none; the
    entries of all other owners are untouched. *)
Theorem PutPeerEntries_replaces {B : Type} `{BoltLaws B} `{CatalogJson}
    (P : op → Prop) (self : node_id) (clk : nat → Z) (s s' : Store B) (p : node_id)
    (es : list Entry) (f : file_id) :
  reachable P self s →
  PutPeerEntries clk s p es = (Ok tt, s') →
  (∀ o, o ≠ p → GetEntry s' o f = GetEntry s o f) ∧
  match offered es f with
  | None => GetEntry s' p f = Ok None
  | Some e => ∃ now, GetEntry s' p f =
                Ok (Some (canon_entry (set_owner e p now (Entry_Deleted e))))
  end.
Proof. apply PutPeerEntries_effect. Qed.

(** Availability hints of a peer outlive its files: once [GetOwners] names a
    peer for a file, an empty offer from the peer followed by [RemovePeer] leaves
    the store without any entry of the peer and still naming it. *)
Theorem stale_hint_survives {B : Type} `{BoltLaws B} `{CatalogJson}
    (P : op → Prop) (self : node_id) (clk : nat → Z) (s s' : Store B) (p : node_id)
    (f : file_id) (hs : list OwnerHint) :
  reachable P self s →
  GetOwners s f = Ok hs → p ∈ map Hint_NodeID hs →
  exec_all [OpPutPeerEntries clk p []; OpRemovePeer p] s = ([Ok tt; Ok tt], s') →
  ListByOwner s' p = Ok [] ∧ ∃ hs', GetOwners s' f = Ok hs' ∧ p ∈ map Hint_NodeID hs'.
Proof.
  intros (_ & a & HA & _ & _)%reachable_abs. rewrite (GetOwners_abs _ _ _ HA). intros [= <-] Hp He.
  destruct (exec_all_refines [OpPutPeerEntries clk p []; OpRemovePeer p] s a HA) as [HA' _].
  rewrite He in HA'. simpl in HA'. split.
  - unfold ListByOwner, listByPrefix. f_equal. apply elem_of_nil_inv. intros e.
    rewrite (elem_of_listByPrefixTx _ _ _ _ HA'). intros (f' & Hf' & _).
    apply map_lookup_filter_Some in Hf' as [_ Hne]. done.
  - rewrite (GetOwners_abs _ _ _ HA'). eexists; split; [reflexivity|].
    apply (hint_nodes_spec_remove p (drop_files p a)). split; [done|].
    intros [_ [? _]%live_drop_files]. done.
Qed.

Lemma PutLocal_effect {B : Type} `{BoltLaws B} `{CatalogJson}
    (P : op → Prop) (self : node_id) (clk : nat → Z) (s : Store B) (e : Entry)
    (hs : list OwnerHint) :
  reachable P self s →
  GetOwners s (Entry_FileID e) = Ok hs →
  (∀ b b' : B, tx_commit b b' = Ok tt) →
  storable (set_owner e self (clk 0%nat) false) →
  storable (put_hint (clk 1%nat) self hs) →
  utf8_ok (Entry_LocalPath e) = true →
  ∃ s' e' hs', PutLocal clk s e = (Ok tt, s') ∧
    GetEntry s' self (Entry_FileID e) =
      Ok (Some (canon_entry (set_owner e self (clk 0%nat) false))) ∧
    LookupLocalByPath s' (Entry_LocalPath e) = Ok (Some e') ∧
    Entry_LocalPath e' = Entry_LocalPath e ∧
    GetOwners s' (Entry_FileID e) = Ok hs' ∧ self ∈ map Hint_NodeID hs' ∧
    ∀ o f, (o, f) ≠ (self, Entry_FileID e) → GetEntry s' o f = GetEntry s o f.
Proof.
  intros (Hid & a & HA & _ & _)%reachable_abs. rewrite (GetOwners_abs _ _ _ HA).
  intros [= <-] Hc H1' H2' Hutf. subst self.
  pose proof (PutLocal_Ok _ _ _ _ HA Hc H1' H2') as Hok.
  destruct (PutLocal clk s e) as [res s'] eqn:E. simpl in Hok. subst res.
  apply (exec_refines (OpPutLocal clk e) s a _ _ HA) in E as [HA' Hid']. simpl in HA'.
  assert (Hget : files (spec (selfID s) (OpPutLocal clk e) a) !! (selfID s, Entry_FileID e) =
                 Some (canon_entry (set_owner e (selfID s) (clk 0%nat) false))).
  { simpl. by rewrite lookup_insert_eq. }
  pose proof (LookupLocalByPath_abs s' _ (Entry_LocalPath e) HA') as Hlook. rewrite Hid' in Hlook.
  destruct (LookupLocalByPath s' (Entry_LocalPath e)) as [[e'|]|e'|] eqn:El; [|exfalso|done|done].
  2: { apply (Hlook _ _ Hget); [done|]. by apply bool_decide_eq_true in Hutf. }
  destruct Hlook as (f' & _ & _ & Hpath). exists s', e'. eexists.
  rewrite (GetOwners_abs _ _ _ HA'). rewrite (GetEntry_abs _ _ _ _ HA').
  split_and!; [done|by rewrite <- Hget|done|done|reflexivity| |].
  - apply (hint_nodes_add (clk 1%nat) (Entry_FileID e) (selfID s) a). auto.
  - intros o f Hne. rewrite (GetEntry_abs _ _ _ _ HA'), (GetEntry_abs _ _ _ _ HA). simpl.
    by rewrite lookup_insert_ne by done.
Qed.

(** Adding a local file takes effect: when the record fits the database and
    the commit succeeds, [PutLocal] succeeds and afterwards the file is found by
    owner and id, by its path and through the availability index, and no other
    entry has changed. *)
Theorem PutLocal_visible {B : Type} `{BoltLaws B} `{CatalogJson}
    (P : op → Prop) (self : node_id) (clk : nat → Z) (s : Store B) (e : Entry)
    (hs : list OwnerHint) :
  reachable P self s →
  GetOwners s (Entry_FileID e) = Ok hs →
  (∀ b b' : B, tx_commit b b' = Ok tt) →
  storable (set_owner e self (clk 0%nat) false) →
  storable (put_hint (clk 1%nat) self hs) →
  utf8_ok (Entry_LocalPath e) = true →
  ∃ s' e' hs', PutLocal clk s e = (Ok tt, s') ∧
    GetEntry s' self (Entry_FileID e) =
      Ok (Some (canon_entry (set_owner e self (clk 0%nat) false))) ∧
    LookupLocalByPath s' (Entry_LocalPath e) = Ok (Some e') ∧
    Entry_LocalPath e' = Entry_LocalPath e ∧
    GetOwners s' (Entry_FileID e) = Ok hs' ∧ self ∈ map Hint_NodeID hs' ∧
    ∀ o f, (o, f) ≠ (self, Entry_FileID e) → GetEntry s' o f = GetEntry s o f.
Proof. apply PutLocal_effect. Qed.

(** Wire conversion loses nothing the message carries: a catalog file that is
    accepted converts back to itself, it is accepted exactly when both ids have 32
    bytes, and an entry sent and received keeps its id, owner, name, size, deletion
    mark and modification second, without its local path. *)
Theorem ProtoToEntry_roundtrip (cf : CatalogFile) (e : Entry) :
  is_int64 (CatalogFile_ModTimeUnix cf) →
  (is_Ok (ProtoToEntry cf) = true ↔
     len (CatalogFile_FileId cf) = 32 ∧ len (CatalogFile_OwnerNodeId cf) = 32) ∧
  (∀ e', ProtoToEntry cf = Ok e' → EntryToProto e' = cf) ∧
  ProtoToEntry (EntryToProto e) =
    Ok (mk_Entry (Entry_FileID e) (Entry_Name e) (Entry_Size e)
          (time_Unix (Unix (Entry_ModTime e))) (Entry_OwnerNodeID e) []
          (Entry_Deleted e) zero_time).
Proof.
  intros Hmod. unfold ProtoToEntry. split_and!.
  - destruct (Z.eqb_spec (len (CatalogFile_FileId cf)) 32), (Z.eqb_spec (len (CatalogFile_OwnerNodeId cf)) 32);
      naive_solver.
  - intros e'.
    destruct (Z.eqb_spec (len (CatalogFile_FileId cf)) 32) as [H1|]; [|done].
    destruct (Z.eqb_spec (len (CatalogFile_OwnerNodeId cf)) 32) as [H2|]; [|done].
    intros [= <-]. unfold EntryToProto; simpl.
    rewrite !copy_arr_exact by (unfold len in *; lia). rewrite Unix_time_Unix by done. by destruct cf.
  - simpl. rewrite !len_arr. simpl. by rewrite !copy_arr_id.
Qed.

(** * Witnesses *)

Module CatalogWitness.
Import MapBolt CatalogInstance.

Definition clk (k : nat) : Z := 1000 + Z.of_nat k.

Definition ops : list op :=
  [OpPutLocal clk (entry file1 "a.txt");
   OpPutPeerEntries clk peer [entry file1 "a.txt"; entry file2 "b.txt"]].

Definition s0 : Store (gmap bytes bytes) := CatalogProps.new_store self.
Definition s1 : Store (gmap bytes bytes) := snd (exec (OpPutLocal clk (entry file1 "a.txt")) s0).
Definition s2 : Store (gmap bytes bytes) :=
  snd (exec (OpPutPeerEntries clk peer [entry file1 "a.txt"; entry file2 "b.txt"]) s1).

Lemma s2_reachable : reachable (peer_op self) self s2.
Proof.
  apply reach_step; [|by vm_compute]. apply reach_step; [|done]. apply reach_new.
Qed.

Lemma catalog_refines_witness :
  Abs (snd (exec_all ops s0)) (spec_all self ops (fst (exec_all ops s0)) empty_cat) ∧
  fst (exec_all ops s0) = [Ok tt; Ok tt].
Proof. split; [apply (catalog_refines self ops)|by vm_compute]. Defined.

Definition stored_peer : Entry := set_owner (entry file2 "b.txt") peer 1002 false.

Lemma GetOwners_complete_witness :
  ∃ hs, GetOwners s2 file2 = Ok hs ∧ NoDup (map Hint_NodeID hs) ∧ peer ∈ map Hint_NodeID hs.
Proof.
  apply (GetOwners_complete (peer_op self) self s2 peer file2 stored_peer);
    [apply s2_reachable|by vm_compute|done].
Defined.

Lemma GetOwners_self_exact_witness :
  ∃ hs, GetOwners s2 file1 = Ok hs ∧
    (self ∈ map Hint_NodeID hs ↔
     ∃ e, GetEntry s2 self file1 = Ok (Some e) ∧ Entry_Deleted e = false).
Proof. apply (GetOwners_self_exact self s2 file1), s2_reachable. Defined.

Lemma store_well_formed_witness :
  reachable (peer_op self) self s2 ∧
  ∃ hs, GetOwners s2 file1 = Ok hs ∧ self ∈ map Hint_NodeID hs.
Proof.
  split; [apply s2_reachable|].
  destruct (store_well_formed (peer_op self) self s2 s2_reachable) as (_ & _ & _ & Hlive).
  assert (∃ e, GetEntry s2 self file1 = Ok (Some e) ∧ Entry_Deleted e = false) as (e & He & Hd)
    by (eexists; split; [vm_compute; reflexivity|reflexivity]).
  exact (Hlive self file1 e He Hd).
Defined.

Lemma ListForPeer_exact_witness :
  ∃ l, ListForPeer s2 peer = Ok l ∧
    ∀ e, e ∈ l ↔ Entry_Deleted e = false ∧ Entry_OwnerNodeID e ≠ peer ∧
                 GetEntry s2 (Entry_OwnerNodeID e) (Entry_FileID e) = Ok (Some e).
Proof. apply (ListForPeer_exact (peer_op self) self s2 peer), s2_reachable. Defined.

Definition s3 : Store (gmap bytes bytes) := snd (PutPeerEntries clk s2 peer [entry file2 "c.txt"]).

Lemma PutPeerEntries_replaces_witness :
  (∀ o, o ≠ peer → GetEntry s3 o file2 = GetEntry s2 o file2) ∧
  match offered [entry file2 "c.txt"] file2 with
  | None => GetEntry s3 peer file2 = Ok None
  | Some e => ∃ now, GetEntry s3 peer file2 =
                Ok (Some (canon_entry (set_owner e peer now (Entry_Deleted e))))
  end.
Proof.
  apply (PutPeerEntries_replaces (peer_op self) self clk s2 s3 peer [entry file2 "c.txt"] file2);
    [apply s2_reachable|unfold s3; apply pair_fst; by vm_compute].
Defined.

Definition s4 : Store (gmap bytes bytes) :=
  snd (exec_all [OpPutPeerEntries clk peer []; OpRemovePeer peer] s2).

Lemma stale_hint_survives_witness :
  ListByOwner s4 peer = Ok [] ∧ ∃ hs', GetOwners s4 file2 = Ok hs' ∧ peer ∈ map Hint_NodeID hs'.
Proof.
  apply (stale_hint_survives (peer_op self) self clk s2 s4 peer file2 [mk_OwnerHint peer 1003]);
    [apply s2_reachable|by vm_compute|by left|unfold s4; apply pair_fst; by vm_compute].
Defined.

Lemma PutLocal_visible_witness :
  ∃ s' e' hs', PutLocal clk s2 (entry file2 "b.txt") = (Ok tt, s') ∧
    GetEntry s' self file2 =
      Ok (Some (canon_entry (set_owner (entry file2 "b.txt") self (clk 0%nat) false))) ∧
    LookupLocalByPath s' (str "/srv/b.txt") = Ok (Some e') ∧
    Entry_LocalPath e' = str "/srv/b.txt" ∧
    GetOwners s' file2 = Ok hs' ∧ self ∈ map Hint_NodeID hs' ∧
    ∀ o f, (o, f) ≠ (self, file2) → GetEntry s' o f = GetEntry s2 o f.
Proof.
  apply (PutLocal_visible (peer_op self) self clk s2 (entry file2 "b.txt")
           [mk_OwnerHint peer 1003]);
    [apply s2_reachable|by vm_compute|done| | |by vm_compute].
  - eexists; split; [reflexivity|]. apply Z.leb_le. by vm_compute.
  - eexists; split; [reflexivity|]. apply Z.leb_le. by vm_compute.
Defined.

Definition file : CatalogFile :=
  Build_CatalogFile (arr_bytes file1) (str "a.txt") 5 1700000000 (arr_bytes self) false.

Lemma ProtoToEntry_roundtrip_witness :
  (is_Ok (ProtoToEntry file) = true ↔
     len (CatalogFile_FileId file) = 32 ∧ len (CatalogFile_OwnerNodeId file) = 32) ∧
  (∀ e', ProtoToEntry file = Ok e' → EntryToProto e' = file) ∧
  ProtoToEntry (EntryToProto (entry file1 "a.txt")) =
    Ok (mk_Entry file1 (str "a.txt") 5 (time_Unix (Unix 0)) (zero_arr 32) [] false zero_time).
Proof. apply (ProtoToEntry_roundtrip file (entry file1 "a.txt")). by vm_compute. Defined.

End CatalogWitness.
