(* ===== verification/Peerstore.v ===== *)
(** The peer store, [internal/peerstore]: known peers with their pinned public
    keys, and the nonces of used invites. Two bbolt buckets, [peers] keyed by node
    id and [nonces]. A database opened read-only may lack the buckets; using a
    missing bucket is a nil dereference. [now] is the result of [time.Now()]. *)

From S2P Require Import Prelude GoStd Codec Bolt.

(** * peer.go *)

(** [TrustState] is a string type with three named constants. *)
Definition TrustTOFU : bytes := str "tofu".
Definition TrustSuspect : bytes := str "suspect".
Definition TrustBlocked : bytes := str "blocked".

Record Peer := mk_Peer {
  Peer_NodeID : node_id;
  Peer_PublicKey : bytes;
  Peer_Endpoints : list bytes;
  Peer_TrustState : bytes;
  Peer_LastSeen : Z
}.

#[global] Instance Peer_eq_dec : EqDecision Peer.
Proof. solve_decision. Defined.

(** * store.go *)

Definition ErrKeyChanged : error :=
  Sentinel "peerstore: public key changed for known node (TOFU violation)".

(** bbolt's error for a write transaction on a read-only database. *)
Definition ErrDatabaseReadOnly : error := Sentinel "database is in read-only mode".

(** The endpoints of [incoming] that are not in [existing], after [existing]:
    [seen] is not extended by the second loop. *)
Definition mergeEndpoints (existing incoming : list bytes) : list bytes :=
  existing ++ List.filter (λ ep, negb (bool_decide (ep ∈ existing))) incoming.

Section Store.
Context {B : Type} `{Bolt B} `{JsonCodec Peer}.

Record Store := mk_Store { peers : option B; nonces : option B; read_only : bool }.

Definition with_peers (s : Store) (b : B) : Store :=
  {| peers := Some b; nonces := nonces s; read_only := read_only s |}.
Definition with_nonces (s : Store) (b : B) : Store :=
  {| peers := peers s; nonces := Some b; read_only := read_only s |}.

Definition Update (fn : Store → outcome Store) (s : Store) : outcome unit * Store :=
  if read_only s then (Err ErrDatabaseReadOnly, s)
  else db_Update (λ s', tx_commit (default bucket_empty (peers s'))
                                  (default bucket_empty (nonces s'))) fn s.

(** A method call on the bucket [tx.Bucket(name)]. *)
Definition on_bucket {A} (b : option B) (f : B → outcome A) : outcome A :=
  match b with Some b => f b | None => Panic end.

(** [disk] is the result of [bolt.Open]: the buckets found in the file. *)
Definition Open (disk : outcome (option B * option B)) : outcome Store :=
  match wrap "open peerstore: %w" disk with
  | Ok (pb, nb) =>
      let s := {| peers := pb; nonces := nb; read_only := false |} in
      let '(res, s') :=
        Update (λ tx, Ok {| peers := Some (default bucket_empty (peers tx));
                            nonces := Some (default bucket_empty (nonces tx));
                            read_only := read_only tx |}) s in
      wrap "init buckets: %w" res;; Ok s'
  | Err e => Err e
  | Panic => Panic
  end.

Definition OpenReadOnly (disk : outcome (option B * option B)) : outcome Store :=
  db ← wrap "open peerstore: %w" disk;
  Ok {| peers := db.1; nonces := db.2; read_only := true |}.

Definition with_endpoints (p : Peer) (eps : list bytes) : Peer :=
  {| Peer_NodeID := Peer_NodeID p; Peer_PublicKey := Peer_PublicKey p; Peer_Endpoints := eps;
     Peer_TrustState := Peer_TrustState p; Peer_LastSeen := Peer_LastSeen p |}.

Definition with_last_seen (p : Peer) (now : Z) : Peer :=
  {| Peer_NodeID := Peer_NodeID p; Peer_PublicKey := Peer_PublicKey p;
     Peer_Endpoints := Peer_Endpoints p; Peer_TrustState := Peer_TrustState p;
     Peer_LastSeen := now |}.

(** [if updated.TrustState == "" { updated.TrustState = TrustTOFU }]. *)
Definition default_trust (p : Peer) : Peer :=
  {| Peer_NodeID := Peer_NodeID p; Peer_PublicKey := Peer_PublicKey p;
     Peer_Endpoints := Peer_Endpoints p;
     Peer_TrustState := match Peer_TrustState p with [] => TrustTOFU | t => t end;
     Peer_LastSeen := Peer_LastSeen p |}.

Definition PutPeer (now : Z) (s : Store) (p : Peer) : outcome unit * Store :=
  Update (λ tx, on_bucket (peers tx) (λ b,
    let key := arr_bytes (Peer_NodeID p) in
    updated ←
      match bucket_Get b key with
      | None => Ok p
      | Some existing =>
          prev ← wrap "unmarshal existing peer: %w" (json_Unmarshal existing json_zero);
          if negb (bool_decide (Peer_PublicKey prev = Peer_PublicKey p)) then Err ErrKeyChanged
          else Ok (with_endpoints p (mergeEndpoints (Peer_Endpoints prev) (Peer_Endpoints p)))
      end;
    let updated := with_last_seen (default_trust updated) now in
    data ← wrap "marshal peer: %w" (json_Marshal updated);
    b' ← bucket_Put b key data;
    Ok (with_peers tx b'))) s.

Definition GetPeer (s : Store) (nodeID : node_id) : outcome (option Peer) :=
  wrap "get peer: %w" (on_bucket (peers s) (λ b,
    match bucket_Get b (arr_bytes nodeID) with
    | None => Ok None
    | Some data => p ← json_Unmarshal data json_zero; Ok (Some p)
    end)).

Fixpoint decode_peers (kvs : list (bytes * bytes)) : outcome (list Peer) :=
  match kvs with
  | [] => Ok []
  | kv :: kvs' =>
      p ← json_Unmarshal kv.2 json_zero;
      ps ← decode_peers kvs';
      Ok (p :: ps)
  end.

Definition ListPeers (s : Store) : outcome (list Peer) :=
  wrap "list peers: %w" (on_bucket (peers s) (λ b, decode_peers (bucket_items b))).

Definition UpdateLastSeen (now : Z) (s : Store) (nodeID : node_id) : outcome unit * Store :=
  Update (λ tx, on_bucket (peers tx) (λ b,
    match bucket_Get b (arr_bytes nodeID) with
    | None => Ok tx
    | Some data =>
        p ← wrap "unmarshal peer: %w" (json_Unmarshal data json_zero);
        updated ← wrap "marshal peer: %w" (json_Marshal (with_last_seen p now));
        b' ← bucket_Put b (arr_bytes nodeID) updated;
        Ok (with_peers tx b')
    end)) s.

Definition HasNonce (s : Store) (nonce : arr 16) : outcome bool :=
  on_bucket (nonces s) (λ b,
    Ok (match bucket_Get b (arr_bytes nonce) with Some _ => true | None => false end)).

Definition SaveNonce (s : Store) (nonce : arr 16) : outcome unit * Store :=
  Update (λ tx, on_bucket (nonces tx) (λ b,
    b' ← bucket_Put b (arr_bytes nonce) [];
    Ok (with_nonces tx b'))) s.

End Store.
Arguments Store : clear implicits.

(** * Runs of the store *)

(** A peer as it comes back from the database. *)
Definition canon_peer (p : Peer) : Peer := {|
  Peer_NodeID := Peer_NodeID p; Peer_PublicKey := Peer_PublicKey p;
  Peer_Endpoints := map utf8_repair (Peer_Endpoints p);
  Peer_TrustState := utf8_repair (Peer_TrustState p); Peer_LastSeen := Peer_LastSeen p
|}.

Class PeerJson `{JsonCodec Peer} : Prop := {
  peer_json_laws :: JsonLaws Peer;
  peer_canon (p : Peer) : json_canon p = canon_peer p
}.

Inductive op :=
| OpPutPeer (now : Z) (p : Peer)
| OpUpdateLastSeen (now : Z) (n : node_id)
| OpSaveNonce (nonce : arr 16).

#[global] Instance op_eq_dec : EqDecision op.
Proof. solve_decision. Defined.

Section Facts.
Context {B : Type} `{BoltLaws B} `{PeerJson}.
Implicit Types (s : Store B) (p q : Peer) (n : node_id) (o : op).

Definition exec (o : op) (s : Store B) : outcome unit * Store B :=
  match o with
  | OpPutPeer now p => PutPeer now s p
  | OpUpdateLastSeen now n => UpdateLastSeen now s n
  | OpSaveNonce nonce => SaveNonce s nonce
  end.

Fixpoint exec_all (os : list op) (s : Store B) : list (outcome unit) * Store B :=
  match os with
  | [] => ([], s)
  | o :: os' =>
      let '(res, s1) := exec o s in
      let '(ress, s2) := exec_all os' s1 in
      (res :: ress, s2)
  end.

(** What [PutPeer] writes, given the peer it found under the id. *)
Definition merged (now : Z) (prev : option Peer) (p : Peer) : Peer :=
  with_last_seen (default_trust
    match prev with
    | None => p
    | Some q => with_endpoints p (mergeEndpoints (Peer_Endpoints q) (Peer_Endpoints p))
    end) now.

Lemma Update_inv fn s res s' :
  Update fn s = (res, s') → (res = Ok tt ∧ fn s = Ok s' ∧ read_only s = false) ∨ (res ≠ Ok tt ∧ s' = s).
Proof.
  unfold Update. destruct (read_only s); [intros [= <- <-]; by right|]. intros E.
  destruct (decide (res = Ok tt)) as [->|Hne].
  - left. apply db_Update_Ok in E. done.
  - right. split; [done|]. by apply (db_Update_rollback _ _ _ _ _ E).
Qed.

(** The peer under an id, read from the bucket. *)
Lemma GetPeer_Ok s n r :
  GetPeer s n = Ok r ↔
  ∃ b, peers s = Some b ∧
    match bucket_Get b (arr_bytes n) with
    | None => r = None
    | Some data => ∃ p, json_Unmarshal data json_zero = Ok p ∧ r = Some p
    end.
Proof.
  unfold GetPeer, on_bucket. destruct (peers s) as [b|]; simpl.
  2: { split; [done|]. by intros (? & [=] & _). }
  split.
  - intros E. exists b. split; [done|]. destruct (bucket_Get b _) as [data|]; [|by injection E].
    destruct (json_Unmarshal data json_zero); simpl in E; simplify_eq; eauto.
  - intros (? & [= <-] & E). destruct (bucket_Get b _) as [data|]; [|by rewrite E].
    destruct E as (p & -> & ->). done.
Qed.

(** The bucket after a peer is written. *)
Lemma GetPeer_put s b n p data b' m :
  peers s = Some b → json_Marshal p = Ok data → bucket_Put b (arr_bytes n) data = Ok b' →
  GetPeer (with_peers s b') m = if decide (m = n) then Ok (Some (canon_peer p)) else GetPeer s m.
Proof.
  intros Hb Hm Hput. apply json_roundtrip in Hm. rewrite peer_canon in Hm.
  unfold GetPeer, on_bucket. simpl. rewrite Hb, (put_get _ _ _ _ Hput).
  destruct (decide (m = n)) as [->|Hne].
  - by rewrite decide_True, Hm.
  - rewrite decide_False; [done|]. by intros ?%arr_eq.
Qed.

Lemma PutPeer_inv now s p s' :
  PutPeer now s p = (Ok tt, s') →
  ∃ prev b b' data, GetPeer s (Peer_NodeID p) = Ok prev ∧ peers s = Some b ∧
    (∀ q, prev = Some q → Peer_PublicKey q = Peer_PublicKey p) ∧
    json_Marshal (merged now prev p) = Ok data ∧
    bucket_Put b (arr_bytes (Peer_NodeID p)) data = Ok b' ∧ s' = with_peers s b'.
Proof.
  intros [(_ & E & _)|[[] _]]%Update_inv; [|done]. unfold on_bucket in E.
  destruct (peers s) as [b|] eqn:Hb; [|done].
  apply bind_Ok in E as (u & Hu & (data & Hm & (b' & Hput & [= <-])%bind_Ok)%bind_Ok).
  apply wrap_Ok in Hm.
  destruct (bucket_Get b _) as [raw|] eqn:Hg.
  - apply bind_Ok in Hu as (q & Hq%wrap_Ok & Hu).
    destruct (bool_decide _) eqn:Hkey; simpl in Hu; [|done]. injection Hu as <-.
    apply bool_decide_eq_true in Hkey.
    exists (Some q), b, b', data. split_and!; try done.
    + apply GetPeer_Ok. exists b. rewrite Hg. eauto.
    + by intros ? [= <-].
  - injection Hu as <-. exists None, b, b', data. split_and!; try done.
    apply GetPeer_Ok. exists b. by rewrite Hg.
Qed.

Lemma mergeEndpoints_prefix eps eps' : eps `prefix_of` mergeEndpoints eps eps'.
Proof. by eexists. Qed.

(** A decoded peer has repaired endpoints. *)
Lemma GetPeer_canon s n p : GetPeer s n = Ok (Some p) → canon_peer p = p.
Proof.
  intros (b & _ & Hr)%GetPeer_Ok. destruct (bucket_Get b _); [|done].
  destruct Hr as (q & Hq & [= ->]). rewrite <- peer_canon. by apply (json_decoded_canon _ _ Hq).
Qed.

(** [p'] is a later record of the peer [p]: same key, no endpoint forgotten. *)
Definition extends (p p' : Peer) : Prop :=
  Peer_PublicKey p' = Peer_PublicKey p ∧ Peer_Endpoints p `prefix_of` Peer_Endpoints p'.

#[local] Instance extends_preorder : PreOrder extends.
Proof.
  split; [by intros p; split|]. intros p q r [Hk Hp] [Hk' Hp'].
  split; [congruence|]. by transitivity (Peer_Endpoints q).
Qed.

Lemma extends_canon p q :
  canon_peer p = p → Peer_PublicKey q = Peer_PublicKey p →
  Peer_Endpoints p `prefix_of` Peer_Endpoints q → extends p (canon_peer q).
Proof.
  intros Hc Hk [k Hp]. split; [done|]. simpl. rewrite Hp, map_app.
  exists (map utf8_repair k). f_equal. by apply (f_equal Peer_Endpoints) in Hc.
Qed.

Lemma PutPeer_extends now s q s' n p :
  PutPeer now s q = (Ok tt, s') → GetPeer s n = Ok (Some p) →
  ∃ p', GetPeer s' n = Ok (Some p') ∧ extends p p'.
Proof.
  intros (prev & b & b' & data & Hprev & Hb & Hkey & Hm & Hput & ->)%PutPeer_inv Hp.
  rewrite (GetPeer_put _ _ _ _ _ _ n Hb Hm Hput). case_decide as Hn; [|by exists p].
  subst n. rewrite Hp in Hprev. injection Hprev as <-. eexists; split; [done|].
  apply extends_canon; [by apply (GetPeer_canon _ _ _ Hp)| |].
  - symmetry. by apply Hkey.
  - apply mergeEndpoints_prefix.
Qed.

Lemma UpdateLastSeen_extends now s m s' n p :
  UpdateLastSeen now s m = (Ok tt, s') → GetPeer s n = Ok (Some p) →
  ∃ p', GetPeer s' n = Ok (Some p') ∧ extends p p'.
Proof.
  intros E Hp. apply Update_inv in E as [(_ & E & _)|[[] _]]; [|done]. unfold on_bucket in E.
  destruct (peers s) as [b|] eqn:Hb; [|done].
  destruct (bucket_Get b _) as [raw|] eqn:Hg; [|injection E as <-; by exists p].
  apply bind_Ok in E as (q & Hq%wrap_Ok & (data & Hm%wrap_Ok & (b' & Hput & [= <-])%bind_Ok)%bind_Ok).
  rewrite (GetPeer_put _ _ _ _ _ _ n Hb Hm Hput). case_decide as Hn; [|by exists p].
  subst n. assert (q = p) as ->.
  { apply GetPeer_Ok in Hp as (b1 & Hb1 & Hr). rewrite Hb in Hb1. injection Hb1 as <-.
    rewrite Hg in Hr. destruct Hr as (? & ? & [= ->]). congruence. }
  eexists; split; [done|]. by apply extends_canon; [apply (GetPeer_canon _ _ _ Hp)|..].
Qed.

Lemma exec_extends o s res s' n p :
  exec o s = (res, s') → GetPeer s n = Ok (Some p) →
  ∃ p', GetPeer s' n = Ok (Some p') ∧ extends p p'.
Proof.
  intros E Hp. destruct (decide (res = Ok tt)) as [->|Hne].
  - destruct o as [now q|now m|m]; simpl in E.
    + by apply (PutPeer_extends _ _ _ _ _ _ E).
    + by apply (UpdateLastSeen_extends _ _ _ _ _ _ E).
    + apply Update_inv in E as [(_ & E & _)|[[] _]]; [|done]. unfold on_bucket in E.
      destruct (nonces s); [|done]. apply bind_Ok in E as (b' & _ & [= <-]). by exists p.
  - assert (s' = s) as -> by (destruct o; apply Update_inv in E; naive_solver). by exists p.
Qed.

Lemma exec_all_extends os s n p :
  GetPeer s n = Ok (Some p) →
  ∃ p', GetPeer (snd (exec_all os s)) n = Ok (Some p') ∧ extends p p'.
Proof.
  revert s p. induction os as [|o os IH]; intros s p Hp; simpl; [by exists p|].
  destruct (exec o s) as [res s1] eqn:E.
  destruct (exec_extends _ _ _ _ _ _ E Hp) as (p1 & Hp1 & Hx).
  destruct (IH _ _ Hp1) as (p2 & Hp2 & Hx2). destruct (exec_all os s1) as [ress s2].
  exists p2. split; [done|]. by transitivity p1.
Qed.

(** The result of an operation that touches the nonces only when it saves one. *)
Lemma exec_nonces o s res s' (m : arr 16) r :
  exec o s = (res, s') → HasNonce s m = Ok r →
  HasNonce s' m = Ok (r || bool_decide (o = OpSaveNonce m ∧ res = Ok tt)).
Proof.
  intros E Hm. destruct (decide (res = Ok tt)) as [->|Hne].
  2: { assert (s' = s) as -> by (destruct o; apply Update_inv in E; naive_solver).
       rewrite bool_decide_false by naive_solver. by rewrite orb_false_r. }
  destruct o as [now q|now k|k]; simpl in E.
  - apply PutPeer_inv in E as (? & ? & ? & ? & _ & _ & _ & _ & _ & ->).
    rewrite bool_decide_false by naive_solver. by rewrite orb_false_r.
  - rewrite bool_decide_false by naive_solver. rewrite orb_false_r.
    apply Update_inv in E as [(_ & E & _)|[[] _]]; [|done]. unfold on_bucket in E.
    destruct (peers s) as [b|]; [|done]. destruct (bucket_Get b _); [|by injection E as <-].
    apply bind_Ok in E as (? & _ & (? & _ & (? & _ & [= <-])%bind_Ok)%bind_Ok). done.
  - apply Update_inv in E as [(_ & E & _)|[[] _]]; [|done]. unfold HasNonce, on_bucket in *.
    destruct (nonces s) as [b|]; [|done]. apply bind_Ok in E as (b' & Hput & [= <-]). simpl.
    rewrite (put_get _ _ _ _ Hput). injection Hm as <-. f_equal.
    destruct (decide (k = m)) as [->|Hne].
    + rewrite decide_True, bool_decide_true by done. by rewrite orb_true_r.
    + rewrite decide_False by (by intros ?%arr_eq). rewrite bool_decide_false by naive_solver.
      by rewrite orb_false_r.
Qed.

Lemma exec_all_nonces os s (m : arr 16) r :
  HasNonce s m = Ok r →
  HasNonce (snd (exec_all os s)) m =
    Ok (r || existsb (λ or, bool_decide (or.1 = OpSaveNonce m ∧ or.2 = Ok tt))
                     (zip os (fst (exec_all os s)))).
Proof.
  revert s r. induction os as [|o os IH]; intros s r Hr; simpl; [by rewrite orb_false_r|].
  destruct (exec o s) as [res s1] eqn:E. pose proof (exec_nonces _ _ _ _ _ _ E Hr) as Hr1.
  specialize (IH _ _ Hr1). destruct (exec_all os s1) as [ress s2]. simpl in *.
  by rewrite IH, orb_assoc.
Qed.

(** A new peer, or one with the same key, is stored when the record fits. *)
Lemma PutPeer_stores now s p prev data :
  read_only s = false → (∀ b b' : B, tx_commit b b' = Ok tt) →
  GetPeer s (Peer_NodeID p) = Ok prev →
  json_Marshal (merged now prev p) = Ok data → len data ≤ MaxValueSize →
  (∀ q, prev = Some q → Peer_PublicKey q = Peer_PublicKey p) →
  ∃ s', PutPeer now s p = (Ok tt, s') ∧
    ∀ n, GetPeer s' n = if decide (n = Peer_NodeID p)
                        then Ok (Some (canon_peer (merged now prev p))) else GetPeer s n.
Proof.
  intros Hro Hc Hprev Hm Hlen Hkey. pose proof Hprev as (b & Hb & Hget)%GetPeer_Ok.
  unfold PutPeer, Update, db_Update, on_bucket. rewrite Hro, Hb.
  assert (is_Ok (bucket_Put b (arr_bytes (Peer_NodeID p)) data) = true) as Hput.
  { apply put_ok; [|done]. unfold len. rewrite arr_length. done. }
  destruct (bucket_Put b _ data) as [b'| |] eqn:Eput; [|done|done].
  exists (with_peers s b'). split; [|intros n; by apply (GetPeer_put _ _ _ _ _ _ n Hb Hm Eput)].
  destruct (bucket_Get b _) as [raw|].
  - destruct Hget as (q & -> & ->). simpl. rewrite bool_decide_true by auto. simpl in *.
    unfold merged in Hm. rewrite Hm. simpl. rewrite Eput. simpl. by rewrite Hc.
  - subst prev. simpl in *. unfold merged in Hm. rewrite Hm. simpl. rewrite Eput. simpl. by rewrite Hc.
Qed.

Lemma SaveNonce_keeps s nonce s' :
  SaveNonce s nonce = (Ok tt, s') → read_only s' = false ∧ ∀ n, GetPeer s' n = GetPeer s n.
Proof.
  intros [(_ & E & Hro)|[[] _]]%Update_inv; [|done]. unfold on_bucket in E.
  destruct (nonces s); [|done]. by apply bind_Ok in E as (b' & _ & [= <-]).
Qed.

End Facts.

(** C18. Trust on first use: once a node is known, no sequence of store operations,
    successful or not, changes its public key, forgets it or forgets one of its
    endpoints. *)
Theorem tofu_key_pinned {B : Type} `{BoltLaws B} `{PeerJson}
    (os : list op) (s : Store B) (n : node_id) (p : Peer) :
  GetPeer s n = Ok (Some p) →
  ∃ p', GetPeer (snd (exec_all os s)) n = Ok (Some p') ∧
    Peer_PublicKey p' = Peer_PublicKey p ∧ Peer_Endpoints p `prefix_of` Peer_Endpoints p'.
Proof. apply exec_all_extends. Qed.

(** [PutPeer] on every branch: a known node with another key gives
    [ErrKeyChanged] and the store keeps its contents; otherwise, when the record
    fits the database, the peer is stored with the endpoints of the previous
    record first, the given trust state (or "tofu") and the current time, and no
    other peer changes. *)
Theorem PutPeer_spec {B : Type} `{BoltLaws B} `{PeerJson}
    (now : Z) (s : Store B) (p : Peer) (prev : option Peer) (data : bytes) :
  read_only s = false → (∀ b b' : B, tx_commit b b' = Ok tt) →
  GetPeer s (Peer_NodeID p) = Ok prev →
  json_Marshal (merged now prev p) = Ok data → len data ≤ MaxValueSize →
  (∀ q, prev = Some q → Peer_PublicKey q ≠ Peer_PublicKey p →
        PutPeer now s p = (Err ErrKeyChanged, s)) ∧
  ((∀ q, prev = Some q → Peer_PublicKey q = Peer_PublicKey p) →
   ∃ s', PutPeer now s p = (Ok tt, s') ∧
     ∀ n, GetPeer s' n = if decide (n = Peer_NodeID p)
                         then Ok (Some (canon_peer (merged now prev p))) else GetPeer s n).
Proof.
  intros Hro Hc Hprev Hm Hlen. split.
  - intros q -> Hkey. pose proof Hprev as (b & Hb & Hget)%GetPeer_Ok.
    unfold PutPeer, Update, db_Update, on_bucket. rewrite Hro, Hb. destruct (bucket_Get b _) as [raw|]; [|done].
    destruct Hget as (? & -> & [= <-]). simpl. by rewrite bool_decide_false.
  - by apply PutPeer_stores with (data := data).
Qed.

(** The used nonces are exactly the recorded ones: after any run,
    [HasNonce] answers true if and only if the nonce was recorded before it or a
    [SaveNonce] of it succeeded during it. *)
Theorem HasNonce_exact {B : Type} `{BoltLaws B} `{PeerJson}
    (os : list op) (s : Store B) (m : arr 16) (r : bool) :
  HasNonce s m = Ok r →
  HasNonce (snd (exec_all os s)) m =
    Ok (r || existsb (λ or, bool_decide (or.1 = OpSaveNonce m ∧ or.2 = Ok tt))
                     (zip os (fst (exec_all os s)))).
Proof. apply exec_all_nonces. Qed.

(** * Witnesses *)

(** A codec for peers, to run the store. *)
Module PeerInstance.
Import MapBolt.

#[export] Instance Peer_countable : Countable Peer.
Proof.
  refine (inj_countable' (λ p, (Peer_NodeID p, Peer_PublicKey p, Peer_Endpoints p,
                                Peer_TrustState p, Peer_LastSeen p))
            (λ t, let '(n, k, es, ts, l) := t in mk_Peer n k es ts l) _). by intros [].
Defined.

Lemma canon_peer_idemp p : canon_peer (canon_peer p) = canon_peer p.
Proof.
  unfold canon_peer; simpl. f_equal; [|apply utf8_repair_idemp].
  rewrite map_map. apply map_ext. apply utf8_repair_idemp.
Qed.

#[export] Instance peer_codec : JsonCodec Peer :=
  TinyJson.codec (mk_Peer (zero_arr 32) [] [] [] 0) canon_peer.

#[export] Instance peer_json : PeerJson.
Proof. split; [apply TinyJson.laws, canon_peer_idemp|done]. Qed.

Definition new_store : Store (gmap bytes bytes) :=
  {| peers := Some ∅; nonces := Some ∅; read_only := false |}.

End PeerInstance.

Module PeerWitness.
Import MapBolt PeerInstance.

Definition alice : node_id := copy_arr 32 (str "alice").
Definition nonce1 : arr 16 := copy_arr 16 (str "nonce-1").
Definition peer (key : string) (eps : list string) (trust : bytes) : Peer :=
  mk_Peer alice (str key) (map str eps) trust 0.

Definition s1 : Store (gmap bytes bytes) :=
  snd (PutPeer 7 new_store (peer "key" ["h:1"]%string TrustBlocked)).
Definition known : Peer := mk_Peer alice (str "key") [str "h:1"] TrustBlocked 7.

Definition ops : list op :=
  [OpPutPeer 8 (peer "other" ["evil:1"]%string []); OpSaveNonce nonce1;
   OpPutPeer 9 (peer "key" ["h:2"; "h:1"]%string [])].

Lemma tofu_key_pinned_witness :
  ∃ p', GetPeer (snd (exec_all ops s1)) alice = Ok (Some p') ∧
    Peer_PublicKey p' = Peer_PublicKey known ∧ Peer_Endpoints known `prefix_of` Peer_Endpoints p'.
Proof. apply (tofu_key_pinned ops s1 alice known). by vm_compute. Defined.

Lemma ops_results :
  fst (exec_all ops s1) = [Err ErrKeyChanged; Ok tt; Ok tt] ∧
  GetPeer (snd (exec_all ops s1)) alice =
    Ok (Some (mk_Peer alice (str "key") [str "h:1"; str "h:2"] TrustTOFU 9)).
Proof. by vm_compute. Qed.

Definition update : Peer := peer "key" ["h:3"]%string [].

Lemma PutPeer_spec_witness :
  (∀ q, Some known = Some q → Peer_PublicKey q ≠ Peer_PublicKey update →
        PutPeer 9 s1 update = (Err ErrKeyChanged, s1)) ∧
  ((∀ q, Some known = Some q → Peer_PublicKey q = Peer_PublicKey update) →
   ∃ s', PutPeer 9 s1 update = (Ok tt, s') ∧
     ∀ n, GetPeer s' n = if decide (n = Peer_NodeID update)
                         then Ok (Some (canon_peer (merged 9 (Some known) update)))
                         else GetPeer s1 n).
Proof.
  eapply (PutPeer_spec 9 s1 update (Some known));
    [by vm_compute|done|by vm_compute|reflexivity|apply Z.leb_le; by vm_compute].
Defined.

Lemma HasNonce_exact_witness :
  HasNonce (snd (exec_all ops s1)) nonce1 =
    Ok (false || existsb (λ or, bool_decide (or.1 = OpSaveNonce nonce1 ∧ or.2 = Ok tt))
                         (zip ops (fst (exec_all ops s1)))).
Proof. apply (HasNonce_exact ops s1 nonce1 false). by vm_compute. Defined.

(** An endpoint that a peer lists twice stays twice. *)
Lemma mergeEndpoints_duplicates :
  mergeEndpoints [str "h:1"] [str "h:2"; str "h:2"] = [str "h:1"; str "h:2"; str "h:2"].
Proof. by vm_compute. Qed.

(** A blocked peer is trusted again once it is put without a trust state. *)
Lemma PutPeer_unblocks :
  Peer_TrustState known = TrustBlocked ∧
  GetPeer (snd (PutPeer 9 s1 update)) alice =
    Ok (Some (mk_Peer alice (str "key") [str "h:1"; str "h:3"] TrustTOFU 9)).
Proof. by vm_compute. Qed.

(** A database opened read-only before the buckets exist panics on use. *)
Lemma OpenReadOnly_uninitialised (n : node_id) :
  (s ← OpenReadOnly (Ok (None : option (gmap bytes bytes), None)); GetPeer s n) = Panic.
Proof. done. Qed.

End PeerWitness.
