(* ===== verification/Base64.v ===== *)
(** [encoding/base64]'s [RawURLEncoding]: the URL alphabet without padding.
    Decoding is the non-strict one: carriage returns and line feeds are skipped and
    the unused low bits of the last digit are ignored. *)

From S2P Require Import Prelude.

(** * Digits *)

Definition alphabet : bytes :=
  str "ABCDEFGHIJKLMNOPQRSTUVWXYZabcdefghijklmnopqrstuvwxyz0123456789-_".

Definition encode_digit (d : Z) : byte := nth (Z.to_nat d) alphabet Byte.x00.

Definition decode_digit (c : byte) : option Z :=
  let x := byte.unsigned c in
  if (65 <=? x) && (x <=? 90) then Some (x - 65)
  else if (97 <=? x) && (x <=? 122) then Some (x - 71)
  else if (48 <=? x) && (x <=? 57) then Some (x + 4)
  else if x =? 45 then Some 62
  else if x =? 95 then Some 63
  else None.

Definition all_digits : list Z := map Z.of_nat (seq 0 64).

Lemma elem_of_all_digits d : 0 ≤ d < 64 → d ∈ all_digits.
Proof.
  intros Hd. apply list_elem_of_fmap. exists (Z.to_nat d). split; [lia|]. apply elem_of_seq. lia.
Qed.

Lemma decode_encode_digit d : 0 ≤ d < 64 → decode_digit (encode_digit d) = Some d.
Proof.
  intros Hd%elem_of_all_digits.
  assert (Forall (λ d, decode_digit (encode_digit d) = Some d) all_digits) as Hall.
  { repeat (constructor; [reflexivity|]). constructor. }
  rewrite Forall_forall in Hall. by apply Hall.
Qed.

(** * Encoding *)

(** [val>>18&0x3F], [val>>12&0x3F], ... *)
Definition sextet (val : Z) (shift : Z) : Z := Z.land (Z.shiftr val shift) 63.

Fixpoint EncodeDigits (src : bytes) : list Z :=
  match src with
  | x :: y :: z :: src' =>
      let val := Z.lor (Z.lor (Z.shiftl (byte.unsigned x) 16) (Z.shiftl (byte.unsigned y) 8))
                       (byte.unsigned z) in
      sextet val 18 :: sextet val 12 :: sextet val 6 :: sextet val 0 :: EncodeDigits src'
  | [x; y] =>
      let val := Z.lor (Z.shiftl (byte.unsigned x) 16) (Z.shiftl (byte.unsigned y) 8) in
      [sextet val 18; sextet val 12; sextet val 6]
  | [x] =>
      let val := Z.shiftl (byte.unsigned x) 16 in
      [sextet val 18; sextet val 12]
  | [] => []
  end.

Definition EncodeToString (src : bytes) : bytes := map encode_digit (EncodeDigits src).

(** * Decoding *)

Definition CorruptInputError (i : Z) : error := Errorf "illegal base64 data at input byte %d" [i].

Definition is_newline (c : byte) : bool := bool_decide (c = Byte.x0a) || bool_decide (c = Byte.x0d).

(** The digits of [src], whose first byte has index [i]. *)
Fixpoint read_digits (i : Z) (src : bytes) : outcome (list Z) :=
  match src with
  | [] => Ok []
  | c :: src' =>
      match decode_digit c with
      | Some d => ds ← read_digits (i + 1) src'; Ok (d :: ds)
      | None => if is_newline c then read_digits (i + 1) src' else Err (CorruptInputError i)
      end
  end.

(** Four digits of a quantum, missing ones zero; [byte(val >> 16)] and so on. *)
Definition quantum (a b c d : Z) : Z :=
  Z.lor (Z.lor (Z.lor (Z.shiftl a 18) (Z.shiftl b 12)) (Z.shiftl c 6)) d.
Definition octet (val : Z) (shift : Z) : byte := byte.of_Z (Z.land (Z.shiftr val shift) 255).

(** [n] is the length of the source text, for the error of a lone digit. *)
Fixpoint decode_quanta (n : Z) (ds : list Z) : outcome bytes :=
  match ds with
  | a :: b :: c :: d :: ds' =>
      let val := quantum a b c d in
      r ← decode_quanta n ds';
      Ok (octet val 16 :: octet val 8 :: octet val 0 :: r)
  | [a; b; c] => let val := quantum a b c 0 in Ok [octet val 16; octet val 8]
  | [a; b] => let val := quantum a b 0 0 in Ok [octet val 16]
  | [_] => Err (CorruptInputError (n - 1))
  | [] => Ok []
  end.

Definition DecodeString (s : bytes) : outcome bytes :=
  ds ← read_digits 0 s; decode_quanta (len s) ds.

(** * Round trip *)

(** Disjoint bits add up. *)
Lemma land_low a b k : 0 ≤ k → 0 ≤ b < 2 ^ k → Z.land (a * 2 ^ k) b = 0.
Proof.
  intros Hk Hb. rewrite <- Z.shiftl_mul_pow2 by done.
  apply Z.bits_inj'. intros i Hi. rewrite Z.land_spec, Z.bits_0.
  destruct (Z.lt_ge_cases i k); [by rewrite Z.shiftl_spec_low|].
  destruct (decide (b = 0)) as [->|]; [by rewrite Z.bits_0, andb_false_r|].
  rewrite (Z.bits_above_log2 b); [apply andb_false_r|lia|].
  apply Z.lt_le_trans with k; [|done]. apply Z.log2_lt_pow2; lia.
Qed.

Lemma lor_low x a b k : 0 ≤ k → 0 ≤ b < 2 ^ k → x = a * 2 ^ k → Z.lor x b = x + b.
Proof.
  intros Hk Hb ->. pose proof (land_low a b k Hk Hb) as Hl.
  rewrite <- Z.lxor_lor by done. by rewrite Z.add_nocarry_lxor.
Qed.

Lemma sextet_arith val k : 0 ≤ k → sextet val k = val / 2 ^ k mod 64.
Proof.
  intros Hk. unfold sextet. rewrite Z.shiftr_div_pow2 by done. apply (Z.land_ones _ 6). done.
Qed.

Lemma octet_arith val k : 0 ≤ k → octet val k = byte.of_Z (val / 2 ^ k mod 256).
Proof.
  intros Hk. unfold octet. rewrite Z.shiftr_div_pow2 by done. by rewrite (Z.land_ones _ 8).
Qed.

Lemma quantum_arith a b c d :
  0 ≤ a < 64 → 0 ≤ b < 64 → 0 ≤ c < 64 → 0 ≤ d < 64 →
  quantum a b c d = a * 2 ^ 18 + b * 2 ^ 12 + c * 2 ^ 6 + d.
Proof.
  intros. unfold quantum. rewrite !Z.shiftl_mul_pow2 by done.
  rewrite (lor_low (a * 2 ^ 18) a (b * 2 ^ 12) 18) by lia.
  rewrite (lor_low (a * 2 ^ 18 + b * 2 ^ 12) (a * 64 + b) (c * 2 ^ 6) 12) by lia.
  by rewrite (lor_low _ (a * 4096 + b * 64 + c) _ 6) by lia.
Qed.

Lemma group_arith x y z :
  0 ≤ x < 256 → 0 ≤ y < 256 → 0 ≤ z < 256 →
  Z.lor (Z.lor (Z.shiftl x 16) (Z.shiftl y 8)) z = x * 2 ^ 16 + y * 2 ^ 8 + z.
Proof.
  intros. rewrite !Z.shiftl_mul_pow2 by done.
  rewrite (lor_low (x * 2 ^ 16) x (y * 2 ^ 8) 16) by lia. by rewrite (lor_low _ (x * 256 + y) _ 8) by lia.
Qed.

(** The digits of a value of 24 bits give the value back. *)
Lemma quantum_sextets val :
  0 ≤ val < 2 ^ 24 →
  quantum (sextet val 18) (sextet val 12) (sextet val 6) (sextet val 0) = val.
Proof.
  intros Hv. rewrite quantum_arith; rewrite !sextet_arith by done;
    [|apply Z.mod_pos_bound; lia..].
  Z.to_euclidean_division_equations. lia.
Qed.

Lemma sextet_bound val k : 0 ≤ k → 0 ≤ sextet val k < 64.
Proof. intros. rewrite sextet_arith by done. apply Z.mod_pos_bound. lia. Qed.

Lemma octets_group (x y z : byte) val :
  val = byte.unsigned x * 2 ^ 16 + byte.unsigned y * 2 ^ 8 + byte.unsigned z →
  octet val 16 = x ∧ octet val 8 = y ∧ octet val 0 = z.
Proof.
  intros ->. pose proof (byte.unsigned_range x). pose proof (byte.unsigned_range y).
  pose proof (byte.unsigned_range z). rewrite !octet_arith by done.
  split_and!; apply byte.unsigned_inj; rewrite byte.unsigned_of_Z; unfold byte.wrap;
    Z.to_euclidean_division_equations; lia.
Qed.

Lemma three_cases {A} (P : list A → Prop) :
  P [] → (∀ x, P [x]) → (∀ x y, P [x; y]) →
  (∀ x y z l, P l → P (x :: y :: z :: l)) → ∀ l, P l.
Proof.
  intros H0 H1 H2 H3. fix IH 1. intros [|x [|y [|z l]]]; [done..|]. apply H3, IH.
Qed.

Lemma EncodeDigits_bound src : Forall (λ d, 0 ≤ d < 64) (EncodeDigits src).
Proof.
  induction src using three_cases; simpl; repeat (constructor; [by apply sextet_bound|]); done.
Qed.

Lemma read_digits_encode i ds :
  Forall (λ d, 0 ≤ d < 64) ds → read_digits i (map encode_digit ds) = Ok ds.
Proof.
  intros Hd. revert i. induction Hd as [|d ds Hd _ IH]; intros i; simpl; [done|].
  by rewrite decode_encode_digit, IH.
Qed.

Lemma decode_quanta_encode n src : decode_quanta n (EncodeDigits src) = Ok src.
Proof.
  assert (∀ x : byte, 0 ≤ byte.unsigned x < 256) as Hr by (intros; apply byte.unsigned_range).
  induction src as [|x|x y|x y z src IH] using three_cases; [done|..]; simpl.
  - pose proof (Hr x). set (val := Z.shiftl (byte.unsigned x) 16).
    assert (val = byte.unsigned x * 2 ^ 16 + byte.unsigned Byte.x00 * 2 ^ 8 + byte.unsigned Byte.x00)
      as Hval by (unfold val; rewrite Z.shiftl_mul_pow2 by done; change (byte.unsigned Byte.x00) with 0; lia).
    assert (sextet val 6 = 0 ∧ sextet val 0 = 0) as [Hs6 Hs0].
    { rewrite !sextet_arith, Hval by done.
      change (byte.unsigned Byte.x00) with 0. Z.to_euclidean_division_equations. lia. }
    pose proof (quantum_sextets val) as Hq. rewrite Hs6, Hs0 in Hq. rewrite Hq by (change (byte.unsigned Byte.x00) with 0 in Hval; lia).
    by destruct (octets_group _ _ _ _ Hval) as (-> & _).
  - pose proof (Hr x). pose proof (Hr y).
    set (val := Z.lor (Z.shiftl (byte.unsigned x) 16) (Z.shiftl (byte.unsigned y) 8)).
    assert (val = byte.unsigned x * 2 ^ 16 + byte.unsigned y * 2 ^ 8 + byte.unsigned Byte.x00) as Hval.
    { pose proof (group_arith (byte.unsigned x) (byte.unsigned y) 0) as Hg.
      rewrite Z.lor_0_r in Hg. by apply Hg. }
    assert (sextet val 0 = 0) as Hs0.
    { rewrite !sextet_arith, Hval by done.
      change (byte.unsigned Byte.x00) with 0. Z.to_euclidean_division_equations. lia. }
    pose proof (quantum_sextets val) as Hq. rewrite Hs0 in Hq. rewrite Hq by (change (byte.unsigned Byte.x00) with 0 in Hval; lia).
    by destruct (octets_group _ _ _ _ Hval) as (-> & -> & _).
  - rewrite IH. simpl. rewrite group_arith by done. pose proof (Hr x). pose proof (Hr y). pose proof (Hr z).
    rewrite quantum_sextets by lia.
    by destruct (octets_group x y z _ eq_refl) as (-> & -> & ->).
Qed.

Lemma DecodeString_EncodeToString src : DecodeString (EncodeToString src) = Ok src.
Proof.
  unfold DecodeString, EncodeToString. rewrite read_digits_encode by apply EncodeDigits_bound.
  apply decode_quanta_encode.
Qed.

Lemma read_digits_no_panic i s : read_digits i s ≠ Panic.
Proof.
  revert i. induction s as [|c s IH]; intros i; simpl; [done|]. specialize (IH (i + 1)).
  destruct (decode_digit c); [|by case_match]. by destruct (read_digits _ s).
Qed.

Lemma decode_quanta_no_panic n ds : decode_quanta n ds ≠ Panic.
Proof.
  revert ds. fix IH 1. intros [|a [|b [|c [|d ds]]]]; [discriminate..|]. simpl. specialize (IH ds).
  by destruct (decode_quanta n ds).
Qed.

Lemma DecodeString_no_panic s : DecodeString s ≠ Panic.
Proof.
  unfold DecodeString. pose proof (read_digits_no_panic 0 s).
  destruct (read_digits 0 s); [apply decode_quanta_no_panic|done|done].
Qed.
