(* ===== verification/Crypto.v ===== *)
(** The signature scheme the program uses, [crypto/ed25519], as a parameter: the
    class has the calls and their documented panics, the laws what the package
    promises about honest use. Nothing is assumed about forgery. [ToySig] is an
    instance with the laws. *)

From S2P Require Import Prelude.

Class Ed25519 := {
  NewKeyFromSeed : bytes → outcome bytes;
  Seed : bytes → outcome bytes;
  Public : bytes → outcome bytes;
  Sign : bytes → bytes → outcome bytes;
  Verify : bytes → bytes → bytes → outcome bool
}.

(** A private key is 64 bytes; a seed and a public key are 32; a signature is 64.
    Calls on arguments of another size may panic. *)
Class Ed25519Laws `{Ed25519} : Prop := {
  key_from_seed seed : len seed = 32 → ∃ k, NewKeyFromSeed seed = Ok k ∧ len k = 64;
  seed_of_key seed k : NewKeyFromSeed seed = Ok k → Seed k = Ok seed;
  public_ok k : len k = 64 → ∃ p, Public k = Ok p ∧ len p = 32;
  sign_ok k m : len k = 64 → ∃ s, Sign k m = Ok s;
  sign_length k m s : Sign k m = Ok s → len s = 64;
  verify_ok p m s : len p = 32 → ∃ b, Verify p m s = Ok b;
  verify_sign k p m s : Public k = Ok p → Sign k m = Ok s → Verify p m s = Ok true
}.

(** A scheme with the laws: the public key is the seed, a signature is the public
    key followed by the first 32 bytes of the message. *)
Module ToySig.

Definition sized (n : Z) (b : bytes) : outcome unit := if len b =? n then Ok tt else Panic.

Definition mark (p m : bytes) : bytes := copy_bytes 32 p ++ copy_bytes 32 m.

#[export] Instance scheme : Ed25519 := {|
  NewKeyFromSeed seed := sized 32 seed;; Ok (seed ++ seed);
  Seed k := Ok (take 32 k);
  Public k := sized 64 k;; Ok (drop 32 k);
  Sign k m := sized 64 k;; Ok (mark (drop 32 k) m);
  Verify p m s := sized 32 p;; Ok (bool_decide (s = mark p m))
|}.

Lemma sized_Ok n b : len b = n → sized n b = Ok tt.
Proof. intros H. unfold sized. by rewrite (proj2 (Z.eqb_eq _ _) H). Qed.

Lemma sized_inv n b u : sized n b = Ok u → len b = n.
Proof. unfold sized. destruct (Z.eqb_spec (len b) n); done. Qed.

#[export] Instance laws : Ed25519Laws.
Proof.
  split; simpl.
  - intros seed Hs. rewrite sized_Ok by done. simpl. eexists; split; [done|]. rewrite len_app. lia.
  - intros seed k ([] & Hs%sized_inv & [= <-])%bind_Ok. f_equal. apply take_app_length'.
    unfold len in Hs. lia.
  - intros k Hk. rewrite sized_Ok by done. simpl. eexists; split; [done|].
    unfold len in *. rewrite length_drop. lia.
  - intros k m Hk. rewrite sized_Ok by done. by eexists.
  - intros k m s (_ & _ & [= <-])%bind_Ok. unfold mark. rewrite len_app. unfold len.
    by rewrite !(proj1 (Nat.eqb_eq _ _) (copy_bytes_len _ _)).
  - intros p m s Hp. rewrite sized_Ok by done. by eexists.
  - intros k p m s ([] & Hk%sized_inv & [= <-])%bind_Ok (_ & _ & [= <-])%bind_Ok.
    rewrite sized_Ok by (unfold len in *; rewrite length_drop; lia). simpl.
    by rewrite bool_decide_true.
Qed.

End ToySig.
