(* ===== verification/Invite.v ===== *)
(** One-time invite tokens, [internal/invite]: creation, the binary layout, the
    "kin:" text form and validation against a store of used nonces. [time.Now()]
    and [rand.Read] are arguments; the signature scheme and the nonce store are
    classes. *)

From S2P Require Import Prelude GoStd Bolt Codec Base64 Crypto Peerstore.

Definition prefix : bytes := str "kin:".
Definition pubkeySize : Z := 32.
Definition nonceSize : Z := 16.
Definition expirySize : Z := 8.
Definition sigSize : Z := 64.

Record Token := mk_Token {
  Token_PublicKey : bytes;
  Token_Endpoints : list bytes;
  Token_Nonce : arr 16;
  Token_ExpiresAt : Z
}.

#[global] Instance Token_eq_dec : EqDecision Token.
Proof. solve_decision. Defined.

(** [NonceStore], the interface of a store of used nonces with state [S]. *)
Class NonceStore (S : Type) := {
  ns_HasNonce : S → arr 16 → outcome bool;
  ns_SaveNonce : S → arr 16 → outcome unit * S
}.

(** What validation relies on: saving a nonce records it and no other, and a save
    that fails changes nothing. *)
Class NonceLaws (S : Type) `{NonceStore S} : Prop := {
  ns_save s n s' m r :
    ns_SaveNonce s n = (Ok tt, s') → ns_HasNonce s m = Ok r →
    ns_HasNonce s' m = Ok (r || bool_decide (n = m));
  ns_save_failed s n res s' : ns_SaveNonce s n = (res, s') → res ≠ Ok tt → s' = s
}.

(** * The binary layout *)

(** [for _, ep := range t.Endpoints]. *)
Fixpoint append_endpoints (buf : bytes) (eps : list bytes) : outcome bytes :=
  match eps with
  | [] => Ok buf
  | ep :: eps' =>
      if 65535 <? len ep then Err (Errorf "invite: endpoint string too long" [])
      else append_endpoints ((buf ++ be_put 2 (to_uint16 (len ep))) ++ ep) eps'
  end.

Definition marshalPayload (t : Token) : outcome bytes :=
  if negb (len (Token_PublicKey t) =? pubkeySize)
  then Err (Errorf "invite: public key must be %d bytes" [pubkeySize])
  else if 65535 <? len (Token_Endpoints t) then Err (Errorf "invite: too many endpoints" [])
  else
    let buf := Token_PublicKey t in
    let epCount := to_uint16 (len (Token_Endpoints t)) in
    let buf := buf ++ be_put 2 epCount in
    buf ← append_endpoints buf (Token_Endpoints t);
    let buf := buf ++ arr_bytes (Token_Nonce t) in
    Ok (buf ++ be_put 8 (to_uint64 (Unix (Token_ExpiresAt t)))).

(** [for i := uint16(0); i < epCount; i++], from [offset] on: the endpoints and
    the offset after them. *)
Fixpoint read_endpoints (epCount : nat) (data : bytes) (offset : Z) : outcome (list bytes * Z) :=
  match epCount with
  | O => Ok ([], offset)
  | S i =>
      if len data - nonceSize - expirySize - sigSize <? offset + 2
      then Err (Errorf "invite: truncated endpoint" [])
      else
        b ← slice data offset (offset + 2);
        let epLen := be_get b in
        let offset := offset + 2 in
        if len data - nonceSize - expirySize - sigSize <? offset + epLen
        then Err (Errorf "invite: truncated endpoint data" [])
        else
          ep ← slice data offset (offset + epLen);
          r ← read_endpoints i data (offset + epLen);
          Ok (ep :: r.1, r.2)
  end.

Definition unmarshal (data : bytes) : outcome Token :=
  let minSize := pubkeySize + 2 + nonceSize + expirySize + sigSize in
  if len data <? minSize then Err (Errorf "invite: token too short (%d bytes)" [len data])
  else
    let offset := 0 in
    pubkey ← slice data offset (offset + pubkeySize);
    let offset := offset + pubkeySize in
    cnt ← slice data offset (offset + 2);
    let epCount := be_get cnt in
    let offset := offset + 2 in
    r ← read_endpoints (Z.to_nat epCount) data offset;
    let endpoints := r.1 in
    let offset := r.2 in
    if len data - expirySize - sigSize <? offset + nonceSize
    then Err (Errorf "invite: truncated nonce" [])
    else
      n ← slice data offset (offset + nonceSize);
      let nonce := copy_arr 16 n in
      let offset := offset + nonceSize in
      if len data - sigSize <? offset + expirySize
      then Err (Errorf "invite: truncated expiry" [])
      else
        x ← slice data offset (offset + expirySize);
        let expiry := to_int64 (be_get x) in
        Ok {| Token_PublicKey := pubkey; Token_Endpoints := endpoints; Token_Nonce := nonce;
              Token_ExpiresAt := time_Unix expiry |}.

(** * Tokens *)

Section Invite.
Context `{Ed25519} {S : Type} `{NonceStore S}.

(** 24 hours in nanoseconds. *)
Definition DefaultTTL : Z := 24 * 3600 * 10 ^ 9.

Definition Create (rand : outcome (arr 16)) (now : Z) (privKey : bytes) (endpoints : list bytes)
    (ttl : Z) : outcome Token :=
  let ttl := if ttl <=? 0 then DefaultTTL else ttl in
  nonce ← wrap "generate nonce: %w" rand;
  pub ← Public privKey;
  Ok {| Token_PublicKey := pub; Token_Endpoints := endpoints; Token_Nonce := nonce;
        Token_ExpiresAt := now + ttl |}.

Definition Encode (t : Token) (privKey : bytes) : outcome bytes :=
  payload ← marshalPayload t;
  sig ← Sign privKey payload;
  let full := payload ++ sig in
  Ok (prefix ++ EncodeToString full).

Definition Decode (raw : bytes) : outcome Token :=
  if negb (HasPrefix raw prefix) then Err (Errorf "invite: missing 'kin:' prefix" [])
  else
    rest ← slice_from raw (len prefix);
    data ← wrap "invite: base64 decode: %w" (DecodeString rest);
    unmarshal data.

(** The checks of [Validate] that do not touch the store. *)
Definition verify_token (now : Z) (t : Token) (raw : bytes) : outcome unit :=
  if Token_ExpiresAt t <? now then Err (Errorf "invite: token expired" [])
  else
    rest ← slice_from raw (len prefix);
    data ← wrap "invite: decode for validation: %w" (DecodeString rest);
    if len data <? sigSize then Err (Errorf "invite: data too short for signature" [])
    else
      payload ← slice data 0 (len data - sigSize);
      sig ← slice_from data (len data - sigSize);
      ok ← Verify (Token_PublicKey t) payload sig;
      if negb ok then Err (Errorf "invite: invalid signature" []) else Ok tt.

(** The rest of it, in two calls of the store. *)
Definition check_nonce (t : Token) (ns : S) : outcome unit :=
  has ← wrap "invite: nonce check: %w" (ns_HasNonce ns (Token_Nonce t));
  if (has : bool) then Err (Errorf "invite: nonce already used" []) else Ok tt.

Definition record_nonce (t : Token) (ns : S) : outcome unit * S :=
  let '(res, ns') := ns_SaveNonce ns (Token_Nonce t) in
  (wrap "invite: save nonce: %w" res, ns').

Definition Validate (now : Z) (t : Token) (raw : bytes) (ns : S) : outcome unit * S :=
  match (_ ← verify_token now t raw; check_nonce t ns) with
  | Ok _ => record_nonce t ns
  | Err e => (Err e, ns)
  | Panic => (Panic, ns)
  end.

End Invite.

(** The peer store is a nonce store. *)
#[export] Instance peerstore_nonces {B : Type} `{Bolt B} : NonceStore (Peerstore.Store B) := {|
  ns_HasNonce := Peerstore.HasNonce;
  ns_SaveNonce := Peerstore.SaveNonce
|}.

#[export] Instance peerstore_nonce_laws {B : Type} `{BoltLaws B} `{PeerJson} :
  NonceLaws (Peerstore.Store B).
Proof.
  split.
  - intros s n s' m r Hs Hr. simpl in *.
    rewrite (exec_nonces (OpSaveNonce n) _ _ _ m r Hs Hr). do 2 f_equal.
    apply bool_decide_ext. naive_solver.
  - intros s n res s' Hs Hne. apply Update_inv in Hs. naive_solver.
Qed.

(** * The layout is a code *)

Definition encode_endpoint (ep : bytes) : bytes := be_put 2 (len ep) ++ ep.
Definition encode_endpoints (eps : list bytes) : bytes := concat (map encode_endpoint eps).

Arguments encode_endpoints : simpl never.

Lemma encode_endpoints_cons ep eps :
  encode_endpoints (ep :: eps) = be_put 2 (len ep) ++ ep ++ encode_endpoints eps.
Proof. unfold encode_endpoints, encode_endpoint. cbn [map concat]. by rewrite <- app_assoc. Qed.

Definition short (ep : bytes) : Prop := len ep ≤ 65535.

Lemma append_endpoints_Ok buf eps r :
  append_endpoints buf eps = Ok r ↔ Forall short eps ∧ r = buf ++ encode_endpoints eps.
Proof.
  revert buf. induction eps as [|ep eps IH]; intros buf; simpl.
  { unfold encode_endpoints; simpl. rewrite app_nil_r, Forall_nil.
    split; [by intros [= ->]|by intros [_ ->]]. }
  rewrite Forall_cons. unfold short at 1.
  destruct (Z.ltb_spec 65535 (len ep)) as [Hl|Hl].
  - split; [done|]. intros [[? _] _]. lia.
  - rewrite IH, encode_endpoints_cons. unfold to_uint16. rewrite Z.mod_small by (pose proof (len_nonneg ep); lia).
    rewrite <- !app_assoc. split; [by intros [? ->]|by intros [[_ ?] ->]].
Qed.

(** The payload of a token that has one. *)
Definition payload_of (t : Token) : bytes :=
  Token_PublicKey t ++ be_put 2 (len (Token_Endpoints t)) ++ encode_endpoints (Token_Endpoints t) ++
  arr_bytes (Token_Nonce t) ++ be_put 8 (to_uint64 (Unix (Token_ExpiresAt t))).

Definition encodable (t : Token) : Prop :=
  len (Token_PublicKey t) = 32 ∧ len (Token_Endpoints t) ≤ 65535 ∧ Forall short (Token_Endpoints t).

Lemma marshalPayload_Ok t r : marshalPayload t = Ok r ↔ encodable t ∧ r = payload_of t.
Proof.
  unfold marshalPayload, encodable, payload_of, pubkeySize.
  destruct (Z.eqb_spec (len (Token_PublicKey t)) 32) as [Hpk|Hpk]; simpl; [|naive_solver].
  destruct (Z.ltb_spec 65535 (len (Token_Endpoints t))) as [Hl|Hl].
  { split; [done|]. intros [(_ & ? & _) _]. lia. }
  rewrite bind_Ok. setoid_rewrite append_endpoints_Ok.
  unfold to_uint16. rewrite Z.mod_small by (pose proof (len_nonneg (Token_Endpoints t)); lia).
  split.
  - intros (b & [? ->] & [= <-]). by rewrite <- !app_assoc.
  - intros [(_ & _ & ?) ->]. eexists; split; [done|]. by rewrite <- !app_assoc.
Qed.

Lemma append_endpoints_no_panic eps buf : append_endpoints buf eps ≠ Panic.
Proof. revert buf. induction eps; intros buf; simpl; [done|]. case_match; auto. Qed.

Lemma marshalPayload_no_panic t : marshalPayload t ≠ Panic.
Proof.
  unfold marshalPayload. do 2 (case_match; [done|]).
  pose proof (append_endpoints_no_panic (Token_Endpoints t)) as Ha.
  specialize (Ha (Token_PublicKey t ++ be_put 2 (to_uint16 (len (Token_Endpoints t))))).
  by destruct (append_endpoints _ _).
Qed.

(** Reading the next [k] bytes of the data. *)
Lemma slice_next (pre r : bytes) lo k :
  lo = len pre → 0 ≤ k ≤ len r →
  ∃ x r', r = x ++ r' ∧ len x = k ∧ slice (pre ++ r) lo (lo + k) = Ok x.
Proof.
  intros -> Hk. exists (take (Z.to_nat k) r), (drop (Z.to_nat k) r).
  assert (len (take (Z.to_nat k) r) = k) as Hl by (unfold len in *; rewrite length_take; lia).
  split_and!; [by rewrite take_drop|done|].
  rewrite <- (take_drop (Z.to_nat k) r) at 1. apply slice_mid; lia.
Qed.

Lemma slice_head (m r : bytes) hi : hi = len m → slice (m ++ r) 0 hi = Ok m.
Proof. intros ->. by apply (slice_mid []). Qed.

Lemma be_put_len n z : len (be_put n z) = Z.of_nat n.
Proof. unfold len. by rewrite be_put_length. Qed.

(** The fixed-size part after the endpoints. *)
Definition trailer : Z := nonceSize + expirySize + sigSize.

Lemma read_endpoints_encode eps pre rest :
  Forall short eps → trailer ≤ len rest →
  read_endpoints (length eps) (pre ++ encode_endpoints eps ++ rest) (len pre) =
    Ok (eps, len pre + len (encode_endpoints eps)).
Proof.
  intros Hs. revert pre. induction Hs as [|ep eps Hep _ IH]; intros pre Hr.
  { simpl. by rewrite Z.add_0_r. }
  rewrite encode_endpoints_cons. cbn [length read_endpoints].
  unfold trailer, nonceSize, expirySize, sigSize, short in *. pose proof (len_nonneg ep).
  pose proof (len_nonneg (encode_endpoints eps)).
  rewrite <- !app_assoc, !len_app, be_put_len. rewrite (proj2 (Z.ltb_ge _ _)) by lia.
  rewrite slice_mid by (rewrite ?be_put_len; lia). cbn [mbind outcome_bind].
  rewrite be_get_put_small by lia. rewrite (proj2 (Z.ltb_ge _ _)) by lia.
  rewrite (app_assoc pre), slice_mid by (rewrite ?len_app, ?be_put_len; lia).
  cbn [mbind outcome_bind].
  rewrite (app_assoc _ ep). specialize (IH ((pre ++ be_put 2 (len ep)) ++ ep) Hr).
  rewrite !len_app, be_put_len in IH. change (Z.of_nat 2) with 2 in IH. rewrite IH. simpl. do 2 f_equal. lia.
Qed.

Lemma unmarshal_payload t extra sig :
  encodable t → is_sec (Token_ExpiresAt t / 10 ^ 9) → len sig = 64 →
  unmarshal (payload_of t ++ extra ++ sig) =
    Ok {| Token_PublicKey := Token_PublicKey t; Token_Endpoints := Token_Endpoints t;
          Token_Nonce := Token_Nonce t;
          Token_ExpiresAt := Token_ExpiresAt t / 10 ^ 9 * 10 ^ 9 |}.
Proof.
  intros (Hpk & Hn & Hs) Hsec Hsig. unfold unmarshal, payload_of.
  set (pk := Token_PublicKey t) in *. set (eps := Token_Endpoints t) in *.
  set (xp := be_put 8 _).
  assert (len (arr_bytes (Token_Nonce t)) = 16) as Hnonce by (unfold len; by rewrite arr_length).
  assert (len xp = 8) as Hxp by apply be_put_len.
  pose proof (len_nonneg eps). pose proof (len_nonneg (encode_endpoints eps)). pose proof (len_nonneg extra).
  unfold pubkeySize, nonceSize, expirySize, sigSize.
  rewrite <- !app_assoc. rewrite (proj2 (Z.ltb_ge _ _)) by (rewrite !len_app, be_put_len; lia).
  rewrite slice_head by lia. cbn [mbind outcome_bind].
  rewrite slice_mid by (rewrite ?be_put_len; lia). cbn [mbind outcome_bind].
  rewrite be_get_put_small by lia.
  replace (Z.to_nat (len eps)) with (length eps) by (unfold len; lia).
  rewrite (app_assoc pk).
  pose proof (read_endpoints_encode eps (pk ++ be_put 2 (len eps))
    (arr_bytes (Token_Nonce t) ++ xp ++ extra ++ sig) Hs) as Hr.
  rewrite !len_app, be_put_len, Hpk in Hr. change (0 + 32 + 2) with (32 + Z.of_nat 2).
  rewrite Hr by (unfold trailer, nonceSize, expirySize, sigSize; lia).
  cbn [mbind outcome_bind fst snd]. rewrite (app_assoc _ (encode_endpoints eps)).
  set (pre := (pk ++ be_put 2 (len eps)) ++ encode_endpoints eps).
  assert (len pre = 32 + Z.of_nat 2 + len (encode_endpoints eps)) as Hpre
    by (unfold pre; rewrite !len_app, be_put_len; lia).
  rewrite <- Hpre. rewrite (proj2 (Z.ltb_ge _ _)) by (rewrite !len_app; lia).
  rewrite (slice_mid pre _ _ (len pre) (len pre + 16)) by lia. cbn [mbind outcome_bind].
  rewrite (proj2 (Z.ltb_ge _ _)) by (rewrite !len_app; lia).
  rewrite (app_assoc pre), slice_mid by (rewrite len_app; lia). cbn [mbind outcome_bind].
  unfold xp. rewrite be_get_put_small by (apply Z.mod_pos_bound; lia).
  rewrite to_int64_uint64, time_Unix_Unix, copy_arr_id; [done|done|].
  unfold Unix, to_int64, is_int64, is_sec in *. split; [|pose proof (Z.mod_pos_bound (Token_ExpiresAt t / 10 ^ 9 + 2 ^ 63) (2 ^ 64)); lia].
  pose proof (Z.mod_pos_bound (Token_ExpiresAt t / 10 ^ 9 + 2 ^ 63) (2 ^ 64)). lia.
Qed.

(** What reading endpoints gives on any input: no panic, and the endpoints read
    are encoded in the bytes consumed. *)
Lemma read_endpoints_any n pre r :
  trailer ≤ len r →
  match read_endpoints n (pre ++ r) (len pre) with
  | Ok (eps, off) =>
      ∃ r', r = encode_endpoints eps ++ r' ∧ off = len pre + len (encode_endpoints eps) ∧
            length eps = n ∧ Forall short eps ∧ trailer ≤ len r'
  | Err _ => True
  | Panic => False
  end.
Proof.
  revert pre r. induction n as [|n IH]; intros pre r Hr.
  { simpl. exists r. rewrite Z.add_0_r. done. }
  unfold trailer in *. cbn [read_endpoints].
  destruct (Z.ltb_spec (len (pre ++ r) - nonceSize - expirySize - sigSize) (len pre + 2)) as [|H2]; [done|].
  rewrite len_app in H2.
  destruct (slice_next pre r (len pre) 2 eq_refl) as (b & r1 & -> & Hb & ->);
    [unfold nonceSize, expirySize, sigSize in *; lia|]. cbn [mbind outcome_bind].
  pose proof (be_get_bound b) as Hbound. rewrite Hb in Hbound.
  destruct (Z.ltb_spec (len (pre ++ b ++ r1) - nonceSize - expirySize - sigSize) (len pre + 2 + be_get b))
    as [|H3]; [done|]. rewrite !len_app in H3.
  destruct (slice_next (pre ++ b) r1 (len pre + 2) (be_get b)) as (ep & r2 & -> & Hep & Hs);
    [rewrite len_app; lia|unfold nonceSize, expirySize, sigSize in *; lia|].
  rewrite <- app_assoc in Hs. rewrite Hs. cbn [mbind outcome_bind].
  specialize (IH ((pre ++ b) ++ ep) r2). rewrite <- !app_assoc in IH.
  rewrite !len_app in *. replace (len pre + 2 + be_get b) with (len pre + (len b + len ep)) by lia.
  destruct (read_endpoints n _ _) as [[eps off]|e|];
    [|done|apply IH; lia].
  destruct IH as (r' & -> & -> & <- & Hf & Hr'); [lia|]. cbn [mbind outcome_bind fst snd].
  exists r'. rewrite encode_endpoints_cons, Hep, !len_app.
  replace (be_put 2 (be_get b)) with b by
    (symmetry; replace 2%nat with (length b) by (unfold len in Hb; lia); apply be_put_get).
  split_and!; [by rewrite <- !app_assoc|lia|done|constructor; [unfold short; lia|done]|done].
Qed.

Lemma to_int64_range z : is_int64 (to_int64 z).
Proof. unfold to_int64, is_int64. pose proof (Z.mod_pos_bound (z + 2 ^ 63) (2 ^ 64)). lia. Qed.

Lemma to_uint64_int64 z : 0 ≤ z < 2 ^ 64 → to_uint64 (to_int64 z) = z.
Proof.
  intros Hz. unfold to_uint64, to_int64. rewrite Zminus_mod_idemp_l. rewrite Z.mod_small; lia.
Qed.

(** Every token that is read is the payload of the bytes it was read from; there
    may be more bytes between the payload and the signature. *)
Lemma unmarshal_any data :
  match unmarshal data with
  | Ok t => encodable t ∧ ∃ extra sig, data = payload_of t ++ extra ++ sig ∧ len sig = 64
  | Err _ => True
  | Panic => False
  end.
Proof.
  unfold unmarshal. unfold pubkeySize, nonceSize, expirySize, sigSize.
  destruct (Z.ltb_spec (len data) (32 + 2 + 16 + 8 + 64)) as [|Hmin]; [done|].
  destruct (slice_next [] data 0 32 eq_refl) as (pk & r1 & -> & Hpk & Hs1); [lia|].
  cbn [app] in Hs1. rewrite Hs1. cbn [mbind outcome_bind]. rewrite len_app in Hmin.
  destruct (slice_next pk r1 (0 + 32) 2) as (cnt & r2 & -> & Hcnt & Hs2); [lia|lia|].
  rewrite Hs2. cbn [mbind outcome_bind]. rewrite len_app in Hmin.
  pose proof (be_get_bound cnt) as Hbound. rewrite Hcnt in Hbound.
  pose proof (read_endpoints_any (Z.to_nat (be_get cnt)) (pk ++ cnt) r2) as Hr.
  rewrite <- app_assoc, len_app, Hpk, Hcnt in Hr. change (0 + 32 + 2) with (32 + 2).
  destruct (read_endpoints _ _ _) as [[eps off]|e|];
    [|done|apply Hr; unfold trailer, nonceSize, expirySize, sigSize; lia].
  destruct Hr as (r3 & -> & -> & Hlen & Hshort & Hr3);
    [unfold trailer, nonceSize, expirySize, sigSize; lia|]. cbn [mbind outcome_bind fst snd].
  unfold trailer, nonceSize, expirySize, sigSize in Hr3.
  assert (len ((pk ++ cnt) ++ encode_endpoints eps) = 32 + 2 + len (encode_endpoints eps)) as Hpre
    by (rewrite !len_app; lia).
  destruct (Z.ltb_spec (len (pk ++ cnt ++ encode_endpoints eps ++ r3) - 8 - 64)
              (32 + 2 + len (encode_endpoints eps) + 16)) as [|H3]; [done|].
  destruct (slice_next ((pk ++ cnt) ++ encode_endpoints eps) r3 _ 16 (eq_sym Hpre))
    as (nonce & r4 & -> & Hnonce & Hs3); [lia|].
  rewrite <- !app_assoc in Hs3. rewrite Hs3. cbn [mbind outcome_bind]. rewrite len_app in Hr3.
  destruct (Z.ltb_spec (len (pk ++ cnt ++ encode_endpoints eps ++ nonce ++ r4) - 64)
              (32 + 2 + len (encode_endpoints eps) + 16 + 8)) as [|H4]; [done|].
  destruct (slice_next (((pk ++ cnt) ++ encode_endpoints eps) ++ nonce) r4
              (32 + 2 + len (encode_endpoints eps) + 16) 8)
    as (x & r5 & -> & Hx & Hs4); [rewrite !len_app in *; lia|lia|].
  rewrite <- !app_assoc in Hs4. rewrite Hs4. cbn [mbind outcome_bind]. rewrite len_app in Hr3.
  pose proof (be_get_bound x) as Hxb. rewrite Hx in Hxb.
  split.
  { unfold encodable; simpl. split_and!; [lia|unfold len; lia|done]. }
  exists (take (length r5 - 64) r5), (drop (length r5 - 64) r5). rewrite take_drop. split.
  - unfold payload_of. cbn [Token_PublicKey Token_Endpoints Token_Nonce Token_ExpiresAt].
    rewrite copy_arr_exact by (unfold len in Hnonce; lia).
    rewrite Unix_time_Unix by apply to_int64_range. rewrite to_uint64_int64 by done.
    replace (be_put 2 (len eps)) with cnt.
    2: { rewrite <- (be_put_get cnt). f_equal; unfold len in *; lia. }
    replace (be_put 8 (be_get x)) with x.
    2: { rewrite <- (be_put_get x) at 1. f_equal; unfold len in *; lia. }
    by rewrite <- !app_assoc.
  - unfold len in *. rewrite length_drop. lia.
Qed.

(** * Tokens and validation *)

Section Facts.
Context `{Ed25519Laws} {S : Type} `{NonceLaws S}.
Implicit Types (t : Token) (ns : S).

Lemma slice_from_prefix (p r : bytes) : slice_from (p ++ r) (len p) = Ok r.
Proof.
  unfold slice_from. rewrite <- (app_nil_r r) at 1. apply slice_mid; [done|]. by rewrite len_app.
Qed.

Lemma Decode_any raw :
  match Decode raw with
  | Ok t => encodable t ∧ ∃ rest extra sig,
      raw = prefix ++ rest ∧ DecodeString rest = Ok (payload_of t ++ extra ++ sig) ∧ len sig = 64
  | Err _ => True
  | Panic => False
  end.
Proof.
  unfold Decode. destruct (HasPrefix raw prefix) eqn:Hp; cbn [negb]; [|done].
  apply HasPrefix_spec in Hp as [rest ->]. rewrite slice_from_prefix. cbn [mbind outcome_bind].
  pose proof (DecodeString_no_panic rest).
  destruct (DecodeString rest) as [data|e|] eqn:Hd; [|done|done]. cbn [wrap mbind outcome_bind].
  pose proof (unmarshal_any data) as Hu. destruct (unmarshal data) as [t|e|]; [|done|done].
  destruct Hu as (Henc & extra & sig & -> & Hsig). eauto 10.
Qed.

(** The checks on a token whose text carries [m] signed by [sig]. *)
Lemma verify_token_eq now t rest m sig :
  DecodeString rest = Ok (m ++ sig) → len sig = 64 →
  verify_token now t (prefix ++ rest) =
    if Token_ExpiresAt t <? now then Err (Errorf "invite: token expired" [])
    else (ok ← Verify (Token_PublicKey t) m sig;
          if negb ok then Err (Errorf "invite: invalid signature" []) else Ok tt).
Proof.
  intros Hd Hsig. unfold verify_token. case_match; [done|].
  rewrite slice_from_prefix. cbn [mbind outcome_bind]. rewrite Hd. cbn [wrap mbind outcome_bind].
  pose proof (len_nonneg m). unfold sigSize.
  rewrite (proj2 (Z.ltb_ge _ _)) by (rewrite len_app; lia).
  rewrite slice_head by (rewrite len_app; lia). cbn [mbind outcome_bind].
  replace (len (m ++ sig) - 64) with (len m) by (rewrite len_app; lia).
  by rewrite slice_from_prefix.
Qed.

Lemma record_nonce_Ok t ns ns' :
  record_nonce t ns = (Ok tt, ns') ↔ ns_SaveNonce ns (Token_Nonce t) = (Ok tt, ns').
Proof.
  unfold record_nonce. destruct (ns_SaveNonce _ _) as [[[]|e|] ns1]; simpl; naive_solver.
Qed.

Lemma check_nonce_Ok t ns :
  check_nonce t ns = Ok tt ↔ ns_HasNonce ns (Token_Nonce t) = Ok false.
Proof.
  unfold check_nonce. destruct (ns_HasNonce ns (Token_Nonce t)) as [[]|e|]; simpl; naive_solver.
Qed.

Lemma Validate_Ok now t raw ns ns' :
  Validate now t raw ns = (Ok tt, ns') ↔
  verify_token now t raw = Ok tt ∧ check_nonce t ns = Ok tt ∧ record_nonce t ns = (Ok tt, ns').
Proof.
  unfold Validate. destruct (verify_token now t raw) as [[]|e|]; simpl; [|naive_solver..].
  destruct (check_nonce t ns) as [[]|e|]; simpl; naive_solver.
Qed.

Lemma Validate_saves now t raw ns ns' :
  Validate now t raw ns = (Ok tt, ns') →
  ns_HasNonce ns (Token_Nonce t) = Ok false ∧ ns_HasNonce ns' (Token_Nonce t) = Ok true.
Proof.
  intros (_ & Hc%check_nonce_Ok & Hr%record_nonce_Ok)%Validate_Ok. split; [done|].
  by rewrite (ns_save _ _ _ _ _ Hr Hc), bool_decide_true.
Qed.

Lemma check_nonce_used t ns :
  ns_HasNonce ns (Token_Nonce t) = Ok true →
  check_nonce t ns = Err (Errorf "invite: nonce already used" []).
Proof. intros Hn. unfold check_nonce. by rewrite Hn. Qed.

Lemma Validate_used now t raw ns ns' :
  ns_HasNonce ns (Token_Nonce t) = Ok true → Validate now t raw ns ≠ (Ok tt, ns').
Proof.
  intros Hn (_ & Hc & _)%Validate_Ok. by rewrite check_nonce_used in Hc.
Qed.

Lemma Encode_Ok t k raw :
  Encode t k = Ok raw →
  encodable t ∧ ∃ sig, Sign k (payload_of t) = Ok sig ∧ len sig = 64 ∧
    raw = prefix ++ EncodeToString (payload_of t ++ sig).
Proof.
  unfold Encode. intros (p & [He ->]%marshalPayload_Ok & (sig & Hs & [= <-])%bind_Ok)%bind_Ok.
  split; [done|]. exists sig. split_and!; [done| |done]. by apply (sign_length _ _ _ Hs).
Qed.

(** A token as it reads back: its expiry is cut to a whole second. *)
Definition truncated t : Token := {|
  Token_PublicKey := Token_PublicKey t; Token_Endpoints := Token_Endpoints t;
  Token_Nonce := Token_Nonce t; Token_ExpiresAt := Token_ExpiresAt t / 10 ^ 9 * 10 ^ 9
|}.

Lemma Decode_Encode_eq t k raw :
  Encode t k = Ok raw → is_sec (Token_ExpiresAt t / 10 ^ 9) → Decode raw = Ok (truncated t).
Proof.
  intros (He & sig & _ & Hsig & ->)%Encode_Ok Hsec. unfold Decode.
  rewrite HasPrefix_app. cbn [negb]. rewrite slice_from_prefix. cbn [mbind outcome_bind].
  rewrite DecodeString_EncodeToString. cbn [wrap mbind outcome_bind].
  by apply (unmarshal_payload t []).
Qed.

(** * Concurrent validations *)

(** Two goroutines that validate: each first runs the checks, up to [HasNonce],
    then records the nonce. The two database transactions are atomic, the pair is
    not. *)
Inductive phase := Start | Checked | Done (r : outcome unit).

Definition validate_step (now : Z) (t : Token) (raw : bytes) (p : phase) (ns : S) : phase * S :=
  match p with
  | Start =>
      match (_ ← verify_token now t raw; check_nonce t ns) with
      | Ok _ => (Checked, ns)
      | Err e => (Done (Err e), ns)
      | Panic => (Done Panic, ns)
      end
  | Checked => let '(r, ns') := record_nonce t ns in (Done r, ns')
  | Done r => (Done r, ns)
  end.

(** A schedule says which goroutine takes the next step. *)
Fixpoint run_two (now : Z) (t : Token) (raw : bytes) (sched : list bool)
    (p q : phase) (ns : S) : phase * phase * S :=
  match sched with
  | [] => (p, q, ns)
  | true :: sched' =>
      let '(p', ns') := validate_step now t raw p ns in run_two now t raw sched' p' q ns'
  | false :: sched' =>
      let '(q', ns') := validate_step now t raw q ns in run_two now t raw sched' p q' ns'
  end.

(** One goroutine alone is [Validate]. *)
Lemma validate_two_steps now t raw ns :
  (let '(p, ns1) := validate_step now t raw Start ns in validate_step now t raw p ns1) =
  (Done (fst (Validate now t raw ns)), snd (Validate now t raw ns)).
Proof.
  unfold Validate, validate_step. destruct (_ ← _; _) as [[]|e|]; [|done|done].
  by destruct (record_nonce t ns).
Qed.

(** A token made by [Create] and [Encode] reads back and validates. *)
Lemma created_valid nonce now ttl now' privKey pub endpoints ns ns' :
  len privKey = 64 → Public privKey = Ok pub → len pub = 32 →
  len endpoints ≤ 65535 → Forall short endpoints →
  0 < ttl → is_sec ((now + ttl) / 10 ^ 9) → now' ≤ (now + ttl) / 10 ^ 9 * 10 ^ 9 →
  ns_HasNonce ns nonce = Ok false → ns_SaveNonce ns nonce = (Ok tt, ns') →
  let t := mk_Token pub endpoints nonce (now + ttl) in
  Create (Ok nonce) now privKey endpoints ttl = Ok t ∧
  ∃ raw, Encode t privKey = Ok raw ∧ raw ≠ [] ∧ Decode raw = Ok (truncated t) ∧
    Validate now' (truncated t) raw ns = (Ok tt, ns').
Proof.
  intros Hk Hpub Hlen Hn Hshort Httl Hsec Hnow Hfresh Hsave t.
  assert (encodable t) as Henc by done.
  destruct (sign_ok privKey (payload_of t) Hk) as [sig Hsig].
  split; [unfold Create; rewrite (proj2 (Z.leb_gt _ _)) by done; simpl; by rewrite Hpub|].
  exists (prefix ++ EncodeToString (payload_of t ++ sig)).
  assert (Encode t privKey = Ok (prefix ++ EncodeToString (payload_of t ++ sig))) as He.
  { unfold Encode. rewrite (proj2 (marshalPayload_Ok t _) (conj Henc eq_refl)).
    cbn [mbind outcome_bind]. by rewrite Hsig. }
  split_and!; [done|done|by apply (Decode_Encode_eq _ _ _ He)|].
  apply Validate_Ok. split_and!; [|by apply check_nonce_Ok|by apply record_nonce_Ok].
  rewrite (verify_token_eq _ _ _ (payload_of t) sig);
    [|apply DecodeString_EncodeToString|by apply (sign_length _ _ _ Hsig)].
  rewrite (proj2 (Z.ltb_ge _ _)) by done.
  change (Token_PublicKey (truncated t)) with pub. by rewrite (verify_sign _ _ _ _ Hpub Hsig).
Qed.

(** A token whose nonce is used is refused, without a panic. *)
Lemma Validate_used_Err now t raw ns :
  Decode raw = Ok t → ns_HasNonce ns (Token_Nonce t) = Ok true →
  ∃ e, Validate now t raw ns = (Err e, ns).
Proof.
  intros Hdec Hn. pose proof (Decode_any raw) as Hd. rewrite Hdec in Hd.
  destruct Hd as ((Hpk & _) & rest & extra & sig & -> & Hds & Hsig).
  unfold Validate. rewrite app_assoc in Hds. rewrite (verify_token_eq _ _ _ _ _ Hds Hsig).
  destruct (_ <? now); [by eexists|].
  destruct (verify_ok (Token_PublicKey t) (payload_of t ++ extra) sig Hpk) as [[] ->]; [|by eexists].
  simpl. rewrite check_nonce_used by done. by eexists.
Qed.

End Facts.

(** * Properties *)

(** C35. A token survives its text form: whatever [Encode] produces, [Decode]
    reads back the same key, endpoints and nonce, and the expiry cut to a whole
    second. *)
Theorem Decode_Encode `{Ed25519Laws} (t : Token) (privKey raw : bytes) :
  Encode t privKey = Ok raw → is_sec (Token_ExpiresAt t / 10 ^ 9) →
  Decode raw = Ok (truncated t).
Proof. apply Decode_Encode_eq. Qed.

(** C36. No text, however malformed, makes [Decode] panic, and validating a token
    that [Decode] returned does not panic either, as long as the nonce store does
    not. *)
Theorem Decode_Validate_no_panic `{Ed25519Laws} {S : Type} `{NonceStore S}
    (now : Z) (raw : bytes) (ns : S) :
  (∀ n, ns_HasNonce ns n ≠ Panic) → (∀ n, fst (ns_SaveNonce ns n) ≠ Panic) →
  match Decode raw with
  | Ok t => fst (Validate now t raw ns) ≠ Panic
  | Err _ => True
  | Panic => False
  end.
Proof.
  intros Hhas Hsave. pose proof (Decode_any raw) as Hd.
  destruct (Decode raw) as [t|e|]; [|done|done].
  destruct Hd as ((Hpk & _) & rest & extra & sig & -> & Hds & Hsig).
  unfold Validate. rewrite app_assoc in Hds. rewrite (verify_token_eq _ _ _ _ _ Hds Hsig).
  destruct (_ <? now); [done|].
  destruct (verify_ok (Token_PublicKey t) (payload_of t ++ extra) sig Hpk) as [[] ->]; [|done].
  simpl. unfold check_nonce. specialize (Hhas (Token_Nonce t)). specialize (Hsave (Token_Nonce t)).
  destruct (ns_HasNonce ns (Token_Nonce t)) as [[]|e|]; [done| |done|done]. simpl.
  unfold record_nonce. by destruct (ns_SaveNonce ns (Token_Nonce t)) as [[]].
Qed.

(** C6. What an accepted token means: a token that was decoded and validated was
    not expired, its key verifies a signature over a message that starts with
    exactly the token's fields, its nonce was unused and is now recorded. *)
Theorem Validate_sound `{Ed25519Laws} {S : Type} `{NonceLaws S}
    (now : Z) (t : Token) (raw : bytes) (ns ns' : S) :
  Decode raw = Ok t → Validate now t raw ns = (Ok tt, ns') →
  now ≤ Token_ExpiresAt t ∧
  (∃ payload extra sig, marshalPayload t = Ok payload ∧
     Verify (Token_PublicKey t) (payload ++ extra) sig = Ok true) ∧
  ns_HasNonce ns (Token_Nonce t) = Ok false ∧ ns_HasNonce ns' (Token_Nonce t) = Ok true.
Proof.
  intros Hdec Hv. pose proof (Decode_any raw) as Hd. rewrite Hdec in Hd.
  destruct Hd as (Henc & rest & extra & sig & -> & Hds & Hsig).
  split_and!; [| |by apply (Validate_saves _ _ _ _ _ Hv)..].
  all: apply Validate_Ok in Hv as (Hv & _ & _); rewrite app_assoc in Hds;
    rewrite (verify_token_eq _ _ _ _ _ Hds Hsig) in Hv;
    destruct (Z.ltb_spec (Token_ExpiresAt t) now); [done|].
  - done.
  - exists (payload_of t), extra, sig. split; [by apply marshalPayload_Ok|].
    destruct (Verify _ _ _) as [[]|e|]; done.
Qed.

(** An invite works: a token made by [Create] with a valid key, encoded by
    [Encode] and decoded by the receiver validates until the whole second of its
    expiry, when its nonce is fresh. *)
Theorem invite_accepted `{Ed25519Laws} {S : Type} `{NonceLaws S}
    (nonce : arr 16) (now ttl now' : Z) (privKey : bytes) (endpoints : list bytes)
    (ns ns' : S) :
  len privKey = 64 → len endpoints ≤ 65535 → Forall (λ ep, len ep ≤ 65535) endpoints →
  0 < ttl → is_sec ((now + ttl) / 10 ^ 9) → now' ≤ (now + ttl) / 10 ^ 9 * 10 ^ 9 →
  ns_HasNonce ns nonce = Ok false → ns_SaveNonce ns nonce = (Ok tt, ns') →
  ∃ t raw t', Create (Ok nonce) now privKey endpoints ttl = Ok t ∧
    Encode t privKey = Ok raw ∧ Decode raw = Ok t' ∧ Token_Endpoints t' = endpoints ∧
    Validate now' t' raw ns = (Ok tt, ns').
Proof.
  intros Hk Hn Hshort Httl Hsec Hnow Hfresh Hsave.
  destruct (public_ok privKey Hk) as (pub & Hpub & Hlen).
  destruct (created_valid nonce now ttl now' privKey pub endpoints ns ns')
    as (Hc & raw & He & _ & Hd & Hv); [done..|].
  exists (mk_Token pub endpoints nonce (now + ttl)), raw, (truncated (mk_Token pub endpoints nonce (now + ttl))).
  done.
Qed.

(** C7. An invite is for one use: after a token was validated against the peer
    store, and whatever the node stores afterwards, no token with that nonce
    validates again. *)
Theorem invite_one_time `{Ed25519Laws} {B : Type} `{BoltLaws B} `{PeerJson}
    (now now' : Z) (t t' : Token) (raw raw' : bytes) (s s1 : Peerstore.Store B)
    (os : list Peerstore.op) :
  Validate now t raw s = (Ok tt, s1) → Token_Nonce t' = Token_Nonce t →
  fst (Validate now' t' raw' (snd (Peerstore.exec_all os s1))) ≠ Ok tt.
Proof.
  intros [_ Hn]%Validate_saves Heq Hv.
  destruct (Validate now' t' raw' _) as [res s2] eqn:E. simpl in Hv. subst res.
  apply Validate_used in E; [done|]. simpl in *. rewrite Heq.
  by rewrite (Peerstore.exec_all_nonces os _ _ _ Hn).
Qed.

(** The check and the recording of a nonce are two transactions: two
    validations of one token that run one after the other give one success, but
    when both check before either records, both succeed. *)
Theorem Validate_race `{Ed25519Laws} {S : Type} `{NonceLaws S}
    (now : Z) (t : Token) (raw : bytes) (ns : S) :
  (∀ ns n, ∃ ns', ns_SaveNonce ns n = (Ok tt, ns')) →
  verify_token now t raw = Ok tt → ns_HasNonce ns (Token_Nonce t) = Ok false →
  (∃ ns', run_two now t raw [true; true; false; false] Start Start ns =
     (Done (Ok tt), Done (Err (Errorf "invite: nonce already used" [])), ns')) ∧
  (∃ ns', run_two now t raw [true; false; true; false] Start Start ns =
     (Done (Ok tt), Done (Ok tt), ns')).
Proof.
  intros Hsave Hv Hn. destruct (Hsave ns (Token_Nonce t)) as [ns1 Hs1].
  destruct (Hsave ns1 (Token_Nonce t)) as [ns2 Hs2].
  assert (record_nonce t ns = (Ok tt, ns1)) as Hr1 by (by apply record_nonce_Ok).
  assert (record_nonce t ns1 = (Ok tt, ns2)) as Hr2 by (by apply record_nonce_Ok).
  assert (check_nonce t ns = Ok tt) as Hc by (by apply check_nonce_Ok).
  assert (check_nonce t ns1 = Err (Errorf "invite: nonce already used" [])) as Hc1.
  { apply check_nonce_used. by rewrite (ns_save _ _ _ _ _ Hs1 Hn), bool_decide_true. }
  split; cbn [run_two];
    repeat first [progress cbn [validate_step mbind outcome_bind]
                 |rewrite Hv|rewrite Hc|rewrite Hc1|rewrite Hr1|rewrite Hr2]; eauto.
Qed.

(** * Witnesses *)

Module InviteWitness.
Import MapBolt PeerInstance ToySig.

Definition key : bytes := replicate 64 Byte.x41.
Definition nonce1 : arr 16 := copy_arr 16 (str "nonce-1").
Definition token : Token :=
  mk_Token (replicate 32 Byte.x41) [str "10.0.0.1:7777"; str "relay:1"] nonce1 (1700000000 * 10 ^ 9 + 5).
Definition now : Z := 1699999999 * 10 ^ 9.
Definition text : bytes := match Encode token key with Ok raw => raw | _ => [] end.
Definition store1 : Peerstore.Store (gmap bytes bytes) := snd (Peerstore.SaveNonce new_store nonce1).

Lemma Decode_Encode_witness : Decode text = Ok (truncated token).
Proof. apply (Decode_Encode token key text); [by vm_compute|by vm_compute]. Defined.

Lemma new_store_has n : Peerstore.HasNonce new_store n ≠ Panic.
Proof. done. Qed.

Lemma new_store_save n : fst (Peerstore.SaveNonce new_store n) ≠ Panic.
Proof.
  unfold Peerstore.SaveNonce, Update, db_Update. simpl. by destruct (_ && _).
Qed.

Lemma Decode_Validate_no_panic_witness :
  match Decode text with
  | Ok t => fst (Validate now t text new_store) ≠ Panic
  | Err _ => True
  | Panic => False
  end.
Proof. apply (Decode_Validate_no_panic now text new_store); [apply new_store_has|apply new_store_save]. Defined.

Lemma text_valid : fst (Validate now (truncated token) text new_store) = Ok tt.
Proof. by vm_compute. Qed.

Definition after : Peerstore.Store (gmap bytes bytes) :=
  snd (Validate now (truncated token) text new_store).

Lemma Validate_text : Validate now (truncated token) text new_store = (Ok tt, after).
Proof. apply pair_fst, text_valid. Qed.

Lemma save1 : ns_SaveNonce new_store nonce1 = (Ok tt, store1).
Proof. apply pair_fst. by vm_compute. Qed.

Lemma Validate_sound_witness :
  now ≤ Token_ExpiresAt (truncated token) ∧
  (∃ payload extra sig, marshalPayload (truncated token) = Ok payload ∧
     Verify (Token_PublicKey (truncated token)) (payload ++ extra) sig = Ok true) ∧
  ns_HasNonce new_store nonce1 = Ok false ∧ ns_HasNonce after nonce1 = Ok true.
Proof.
  apply (Validate_sound now (truncated token) text new_store after);
    [by vm_compute|apply Validate_text].
Defined.

Lemma invite_accepted_witness :
  ∃ t raw t', Create (Ok nonce1) now key [str "h:1"] (10 ^ 10) = Ok t ∧
    Encode t key = Ok raw ∧ Decode raw = Ok t' ∧ Token_Endpoints t' = [str "h:1"] ∧
    Validate now t' raw new_store = (Ok tt, store1).
Proof.
  apply (invite_accepted nonce1 now (10 ^ 10) now key [str "h:1"] new_store store1);
    [done|done|by repeat constructor|done|by vm_compute|by vm_compute|by vm_compute|apply save1].
Defined.

Lemma invite_one_time_witness :
  fst (Validate now (truncated token) text
         (snd (Peerstore.exec_all [OpSaveNonce (zero_arr 16)] after))) ≠ Ok tt.
Proof.
  apply (invite_one_time now now (truncated token) (truncated token) text text new_store after
           [OpSaveNonce (zero_arr 16)]); [apply Validate_text|done].
Defined.

(** A nonce store that is a list, where saving always succeeds. *)
#[export] Instance list_nonces : NonceStore (list (arr 16)) := {|
  ns_HasNonce l n := Ok (bool_decide (n ∈ l));
  ns_SaveNonce l n := (Ok tt, n :: l)
|}.

#[export] Instance list_nonce_laws : NonceLaws (list (arr 16)).
Proof.
  split; simpl; [|by intros s n res s' [= <- <-]].
  intros s n s' m r [= <-] [= <-]. f_equal.
  destruct (decide (n = m)) as [->|Hne].
  - rewrite (bool_decide_true (m ∈ _)) by left. rewrite (bool_decide_true (m = m)) by done.
    by rewrite orb_true_r.
  - rewrite (bool_decide_false (n = m)), orb_false_r by done. apply bool_decide_ext.
    rewrite elem_of_cons. naive_solver.
Qed.

Lemma Validate_race_witness :
  (∃ ns', run_two now (truncated token) text [true; true; false; false] Start Start [] =
     (Done (Ok tt), Done (Err (Errorf "invite: nonce already used" [])), ns')) ∧
  (∃ ns', run_two now (truncated token) text [true; false; true; false] Start Start [] =
     (Done (Ok tt), Done (Ok tt), ns')).
Proof.
  apply (Validate_race now (truncated token) text []); [by eauto|by vm_compute|done].
Defined.

End InviteWitness.
