(* ===== verification/Sha256.v ===== *)
(** SHA-256 ([crypto/sha256]), as FIPS 180-4 defines it, on 32-bit words kept as
    integers modulo [2^32]. The test vectors of the standard are checked. *)

From S2P Require Import Prelude.

Definition add32 (a b : Z) : Z := (a + b) mod 2 ^ 32.
Definition rotr (n x : Z) : Z :=
  Z.lor (Z.shiftr x n) (Z.land (Z.shiftl x (32 - n)) (2 ^ 32 - 1)).
Definition xor3 (a b c : Z) : Z := Z.lxor (Z.lxor a b) c.

Definition Ch (x y z : Z) : Z := Z.lxor (Z.land x y) (Z.land (2 ^ 32 - 1 - x) z).
Definition Maj (x y z : Z) : Z := xor3 (Z.land x y) (Z.land x z) (Z.land y z).
Definition Sigma0 (x : Z) : Z := xor3 (rotr 2 x) (rotr 13 x) (rotr 22 x).
Definition Sigma1 (x : Z) : Z := xor3 (rotr 6 x) (rotr 11 x) (rotr 25 x).
Definition sigma0 (x : Z) : Z := xor3 (rotr 7 x) (rotr 18 x) (Z.shiftr x 3).
Definition sigma1 (x : Z) : Z := xor3 (rotr 17 x) (rotr 19 x) (Z.shiftr x 10).

(** The constants of the standard are the first 32 bits of the fractional parts of
    the cube roots (for the rounds) and square roots (for the initial state) of the
    first primes. *)
Definition is_prime (p : Z) : bool :=
  (1 <? p) && forallb (λ d, negb (p mod d =? 0)) (map Z.of_nat (seq 2 (Z.to_nat (Z.sqrt p) - 1))).

Definition primes : list Z := List.filter is_prime (map Z.of_nat (seq 2 310)).

(** The integer cube root, bit by bit from bit [n - 1] down. *)
Fixpoint cbrt_from (n : nat) (r x : Z) : Z :=
  match n with
  | O => r
  | S n' =>
      let r' := r + 2 ^ Z.of_nat n' in
      cbrt_from n' (if r' ^ 3 <=? x then r' else r) x
  end.

Definition K : list Z :=
  Eval vm_compute in map (λ p, cbrt_from 36 0 (p * 2 ^ 96) mod 2 ^ 32) primes.

(** The eight working variables. *)
Record state := St { sa : Z; sb : Z; sc : Z; sd : Z; se : Z; sf : Z; sg : Z; sh : Z }.

Definition init : state :=
  Eval vm_compute in
    match map (λ p, Z.sqrt (p * 2 ^ 64) mod 2 ^ 32) primes with
    | a :: b :: c :: d :: e :: f :: g :: h :: _ => St a b c d e f g h
    | _ => St 0 0 0 0 0 0 0 0
    end.

Definition round (s : state) (kw : Z * Z) : state :=
  let t1 := add32 (add32 (add32 (sh s) (Sigma1 (se s))) (Ch (se s) (sf s) (sg s)))
                  (add32 kw.1 kw.2) in
  let t2 := add32 (Sigma0 (sa s)) (Maj (sa s) (sb s) (sc s)) in
  St (add32 t1 t2) (sa s) (sb s) (sc s) (add32 (sd s) t1) (se s) (sf s) (sg s).

(** The message schedule; the window holds the last sixteen words, oldest first. *)
Definition next_word (w : list Z) : Z :=
  add32 (add32 (sigma1 (nth 14 w 0)) (nth 9 w 0)) (add32 (sigma0 (nth 1 w 0)) (nth 0 w 0)).

Fixpoint schedule (n : nat) (w : list Z) : list Z :=
  match n with
  | O => w
  | S n' =>
      match w with
      | [] => []
      | x :: w' => x :: schedule n' (w' ++ [next_word w])
      end
  end.

Definition compress (h : state) (block : list Z) : state :=
  let s := fold_left round (combine K (schedule 48 block)) h in
  St (add32 (sa h) (sa s)) (add32 (sb h) (sb s)) (add32 (sc h) (sc s)) (add32 (sd h) (sd s))
     (add32 (se h) (se s)) (add32 (sf h) (sf s)) (add32 (sg h) (sg s)) (add32 (sh h) (sh s)).

(** [0x80], zeros up to 56 bytes modulo 64, and the length in bits. *)
Definition pad (m : bytes) : bytes :=
  m ++ Byte.x80 :: replicate (Z.to_nat ((55 - len m) mod 64)) Byte.x00 ++ be_put 8 (8 * len m).

Fixpoint words (b : bytes) : list Z :=
  match b with
  | b0 :: b1 :: b2 :: b3 :: b' => be_get [b0; b1; b2; b3] :: words b'
  | _ => []
  end.

(** The hash of the blocks; [n] bounds their number. *)
Fixpoint blocks (n : nat) (h : state) (w : list Z) : state :=
  match n with
  | O => h
  | S n' =>
      match w with
      | [] => h
      | _ => blocks n' (compress h (take 16 w)) (drop 16 w)
      end
  end.

Definition digest (h : state) : bytes :=
  concat (map (be_put 4) [sa h; sb h; sc h; sd h; se h; sf h; sg h; sh h]).

(** [sha256.Sum256(data)], and [h.Sum(nil)] of a hash that was written [data]. *)
Definition Sum256 (data : bytes) : arr 32 :=
  let p := pad data in
  copy_arr 32 (digest (blocks (length p) init (words p))).

Lemma digest_length h : length (digest h) = 32%nat.
Proof. unfold digest. cbn [map concat]. by rewrite !length_app, !be_put_length. Qed.

Lemma Sum256_bytes data :
  arr_bytes (Sum256 data) = digest (blocks (length (pad data)) init (words (pad data))).
Proof. unfold Sum256. apply copy_arr_exact, digest_length. Qed.

(** Padding fills whole blocks. *)
Lemma pad_blocks m : len (pad m) mod 64 = 0.
Proof.
  unfold pad. rewrite len_app, len_cons, len_app.
  assert (len (be_put 8 (8 * len m)) = 8) as -> by (unfold len; by rewrite be_put_length).
  assert (∀ n, len (replicate (Z.to_nat (n mod 64)) Byte.x00) = n mod 64) as ->.
  { intros n. unfold len. rewrite length_replicate.
    pose proof (Z.mod_pos_bound n 64). lia. }
  set (l := len m). Z.to_euclidean_division_equations. lia.
Qed.

Lemma K_length : length K = 64%nat.
Proof. done. Qed.

(** [""], ["abc"] and the two-block message of the standard. *)
Lemma sha256_vectors :
  be_get (arr_bytes (Sum256 [])) =
    0xe3b0c44298fc1c149afbf4c8996fb92427ae41e4649b934ca495991b7852b855 ∧
  be_get (arr_bytes (Sum256 (str "abc"))) =
    0xba7816bf8f01cfea414140de5dae2223b00361a396177a9cb410ff61f20015ad ∧
  be_get (arr_bytes (Sum256 (str "abcdbcdecdefdefgefghfghighijhijkijkljklmklmnlmnomnopnopq"))) =
    0x248d6a61d20638b8e5c026930c3e6039a33ce45964ff2167f6ecedd419db06c1.
Proof. by vm_compute. Qed.

#[global] Opaque Sum256.
