(* ===== verification/Path.v ===== *)
(** [path/filepath] on Unix: [Clean], [Join] and [Base], lexically. *)

From S2P Require Import Prelude GoStd.

Definition slash : byte := Byte.x2f.
Definition dot : bytes := str ".".
Definition dotdot : bytes := str "..".

(** The pieces of a path between slashes; at least one. *)
Fixpoint split_slash (p : bytes) : list bytes :=
  match p with
  | [] => [[]]
  | b :: p' =>
      if bool_decide (b = slash) then [] :: split_slash p'
      else match split_slash p' with
           | s :: ss => (b :: s) :: ss
           | [] => [[b]]
           end
  end.

Fixpoint join_slash (cs : list bytes) : bytes :=
  match cs with
  | [] => []
  | [c] => c
  | c :: cs' => c ++ slash :: join_slash cs'
  end.

Definition rooted (p : bytes) : bool := HasPrefix p [slash].

(** One piece of the path; [acc] holds the kept pieces, last first. [..] removes
    the last kept piece; at the root it is dropped, and in a relative path with
    nothing to remove it is kept. *)
Definition clean_piece (root : bool) (acc : list bytes) (c : bytes) : list bytes :=
  if bool_decide (c = []) || bool_decide (c = dot) then acc
  else if bool_decide (c = dotdot) then
    match acc with
    | [] => if root then [] else [dotdot]
    | last :: acc' => if bool_decide (last = dotdot) then dotdot :: acc else acc'
    end
  else c :: acc.

Definition clean_pieces (root : bool) (cs : list bytes) : list bytes :=
  rev (fold_left (clean_piece root) cs []).

(** [filepath.Clean]. *)
Definition Clean (p : bytes) : bytes :=
  let cs := clean_pieces (rooted p) (split_slash p) in
  if rooted p then slash :: join_slash cs
  else match cs with [] => dot | _ => join_slash cs end.

(** [filepath.Join(a, b)]: empty elements are ignored. *)
Definition Join (a b : bytes) : bytes :=
  match a, b with
  | [], [] => []
  | [], _ => Clean b
  | _, [] => Clean a
  | _, _ => Clean (a ++ slash :: b)
  end.

Fixpoint strip_slashes (p : bytes) : bytes :=
  match p with
  | [] => []
  | b :: p' => if bool_decide (b = slash) then strip_slashes p' else p
  end.

(** [filepath.Base]: the last piece once trailing slashes are removed. *)
Definition Base (p : bytes) : bytes :=
  match p with
  | [] => dot
  | _ =>
      match rev (strip_slashes (rev p)) with
      | [] => [slash]
      | q => List.last (split_slash q) []
      end
  end.

(** * Facts *)

Definition no_slash (p : bytes) : Prop := slash ∉ p.

#[global] Instance no_slash_dec p : Decision (no_slash p).
Proof. unfold no_slash. apply _. Defined.

Lemma split_slash_nonempty p : split_slash p ≠ [].
Proof. destruct p as [|b p]; simpl; [done|]. case_match; [done|]. by destruct (split_slash p). Qed.

Lemma split_slash_pieces p : Forall no_slash (split_slash p).
Proof.
  unfold no_slash. induction p as [|b p IH]; simpl; [repeat constructor; set_solver|].
  destruct (bool_decide (b = slash)) eqn:E; [constructor; [set_solver|done]|].
  apply bool_decide_eq_false in E. destruct (split_slash p) as [|s ss]; [repeat constructor; set_solver|].
  apply Forall_cons in IH as [Hs IH]. constructor; [set_solver|done].
Qed.

Lemma split_slash_single c : no_slash c → split_slash c = [c].
Proof.
  unfold no_slash. induction c as [|b c IH]; intros Hn; simpl; [done|].
  rewrite bool_decide_false by set_solver. rewrite IH by set_solver. done.
Qed.

Lemma split_slash_app p q :
  split_slash (p ++ slash :: q) = split_slash p ++ split_slash q.
Proof.
  induction p as [|b p IH]; simpl; [done|].
  case_match; [by rewrite IH|]. rewrite IH. by destruct (split_slash p) eqn:E; [destruct (split_slash_nonempty p)|].
Qed.

Lemma last_Forall {A} (P : A → Prop) l d : Forall P l → P d → P (List.last l d).
Proof. induction 1 as [|x l Hx Hl IH]; intros Hd; simpl; [done|]. destruct l; auto. Qed.

(** A base name is the root or has no slash, and it is not empty. *)
Lemma Base_no_slash p : Base p = [slash] ∨ no_slash (Base p).
Proof.
  unfold Base. destruct p as [|b p]; [right; apply (bool_decide_unpack _); by vm_compute|].
  destruct (rev _) as [|c q]; [by left|]. right.
  apply last_Forall; [apply split_slash_pieces|]. unfold no_slash. set_solver.
Qed.

(** A name that [Clean] keeps as it is. *)
Definition plain (c : bytes) : Prop := no_slash c ∧ c ≠ [] ∧ c ≠ dot ∧ c ≠ dotdot.

Lemma clean_piece_plain root acc c : plain c → clean_piece root acc c = c :: acc.
Proof.
  intros (_ & He & Hd & Hdd). unfold clean_piece. by rewrite !bool_decide_false.
Qed.

(** Cleaning a path with a plain last piece appended. *)
Lemma clean_pieces_snoc root cs c :
  plain c → clean_pieces root (cs ++ [c]) = clean_pieces root cs ++ [c].
Proof.
  intros Hc. unfold clean_pieces. rewrite fold_left_app. simpl.
  by rewrite clean_piece_plain.
Qed.

Lemma join_slash_snoc cs c : cs ≠ [] → join_slash (cs ++ [c]) = join_slash cs ++ slash :: c.
Proof.
  induction cs as [|x cs IH]; [done|]. intros _. destruct cs as [|y cs]; [done|].
  change ((x :: y :: cs) ++ [c]) with (x :: (y :: cs) ++ [c]).
  cbn [join_slash app] in *. rewrite IH by done. by rewrite <- app_assoc.
Qed.

(** The directory part of a joined path. *)
Definition dir_prefix (d : bytes) : bytes :=
  (if rooted d then [slash] else []) ++
  match clean_pieces (rooted d) (split_slash d) with
  | [] => []
  | cs => join_slash cs ++ [slash]
  end.

Lemma rooted_app d q : d ≠ [] → rooted (d ++ q) = rooted d.
Proof. by destruct d. Qed.

(** Joining a directory and a plain name appends the name to the directory. *)
Lemma Join_plain d c : d ≠ [] → plain c → Join d c = dir_prefix d ++ c.
Proof.
  intros Hd Hc. pose proof Hc as (Hs & Hne & _).
  assert (Join d c = Clean (d ++ slash :: c)) as -> by (destruct d, c; done).
  unfold Clean, dir_prefix. rewrite rooted_app by done.
  rewrite split_slash_app, (split_slash_single c), clean_pieces_snoc by done.
  destruct (clean_pieces _ _) as [|x cs]; [by destruct (rooted d)|].
  rewrite join_slash_snoc by done.
  destruct (rooted d); simpl; rewrite <- ?app_assoc; done.
Qed.

Lemma Join_inj d c c' : d ≠ [] → plain c → plain c' → Join d c = Join d c' → c = c'.
Proof. intros Hd Hc Hc'. rewrite !Join_plain by done. apply app_inv_head. Qed.

(** A path that is an entry of the directory [d]. *)
Definition in_dir (d p : bytes) : Prop := ∃ c, plain c ∧ p = Join d c.

(** A lowercase hexadecimal string is a plain name. *)
Lemma hex_encode_plain b : b ≠ [] → plain (hex_encode b).
Proof.
  intros Hb.
  assert (∀ x, x ∈ hex_encode b → 48 ≤ byte.unsigned x) as Hx.
  { clear Hb. induction b as [|y b IH]; simpl; [set_solver|]. destruct (nibble_bounds y).
    intros x. rewrite !elem_of_cons. intros [->|[->|Hx]]; [| |by apply IH];
      rewrite hex_digit_unsigned by done; case_match; lia. }
  split_and!.
  - intros Hin%Hx. by vm_compute in Hin.
  - by destruct b.
  - intros Heq. assert (Byte.x2e ∈ hex_encode b) as Hin%Hx by (rewrite Heq; by left).
    by vm_compute in Hin.
  - intros Heq. assert (Byte.x2e ∈ hex_encode b) as Hin%Hx by (rewrite Heq; by left).
    by vm_compute in Hin.
Qed.

(** Examples of the standard library's documentation. *)
Lemma path_examples :
  Clean (str "a//b/./../c/") = str "a/c" ∧ Clean (str "/../a") = str "/a" ∧
  Clean (str "../x/../..") = str "../.." ∧ Clean [] = dot ∧
  Base (str "/a/b/") = str "b" ∧ Base (str "///") = str "/" ∧ Base [] = dot ∧
  Join (str "/srv") (str "../x") = str "/x" ∧ Join (str "d") [] = str "d".
Proof. by vm_compute. Qed.
