(* ===== verification/Fs.v ===== *)
(** The file system calls the program makes ([os]). A file system is a map from
    paths to nodes, with a fault for every call that fails for a reason the map
    does not show (permissions, a full disk, an I/O error). Symbolic links are not
    followed. *)

From S2P Require Import Prelude GoStd Path.

(** [Other] stands for a node that is neither a directory nor a regular file. *)
Inductive node := File (content : bytes) | Dir | Other.

#[global] Instance node_eq_dec : EqDecision node.
Proof. solve_decision. Defined.

(** The calls that can fail; reads and writes are told apart by their offset. *)
Inductive fs_call :=
| CStat (p : bytes)
| COpen (p : bytes)
| CRead (p : bytes) (off : Z)
| CCreate (p : bytes)
| CWrite (p : bytes) (off : Z)
| CClose (p : bytes)
| CRemove (p : bytes)
| CRename (p q : bytes)
| CMkdir (p : bytes).

Record FS := mk_FS { nodes : gmap bytes node; fault : fs_call → option error }.

Definition with_nodes (fs : FS) (m : gmap bytes node) : FS := {| nodes := m; fault := fault fs |}.

(** [c] fails with its fault or goes on. *)
Definition attempt {A} (fs : FS) (c : fs_call) (k : outcome A) : outcome A :=
  match fault fs c with Some e => Err e | None => k end.

Definition os_ErrExist : error := Sentinel "file already exists".
Definition EISDIR : error := Sentinel "is a directory".
Definition ENOTDIR : error := Sentinel "not a directory".

Definition Stat (fs : FS) (p : bytes) : outcome node :=
  attempt fs (CStat p)
    match nodes fs !! p with Some n => Ok n | None => Err os_ErrNotExist end.

(** [os.Open]: the node that the handle reads from. *)
Definition os_Open (fs : FS) (p : bytes) : outcome node :=
  attempt fs (COpen p)
    match nodes fs !! p with Some n => Ok n | None => Err os_ErrNotExist end.

(** [f.Read(buf)] with [len(buf) = n] at offset [off] of an open handle: [Ok []]
    is the end of the file. *)
Definition Read (fs : FS) (p : bytes) (h : node) (off : Z) (n : nat) : outcome bytes :=
  attempt fs (CRead p off)
    match h with
    | File content => Ok (take n (drop (Z.to_nat off) content))
    | _ => Err EISDIR
    end.

(** [io.ReadAll] and [io.Copy] from an open handle. *)
Definition ReadAll (fs : FS) (p : bytes) (h : node) : outcome bytes :=
  attempt fs (CRead p 0) match h with File content => Ok content | _ => Err EISDIR end.

(** [os.CreateTemp(dir, pattern)]; [rnd] is the random suffix. *)
Definition CreateTemp (fs : FS) (dir pattern rnd : bytes) : outcome bytes * FS :=
  let p := Join dir (pattern ++ rnd) in
  match attempt fs (CCreate p)
          (if bool_decide (nodes fs !! Clean dir = Some Dir) then
             match nodes fs !! p with Some _ => Err os_ErrExist | None => Ok tt end
           else Err os_ErrNotExist) with
  | Ok _ => (Ok p, with_nodes fs (<[p := File []]> (nodes fs)))
  | Err e => (Err e, fs)
  | Panic => (Panic, fs)
  end.

(** [f.Write(data)] at the end of an open file. *)
Definition Write (fs : FS) (p : bytes) (data : bytes) : outcome unit * FS :=
  match nodes fs !! p with
  | Some (File content) =>
      match attempt fs (CWrite p (len content)) (Ok tt) with
      | Ok _ => (Ok tt, with_nodes fs (<[p := File (content ++ data)]> (nodes fs)))
      | Err e => (Err e, fs)
      | Panic => (Panic, fs)
      end
  | _ => (Err os_ErrNotExist, fs)
  end.

Definition Close (fs : FS) (p : bytes) : outcome unit := attempt fs (CClose p) (Ok tt).

(** [os.Remove] of a file. *)
Definition Remove (fs : FS) (p : bytes) : outcome unit * FS :=
  match attempt fs (CRemove p)
          match nodes fs !! p with
          | Some (File _) | Some Other => Ok tt
          | Some Dir => Err EISDIR
          | None => Err os_ErrNotExist
          end with
  | Ok _ => (Ok tt, with_nodes fs (delete p (nodes fs)))
  | Err e => (Err e, fs)
  | Panic => (Panic, fs)
  end.

(** [os.Rename] of a file; a file at the target is replaced. *)
Definition Rename (fs : FS) (p q : bytes) : outcome unit * FS :=
  match attempt fs (CRename p q)
          match nodes fs !! p, nodes fs !! q with
          | None, _ => Err os_ErrNotExist
          | Some Dir, _ => Err ENOTDIR
          | Some _, Some Dir => Err os_ErrExist
          | Some _, _ => Ok tt
          end with
  | Ok _ =>
      (Ok tt, with_nodes fs
                match nodes fs !! p with
                | Some n => <[q := n]> (delete p (nodes fs))
                | None => nodes fs
                end)
  | Err e => (Err e, fs)
  | Panic => (Panic, fs)
  end.

(** * Facts *)

Lemma attempt_Ok {A} fs c (k : outcome A) a : attempt fs c k = Ok a ↔ fault fs c = None ∧ k = Ok a.
Proof. unfold attempt. destruct (fault fs c); naive_solver. Qed.

Lemma CreateTemp_inv fs dir pattern rnd p fs' :
  CreateTemp fs dir pattern rnd = (Ok p, fs') →
  p = Join dir (pattern ++ rnd) ∧ nodes fs !! p = None ∧ nodes fs !! Clean dir = Some Dir ∧
  fs' = with_nodes fs (<[p := File []]> (nodes fs)).
Proof.
  unfold CreateTemp. destruct (attempt _ _ _) as [[]|e|] eqn:E; [|done|done]. intros [= <- <-].
  apply attempt_Ok in E as [_ E]. case_bool_decide; [|done]. by destruct (nodes fs !! Join _ _).
Qed.

Lemma CreateTemp_failed fs dir pattern rnd r fs' :
  CreateTemp fs dir pattern rnd = (r, fs') → is_Ok r = false → fs' = fs.
Proof. unfold CreateTemp. destruct (attempt _ _ _); by intros [= <- <-]. Qed.

Lemma Write_nodes fs p data r fs' :
  Write fs p data = (r, fs') →
  fault fs' = fault fs ∧ (∀ q, q ≠ p → nodes fs' !! q = nodes fs !! q) ∧
  (r = Ok tt → ∃ content, nodes fs !! p = Some (File content) ∧
     nodes fs' !! p = Some (File (content ++ data))) ∧
  (∀ c, nodes fs !! p = Some (File c) → ∃ c', nodes fs' !! p = Some (File c')).
Proof.
  unfold Write. destruct (nodes fs !! p) as [[content| |]|] eqn:E; try (intros [= <- <-]; naive_solver).
  destruct (attempt _ _ _) as [[]|e|]; intros [= <- <-]; [|naive_solver..]. simpl.
  split_and!; [done|by intros q ?; rewrite lookup_insert_ne|rewrite lookup_insert_eq; naive_solver..].
Qed.

Lemma Rename_Ok fs p q fs' :
  Rename fs p q = (Ok tt, fs') →
  ∃ n, nodes fs !! p = Some n ∧ fs' = with_nodes fs (<[q := n]> (delete p (nodes fs))).
Proof.
  unfold Rename. destruct (attempt _ _ _) as [[]|e|] eqn:E; [|done|done]. intros [= <-].
  apply attempt_Ok in E as [_ E]. destruct (nodes fs !! p) as [n|]; [|done]. eauto.
Qed.

Lemma Rename_failed fs p q r fs' : Rename fs p q = (r, fs') → r ≠ Ok tt → fs' = fs.
Proof. unfold Rename. destruct (attempt _ _ _) as [[]|e|]; by intros [= <- <-]. Qed.

Lemma Remove_nodes fs p q : q ≠ p → nodes (snd (Remove fs p)) !! q = nodes fs !! q.
Proof.
  intros Hne. unfold Remove. destruct (attempt _ _ _); simpl; [|done|done]. by rewrite lookup_delete_ne.
Qed.

Lemma Remove_file fs p c :
  fault fs (CRemove p) = None → nodes fs !! p = Some (File c) ∨ nodes fs !! p = None →
  nodes (snd (Remove fs p)) !! p = None.
Proof.
  intros Hf Hp. unfold Remove, attempt. rewrite Hf.
  destruct Hp as [E|E]; rewrite E; simpl; [apply lookup_delete_eq|done].
Qed.

(** * Whole files and directories *)

Definition ReadFile (fs : FS) (p : bytes) : outcome bytes :=
  f ← os_Open fs p; ReadAll fs p f.

(** [os.WriteFile]: the file is created or truncated; its directory must exist. A
    write that fails leaves the file empty. *)
Definition WriteFile (fs : FS) (dir p : bytes) (data : bytes) : outcome unit * FS :=
  match attempt fs (CCreate p)
          match nodes fs !! p with
          | Some Dir => Err EISDIR
          | Some _ => Ok tt
          | None => if bool_decide (nodes fs !! dir = Some Dir) then Ok tt else Err os_ErrNotExist
          end with
  | Ok _ =>
      match attempt fs (CWrite p 0) (Ok tt) with
      | Ok _ => (Ok tt, with_nodes fs (<[p := File data]> (nodes fs)))
      | Err e => (Err e, with_nodes fs (<[p := File []]> (nodes fs)))
      | Panic => (Panic, fs)
      end
  | Err e => (Err e, fs)
  | Panic => (Panic, fs)
  end.

(** The paths of the directories above [p] and [p] itself: the prefixes that end
    before a slash. *)
Fixpoint ancestors_from (done p : bytes) : list bytes :=
  match p with
  | [] => [done]
  | b :: p' =>
      (if bool_decide (b = slash) && negb (bool_decide (done = [])) then [done] else []) ++
      ancestors_from (done ++ [b]) p'
  end.
Definition ancestors (p : bytes) : list bytes := ancestors_from [] p.

(** [os.MkdirAll]: missing directories are created; a file in the way is an error. *)
Definition MkdirAll (fs : FS) (p : bytes) : outcome unit * FS :=
  match attempt fs (CMkdir p)
          (if bool_decide (Forall (λ q, nodes fs !! q = None ∨ nodes fs !! q = Some Dir)
                             (ancestors (Clean p)))
           then Ok tt else Err ENOTDIR) with
  | Ok _ => (Ok tt, with_nodes fs (foldr (λ q m, <[q := Dir]> m) (nodes fs) (ancestors (Clean p))))
  | Err e => (Err e, fs)
  | Panic => (Panic, fs)
  end.

Lemma ancestors_from_last done p : last (ancestors_from done p) = Some (done ++ p).
Proof.
  revert done. induction p as [|b p IH]; intros done; simpl; [by rewrite app_nil_r|].
  rewrite last_app, IH. by rewrite <- app_assoc.
Qed.

Lemma ancestors_self p : p ∈ ancestors p.
Proof.
  pose proof (ancestors_from_last [] p) as Hl. simpl in Hl. by apply last_Some_elem_of.
Qed.

Lemma MkdirAll_Ok fs p fs' :
  MkdirAll fs p = (Ok tt, fs') →
  fault fs' = fault fs ∧ nodes fs' !! Clean p = Some Dir ∧
  ∀ q, nodes fs' !! q = nodes fs !! q ∨ (nodes fs !! q = None ∧ nodes fs' !! q = Some Dir).
Proof.
  unfold MkdirAll. destruct (attempt _ _ _) as [[]| |] eqn:E; [|done|done]. intros [= <-].
  apply attempt_Ok in E as [_ E]. case_bool_decide as Hall; [|done]. clear E.
  assert (∀ l q, foldr (λ q m, <[q := Dir]> m) (nodes fs) l !! q =
                 if decide (q ∈ l) then Some Dir else nodes fs !! q) as Hl.
  { induction l as [|a l IH]; intros q; cbn [foldr]; [by rewrite decide_False by set_solver|].
    rewrite lookup_insert, IH. repeat case_decide; set_solver. }
  simpl. split_and!; [done|by rewrite Hl, decide_True by apply ancestors_self|].
  intros q. rewrite Hl. case_decide as Hq; [|by left]. rewrite Forall_forall in Hall.
  destruct (Hall q Hq) as [->| ->]; auto.
Qed.
