(* ===== verification/Config.v ===== *)
(** Paths and debug logs, [internal/config], and the directories that the two programs
    choose ([resolveConfigDir] and [resolveSharedDir] of [cmd/kin] and [cmd/relay]).
    [home] and [appdata] are the results of [os.UserHomeDir] and
    [os.UserConfigDir]; a time is in nanoseconds of the local clock. *)

From stdpp Require Import sorting.
From S2P Require Import Prelude GoStd GoText Path Fs.

(** * paths.go *)

Definition DefaultConfigDir (windows : bool) (home appdata : outcome bytes) : outcome bytes :=
  if windows then base ← appdata; Ok (Join base (str "kin"))
  else home ← home; Ok (Join home (Join (str ".config") (str "kin"))).

Definition DefaultListenAddr : bytes := str "0.0.0.0:7777".

Definition SocketPath (cfgDir : bytes) : bytes := Join cfgDir (str "kin.sock").

Definition DefaultSharedDir (home : outcome bytes) : outcome bytes :=
  home ← home; Ok (Join home (str "Kin")).

Definition LogDir (cfgDir : bytes) : bytes := Join cfgDir (str "logs").

(** [t.Format("2006-01-02T15-04-05")]. *)
Definition Format_log (t : Z) : bytes :=
  let sec := t / 10 ^ 9 in
  let '(y, m, d) := civil (sec / 86400) in
  let s := sec mod 86400 in
  padded 4 y ++ str "-" ++ padded 2 m ++ str "-" ++ padded 2 d ++ str "T" ++
  padded 2 (s / 3600) ++ str "-" ++ padded 2 (s / 60 mod 60) ++ str "-" ++ padded 2 (s mod 60).

Definition log_prefix : bytes := str "kin-debug-".
Definition log_suffix : bytes := str ".log".

Definition DebugLogPath (now : Z) (cfgDir : bytes) : bytes :=
  Join (LogDir cfgDir) (log_prefix ++ Format_log now ++ log_suffix).

(** [cmd/kin]; [cmd/relay] uses a directory of its own. *)
Definition resolveConfigDir (windows : bool) (home appdata : outcome bytes) (override : bytes) : outcome bytes :=
  if negb (bool_decide (override = [])) then Ok override else DefaultConfigDir windows home appdata.

Definition resolveSharedDir (home : outcome bytes) (override : bytes) : outcome bytes :=
  if negb (bool_decide (override = [])) then Ok override else DefaultSharedDir home.

Definition relay_resolveConfigDir (windows : bool) (home appdata : outcome bytes) (override : bytes) :
    outcome bytes :=
  if negb (bool_decide (override = [])) then Ok override
  else d ← DefaultConfigDir windows home appdata; Ok (d ++ str "-relay").

(** * debuglog.go *)

Definition maxDebugLogs : nat := 5.

(** A name that the pattern [kin-debug-*.log] matches. *)
Definition log_name (name : bytes) : bool :=
  (14 <=? length name)%nat && HasPrefix name log_prefix &&
  bool_decide (drop (length name - 4) name = log_suffix) && negb (bool_decide (slash ∈ name)).

(** The path of such an entry of [dir]. *)
Definition is_log (dir p : bytes) : bool :=
  HasPrefix p (dir_prefix dir) && log_name (drop (length (dir_prefix dir)) p).

(** Byte-wise order of strings. *)
Definition bytes_le (a b : bytes) : Prop := bytes_ltb b a = false.
#[global] Instance bytes_le_dec : RelDecision bytes_le := λ a b, decide (bytes_ltb b a = false).

(** [filepath.Glob] and [sort.Strings], for a folder whose path has no pattern
    characters: the matching entries, in order. *)
Definition logs (fs : FS) (dir : bytes) : list bytes :=
  merge_sort bytes_le (List.filter (is_log dir) (elements (dom (nodes fs)))).

(** Errors of [os.Remove] are ignored. *)
Definition pruneOldLogs (fs : FS) (logsDir : bytes) (keep : nat) : FS :=
  let entries := logs fs logsDir in
  if (length entries <=? keep)%nat then fs
  else foldl (λ fs p, snd (Remove fs p)) fs (take (length entries - keep) entries).

(** [os.OpenFile] with [O_CREATE|O_WRONLY|O_TRUNC]. *)
Definition create (fs : FS) (dir p : bytes) : outcome unit * FS :=
  match attempt fs (CCreate p)
          match nodes fs !! p with
          | Some Dir => Err EISDIR
          | Some _ => Ok tt
          | None => if bool_decide (nodes fs !! Clean dir = Some Dir) then Ok tt else Err os_ErrNotExist
          end with
  | Ok _ => (Ok tt, with_nodes fs (<[p := File []]> (nodes fs)))
  | Err e => (Err e, fs)
  | Panic => (Panic, fs)
  end.

(** The path of the log, and the files; what is logged is not modelled. *)
Definition SetupDebugLog (now : Z) (fs : FS) (cfgDir : bytes) : outcome bytes * FS :=
  let logsDir := LogDir cfgDir in
  match MkdirAll fs logsDir with
  | (Ok _, fs) =>
      let fs := pruneOldLogs fs logsDir (maxDebugLogs - 1) in
      let logPath := DebugLogPath now cfgDir in
      let '(res, fs) := create fs logsDir logPath in
      (_ ← wrap "create log file: %w" res; Ok logPath, fs)
  | (Err e, fs) => (Err (Wrapf "create log dir: %w" e), fs)
  | (Panic, fs) => (Panic, fs)
  end.

(** * Facts *)

#[global] Instance bytes_le_trans : Transitive bytes_le.
Proof.
  intros a b c Hab Hbc. unfold bytes_le in *.
  destruct (bytes_ltb c a) eqn:E; [|done].
  destruct (bytes_ltb_total a b) as [Hlt|[->|Hlt]]; [|congruence|congruence].
  by rewrite (bytes_ltb_trans _ _ _ E Hlt) in Hbc.
Qed.

#[global] Instance bytes_le_total : Total bytes_le.
Proof.
  intros a b. unfold bytes_le. destruct (bytes_ltb b a) eqn:E; [|by left].
  right. by apply bytes_ltb_asym.
Qed.

#[global] Instance bytes_le_antisymm : AntiSymm (=) bytes_le.
Proof.
  intros a b Hab Hba. unfold bytes_le in *.
  destruct (bytes_ltb_total a b) as [?|[?|?]]; congruence.
Qed.

Lemma logs_sorted fs dir : StronglySorted bytes_le (logs fs dir).
Proof. apply StronglySorted_merge_sort; apply _. Qed.

Lemma logs_perm fs dir : logs fs dir ≡ₚ List.filter (is_log dir) (elements (dom (nodes fs))).
Proof. apply merge_sort_Permutation. Qed.

Lemma logs_NoDup fs dir : NoDup (logs fs dir).
Proof.
  rewrite logs_perm. rewrite NoDup_ListNoDup. apply List.NoDup_filter, NoDup_ListNoDup, NoDup_elements.
Qed.

Lemma elem_of_logs fs dir p : p ∈ logs fs dir ↔ is_log dir p = true ∧ is_Some (nodes fs !! p).
Proof.
  rewrite logs_perm, list_elem_of_In, List.filter_In, <- list_elem_of_In, elem_of_elements, elem_of_dom. tauto.
Qed.

(** Lists of paths in order are equal when they have the same elements. *)
Lemma sorted_ext (l k : list bytes) :
  StronglySorted bytes_le l → StronglySorted bytes_le k → NoDup l → NoDup k →
  (∀ p, p ∈ l ↔ p ∈ k) → l = k.
Proof.
  intros Hl Hk Hdl Hdk Hin. apply (StronglySorted_unique bytes_le); [done|done|].
  by apply NoDup_Permutation.
Qed.

(** Every log is a file, and files can be removed. *)
Definition removable (fs : FS) (dir : bytes) : Prop :=
  ∀ p, is_log dir p = true → fault fs (CRemove p) = None ∧ nodes fs !! p ≠ Some Dir.

Lemma remove_all fs l :
  (∀ p, p ∈ l → fault fs (CRemove p) = None ∧ nodes fs !! p ≠ Some Dir) →
  let fs' := foldl (λ fs p, snd (Remove fs p)) fs l in
  fault fs' = fault fs ∧
  ∀ p, nodes fs' !! p = if decide (p ∈ l) then None else nodes fs !! p.
Proof.
  revert fs. induction l as [|q l IH]; intros fs Hl; cbn [foldl].
  { split; [done|]. intros p. by rewrite decide_False by set_solver. }
  assert (fault (snd (Remove fs q)) = fault fs ∧ ∀ p, nodes (snd (Remove fs q)) !! p =
            if decide (p = q) then None else nodes fs !! p) as [Hf Hn].
  { destruct (Hl q) as [Hq Hd]; [left|]. unfold Remove, attempt. rewrite Hq.
    destruct (nodes fs !! q) as [[c| |]|] eqn:E; simpl; try done; (split; [done|]); intros p;
      destruct (decide (p = q)) as [->|Hne]; rewrite ?lookup_delete_eq, ?lookup_delete_ne by done; done. }
  destruct (IH (snd (Remove fs q))) as [Hf' Hn'].
  { intros p Hp. rewrite Hf, Hn. destruct (Hl p) as [? ?]; [by right|]. split; [done|]. by case_decide. }
  split; [by rewrite Hf'|]. intros p. rewrite Hn', Hn.
  destruct (decide (p ∈ l)), (decide (p = q)), (decide (p ∈ q :: l)); set_solver.
Qed.

Lemma StronglySorted_drop n (l : list bytes) : StronglySorted bytes_le l → StronglySorted bytes_le (drop n l).
Proof.
  revert l. induction n as [|n IH]; intros [|x l] Hs; [done..|]. apply IH. by inversion Hs.
Qed.

Lemma prune_logs fs dir keep :
  removable fs dir →
  let fs' := pruneOldLogs fs dir keep in
  logs fs' dir = drop (length (logs fs dir) - keep) (logs fs dir) ∧
  (∀ p, is_log dir p = false → nodes fs' !! p = nodes fs !! p).
Proof.
  intros Hrem. unfold pruneOldLogs. destruct (Nat.leb_spec (length (logs fs dir)) keep) as [Hle|Hgt].
  { split; [|done]. replace (length (logs fs dir) - keep)%nat with 0%nat by lia. done. }
  set (n := (length (logs fs dir) - keep)%nat). destruct (remove_all fs (take n (logs fs dir))) as [_ Hn].
  { intros p Hp. apply Hrem. assert (p ∈ logs fs dir) as [? _]%elem_of_logs; [|done].
    rewrite <- (take_drop n (logs fs dir)). apply elem_of_app. by left. }
  pose proof (logs_NoDup fs dir) as Hnd. rewrite <- (take_drop n (logs fs dir)) in Hnd.
  apply NoDup_app in Hnd as (_ & Hdisj & Hnd). split.
  - apply sorted_ext; [apply logs_sorted|apply StronglySorted_drop, logs_sorted|apply logs_NoDup|done|].
    intros p. rewrite elem_of_logs, Hn. split.
    + intros [Hl Hs]. case_decide as Hin; [by destruct Hs|].
      assert (p ∈ logs fs dir) as Hp by (by apply elem_of_logs).
      rewrite <- (take_drop n (logs fs dir)), elem_of_app in Hp. tauto.
    + intros Hp. assert (p ∈ logs fs dir) as [? ?]%elem_of_logs.
      { rewrite <- (take_drop n (logs fs dir)). apply elem_of_app. by right. }
      split; [done|]. rewrite decide_False; [done|]. intros Hin. by apply (Hdisj p).
  - intros p Hp. rewrite Hn, decide_False; [done|]. intros Hin.
    assert (p ∈ logs fs dir) as [? _]%elem_of_logs; [|congruence].
    rewrite <- (take_drop n (logs fs dir)). apply elem_of_app. by left.
Qed.

Lemma create_logs fs dir d p res fs' :
  create fs dir p = (res, fs') →
  (length (logs fs' d) ≤ S (length (logs fs d)))%nat ∧ ∀ q, q ≠ p → nodes fs' !! q = nodes fs !! q.
Proof.
  unfold create. destruct (attempt _ _ _); intros [= <- <-]; [|split; [lia|done]..]. split.
  - change (S (length (logs fs d))) with (length (p :: logs fs d)).
    apply submseteq_length, NoDup_submseteq; [apply logs_NoDup|].
    intros q [Hl Hs]%elem_of_logs. apply elem_of_cons. destruct (decide (q = p)) as [->|Hne]; [by left|right].
    apply elem_of_logs. split; [done|]. simpl in Hs. by rewrite lookup_insert_ne in Hs.
  - intros q Hq. simpl. by rewrite lookup_insert_ne.
Qed.

(** * Properties *)

(** Debug logs are bounded: starting a debug session leaves at most five logs in
    the log folder, the new one and the last four of the earlier ones in the order
    of their names (which begin with the date), and touches no file that is not a
    debug log. *)
Theorem debug_logs_bounded (now : Z) (fs fs1 fs2 : FS) (cfgDir p : bytes) :
  let dir := LogDir cfgDir in
  MkdirAll fs dir = (Ok tt, fs1) → removable fs1 dir → SetupDebugLog now fs cfgDir = (Ok p, fs2) →
  p = DebugLogPath now cfgDir ∧ (length (logs fs2 dir) ≤ maxDebugLogs)%nat ∧
  (∀ q, q ≠ p → q ∈ drop (length (logs fs1 dir) - 4) (logs fs1 dir) → q ∈ logs fs2 dir) ∧
  (∀ q, q ≠ p → is_log dir q = false → nodes fs2 !! q = nodes fs1 !! q).
Proof.
  intros dir Hm Hrem. unfold SetupDebugLog. fold dir. rewrite Hm.
  destruct (prune_logs fs1 dir (maxDebugLogs - 1) Hrem) as [Hl Ho].
  set (fs' := pruneOldLogs fs1 dir (maxDebugLogs - 1)) in *.
  destruct (create fs' dir (DebugLogPath now cfgDir)) as [res fs''] eqn:Ec.
  intros [= Hr <-]. apply bind_Ok in Hr as ([] & _ & [= <-]).
  destruct (create_logs fs' dir dir _ _ _ Ec) as [Hlen Hn].
  split_and!; [done| | |].
  - rewrite Hl, length_drop in Hlen. unfold maxDebugLogs in *. lia.
  - intros q Hq Hin. apply elem_of_logs. rewrite Hn by done. apply elem_of_logs. by rewrite Hl.
  - intros q Hq Hlog. rewrite Hn by done. by apply Ho.
Qed.

(** * Witnesses *)

Module ConfigWitness.

Definition dir : bytes := str "/c/logs".
Definition log (day : string) : bytes := str "/c/logs/kin-debug-2026-04-" ++ str day ++ str "T00-00-00.log".

(** Six logs and another file. *)
Definition fs0 : FS :=
  mk_FS (list_to_map ([(str "/c", Dir); (dir, Dir); (str "/c/logs/notes.txt", File [])] ++
                      map (λ d, (log d, File [])) ["04"; "01"; "06"; "03"; "05"; "02"]%string))
    (λ _, None).
Definition t0 : Z := 1775600000 * 10 ^ 9.

Lemma logs0 : logs fs0 dir = map log ["01"; "02"; "03"; "04"; "05"; "06"]%string.
Proof. by vm_compute. Qed.

Definition fs2 : FS := snd (SetupDebugLog t0 fs0 (str "/c")).

Lemma logs2 :
  logs fs2 dir = map log ["03"; "04"; "05"; "06"]%string ++ [DebugLogPath t0 (str "/c")] ∧
  DebugLogPath t0 (str "/c") = str "/c/logs/kin-debug-2026-04-07T22-13-20.log".
Proof. split; by vm_compute. Qed.

Lemma removable0 : removable (snd (MkdirAll fs0 dir)) dir.
Proof.
  intros p Hp. split; [done|].
  assert (map_Forall (λ q n, negb (is_log dir q && bool_decide (n = Dir)) = true)
            (nodes (snd (MkdirAll fs0 dir)))) as Hall by (apply (bool_decide_unpack _); by vm_compute).
  intros Hd. specialize (Hall p Dir Hd). simpl in Hall. by rewrite Hp in Hall.
Qed.

Lemma debug_logs_bounded_witness : (length (logs fs2 dir) ≤ maxDebugLogs)%nat.
Proof.
  refine (proj1 (proj2 (debug_logs_bounded t0 fs0 (snd (MkdirAll fs0 dir)) fs2 (str "/c")
    (DebugLogPath t0 (str "/c")) _ _ _))).
  - apply pair_fst. by vm_compute.
  - apply removable0.
  - apply pair_fst. by vm_compute.
Defined.

End ConfigWitness.
