(* ===== verification/Transfer.v ===== *)
(** File transfer by content hash, [internal/transfer]: the index of shared files
    ([localindex.go]), the sender ([sender.go]) and the receiver ([receiver.go]).
    [ctx i] is what [ctx.Err()] returns at the [i]-th check of a loop. *)

From S2P Require Import Prelude GoStd Wire Sha256 Path Fs.

(** * Connections *)

(** A [MsgReadWriter]: the messages that will arrive, or the error the read ends
    with, the messages sent so far, and the sends that fail. After the last
    message the connection is closed. *)
Record Conn := mk_Conn {
  inbox : list (Envelope + error);
  sent : list Envelope;
  send_fault : nat → option error
}.

Definition Send (c : Conn) (env : Envelope) : outcome unit * Conn :=
  match send_fault c (length (sent c)) with
  | Some e => (Err e, c)
  | None => (Ok tt, {| inbox := inbox c; sent := sent c ++ [env]; send_fault := send_fault c |})
  end.

Definition Recv (c : Conn) : outcome Envelope * Conn :=
  match inbox c with
  | [] => (Err io_EOF, c)
  | m :: ms =>
      (match m with inl env => Ok env | inr e => Err e end,
       {| inbox := ms; sent := sent c; send_fault := send_fault c |})
  end.

(** * localindex.go *)

Record LocalIndex := mk_LocalIndex { index : gmap file_id bytes }.

Definition NewLocalIndex : LocalIndex := {| index := ∅ |}.

Definition hashFile (fs : FS) (path : bytes) : outcome file_id :=
  f ← os_Open fs path;
  content ← ReadAll fs path f;
  Ok (Sum256 content).

Definition AddWithHash (idx : LocalIndex) (hash : file_id) (path : bytes) : LocalIndex :=
  {| index := <[hash := path]> (index idx) |}.

Definition Add (fs : FS) (idx : LocalIndex) (path : bytes) : outcome unit * LocalIndex :=
  match hashFile fs path with
  | Ok hash => (Ok tt, AddWithHash idx hash path)
  | Err e => (Err (Wrapf "index add: %w" e), idx)
  | Panic => (Panic, idx)
  end.

(** [walk] is the sequence of calls that [filepath.WalkDir] makes: each path with
    the type of its entry, or the error met there. *)
Fixpoint Scan (fs : FS) (idx : LocalIndex) (walk : list (bytes * (node + error))) :
    outcome unit * LocalIndex :=
  match walk with
  | [] => (Ok tt, idx)
  | (path, inr e) :: _ => (Err e, idx)
  | (path, inl d) :: walk' =>
      match d with
      | File _ =>
          match hashFile fs path with
          | Ok hash => Scan fs (AddWithHash idx hash path) walk'
          | Err _ => Scan fs idx walk'
          | Panic => (Panic, idx)
          end
      | _ => Scan fs idx walk'
      end
  end.

Definition index_Remove (idx : LocalIndex) (hash : file_id) : LocalIndex :=
  {| index := delete hash (index idx) |}.

Definition Lookup (idx : LocalIndex) (hash : file_id) : option bytes := index idx !! hash.

(** * sender.go *)

Definition chunkSize : nat := Z.to_nat 65536.

Definition file_response (fileID : file_id) (size : Z) (notFound : bool) : Envelope :=
  envelope (Envelope_FileResponse {|
    FileResponse_FileId := arr_bytes fileID; FileResponse_Size := size;
    FileResponse_NotFound := notFound |}).

Definition file_chunk (fileID : file_id) (data : bytes) (eof : bool) : Envelope :=
  envelope (Envelope_FileChunk {|
    FileChunk_FileId := arr_bytes fileID; FileChunk_Data := data; FileChunk_Eof := eof |}).

Definition sendNotFound (w : Conn) (fileID : file_id) : outcome unit * Conn :=
  Send w (file_response fileID 0 true).

(** The error of a loop that is cut off; [HandleRequest] never gets there. *)
Definition out_of_fuel : error := Errorf "out of fuel" [].

(** The loop of [HandleRequest] from the [i]-th iteration on, at offset [off] of
    the open file. *)
Fixpoint send_chunks (fuel : nat) (ctx : nat → option error) (i : nat) (fs : FS) (path : bytes)
    (f : node) (off : Z) (fileID : file_id) (w : Conn) : outcome unit * Conn :=
  match fuel with
  | O => (Err out_of_fuel, w)
  | S fuel' =>
      match ctx i with
      | Some e => (Err e, w)
      | None =>
          match Read fs path f off chunkSize with
          | Ok [] =>
              let '(res, w) := Send w (file_chunk fileID [] true) in
              (wrap "send chunk: %w" res, w)
          | Ok data =>
              let '(res, w) := Send w (file_chunk fileID data false) in
              match res with
              | Ok _ => send_chunks fuel' ctx (S i) fs path f (off + len data) fileID w
              | _ => (wrap "send chunk: %w" res, w)
              end
          | Err readErr => (Err (Wrapf "read file: %w" readErr), w)
          | Panic => (Panic, w)
          end
      end
  end.

Definition file_size (n : node) : Z := match n with File content => len content | _ => 0 end.

(** Every iteration but the last consumes a byte. *)
Definition send_fuel (n : node) : nat := S (Z.to_nat (file_size n)).

Definition HandleRequest (ctx : nat → option error) (fs : FS) (idx : LocalIndex)
    (fileID : file_id) (w : Conn) : outcome unit * Conn :=
  match Lookup idx fileID with
  | None => sendNotFound w fileID
  | Some path =>
      match Stat fs path with
      | Ok info =>
          let '(res, w) := Send w (file_response fileID (file_size info) false) in
          match wrap "send file response: %w" res with
          | Ok _ =>
              match wrap "open file: %w" (os_Open fs path) with
              | Ok f => send_chunks (send_fuel f) ctx 0 fs path f 0 fileID w
              | Err e => (Err e, w)
              | Panic => (Panic, w)
              end
          | Err e => (Err e, w)
          | Panic => (Panic, w)
          end
      | _ => sendNotFound w fileID
      end
  end.

(** * receiver.go *)

Definition ErrHashMismatch : error := Sentinel "transfer: hash mismatch after download".
Definition ErrFileNotFound : error := Sentinel "transfer: file not found on sender".

(** The receive loop: writes the chunks to the temporary file and to the hash, and
    returns the bytes hashed, with the messages left. *)
Fixpoint recv_chunks (ctx : nat → option error) (i : nat) (tmpPath : bytes) (h : bytes) (fs : FS)
    (ms : list (Envelope + error)) : outcome bytes * FS * list (Envelope + error) :=
  match ctx i with
  | Some e => (Err e, fs, ms)
  | None =>
      match ms with
      | [] => (Err (Wrapf "recv chunk: %w" io_EOF), fs, [])
      | inr e :: ms' => (Err (Wrapf "recv chunk: %w" e), fs, ms')
      | inl env :: ms' =>
          match GetFileChunk env with
          | None => (Err (Errorf "receiver: expected FileChunk, got %T" []), fs, ms')
          | Some chunk =>
              let '(res, fs', h') :=
                match FileChunk_Data chunk with
                | [] => (Ok tt, fs, h)
                | data =>
                    let '(res, fs') := Write fs tmpPath data in (res, fs', h ++ data)
                end in
              match res with
              | Ok _ =>
                  if FileChunk_Eof chunk then (Ok h', fs', ms')
                  else recv_chunks ctx (S i) tmpPath h' fs' ms'
              | Err e => (Err (Wrapf "write chunk: %w" e), fs', ms')
              | Panic => (Panic, fs', ms')
              end
          end
      end
  end.

(** From the open temporary file to the renamed file. *)
Definition receive_into (ctx : nat → option error) (fs : FS) (tmpPath : bytes)
    (fileID : file_id) (destDir : bytes) (ms : list (Envelope + error)) :
    outcome bytes * FS * list (Envelope + error) :=
  let '(res, fs, ms) := recv_chunks ctx 0 tmpPath [] fs ms in
  match res with
  | Ok h =>
      match wrap "close temp file: %w" (Close fs tmpPath) with
      | Ok _ =>
          let got := Sum256 h in
          if negb (bool_decide (got = fileID)) then (Err ErrHashMismatch, fs, ms)
          else
            let destPath := Join destDir (hex_encode (arr_bytes fileID)) in
            let '(res, fs) := Rename fs tmpPath destPath in
            match wrap "rename temp file: %w" res with
            | Ok _ => (Ok destPath, fs, ms)
            | Err e => (Err e, fs, ms)
            | Panic => (Panic, fs, ms)
            end
      | Err e => (Err e, fs, ms)
      | Panic => (Panic, fs, ms)
      end
  | Err e => (Err e, fs, ms)
  | Panic => (Panic, fs, ms)
  end.

Definition file_request (fileID : file_id) : Envelope :=
  envelope (Envelope_FileRequest {| FileRequest_FileId := arr_bytes fileID |}).

(** [rnd] is the random part of the temporary file's name. *)
Definition RequestFile (ctx : nat → option error) (rnd : bytes) (fs : FS) (fileID : file_id)
    (destDir : bytes) (rw : Conn) : outcome bytes * FS * Conn :=
  let '(res, rw) := Send rw (file_request fileID) in
  match wrap "send file request: %w" res with
  | Ok _ =>
      let '(res, rw) := Recv rw in
      match wrap "recv file response: %w" res with
      | Ok env =>
          match GetFileResponse env with
          | None => (Err (Errorf "receiver: expected FileResponse, got %T" []), fs, rw)
          | Some resp =>
              if FileResponse_NotFound resp then (Err ErrFileNotFound, fs, rw)
              else
                let '(res, fs) := CreateTemp fs destDir (str ".kin-tmp-") rnd in
                match wrap "create temp file: %w" res with
                | Ok tmpPath =>
                    let '(res, fs, ms) := receive_into ctx fs tmpPath fileID destDir (inbox rw) in
                    (* the deferred call *)
                    (res, snd (Remove fs tmpPath),
                     {| inbox := ms; sent := sent rw; send_fault := send_fault rw |})
                | Err e => (Err e, fs, rw)
                | Panic => (Panic, fs, rw)
                end
          end
      | Err e => (Err e, fs, rw)
      | Panic => (Panic, fs, rw)
      end
  | Err e => (Err e, fs, rw)
  | Panic => (Panic, fs, rw)
  end.
