(* ===== verification/TransferProps.v ===== *)
(** The properties of file transfer: what a receiver ends up with whatever a peer
    sends, what a sender emits, and that a shared file arrives intact. *)

From S2P Require Import Prelude GoStd Wire Sha256 Path Fs Transfer.

(** * The receiver *)

(** The loop ends with an error: the temporary file is as it was. *)
Ltac recv_error :=
  intros [= <- <- <-]; split_and!; [done|eexists; split; [eassumption|done]|done].

(** While chunks arrive only the temporary file changes, and it holds exactly the
    bytes that were hashed. *)
Lemma recv_chunks_inv ctx i tmp h m fs ms res fs' ms' :
  nodes fs = <[tmp := File h]> m →
  recv_chunks ctx i tmp h fs ms = (res, fs', ms') →
  fault fs' = fault fs ∧ (∃ c, nodes fs' = <[tmp := File c]> m ∧ ∀ h', res = Ok h' → c = h') ∧
  res ≠ Panic.
Proof.
  revert i h fs. induction ms as [|msg ms IH]; intros i h fs Hn; simpl.
  { destruct (ctx i); recv_error. }
  destruct (ctx i); [recv_error|].
  destruct msg as [env|e]; [|recv_error].
  destruct (GetFileChunk env) as [chunk|]; [|recv_error].
  destruct (FileChunk_Data chunk) as [|b data] eqn:Hd.
  { destruct (FileChunk_Eof chunk); [|by apply IH]. intros [= <- <- <-].
    split_and!; [done| |done]. exists h. naive_solver. }
  unfold Write. rewrite Hn, lookup_insert_eq. unfold attempt.
  destruct (fault fs _) as [e|]; [recv_error|].
  destruct (FileChunk_Eof chunk).
  - intros [= <- <- <-]. split_and!; [done| |done]. exists (h ++ b :: data). simpl.
    rewrite insert_insert_eq. naive_solver.
  - intros E. apply IH in E; [done|]. simpl. by rewrite insert_insert_eq.
Qed.

Lemma tmp_plain rnd : no_slash rnd → plain (str ".kin-tmp-" ++ rnd).
Proof.
  intros Hr. split_and!; [|done|done|done]. unfold no_slash. rewrite elem_of_app. intros [Hs|Hs]; [|done].
  revert Hs. apply (bool_decide_unpack (no_slash (str ".kin-tmp-"))). by vm_compute.
Qed.

Lemma tmp_ne_dest d rnd (id : file_id) :
  d ≠ [] → no_slash rnd →
  Join d (str ".kin-tmp-" ++ rnd) ≠ Join d (hex_encode (arr_bytes id)).
Proof.
  intros Hd Hr Heq. apply Join_inj in Heq; [|done|by apply tmp_plain|].
  - pose proof (arr_length id) as Hl. destruct (arr_bytes id) as [|b l]; [done|].
    simpl in Heq. injection Heq as Heq _. apply (f_equal byte.unsigned) in Heq.
    destruct (nibble_bounds b). rewrite hex_digit_unsigned in Heq by done.
    change (byte.unsigned _) with 46 in Heq at 1. case_match; lia.
  - apply hex_encode_plain. pose proof (arr_length id). by destruct (arr_bytes id).
Qed.

(** From the temporary file on: the directory gains the verified file or, once the
    temporary file is removed, is as before. *)
Lemma receive_into_inv ctx fs m tmp id d ms res fs' ms' :
  nodes fs = <[tmp := File []]> m → m !! tmp = None → fault fs (CRemove tmp) = None →
  tmp ≠ Join d (hex_encode (arr_bytes id)) →
  receive_into ctx fs tmp id d ms = (res, fs', ms') →
  match res with
  | Ok p => p = Join d (hex_encode (arr_bytes id)) ∧
            ∃ content, nodes (snd (Remove fs' tmp)) = <[p := File content]> m ∧ Sum256 content = id
  | Err _ => nodes (snd (Remove fs' tmp)) = m
  | Panic => False
  end.
Proof.
  intros Hn Hm Hf Hne. unfold receive_into.
  destruct (recv_chunks ctx 0 tmp [] fs ms) as [[r fs1] ms1] eqn:E.
  apply (recv_chunks_inv _ _ _ _ m) in E as (Hf1 & (c & Hc & Hr) & Hnp); [|done].
  assert (nodes (snd (Remove fs1 tmp)) = m) as Hrm.
  { unfold Remove, attempt. rewrite Hf1, Hf, Hc, lookup_insert_eq. simpl.
    by rewrite delete_insert_id. }
  destruct r as [h|e|]; [|by intros [= <- <- <-]|done]. specialize (Hr _ eq_refl) as ->.
  unfold Close, attempt. destruct (fault fs1 (CClose tmp)); [by intros [= <- <- <-]|]. simpl.
  destruct (bool_decide (Sum256 h = id)) eqn:Hid; simpl; [|by intros [= <- <- <-]].
  apply bool_decide_eq_true in Hid.
  destruct (Rename fs1 tmp _) as [r2 fs2] eqn:Hren. destruct (decide (r2 = Ok tt)) as [->|Hr2].
  - intros [= <- <- <-]. split; [done|]. exists h. split; [|done].
    apply Rename_Ok in Hren as (n & Hn2 & ->). rewrite Hc, lookup_insert_eq in Hn2.
    injection Hn2 as <-. unfold Remove, attempt; simpl. rewrite Hf1, Hf.
    rewrite lookup_insert_ne, lookup_delete_eq by done. simpl.
    by rewrite Hc, delete_insert_id.
  - pose proof (Rename_failed _ _ _ _ _ Hren Hr2) as ->.
    destruct r2 as [[]|e|]; [done|by intros [= <- <- <-]|].
    exfalso. revert Hren. unfold Rename. by destruct (attempt _ _ _) as [[]|e|] eqn:Ha;
      [|..]; try (intros [=]); unfold attempt in Ha; repeat case_match.
Qed.

Lemma RequestFile_effect (ctx : nat → option error) (rnd : bytes) (fs fs' : FS) (id : file_id)
    (d : bytes) (rw rw' : Conn) (res : outcome bytes) :
  d ≠ [] → no_slash rnd → fault fs (CRemove (Join d (str ".kin-tmp-" ++ rnd))) = None →
  RequestFile ctx rnd fs id d rw = (res, fs', rw') →
  match res with
  | Ok p => p = Join d (hex_encode (arr_bytes id)) ∧
            ∃ content, nodes fs' = <[p := File content]> (nodes fs) ∧ Sum256 content = id
  | Err _ => nodes fs' = nodes fs
  | Panic => False
  end.
Proof.
  intros Hd Hr Hf. unfold RequestFile, Send, Recv.
  destruct (send_fault rw _); [by intros [= <- <- <-]|]. simpl.
  destruct (inbox rw) as [|[env|e] ms]; [by intros [= <- <- <-]| |by intros [= <- <- <-]]. simpl.
  destruct (GetFileResponse env) as [resp|]; [|by intros [= <- <- <-]].
  destruct (FileResponse_NotFound resp); [by intros [= <- <- <-]|].
  destruct (CreateTemp fs d _ rnd) as [r fs1] eqn:Hc. destruct r as [tmp|e|].
  - apply CreateTemp_inv in Hc as (-> & Hnone & _ & ->). simpl.
    destruct (receive_into _ _ _ _ _ _) as [[r fs2] ms2] eqn:Hi.
    apply (receive_into_inv _ _ (nodes fs)) in Hi;
      [|done|done|done|by apply tmp_ne_dest]. by intros [= <- <- <-].
  - rewrite (CreateTemp_failed _ _ _ _ _ _ Hc) by done. by intros [= <- <- <-].
  - exfalso. revert Hc. unfold CreateTemp, attempt. repeat case_match; congruence.
Qed.

(** No step changes which calls fail. *)
Lemma recv_chunks_fault ctx i tmp h fs ms :
  fault (recv_chunks ctx i tmp h fs ms).1.2 = fault fs.
Proof.
  revert i h fs. induction ms as [|[env|e] ms IH]; intros i h fs; simpl; [by case_match| |by case_match].
  destruct (ctx i); [done|]. destruct (GetFileChunk env) as [chunk|]; [|done].
  destruct (FileChunk_Data chunk) as [|b data]; [by case_match|].
  destruct (Write fs tmp (b :: data)) as [r fs1] eqn:Hw. apply Write_nodes in Hw as [<- _].
  destruct r; [by case_match|done|done].
Qed.

Lemma RequestFile_fault ctx rnd fs id d rw :
  fault (RequestFile ctx rnd fs id d rw).1.2 = fault fs.
Proof.
  unfold RequestFile. destruct (Send rw _) as [r rw1]. destruct (wrap _ r); [|done|done].
  destruct (Recv rw1) as [r2 rw2]. destruct (wrap _ r2) as [env| |]; [|done|done].
  destruct (GetFileResponse env) as [resp|]; [|done]. destruct (FileResponse_NotFound resp); [done|].
  assert (fault (CreateTemp fs d (str ".kin-tmp-") rnd).2 = fault fs) as Hc.
  { unfold CreateTemp. by destruct (attempt _ _ _). }
  destruct (CreateTemp fs d _ rnd) as [r3 fs3]. simpl in Hc. destruct (wrap _ r3) as [tmp| |]; [|done|done].
  assert (∀ fs, fault (Remove fs tmp).2 = fault fs) as Hrm.
  { intros fs0. unfold Remove. by destruct (attempt _ _ _). }
  assert (fault (receive_into ctx fs3 tmp id d (inbox rw2)).1.2 = fault fs3) as Hi.
  { unfold receive_into. pose proof (recv_chunks_fault ctx 0 tmp [] fs3 (inbox rw2)) as Hr.
    destruct (recv_chunks _ _ _ _ _ _) as [[r4 fs4] ms4]. simpl in Hr.
    destruct r4; [|done|done]. destruct (wrap _ _); [|done|done]. case_match; [done|].
    assert (∀ q, fault (Rename fs4 tmp q).2 = fault fs4) as Hren.
    { intros q. unfold Rename. by destruct (attempt _ _ _). }
    specialize (Hren (Join d (hex_encode (arr_bytes id)))).
    destruct (Rename fs4 tmp _) as [r5 fs5]. simpl in Hren. destruct (wrap _ r5); simpl; congruence. }
  destruct (receive_into _ _ _ _ _ _) as [[r4 fs4] ms4]. simpl in *. rewrite Hrm. congruence.
Qed.

(** C2. Whatever a peer sends, a download that succeeds leaves exactly one new file,
    named by the requested id in the destination directory, whose SHA-256 is that
    id; a download that fails leaves the file system as it was. It never panics. *)
Theorem RequestFile_integrity (ctx : nat → option error) (rnd : bytes) (fs fs' : FS) (id : file_id)
    (d : bytes) (rw rw' : Conn) (res : outcome bytes) :
  d ≠ [] → no_slash rnd → fault fs (CRemove (Join d (str ".kin-tmp-" ++ rnd))) = None →
  RequestFile ctx rnd fs id d rw = (res, fs', rw') →
  match res with
  | Ok p => p = Join d (hex_encode (arr_bytes id)) ∧
            ∃ content, nodes fs' = <[p := File content]> (nodes fs) ∧ Sum256 content = id
  | Err _ => nodes fs' = nodes fs
  | Panic => False
  end.
Proof. apply RequestFile_effect. Qed.

(** * The sender *)

(** No call fails for an outside reason. *)
Definition faultless (fs : FS) : Prop := ∀ c, fault fs c = None.
Definition sends (w : Conn) : Prop := ∀ n, send_fault w n = None.
Definition live (ctx : nat → option error) : Prop := ∀ i, ctx i = None.

Definition deliver (w : Conn) (envs : list Envelope) : Conn :=
  {| inbox := inbox w; sent := sent w ++ envs; send_fault := send_fault w |}.

Lemma Send_deliver w env : sends w → Send w env = (Ok tt, deliver w [env]).
Proof. intros Hs. unfold Send. by rewrite Hs. Qed.

Lemma deliver_app w xs ys : deliver (deliver w xs) ys = deliver w (xs ++ ys).
Proof. unfold deliver; simpl. by rewrite app_assoc. Qed.

(** The chunks that carry the pieces [ps]. *)
Definition chunk_stream (id : file_id) (ps : list bytes) : list Envelope :=
  map (λ d, file_chunk id d false) ps ++ [file_chunk id [] true].

Definition piece (d : bytes) : Prop := d ≠ [] ∧ len d ≤ 65536.

Lemma len_chunkSize : Z.of_nat chunkSize = 65536.
Proof. unfold chunkSize. lia. Qed.

#[global] Opaque chunkSize.

Lemma send_chunks_stream fuel ctx i fs p content off id w :
  live ctx → faultless fs → sends w →
  0 ≤ off ≤ len content → len content - off < Z.of_nat fuel →
  ∃ ps, send_chunks fuel ctx i fs p (File content) off id w = (Ok tt, deliver w (chunk_stream id ps)) ∧
    concat ps = drop (Z.to_nat off) content ∧ Forall piece ps.
Proof.
  intros Hctx Hf.
  revert i off w. induction fuel as [|fuel IH]; intros i off w Hs Hoff Hfuel; [lia|]. simpl.
  rewrite Hctx. unfold Read, attempt. rewrite Hf.
  destruct (drop (Z.to_nat off) content) as [|b rest] eqn:Hd.
  { rewrite take_nil. exists []. rewrite Send_deliver by done. done. }
  pose proof len_chunkSize as Hcs. generalize dependent chunkSize. intros cs0 Hcs.
  destruct cs0 as [|cs]; [lia|]. cbn [take].
  set (data := b :: take cs rest).
  assert (len data ≤ 65536 ∧ 0 < len data) as [Hlen Hpos].
  { unfold data, len in *. simpl. rewrite length_take. lia. }
  assert (off + len data ≤ len content) as Hoff'.
  { apply (f_equal length) in Hd. rewrite length_drop in Hd. simpl in Hd.
    unfold data, len in *. simpl. rewrite length_take. lia. }
  rewrite Send_deliver by done. cbn [fst snd].
  destruct (IH (S i) (off + len data) (deliver w [file_chunk id data false])) as (ps & -> & Hps & Hall);
    [done|lia|lia|].
  exists (data :: ps). rewrite deliver_app. split_and!; [done| |by constructor].
  cbn [concat]. rewrite Hps.
  assert (b :: rest = data ++ drop (length data) (b :: rest)) as Hdata.
  { change data with (take (S cs) (b :: rest)). rewrite length_take.
    destruct (Nat.min_spec (S cs) (length (b :: rest))) as [[_ ->]|[Hge ->]]; [by rewrite take_drop|].
    rewrite drop_all, app_nil_r. by rewrite take_ge. }
  replace (Z.to_nat (off + len data)) with (Z.to_nat off + length data)%nat
    by (unfold len in *; lia).
  rewrite <- drop_drop, Hd. by rewrite <- Hdata.
Qed.

Lemma recv_chunks_stream ctx i tmp h m fs id ps rest :
  live ctx → faultless fs → Forall piece ps → nodes fs = <[tmp := File h]> m →
  recv_chunks ctx i tmp h fs (map inl (chunk_stream id ps) ++ rest) =
    (Ok (h ++ concat ps), with_nodes fs (<[tmp := File (h ++ concat ps)]> m), rest).
Proof.
  intros Hctx Hf Hps. revert i h fs Hf. induction Hps as [|d ps [Hd _] _ IH]; intros i h fs Hf Hn; simpl.
  { rewrite Hctx. simpl. rewrite app_nil_r. destruct fs as [n f]; simpl in *. by subst n. }
  rewrite Hctx. simpl. destruct d as [|b d]; [done|].
  unfold Write. rewrite Hn, lookup_insert_eq. unfold attempt. rewrite Hf. simpl.
  rewrite IH; [|done|simpl; by rewrite insert_insert_eq]. simpl. by rewrite <- app_assoc.
Qed.

(** What a receiver needs of its file system to store a file. *)
Record ready (fs : FS) (d rnd : bytes) (id : file_id) : Prop := {
  ready_dir : nodes fs !! Clean d = Some Dir;
  ready_name : d ≠ [];
  ready_rnd : no_slash rnd;
  ready_tmp : nodes fs !! Join d (str ".kin-tmp-" ++ rnd) = None;
  ready_dest : nodes fs !! Join d (hex_encode (arr_bytes id)) ≠ Some Dir
}.

Lemma RequestFile_stream ctx rnd fs id id' size d rw ps rest :
  live ctx → faultless fs → sends rw → ready fs d rnd id → Forall piece ps →
  inbox rw = map inl (file_response id' size false :: chunk_stream id' ps) ++ rest →
  exists fs' rw',
  RequestFile ctx rnd fs id d rw =
    (if bool_decide (Sum256 (concat ps) = id)
     then Ok (Join d (hex_encode (arr_bytes id))) else Err ErrHashMismatch, fs', rw') ∧
  nodes fs' = if bool_decide (Sum256 (concat ps) = id)
              then <[Join d (hex_encode (arr_bytes id)) := File (concat ps)]> (nodes fs)
              else nodes fs.
Proof.
  intros Hctx Hf Hs [Hdir Hname Hrnd Htmp Hdest] Hps Hin.
  pose proof (tmp_ne_dest d rnd id Hname Hrnd) as Hne.
  unfold RequestFile. rewrite Send_deliver by done. unfold Recv. simpl. rewrite Hin. simpl.
  unfold CreateTemp, attempt. rewrite Hf. rewrite bool_decide_true by done. rewrite Htmp. simpl.
  unfold receive_into. rewrite (recv_chunks_stream _ _ _ _ (nodes fs)) by done. simpl.
  unfold Close, attempt; simpl. rewrite Hf. simpl.
  case_bool_decide as Hid; simpl.
  - unfold Rename, attempt. simpl. rewrite Hf, lookup_insert_eq, lookup_insert_ne by done.
    assert (match nodes fs !! Join d (hex_encode (arr_bytes id)) with
            | Some Dir => Err os_ErrExist | _ => Ok tt end = Ok tt) as ->
      by (destruct (nodes fs !! Join d (hex_encode _)) as [[]|] eqn:En; congruence). simpl.
    do 2 eexists. split; [done|]. unfold Remove, attempt; simpl. rewrite Hf.
    rewrite lookup_insert_ne by (intros Heq; by apply Hne). rewrite lookup_delete_eq. simpl. by rewrite delete_insert_id.
  - do 2 eexists. split; [done|]. unfold Remove, attempt; simpl. rewrite Hf, lookup_insert_eq. simpl.
    by rewrite delete_insert_id.
Qed.

Lemma HandleRequest_frames (ctx : nat → option error) (fs : FS) (idx : LocalIndex)
    (id : file_id) (w : Conn) (path content : bytes) :
  live ctx → faultless fs → sends w →
  Lookup idx id = Some path → nodes fs !! path = Some (File content) →
  ∃ ps, HandleRequest ctx fs idx id w =
      (Ok tt, deliver w (file_response id (len content) false :: chunk_stream id ps)) ∧
    concat ps = content ∧ Forall piece ps.
Proof.
  intros Hctx Hf Hs Hl Hp. unfold HandleRequest. rewrite Hl. unfold Stat, os_Open, attempt.
  rewrite !Hf, Hp. cbn [file_size]. rewrite Send_deliver by done. cbn [wrap].
  destruct (send_chunks_stream (send_fuel (File content)) ctx 0 fs path content 0 id
              (deliver w [file_response id (len content) false])) as (ps & -> & Hps & Hall);
    [done|done|done|unfold len; lia|unfold send_fuel; simpl; unfold len; lia|].
  exists ps. by rewrite deliver_app.
Qed.

(** A sender answers a request for an indexed file with its size and then the
    file: chunks of at most 64 KiB whose data concatenates to the file's content,
    and a final empty chunk, the only one that is marked as the end. *)
Theorem HandleRequest_stream (ctx : nat → option error) (fs : FS) (idx : LocalIndex)
    (id : file_id) (w : Conn) (path content : bytes) :
  live ctx → faultless fs → sends w →
  Lookup idx id = Some path → nodes fs !! path = Some (File content) →
  ∃ ps, HandleRequest ctx fs idx id w =
      (Ok tt, deliver w (file_response id (len content) false :: chunk_stream id ps)) ∧
    concat ps = content ∧ Forall (λ d, d ≠ [] ∧ len d ≤ 65536) ps.
Proof. apply HandleRequest_frames. Qed.

Definition fresh_conn (ms : list Envelope) : Conn :=
  {| inbox := map inl ms; sent := []; send_fault := λ _, None |}.

(** A request and its answer: the receiver (file system [fs2], directory [d]) gets
    what the sender (file system [fs1], index [idx]) sent before it closed. *)
Definition exchange (ctx : nat → option error) (fs1 : FS) (idx : LocalIndex)
    (rnd : bytes) (fs2 : FS) (id : file_id) (d : bytes) : outcome bytes * FS :=
  let '(_, w) := HandleRequest ctx fs1 idx id (fresh_conn []) in
  let '(res, fs2', _) := RequestFile ctx rnd fs2 id d (fresh_conn (sent w)) in
  (res, fs2').

(** The first case of the theorem below. *)
Lemma exchange_file (ctx : nat → option error) (fs1 fs2 : FS) (idx : LocalIndex) (id : file_id)
    (d rnd path content : bytes) :
  live ctx → faultless fs1 → faultless fs2 → ready fs2 d rnd id →
  Lookup idx id = Some path → nodes fs1 !! path = Some (File content) →
  let '(res, fs2') := exchange ctx fs1 idx rnd fs2 id d in
  let dest := Join d (hex_encode (arr_bytes id)) in
  if bool_decide (Sum256 content = id)
  then res = Ok dest ∧ nodes fs2' = <[dest := File content]> (nodes fs2)
  else res = Err ErrHashMismatch ∧ nodes fs2' = nodes fs2.
Proof.
  intros Hctx Hf1 Hf2 Hready Hl Hp. unfold exchange.
  destruct (HandleRequest_frames ctx fs1 idx id (fresh_conn []) path content)
    as (ps & -> & <- & Hps); [done..|].
  destruct (RequestFile_stream ctx rnd fs2 id id (len (concat ps)) d
              (fresh_conn (file_response id (len (concat ps)) false :: chunk_stream id ps)) ps [])
    as (fs' & rw' & Hr & Hn); [done..|by rewrite app_nil_r|].
  cbn [deliver sent fresh_conn app]. rewrite Hr. by case_bool_decide.
Qed.

(** C3. Two nodes end to end: the receiver gets the sender's file byte for byte when
    its content still has the requested hash, [ErrHashMismatch] when the content
    has changed since it was indexed, and [ErrFileNotFound] when the sender does
    not have it; only the first changes the receiver's files. *)
Theorem transfer_end_to_end (ctx : nat → option error) (fs1 fs2 : FS) (idx : LocalIndex)
    (id : file_id) (d rnd : bytes) :
  live ctx → faultless fs1 → faultless fs2 → ready fs2 d rnd id →
  let '(res, fs2') := exchange ctx fs1 idx rnd fs2 id d in
  let dest := Join d (hex_encode (arr_bytes id)) in
  match Lookup idx id ≫= (nodes fs1 !!.) with
  | Some (File content) =>
      if bool_decide (Sum256 content = id)
      then res = Ok dest ∧ nodes fs2' = <[dest := File content]> (nodes fs2)
      else res = Err ErrHashMismatch ∧ nodes fs2' = nodes fs2
  | Some _ => True
  | None => res = Err ErrFileNotFound ∧ nodes fs2' = nodes fs2
  end.
Proof.
  intros Hctx Hf1 Hf2 Hready.
  destruct (Lookup idx id) as [path|] eqn:Hl; cbn [mbind option_bind].
  2: { unfold exchange, HandleRequest. by rewrite Hl. }
  destruct (nodes fs1 !! path) as [[content| |]|] eqn:Hp.
  - by apply (exchange_file ctx fs1 fs2 idx id d rnd path content).
  - unfold exchange. by repeat case_match.
  - unfold exchange. by repeat case_match.
  - unfold exchange, HandleRequest. rewrite Hl. unfold Stat, attempt. by rewrite Hf1, Hp.
Qed.

(** * The index *)

Lemma hashFile_content fs path content :
  faultless fs → nodes fs !! path = Some (File content) → hashFile fs path = Ok (Sum256 content).
Proof. intros Hf Hn. unfold hashFile, os_Open, ReadAll, attempt. rewrite Hf, Hn. simpl. by rewrite Hf. Qed.

(** Every indexed path has the hash it is indexed under. *)
Definition index_sound (fs : FS) (idx : LocalIndex) : Prop :=
  ∀ h p, Lookup idx h = Some p → hashFile fs p = Ok h.

Lemma Lookup_AddWithHash idx h p g :
  Lookup (AddWithHash idx h p) g = if decide (h = g) then Some p else Lookup idx g.
Proof. apply lookup_insert. Qed.

Lemma AddWithHash_sound fs idx h p :
  index_sound fs idx → hashFile fs p = Ok h → index_sound fs (AddWithHash idx h p).
Proof.
  intros Hs Hh g q. rewrite Lookup_AddWithHash. case_decide as E; [|apply Hs]. by intros [= <-]; subst.
Qed.

(** The file [h] can be served. *)
Definition served (fs : FS) (idx : LocalIndex) (h : file_id) : Prop :=
  ∃ q, Lookup idx h = Some q ∧ hashFile fs q = Ok h.

Lemma AddWithHash_served fs idx h p g :
  hashFile fs p = Ok h → h = g ∨ served fs idx g → served fs (AddWithHash idx h p) g.
Proof.
  intros Hh Hg. unfold served. setoid_rewrite Lookup_AddWithHash.
  destruct (decide (h = g)) as [->|Hne]; [by eauto|]. destruct Hg; done.
Qed.

Lemma Scan_served fs idx idx' walk h :
  Scan fs idx walk = (Ok tt, idx') →
  served fs idx h ∨ (∃ p c, (p, inl (File c)) ∈ walk ∧ hashFile fs p = Ok h) → served fs idx' h.
Proof.
  revert idx. induction walk as [|[p [n|e]] walk IH]; intros idx; simpl; [|destruct n as [c| |]|done].
  - intros [= <-] [Hs|(p & c & Hin & _)]; [done|]. by apply elem_of_nil in Hin.
  - destruct (hashFile fs p) as [g|e|] eqn:Hg; [| |done]; intros E [Hs|(q & c' & Hin & Hq)]; apply (IH _ E).
    + left. apply AddWithHash_served; auto.
    + apply elem_of_cons in Hin as [[= -> ->]|Hin]; [|by eauto]. left.
      apply AddWithHash_served; [done|]. left. congruence.
    + by left.
    + apply elem_of_cons in Hin as [[= -> ->]|Hin]; [congruence|by eauto].
  - intros E [Hs|(q & c' & Hin & Hq)]; apply (IH _ E); [by left|].
    apply elem_of_cons in Hin as [[=]|Hin]; eauto.
  - intros E [Hs|(q & c' & Hin & Hq)]; apply (IH _ E); [by left|].
    apply elem_of_cons in Hin as [[=]|Hin]; eauto.
Qed.

Lemma Scan_sound fs idx idx' walk r :
  index_sound fs idx → Scan fs idx walk = (r, idx') → index_sound fs idx'.
Proof.
  revert idx. induction walk as [|[p [n|e]] walk IH]; intros idx Hs; simpl;
    [|destruct n as [c| |]|]; [by intros [= <- <-]| |by apply IH|by apply IH|by intros [= <- <-]].
  destruct (hashFile fs p) as [g|e|] eqn:Hg; [|by apply IH|by intros [= <- <-]].
  apply IH. by apply AddWithHash_sound.
Qed.

(** Scanning keeps the index sound, and complete when the walk met no error:
    every indexed path has the hash it is indexed under, and every regular readable
    file the walk visited, as well as every file served before, can be served under
    its hash. *)
Theorem Scan_complete (fs : FS) (idx idx' : LocalIndex) (walk : list (bytes * (node + error))) :
  index_sound fs idx → Scan fs idx walk = (Ok tt, idx') →
  index_sound fs idx' ∧
  (∀ p c h, (p, inl (File c)) ∈ walk → hashFile fs p = Ok h →
     ∃ q, Lookup idx' h = Some q ∧ hashFile fs q = Ok h) ∧
  (∀ h q, Lookup idx h = Some q → ∃ q', Lookup idx' h = Some q' ∧ hashFile fs q' = Ok h).
Proof.
  intros Hs E. split_and!; [by apply (Scan_sound _ _ _ _ _ Hs E)| |].
  - intros p c h Hin Hh. apply (Scan_served _ _ _ _ _ E). eauto.
  - intros h q Hq. apply (Scan_served _ _ _ _ _ E). left. exists q. auto.
Qed.

(** * Witnesses *)

Module TransferWitness.

Definition hello : bytes := str "hello world".
Definition fs1 : FS := mk_FS {[ str "/a/hello.txt" := File hello ]} (λ _, None).
Definition fs2 : FS := mk_FS {[ str "/b" := Dir ]} (λ _, None).
Definition ctx (i : nat) : option error := None.
Definition id : file_id := Sum256 hello.
Definition rnd : bytes := str "123".
Definition idx : LocalIndex := snd (Add fs1 NewLocalIndex (str "/a/hello.txt")).
Definition dest : bytes := Join (str "/b") (hex_encode (arr_bytes id)).

Lemma ready2 : ready fs2 (str "/b") rnd id.
Proof.
  split; [by vm_compute|done| |by vm_compute|by vm_compute].
  apply (bool_decide_unpack _). by vm_compute.
Qed.

Definition answer : list Envelope := sent (snd (HandleRequest ctx fs1 idx id (fresh_conn []))).

Lemma RequestFile_integrity_witness :
  let r := RequestFile ctx rnd fs2 id (str "/b") (fresh_conn answer) in
  match r.1.1 with
  | Ok p => p = dest ∧
            ∃ content, nodes r.1.2 = <[p := File content]> (nodes fs2) ∧ Sum256 content = id
  | Err _ => nodes r.1.2 = nodes fs2
  | Panic => False
  end.
Proof.
  apply (RequestFile_integrity ctx rnd fs2 _ id (str "/b") (fresh_conn answer)
           (RequestFile ctx rnd fs2 id (str "/b") (fresh_conn answer)).2);
    [done|apply ready2|done|].
  by destruct (RequestFile ctx rnd fs2 id (str "/b") (fresh_conn answer)) as [[? ?] ?].
Defined.

Lemma HandleRequest_stream_witness :
  ∃ ps, HandleRequest ctx fs1 idx id (fresh_conn []) =
      (Ok tt, deliver (fresh_conn []) (file_response id (len hello) false :: chunk_stream id ps)) ∧
    concat ps = hello ∧ Forall (λ d, d ≠ [] ∧ len d ≤ 65536) ps.
Proof.
  apply (HandleRequest_stream ctx fs1 idx id (fresh_conn []) (str "/a/hello.txt") hello);
    [done|done|done|by vm_compute|done].
Defined.

Lemma transfer_end_to_end_witness :
  let '(res, fs2') := exchange ctx fs1 idx rnd fs2 id (str "/b") in
  match Lookup idx id ≫= (nodes fs1 !!.) with
  | Some (File content) =>
      if bool_decide (Sum256 content = id)
      then res = Ok dest ∧ nodes fs2' = <[dest := File content]> (nodes fs2)
      else res = Err ErrHashMismatch ∧ nodes fs2' = nodes fs2
  | Some _ => True
  | None => res = Err ErrFileNotFound ∧ nodes fs2' = nodes fs2
  end.
Proof. apply (transfer_end_to_end ctx fs1 fs2 idx id (str "/b") rnd); [done..|apply ready2]. Defined.

(** The received file, computed. *)
Lemma hello_received :
  let '(res, fs') := exchange ctx fs1 idx rnd fs2 id (str "/b") in
  bool_decide (res = Ok dest) && bool_decide (nodes fs' !! dest = Some (File hello)) = true.
Proof. by vm_compute. Qed.

Definition walk1 : list (bytes * (node + error)) :=
  [(str "/a", inl Dir); (str "/a/hello.txt", inl (File hello))].

Lemma Scan_complete_witness :
  let idx' := snd (Scan fs1 NewLocalIndex walk1) in
  index_sound fs1 idx' ∧
  (∀ p c h, (p, inl (File c)) ∈ walk1 →
     hashFile fs1 p = Ok h → ∃ q, Lookup idx' h = Some q ∧ hashFile fs1 q = Ok h) ∧
  (∀ h q, Lookup NewLocalIndex h = Some q → ∃ q', Lookup idx' h = Some q' ∧ hashFile fs1 q' = Ok h).
Proof.
  apply (Scan_complete fs1 NewLocalIndex _ walk1); [by intros h p|].
  apply pair_fst. by vm_compute.
Defined.

End TransferWitness.
