(* ===== verification/Testutil.v ===== *)
(** The helpers of the tests, [testutil/testutil.go]: files with their hash, and
    [MemConn], a pair of in-memory connections over two buffered channels. The channels
    are shared by the two ends, so they live in a heap. *)

From S2P Require Import Prelude GoStd Wire Sha256 Path Fs.

(** * Files *)

(** A failed call ends the test. *)
Definition WriteFile (fs : FS) (dir name content : bytes) : outcome (file_id * bytes) * FS :=
  let path := Join dir name in
  match Fs.WriteFile fs dir path content with
  | (Ok _, fs) => (Ok (Sum256 content, path), fs)
  | (Err e, fs) => (Err (Wrapf "WriteFile %s: %v" e), fs)
  | (Panic, fs) => (Panic, fs)
  end.

Definition MustMkdir (fs : FS) (path : bytes) : outcome unit * FS :=
  match MkdirAll fs path with
  | (Err e, fs) => (Err (Wrapf "MkdirAll %s: %v" e), fs)
  | r => r
  end.

(** * MemConn *)

(** A channel: its capacity, the values in its buffer, and whether it was closed. *)
Record mchan := mk_mchan { ch_cap : nat; ch_buf : list Envelope; ch_closed : bool }.

Abbreviation heap := (gmap nat mchan).

Record MemConn := mk_MemConn {
  mc_send : nat;
  mc_recv : nat;
  mc_addr : bytes;
  mc_peerNodeID : node_id
}.

(** [make(chan *kinpb.Envelope, bufSize)]: a negative size panics. *)
Definition make_chan (h : heap) (bufSize : Z) : outcome (nat * heap) :=
  if bufSize <? 0 then Panic
  else
    let n := fresh (dom h) in
    Ok (n, <[n := {| ch_cap := Z.to_nat bufSize; ch_buf := []; ch_closed := false |}]> h).

Definition NewMemConnPairWithIDs (h : heap) (addr : bytes) (bufSize : Z) (aID bID : node_id) :
    outcome (MemConn * MemConn * heap) :=
  '(ch1, h) ← make_chan h bufSize;
  '(ch2, h) ← make_chan h bufSize;
  Ok ({| mc_send := ch1; mc_recv := ch2; mc_addr := addr; mc_peerNodeID := bID |},
      {| mc_send := ch2; mc_recv := ch1; mc_addr := addr; mc_peerNodeID := aID |}, h).

Definition NewMemConnPair (h : heap) (addr : bytes) (bufSize : Z) : outcome (MemConn * MemConn * heap) :=
  '(ch1, h) ← make_chan h bufSize;
  '(ch2, h) ← make_chan h bufSize;
  Ok ({| mc_send := ch1; mc_recv := ch2; mc_addr := addr; mc_peerNodeID := zero_arr 32 |},
      {| mc_send := ch2; mc_recv := ch1; mc_addr := addr; mc_peerNodeID := zero_arr 32 |}, h).

Definition RemoteAddr (m : MemConn) : bytes := mc_addr m.
Definition PeerID (m : MemConn) : node_id := mc_peerNodeID m.
Definition SendChan (m : MemConn) : nat := mc_send m.
Definition RecvChan (m : MemConn) : nat := mc_recv m.

(** [Send]: [None] while it blocks on a full buffer. *)
Definition Send (h : heap) (m : MemConn) (env : Envelope) : option (outcome unit * heap) :=
  match h !! mc_send m with
  | None => None
  | Some c =>
      if ch_closed c then Some (Panic, h)
      else if (length (ch_buf c) <? ch_cap c)%nat
      then Some (Ok tt, <[mc_send m := {| ch_cap := ch_cap c; ch_buf := ch_buf c ++ [env]; ch_closed := false |}]> h)
      else None
  end.

(** [Recv]: [None] while it blocks on an empty buffer. *)
Definition Recv (h : heap) (m : MemConn) : option (outcome Envelope * heap) :=
  match h !! mc_recv m with
  | None => None
  | Some c =>
      match ch_buf c with
      | env :: l => Some (Ok env, <[mc_recv m := {| ch_cap := ch_cap c; ch_buf := l; ch_closed := ch_closed c |}]> h)
      | [] => if ch_closed c then Some (Err io_EOF, h) else None
      end
  end.

(** A channel without a buffer: the value goes from a sender to a receiver when both
    are waiting. *)
Definition handoff (h : heap) (s r : MemConn) (env : Envelope) : option Envelope :=
  match h !! mc_send s with
  | Some c => if (mc_send s =? mc_recv r)%nat && (ch_cap c =? 0)%nat && negb (ch_closed c) then Some env else None
  | None => None
  end.

Definition CloseRecv (h : heap) (m : MemConn) : outcome heap :=
  match h !! mc_recv m with
  | Some c => if ch_closed c then Panic
              else Ok (<[mc_recv m := {| ch_cap := ch_cap c; ch_buf := ch_buf c; ch_closed := true |}]> h)
  | None => Panic
  end.

(** [Drain]: the loop takes one value after another until a receive would block or the
    channel is closed and empty; [n] is the count so far. *)
Fixpoint drain_loop (buf : list Envelope) (n : Z) : Z * list Envelope :=
  match buf with
  | [] => (n, [])
  | _ :: buf' => drain_loop buf' (n + 1)
  end.

Definition Drain (h : heap) (m : MemConn) : Z * heap :=
  match h !! mc_recv m with
  | None => (0, h)
  | Some c =>
      let '(n, l) := drain_loop (ch_buf c) 0 in
      (n, <[mc_recv m := {| ch_cap := ch_cap c; ch_buf := l; ch_closed := ch_closed c |}]> h)
  end.

(** * Runs of a pair *)

Record trace := mk_trace {
  t_heap : heap;
  t_sent : bool → list Envelope;
  t_got : bool → list Envelope
}.

Definition log (f : bool → list Envelope) (side : bool) (env : Envelope) : bool → list Envelope :=
  λ s, if Bool.eqb s side then f s ++ [env] else f s.

Section Pair.
Variable pair : bool → MemConn.

Inductive tstep : trace → trace → Prop :=
| t_send t side env h' :
    Send (t_heap t) (pair side) env = Some (Ok tt, h') →
    tstep t {| t_heap := h'; t_sent := log (t_sent t) side env; t_got := t_got t |}
| t_recv t side env h' :
    Recv (t_heap t) (pair side) = Some (Ok env, h') →
    tstep t {| t_heap := h'; t_sent := t_sent t; t_got := log (t_got t) side env |}.

Hypothesis crossed : ∀ side, mc_recv (pair side) = mc_send (pair (negb side)).
Hypothesis distinct : mc_send (pair true) ≠ mc_send (pair false).

(** What one side has sent is what the other has received and what is in the buffer. *)
Definition TInv (cap : nat) (t : trace) : Prop :=
  ∀ side, ∃ buf, t_heap t !! mc_send (pair side) = Some (mk_mchan cap buf false) ∧
    (length buf ≤ cap)%nat ∧ t_sent t side = t_got t (negb side) ++ buf.

Lemma sends_distinct s s' : s ≠ s' → mc_send (pair s) ≠ mc_send (pair s').
Proof. destruct s, s'; intros ?; auto. Qed.

Lemma tstep_inv cap t t' : TInv cap t → tstep t t' → TInv cap t'.
Proof.
  intros HI Hs s. destruct Hs as [t side env h' E|t side env h' E].
  - destruct (HI side) as (buf & Hb & Hl & Hsent). unfold Send in E. rewrite Hb in E. simpl in E.
    destruct (Nat.ltb_spec (length buf) cap); [|done]. injection E as <-. simpl.
    unfold log. destruct (Bool.eqb_spec s side) as [->|Hne].
    + exists (buf ++ [env]). rewrite lookup_insert_eq, length_app, Hsent, app_assoc. simpl. split_and!; [done|lia|done].
    + destruct (HI s) as (buf' & Hb' & ?). exists buf'. rewrite lookup_insert_ne by (by apply sends_distinct, not_eq_sym).
      done.
  - destruct (HI (negb side)) as (buf & Hb & Hl & Hsent). unfold Recv in E. rewrite crossed, Hb in E. simpl in E.
    destruct buf as [|x buf]; [done|]. simpl in *. injection E as -> <-. unfold log; simpl.
    destruct (Bool.eqb_spec (negb s) side) as [<-|Hne].
    + exists buf. rewrite !negb_involutive in *. rewrite lookup_insert_eq, Hsent, <- app_assoc. split_and!; [done|lia|done].
    + destruct (HI s) as (buf' & Hb' & ?). exists buf'. rewrite lookup_insert_ne; [done|].
      apply sends_distinct. intros <-. by rewrite negb_involutive in Hne.
Qed.

Lemma trun_inv cap t t' : TInv cap t → rtc tstep t t' → TInv cap t'.
Proof. intros HI Hr. induction Hr; eauto using tstep_inv. Qed.

End Pair.

Lemma make_chan_spec h n k h' :
  make_chan h n = Ok (k, h') →
  h !! k = None ∧ 0 ≤ n ∧ h' = <[k := mk_mchan (Z.to_nat n) [] false]> h.
Proof.
  unfold make_chan. destruct (Z.ltb_spec n 0); [done|]. intros [= <- <-].
  split_and!; [|lia|done]. apply not_elem_of_dom, is_fresh.
Qed.

Definition start (h : heap) : trace := {| t_heap := h; t_sent := λ _, []; t_got := λ _, [] |}.

Definition side_of (a b : MemConn) (s : bool) : MemConn := if s then a else b.

Lemma pair_start h addr n aID bID a b h' :
  NewMemConnPairWithIDs h addr n aID bID = Ok (a, b, h') →
  PeerID a = bID ∧ PeerID b = aID ∧ RemoteAddr a = addr ∧ RemoteAddr b = addr ∧
  mc_recv a = mc_send b ∧ mc_recv b = mc_send a ∧ mc_send a ≠ mc_send b ∧
  TInv (side_of a b) (Z.to_nat n) (start h').
Proof.
  unfold NewMemConnPairWithIDs.
  intros ([ch1 h1] & E1 & ([ch2 h2] & E2 & [= <- <- <-])%bind_Ok)%bind_Ok.
  apply make_chan_spec in E1 as (H1 & Hn & ->). apply make_chan_spec in E2 as (H2 & _ & ->).
  assert (ch1 ≠ ch2) as Hne by (intros ->; by rewrite lookup_insert_eq in H2).
  simpl. split_and!; try done. intros s. exists []. split_and!; [|simpl; lia|done].
  destruct s; simpl; [rewrite lookup_insert_ne, lookup_insert_eq by done|rewrite lookup_insert_eq]; done.
Qed.

(** * Properties *)

(** A pair of memory connections is a reliable, ordered link between two nodes: each
    end sees the other's id; in every interleaving of sends and receives, what an end
    has received is a prefix of what the other has sent, with at most the capacity in
    between; a send blocks only on a full buffer and a receive only when everything
    sent has been received; neither panics. *)
Theorem mem_pair_reliable (h h' : heap) (addr : bytes) (n : Z) (aID bID : node_id) (a b : MemConn) (t : trace) :
  NewMemConnPairWithIDs h addr n aID bID = Ok (a, b, h') → rtc (tstep (side_of a b)) (start h') t →
  PeerID a = bID ∧ PeerID b = aID ∧
  ∀ s, ∃ buf, t_sent t s = t_got t (negb s) ++ buf ∧ len buf ≤ n ∧
    (∀ env, match Send (t_heap t) (side_of a b s) env with
            | None => len buf = n
            | Some (r, _) => r = Ok tt
            end) ∧
    match Recv (t_heap t) (side_of a b (negb s)) with
    | None => t_got t (negb s) = t_sent t s
    | Some (r, _) => head buf = match r with Ok env => Some env | _ => None end ∧ is_Ok r = true
    end.
Proof.
  intros E Hrun. apply pair_start in E as Hp. destruct Hp as (Ha & Hb & _ & _ & Hab & Hba & Hne & HI).
  assert (0 ≤ n) as Hn.
  { revert E. unfold NewMemConnPairWithIDs. intros ([? ?] & (_ & ? & _)%make_chan_spec & _)%bind_Ok. done. }
  split; [done|]. split; [done|]. intros s.
  assert (∀ s, mc_recv (side_of a b s) = mc_send (side_of a b (negb s))) as Hcross by (by intros []).
  destruct (trun_inv (side_of a b) Hcross Hne _ _ _ HI Hrun s) as (buf & Hbuf & Hlen & Hsent).
  exists buf. split_and!; [done|unfold len; lia|..].
  - intros env. unfold Send. rewrite Hbuf. simpl.
    destruct (Nat.ltb_spec (length buf) (Z.to_nat n)); [done|]. unfold len. lia.
  - unfold Recv. rewrite Hcross, negb_involutive, Hbuf. simpl.
    destruct buf as [|x buf]; simpl; [|done]. by rewrite Hsent, app_nil_r.
Qed.

(** [CloseRecv] does not make the next [Recv] return [io.EOF] when messages are still in
    the buffer: they come first. And the other end panics when it sends. *)
Theorem CloseRecv_keeps_buffer (h h' : heap) (a b : MemConn) (env : Envelope) (l : list Envelope) (cap : nat) :
  mc_send a = mc_recv b → h !! mc_recv b = Some (mk_mchan cap (env :: l) false) →
  CloseRecv h b = Ok h' →
  (∃ h2, Recv h' b = Some (Ok env, h2)) ∧ (∀ e, Send h' a e = Some (Panic, h')) ∧
  CloseRecv h' b = Panic ∧ fst (Drain h' b) = len (env :: l).
Proof.
  intros Hab Hb. unfold CloseRecv. rewrite Hb. simpl. intros [= <-].
  assert (∀ l n, fst (drain_loop l n) = n + len l) as Hdrain.
  { induction l0 as [|x l0 IH]; intros n; simpl; [rewrite len_nil; lia|]. rewrite IH, len_cons. lia. }
  unfold Recv, Send, Drain. rewrite Hab, !lookup_insert_eq. cbn [ch_buf ch_closed]. split_and!; [eauto|done|done|].
  specialize (Hdrain (env :: l) 0). destruct (drain_loop (env :: l) 0). exact Hdrain.
Qed.

(** * Witnesses *)

Module TestutilWitness.

Definition alice : node_id := copy_arr 32 (str "alice").
Definition bob : node_id := copy_arr 32 (str "bob").
Definition msg : Envelope := envelope (Envelope_FileRequest (Build_FileRequest (str "f"))).
Definition a : MemConn := mk_MemConn 0 1 (str "mem") bob.
Definition b : MemConn := mk_MemConn 1 0 (str "mem") alice.
Definition h1 : heap := {[ 0%nat := mk_mchan 1 [] false; 1%nat := mk_mchan 1 [] false ]}.
Definition h2 : heap := {[ 0%nat := mk_mchan 1 [msg] false; 1%nat := mk_mchan 1 [] false ]}.
Definition t1 : trace := {| t_heap := h2; t_sent := log (λ _, []) true msg; t_got := λ _, [] |}.

Lemma t1_run : rtc (tstep (side_of a b)) (start h1) t1.
Proof. apply rtc_once. apply (t_send (side_of a b) (start h1) true msg h2). by vm_compute. Qed.

Lemma mem_pair_reliable_witness :
  PeerID a = bob ∧ PeerID b = alice ∧
  ∀ s, ∃ buf, t_sent t1 s = t_got t1 (negb s) ++ buf ∧ len buf ≤ 1 ∧
    (∀ env, match Send (t_heap t1) (side_of a b s) env with
            | None => len buf = 1
            | Some (r, _) => r = Ok tt
            end) ∧
    match Recv (t_heap t1) (side_of a b (negb s)) with
    | None => t_got t1 (negb s) = t_sent t1 s
    | Some (r, _) => head buf = match r with Ok env => Some env | _ => None end ∧ is_Ok r = true
    end.
Proof.
  apply (mem_pair_reliable ∅ h1 (str "mem") 1 alice bob a b t1); [by vm_compute|apply t1_run].
Defined.

(** A file and its hash. *)
Definition fs0 : FS := mk_FS {[ str "/t" := Dir ]} (λ _, None).

Lemma WriteFile_value :
  fst (WriteFile fs0 (str "/t") (str "a.txt") (str "hello")) = Ok (Sum256 (str "hello"), str "/t/a.txt") ∧
  nodes (snd (WriteFile fs0 (str "/t") (str "a.txt") (str "hello"))) !! str "/t/a.txt" = Some (File (str "hello")).
Proof. by vm_compute. Qed.

End TestutilWitness.
