(* ===== verification/Download.v ===== *)
(** Catalog-aware downloads, [internal/download]: the owners of a file are tried,
    most recently seen first, until one delivers it; the file is renamed to the
    name its owner gave it when that is safe, and added to the index.

    The interfaces [CatalogReader], [PeerDialer] and [FileIndexer] are records of
    operations, which a [Downloader] is built from; [sort.Slice] is a parameter with its documented behaviour, since the order of
    equal elements is not specified. *)

From stdpp Require Import sorting.
From S2P Require Import Prelude GoStd Wire Catalog Sha256 Path Fs Transfer TransferProps.

(** [sort.Slice(x, less)]: a permutation of [x] in which no element is followed by
    one that is less. *)
Class SortSlice := { sort_Slice {A} : (A → A → bool) → list A → list A }.

Class SortLaws `{SortSlice} : Prop := {
  sort_perm {A} (less : A → A → bool) l : sort_Slice less l ≡ₚ l;
  sort_sorted {A} (less : A → A → bool) l :
    (∀ x y, less x y = true → less y x = false) →
    (∀ x y z, less y x = false → less z y = false → less z x = false) →
    StronglySorted (λ x y, less y x = false) (sort_Slice less l)
}.

Definition ErrNoAvailableOwner : error := Sentinel "download: no available owner for file".

Section Download.
Context `{SortSlice}.

Record CatalogReader := mk_CatalogReader {
  catalog_GetOwners : file_id → outcome (list OwnerHint);
  catalog_GetEntry : node_id → file_id → outcome (option Entry)
}.

(** [dial k n] is the result of the [k]-th dial. *)
Record PeerDialer := mk_PeerDialer { dial : nat → node_id → outcome Conn }.

(** The index an implementation of [Add] changes is the node's. *)
Record FileIndexer := mk_FileIndexer { index_Add : FS → LocalIndex → bytes → outcome unit * LocalIndex }.

Record Downloader := mk_Downloader {
  catalog : CatalogReader;
  dialer : PeerDialer;
  index : FileIndexer;
  sharedDir : bytes;
  dl_selfID : node_id
}.

(** The logger has no effect here. *)
Definition New (cat : CatalogReader) (dialer : PeerDialer) (index : FileIndexer)
    (sharedDir : bytes) (selfID : node_id) : Downloader :=
  {| catalog := cat; dialer := dialer; index := index; sharedDir := sharedDir; dl_selfID := selfID |}.

Definition filterSelf (owners : list OwnerHint) (selfID : node_id) : list OwnerHint :=
  List.filter (λ o, negb (bool_decide (Hint_NodeID o = selfID))) owners.

Definition renameToOriginal (d : Downloader) (fs : FS) (fileID : file_id) (ownerNodeID : node_id)
    (hashPath : bytes) : bytes * FS :=
  match catalog_GetEntry (catalog d) ownerNodeID fileID with
  | Ok (Some entry) =>
      match Entry_Name entry with
      | [] => (hashPath, fs)
      | _ =>
          let safeName := Base (Entry_Name entry) in
          if bool_decide (safeName = dot) || bool_decide (safeName = [slash]) then (hashPath, fs)
          else
            let target := Join (sharedDir d) safeName in
            match Stat fs target with
            | Ok _ => (hashPath, fs)
            | _ =>
                match Rename fs hashPath target with
                | (Ok _, fs') => (target, fs')
                | (_, fs') => (hashPath, fs')
                end
            end
      end
  | _ => (hashPath, fs)
  end.

(** One attempt, the [k]-th; [ctx] and [rnd] are those of [RequestFile]. *)
Definition tryOwner (d : Downloader) (ctx : nat → option error) (rnd : bytes) (k : nat)
    (fs : FS) (idx : LocalIndex) (fileID : file_id) (ownerNodeID : node_id) :
    outcome bytes * FS * LocalIndex :=
  match wrap "dial %x: %w" (dial (dialer d) k ownerNodeID) with
  | Ok conn =>
      let '(res, fs, _) := RequestFile ctx rnd fs fileID (sharedDir d) conn in
      match wrap "request file: %w" res with
      | Ok destPath =>
          let '(finalPath, fs) := renameToOriginal d fs fileID ownerNodeID destPath in
          let '(_, idx) := index_Add (index d) fs idx finalPath in   (* an error is only logged *)
          (Ok finalPath, fs, idx)
      | Err e => (Err e, fs, idx)
      | Panic => (Panic, fs, idx)
      end
  | Err e => (Err e, fs, idx)
  | Panic => (Panic, fs, idx)
  end.

(** The loop over the owners from the [k]-th attempt on; [tried] is the owners
    dialed, in order. The last error is only printed. *)
Fixpoint tryOwners (d : Downloader) (ctx : nat → option error) (rnd : nat → bytes) (k : nat)
    (fs : FS) (idx : LocalIndex) (fileID : file_id)
    (owners : list OwnerHint) : outcome bytes * FS * LocalIndex * list node_id :=
  match owners with
  | [] => (Err (Wrapf "%w: last error: %v" ErrNoAvailableOwner), fs, idx, [])
  | owner :: owners' =>
      let '(res, fs', idx') := tryOwner d ctx (rnd k) k fs idx fileID (Hint_NodeID owner) in
      match res with
      | Ok path => (Ok path, fs', idx', [Hint_NodeID owner])
      | Err _ =>
          let '(res, fs2, idx2, tried) :=
            tryOwners d ctx rnd (S k) fs' idx' fileID owners' in
          (res, fs2, idx2, Hint_NodeID owner :: tried)
      | Panic => (Panic, fs', idx', [Hint_NodeID owner])
      end
  end.

(** [owners[i].SeenAt.After(owners[j].SeenAt)]. *)
Definition seen_later (a b : OwnerHint) : bool := Hint_SeenAt b <? Hint_SeenAt a.

Definition Download (d : Downloader) (ctx : nat → option error) (rnd : nat → bytes) (fs : FS)
    (idx : LocalIndex) (fileID : file_id) : outcome bytes * FS * LocalIndex * list node_id :=
  match wrap "download get owners: %w" (catalog_GetOwners (catalog d) fileID) with
  | Ok owners =>
      let owners := filterSelf owners (dl_selfID d) in
      match owners with
      | [] => (Err ErrNoAvailableOwner, fs, idx, [])
      | _ => tryOwners d ctx rnd 0 fs idx fileID (sort_Slice seen_later owners)
      end
  | Err e => (Err e, fs, idx, [])
  | Panic => (Panic, fs, idx, [])
  end.

End Download.

(** * Facts *)

Lemma Base_nonempty p : Base p ≠ [].
Proof.
  unfold Base. destruct p as [|b p]; [done|]. generalize (rev (b :: p)) as r. intros r.
  assert (∀ r, match strip_slashes r with [] => True | x :: _ => x ≠ slash end) as Hs.
  { clear. induction r as [|x r IH]; simpl; [done|]. case_bool_decide; done. }
  specialize (Hs r). destruct (strip_slashes r) as [|x l] eqn:E; [done|].
  assert (∀ q, split_slash (q ++ [x]) ≠ [] ∧ List.last (split_slash (q ++ [x])) [] ≠ []) as Hq.
  { induction q as [|z q [IH1 IH2]]; simpl.
    - by rewrite bool_decide_false.
    - destruct (bool_decide (z = slash)); [by destruct (split_slash (q ++ [x]))|].
      destruct (split_slash (q ++ [x])) as [|s ss]; [done|]. split; [done|].
      simpl in *. by destruct ss. }
  destruct (rev (x :: l)) as [|y q] eqn:Eq; [done|]. rewrite <- Eq. by apply (Hq (rev l)).
Qed.

(** A base name other than the root, "." and ".." is a plain name. *)
Lemma Base_cases p :
  Base p = dot ∨ Base p = [slash] ∨ Base p = dotdot ∨ plain (Base p).
Proof.
  destruct (Base_no_slash p) as [->|Hs]; [auto|].
  destruct (decide (Base p = dot)); [auto|]. destruct (decide (Base p = dotdot)); [auto|].
  do 3 right. split_and!; [done|apply Base_nonempty|done|done].
Qed.

Definition hash_path (d : Downloader) (id : file_id) : bytes :=
  Join (sharedDir d) (hex_encode (arr_bytes id)).

Lemma hash_path_in_dir d id : in_dir (sharedDir d) (hash_path d id).
Proof.
  exists (hex_encode (arr_bytes id)). split; [|done]. apply hex_encode_plain.
  pose proof (arr_length id). by destruct (arr_bytes id).
Qed.

(** What a downloader needs of the file system: no stat or remove fails, and the
    parent of the shared directory is a directory. *)
Record shared_ok (d : Downloader) (fs : FS) : Prop := {
  ok_name : sharedDir d ≠ [];
  ok_remove p : fault fs (CRemove p) = None;
  ok_stat p : fault fs (CStat p) = None;
  ok_parent : nodes fs !! Join (sharedDir d) dotdot = Some Dir
}.

(** A file [p] was placed in the shared directory, under its hash or a free name; what
    had the hash as its name before is gone, and nothing else changed. *)
Definition placed (d : Downloader) (fs fs' : FS) (id : file_id) (p : bytes) : Prop :=
  in_dir (sharedDir d) p ∧ (p = hash_path d id ∨ nodes fs !! p = None) ∧
  ∃ content, Sum256 content = id ∧ nodes fs' = <[p := File content]> (delete (hash_path d id) (nodes fs)).

Lemma renameToOriginal_placed d fs fs1 id o content p fs2 :
  shared_ok d fs → fault fs1 = fault fs →
  nodes fs1 = <[hash_path d id := File content]> (nodes fs) → Sum256 content = id →
  renameToOriginal d fs1 id o (hash_path d id) = (p, fs2) → placed d fs fs2 id p.
Proof.
  intros [Hname _ Hstat Hpar] Hf Hn Hid.
  assert (placed d fs fs1 id (hash_path d id)) as Hkeep.
  { split_and!; [apply hash_path_in_dir|by left|]. exists content. by rewrite Hn, insert_delete_eq. }
  unfold renameToOriginal.
  destruct (catalog_GetEntry (catalog d) o id) as [[e|]| |]; [|by intros [= <- <-]..].
  destruct (Entry_Name e) as [|b name] eqn:Hen; [by intros [= <- <-]|].
  destruct (Base_cases (b :: name)) as [->|[->|[->|Hplain]]]; [by intros [= <- <-]..| |].
  - simpl. unfold Stat, attempt. rewrite Hf, Hstat, Hn.
    assert (is_Some (<[hash_path d id := File content]> (nodes fs) !! Join (sharedDir d) dotdot)) as [n Hd].
    { rewrite lookup_insert_is_Some'. right. by rewrite Hpar. }
    change (str "..") with dotdot. rewrite Hd. by intros [= <- <-].
  - assert (bool_decide (Base (b :: name) = dot) || bool_decide (Base (b :: name) = [slash]) = false) as ->.
    { pose proof Hplain as (Hs & _ & Hdot & _). apply orb_false_iff. split; apply bool_decide_eq_false; [done|].
      intros Heq. rewrite Heq in Hs. apply Hs. by left. }
    unfold Stat, attempt. rewrite Hf, Hstat.
    destruct (nodes fs1 !! Join (sharedDir d) (Base (b :: name))) as [n|] eqn:Ht; [by intros [= <- <-]|].
    destruct (Rename fs1 _ _) as [r fs3] eqn:Hr. destruct (decide (r = Ok tt)) as [->|Hne].
    + intros [= <- <-]. apply Rename_Ok in Hr as (n & Hsrc & ->).
      rewrite Hn, lookup_insert_eq in Hsrc. injection Hsrc as <-.
      rewrite Hn in Ht. apply lookup_insert_None in Ht as [Ht Hne].
      split_and!; [by eexists|by right|]. exists content. simpl. by rewrite Hn, delete_insert_eq.
    + rewrite (Rename_failed _ _ _ _ _ Hr Hne) in *. destruct r as [[]|e'|]; [done|by intros [= <- <-]..].
Qed.

(** After an attempt: the file is placed, or nothing changed. *)
Definition attempt_effect (d : Downloader) (fs fs' : FS) (idx idx' : LocalIndex) (id : file_id)
    (res : outcome bytes) : Prop :=
  match res with
  | Ok p => placed d fs fs' id p
  | _ => nodes fs' = nodes fs ∧ idx' = idx
  end.

Lemma tryOwner_effect d ctx rnd k fs idx id o res fs' idx' :
  shared_ok d fs → no_slash rnd →
  tryOwner d ctx rnd k fs idx id o = (res, fs', idx') →
  attempt_effect d fs fs' idx idx' id res ∧ (is_Ok res = false → fault fs' = fault fs).
Proof.
  intros Hok Hr. unfold tryOwner.
  destruct (dial (dialer d) k o) as [conn| |]; [|by intros [= <- <- <-]..]. simpl.
  pose proof (RequestFile_fault ctx rnd fs id (sharedDir d) conn) as Hf.
  destruct (RequestFile ctx rnd fs id (sharedDir d) conn) as [[r fs1] c1] eqn:Hreq. simpl in Hf.
  apply RequestFile_effect in Hreq; [|apply Hok|done|apply Hok].
  destruct r as [p|e|]; [|by intros [= <- <- <-]|done]. simpl.
  destruct Hreq as (-> & content & Hn & Hid).
  destruct (renameToOriginal d fs1 id o _) as [q fs2] eqn:Hren.
  destruct (index_Add (index d) fs2 idx q) as [ra idx2]. intros [= <- <- <-]. split; [|done].
  by apply (renameToOriginal_placed d fs fs1 id o content).
Qed.

Lemma shared_ok_same d fs fs' :
  shared_ok d fs → nodes fs' = nodes fs → fault fs' = fault fs → shared_ok d fs'.
Proof. intros [] Hn Hf. split; [done|rewrite Hf; done..|by rewrite Hn]. Qed.

Lemma attempt_effect_same d fs fs1 fs' idx idx' id res :
  nodes fs1 = nodes fs → attempt_effect d fs1 fs' idx idx' id res →
  attempt_effect d fs fs' idx idx' id res.
Proof.
  intros Hn. unfold attempt_effect, placed. by rewrite Hn.
Qed.

Lemma tryOwners_effect d ctx rnd k fs idx id owners res fs' idx' tried :
  shared_ok d fs → (∀ k, no_slash (rnd k)) →
  tryOwners d ctx rnd k fs idx id owners = (res, fs', idx', tried) →
  attempt_effect d fs fs' idx idx' id res.
Proof.
  intros Hok Hr. revert k fs idx tried Hok. induction owners as [|o owners IH];
    intros k fs idx tried Hok; simpl; [by intros [= <- <- <- _]|].
  destruct (tryOwner d ctx (rnd k) k fs idx id (Hint_NodeID o)) as [[r fs1] idx1] eqn:Ht.
  apply tryOwner_effect in Ht as [He Hf]; [|done|done].
  destruct r as [p|e|]; [by intros [= <- <- <- _]| |by intros [= <- <- <- _]].
  destruct He as [Hn ->]. specialize (Hf eq_refl).
  destruct (tryOwners _ _ _ _ _ _ _ owners) as [[[r2 fs2] idx2] tried2] eqn:Hrec.
  intros [= <- <- <- _]. apply (attempt_effect_same d fs fs1); [done|].
  apply (IH _ _ _ _ (shared_ok_same _ _ _ Hok Hn Hf) Hrec).
Qed.

(** The owners dialed are the first ones of the list, and all of it after an error. *)
Lemma tryOwners_tried d ctx rnd k fs idx id owners res fs' idx' tried :
  tryOwners d ctx rnd k fs idx id owners = (res, fs', idx', tried) →
  tried `prefix_of` map Hint_NodeID owners ∧
  (∀ e, res = Err e → tried = map Hint_NodeID owners ∧ errors_Is e ErrNoAvailableOwner = true).
Proof.
  revert k fs idx tried. induction owners as [|o owners IH]; intros k fs idx tried; simpl.
  { intros [= <- <- <- <-]. split; [done|]. by intros ? [= <-]. }
  destruct (tryOwner d ctx (rnd k) k fs idx id (Hint_NodeID o)) as [[r fs1] idx1].
  assert ([Hint_NodeID o] `prefix_of` Hint_NodeID o :: map Hint_NodeID owners) as Hone.
  { by eexists. }
  destruct r as [p|e|]; [by intros [= <- <- <- <-]| |by intros [= <- <- <- <-]].
  destruct (tryOwners _ _ _ _ _ _ _ owners) as [[[r2 fs2] idx2] tried2] eqn:Hrec.
  intros [= <- <- <- <-]. apply IH in Hrec as [Hp He]. split; [by apply prefix_cons|].
  intros e' ->. destruct (He _ eq_refl) as [-> ?]. done.
Qed.

Lemma StronglySorted_weaken {A} (R R' : A → A → Prop) l :
  (∀ x y, R x y → R' x y) → StronglySorted R l → StronglySorted R' l.
Proof.
  intros HR. induction 1 as [|x l _ IH Hx]; constructor; [done|].
  eapply Forall_impl; [exact Hx|]. apply HR.
Qed.

(** ** An owner that answers *)

(** [n] has the file [id], and a dial to it, whenever it is made, gives a connection
    on which its [HandleRequest] answers. *)
Definition answers (ctx : nat → option error) (d : Downloader) (id : file_id) (n : node_id) : Prop :=
  ∃ fs1 idx1 path content, faultless fs1 ∧ Lookup idx1 id = Some path ∧
    nodes fs1 !! path = Some (File content) ∧ Sum256 content = id ∧
    ∀ k, dial (dialer d) k n = Ok (fresh_conn (sent (HandleRequest ctx fs1 idx1 id (fresh_conn [])).2)).

(** The file at [p] has the requested hash and is served from there. *)
Definition stored (d : Downloader) (id : file_id) (r : outcome bytes * FS * LocalIndex) : Prop :=
  ∃ p content, r.1.1 = Ok p ∧ in_dir (sharedDir d) p ∧
    nodes r.1.2 !! p = Some (File content) ∧ Sum256 content = id ∧ Lookup r.2 id = Some p.

Lemma renameToOriginal_fault d fs id o p : fault (renameToOriginal d fs id o p).2 = fault fs.
Proof.
  unfold renameToOriginal. destruct (catalog_GetEntry _ o id) as [[e|]| |]; [|done..].
  destruct (Entry_Name e); [done|]. case_match; [done|]. destruct (Stat fs _); [done|..];
  unfold Rename; by destruct (attempt _ _ _).
Qed.

Section Available.
Context (ctx : nat → option error) (d : Downloader) (id : file_id).
Context (Hlive : live ctx) (Hindex : index d = {| index_Add := Add |}).

(** An attempt that succeeds stores the file. *)
Lemma tryOwner_stored rnd k fs idx n p fs' idx' :
  faultless fs → shared_ok d fs → no_slash rnd →
  tryOwner d ctx rnd k fs idx id n = (Ok p, fs', idx') → stored d id (Ok p, fs', idx').
Proof.
  intros Hf Hok Hr E. pose proof E as Heff. apply tryOwner_effect in Heff as [Heff _]; [|done|done].
  destruct Heff as (Hin & _ & content & Hid & Hnodes).
  assert (nodes fs' !! p = Some (File content)) as Hn by (by rewrite Hnodes, lookup_insert_eq). exists p, content. split_and!; [done..|]. simpl.
  revert E. unfold tryOwner. rewrite Hindex. destruct (dial _ k n) as [conn| |]; [|done..]. simpl.
  pose proof (RequestFile_fault ctx rnd fs id (sharedDir d) conn) as Hq.
  destruct (RequestFile _ _ _ _ _ conn) as [[[q| |] fs1] c1]; [|done..]. simpl in *.
  pose proof (renameToOriginal_fault d fs1 id n q) as Hq'.
  destruct (renameToOriginal d fs1 id n q) as [q' fs2]. simpl in Hq'. unfold Add.
  destruct (hashFile fs2 q') as [h| |] eqn:Eh; intros [= -> -> <-];
    rewrite (hashFile_content _ _ content) in Eh; try done; try (intros c; by rewrite Hq', Hq).
  injection Eh as <-. rewrite Lookup_AddWithHash, Hid. by rewrite decide_True.
Qed.

(** An owner that answers ends the search. *)
Lemma tryOwner_answers rnd k fs idx n :
  faultless fs → ready fs (sharedDir d) rnd id → answers ctx d id n →
  ∃ p fs' idx', tryOwner d ctx rnd k fs idx id n = (Ok p, fs', idx').
Proof.
  intros Hf Hrdy (fs1 & idx1 & path & content & Hf1 & Hl & Hn & Hid & Hdial).
  unfold tryOwner. rewrite Hdial. cbn [wrap].
  pose proof (exchange_file ctx fs1 fs idx1 id (sharedDir d) rnd path content) as Hx.
  unfold exchange in Hx. destruct (HandleRequest _ _ _ _ _) as [r w]. cbn [snd].
  destruct (RequestFile _ _ _ _ _ _) as [[res fs2] c2]. rewrite bool_decide_true in Hx by done.
  destruct Hx as [-> _]; [done..|]. cbn [wrap].
  destruct (renameToOriginal d fs2 id n _) as [q fs3]. destruct (index_Add _ fs3 idx q). eauto.
Qed.

Lemma tryOwners_answers rnd k fs idx owners :
  faultless fs → shared_ok d fs → (∀ k, ready fs (sharedDir d) (rnd k) id) →
  (∀ k n, dial (dialer d) k n ≠ Panic) →
  Exists (λ o, answers ctx d id (Hint_NodeID o)) owners →
  stored d id (tryOwners d ctx rnd k fs idx id owners).1.
Proof.
  intros Hf Hok Hrdy Hdial Hex. revert k fs idx Hf Hok Hrdy.
  induction owners as [|o owners IH]; intros k fs idx Hf Hok Hrdy; [by inversion Hex|]. simpl.
  destruct (tryOwner d ctx (rnd k) k fs idx id (Hint_NodeID o)) as [[r fs1] idx1] eqn:E.
  destruct r as [p|e|].
  - eapply tryOwner_stored; [..|exact E]; [done..|apply (Hrdy k)].
  - apply Exists_cons in Hex as [Ho|Hex].
    { destruct (tryOwner_answers (rnd k) k fs idx (Hint_NodeID o)) as (p & ? & ? & ?); [done..|congruence]. }
    apply tryOwner_effect in E as [[Hn ->] Hfault]; [|done|apply (Hrdy k)]. specialize (Hfault eq_refl).
    specialize (IH Hex (S k) fs1 idx). destruct (tryOwners _ _ _ (S k) _ _ _ _) as [[[r2 fs2] idx2] tried].
    apply IH; [intros c; by rewrite Hfault|by apply (shared_ok_same _ fs)|].
    intros j. destruct (Hrdy j). by split; rewrite ?Hn.
  - exfalso. revert E. unfold tryOwner. specialize (Hdial k (Hint_NodeID o)).
    destruct (dial _ _ _) as [conn| |]; [|done..]. cbn [wrap].
    destruct (RequestFile _ _ _ _ _ conn) as [[res fs2] c2] eqn:Er.
    apply RequestFile_effect in Er; [|apply Hok|apply (Hrdy k)|apply Hok].
    destruct res; [|done..]. cbn [wrap]. by destruct (renameToOriginal _ _ _ _ _), (index_Add _ _ _ _).
Qed.

End Available.

Lemma filterSelf_elem owners self o :
  o ∈ filterSelf owners self ↔ o ∈ owners ∧ Hint_NodeID o ≠ self.
Proof. unfold filterSelf. by rewrite !list_elem_of_In, filter_In, negb_true_iff, bool_decide_eq_false. Qed.

(** * Properties *)


(** C19. Whatever peers and catalog say, a download that succeeds puts one file with the
    requested hash into the shared directory itself, under its hash or under a name that
    was free. The one file that it does away with is what had the hash as its name, which
    is replaced, and is gone when the new file is renamed; no other file changes. A
    download that fails leaves files and index as they were. *)
Theorem Download_safe `{SortSlice} (d : Downloader) (ctx : nat → option error)
    (rnd : nat → bytes) (fs fs' : FS) (idx idx' : LocalIndex) (id : file_id)
    (res : outcome bytes) (tried : list node_id) :
  shared_ok d fs → (∀ k, no_slash (rnd k)) →
  Download d ctx rnd fs idx id = (res, fs', idx', tried) →
  match res with
  | Ok p =>
      in_dir (sharedDir d) p ∧ (p = hash_path d id ∨ nodes fs !! p = None) ∧
      ∃ content, Sum256 content = id ∧ nodes fs' = <[p := File content]> (delete (hash_path d id) (nodes fs))
  | _ => nodes fs' = nodes fs ∧ idx' = idx
  end.
Proof.
  intros Hok Hr. unfold Download. destruct (catalog_GetOwners (catalog d) id) as [owners|e|]; simpl;
    [|by intros [= <- <- <- _]..].
  destruct (filterSelf owners _); [by intros [= <- <- <- _]|]. by apply tryOwners_effect.
Qed.

(** Owners are tried in the right order: the ones dialed are an initial part of
    the owners other than this node, most recently seen first, and when the
    download fails all of them were dialed and the error is
    [ErrNoAvailableOwner]. *)
Theorem Download_order `{SortLaws} (d : Downloader) (ctx : nat → option error)
    (rnd : nat → bytes) (fs fs' : FS) (idx idx' : LocalIndex) (id : file_id)
    (res : outcome bytes) (tried : list node_id) (owners : list OwnerHint) :
  catalog_GetOwners (catalog d) id = Ok owners →
  Download d ctx rnd fs idx id = (res, fs', idx', tried) →
  ∃ order, order ≡ₚ filterSelf owners (dl_selfID d) ∧
    StronglySorted (λ a b, Hint_SeenAt b ≤ Hint_SeenAt a) order ∧
    tried `prefix_of` map Hint_NodeID order ∧ dl_selfID d ∉ tried ∧
    (∀ e, res = Err e → tried = map Hint_NodeID order ∧ errors_Is e ErrNoAvailableOwner = true).
Proof.
  intros Hown. unfold Download. rewrite Hown. simpl.
  set (others := filterSelf owners (dl_selfID d)).
  assert (∀ o, o ∈ others → Hint_NodeID o ≠ dl_selfID d) as Hself.
  { intros o Ho. by apply filterSelf_elem in Ho as [_ Ho]. }
  destruct others as [|o os] eqn:Eo.
  { intros [= <- <- <- <-]. exists []. split_and!; [done|constructor|done|set_solver|].
    by intros ? [= <-]. }
  rewrite <- Eo in *. clear Eo o os. intros Ht.
  apply tryOwners_tried in Ht as [Hp He]. exists (sort_Slice seen_later others).
  split_and!; [apply sort_perm| |done| |done].
  - pose proof (sort_sorted seen_later others) as Hs. eapply StronglySorted_weaken; [|apply Hs].
    + intros x y. unfold seen_later. rewrite Z.ltb_ge. done.
    + intros x y. unfold seen_later. rewrite Z.ltb_lt, Z.ltb_ge. lia.
    + intros x y z. unfold seen_later. rewrite !Z.ltb_ge. lia.
  - intros Hin. apply (elem_of_prefix _ _ _ Hin) in Hp. apply list_elem_of_fmap in Hp as (o & Ho & Hin').
    rewrite sort_perm in Hin'. by apply (Hself o).
Qed.

(** * Witnesses *)

(** Insertion sort is a [sort.Slice]. *)
Module InsertionSort.

Section Insertion.
Context {A : Type} (less : A → A → bool).

Fixpoint insert_sorted (x : A) (l : list A) : list A :=
  match l with
  | [] => [x]
  | y :: l' => if less y x then y :: insert_sorted x l' else x :: l
  end.

Lemma insert_perm x l : insert_sorted x l ≡ₚ x :: l.
Proof.
  induction l as [|y l IH]; simpl; [done|]. case_match; [|done]. rewrite IH. constructor.
Qed.

Context (asym : ∀ x y, less x y = true → less y x = false).
Context (trans : ∀ x y z, less y x = false → less z y = false → less z x = false).

Lemma insert_StronglySorted x l :
  StronglySorted (λ x y, less y x = false) l →
  StronglySorted (λ x y, less y x = false) (insert_sorted x l).
Proof.
  induction 1 as [|y l Hs IH Hy]; simpl; [by repeat constructor|].
  destruct (less y x) eqn:E.
  - constructor; [done|]. rewrite insert_perm. constructor; [by apply asym|done].
  - constructor; [by constructor|]. constructor; [done|].
    eapply Forall_impl; [exact Hy|]. intros z. by apply trans.
Qed.

End Insertion.

#[export] Instance sort : SortSlice :=
  {| sort_Slice A less l := foldr (insert_sorted less) [] l |}.

#[export] Instance laws : SortLaws.
Proof.
  split; simpl.
  - intros A less l. induction l as [|x l IH]; simpl; [done|]. by rewrite insert_perm, IH.
  - intros A less l Hasym Htrans. induction l as [|x l IH]; simpl; [constructor|].
    by apply insert_StronglySorted.
Qed.

End InsertionSort.

Module DownloadWitness.
Import InsertionSort TransferWitness.

Definition self : node_id := copy_arr 32 (str "self").
Definition alice : node_id := copy_arr 32 (str "alice").
Definition bob : node_id := copy_arr 32 (str "bob").

(** Alice was seen last but cannot be reached; Bob offers the file under a name
    that tries to leave the directory. *)
Definition entry : Entry :=
  mk_Entry id (str "../../etc/passwd") 11 0 bob [] false 0.

Definition hints : list OwnerHint :=
  [mk_OwnerHint bob 5; mk_OwnerHint self 9; mk_OwnerHint alice 7].

Definition downloader : Downloader :=
  New {| catalog_GetOwners _ := Ok hints; catalog_GetEntry _ _ := Ok (Some entry) |}
    {| dial _ n := if bool_decide (n = bob) then Ok (fresh_conn answer) else Err net_ErrClosed |}
    {| index_Add := Add |} (str "/b") self.

Definition fs3 : FS := mk_FS {[ str "/" := Dir; str "/b" := Dir ]} (λ _, None).
Definition rnds (k : nat) : bytes := str "1".

Definition result : outcome bytes * FS * LocalIndex * list node_id :=
  Download downloader ctx rnds fs3 NewLocalIndex id.

Lemma result_value :
  bool_decide (result.1.1.1 = Ok (str "/b/passwd")) && bool_decide (result.2 = [alice; bob]) &&
  bool_decide (nodes result.1.1.2 !! str "/b/passwd" = Some (File hello)) = true.
Proof. by vm_compute. Qed.

Lemma rnds_ok k : no_slash (rnds k).
Proof. apply (bool_decide_unpack _). by vm_compute. Qed.

Lemma Download_safe_witness :
  match result.1.1.1 with
  | Ok p =>
      in_dir (str "/b") p ∧ (p = hash_path downloader id ∨ nodes fs3 !! p = None) ∧
      ∃ content, Sum256 content = id ∧
        nodes result.1.1.2 = <[p := File content]> (delete (hash_path downloader id) (nodes fs3))
  | _ => nodes result.1.1.2 = nodes fs3 ∧ result.1.2 = NewLocalIndex
  end.
Proof.
  apply (Download_safe downloader ctx rnds fs3 _ NewLocalIndex _ id _ result.2);
    [by split|apply rnds_ok|]. by destruct result as [[[? ?] ?] ?] eqn:E.
Defined.

Lemma Download_order_witness :
  ∃ order, order ≡ₚ filterSelf hints self ∧
    StronglySorted (λ a b, Hint_SeenAt b ≤ Hint_SeenAt a) order ∧
    result.2 `prefix_of` map Hint_NodeID order ∧ self ∉ result.2 ∧
    (∀ e, result.1.1.1 = Err e →
          result.2 = map Hint_NodeID order ∧ errors_Is e ErrNoAvailableOwner = true).
Proof.
  apply (Download_order downloader ctx rnds fs3 result.1.1.2 NewLocalIndex result.1.2 id); [done|].
  by destruct result as [[[? ?] ?] ?] eqn:E.
Defined.

Lemma ready3 k : ready fs3 (str "/b") (rnds k) id.
Proof. split; [by vm_compute|done|apply rnds_ok|by vm_compute|by vm_compute]. Qed.

Lemma bob_answers : answers ctx downloader id bob.
Proof.
  exists fs1, TransferWitness.idx, (str "/a/hello.txt"), hello.
  split_and!; [by intros c|by vm_compute|by vm_compute|reflexivity|].
  intros k. unfold downloader, New. cbn [dialer dial]. by rewrite bool_decide_true.
Qed.


End DownloadWitness.
