(* ===== verification/Handler.v ===== *)
(** The peer protocol handler, [internal/protocol/handler.go]: one [Serve] loop per
    connection that dispatches incoming messages, catalog offers, and the table of
    active connections used for broadcasts.

    A connection is a number; the [Conn] values behind the numbers are part of the
    handler's world, so that the connection table holds references, as the Go map
    holds pointers. [PeerID] gives the authenticated node id of a connection. *)

From S2P Require Import Prelude GoStd Wire Codec Bolt Catalog CatalogSpec CatalogProps Fs Transfer TransferProps.

(** [CatalogExchanger], the interface of the catalog, with state [C]. *)
Class CatalogExchanger (C : Type) := {
  cx_ListForPeer : C → node_id → outcome (list Entry);
  cx_PutPeerEntries : C → node_id → list Entry → outcome unit * C
}.

(** The catalog store is one; [clk] is the clock of the call. *)
#[export] Instance store_exchanger {B : Type} `{Bolt B} `{JsonCodec Entry}
    `{JsonCodec (list OwnerHint)} (clk : nat → Z) : CatalogExchanger (Store B) := {|
  cx_ListForPeer := ListForPeer;
  cx_PutPeerEntries s p es := PutPeerEntries clk s p es
|}.

Section Handler.
Context {C : Type} `{CatalogExchanger C}.
Context (PeerID : nat → node_id).
(** What the sender serves from. *)
Context (fs : FS) (idx : LocalIndex) (ctx : nat → option error).

(** The handler and the connections it holds: the catalog ([None] when catalog
    exchange is disabled), the active connections by peer, the connections
    themselves, whether an update callback is set and how often it was called. *)
Record Handler := mk_Handler {
  catalog : option C;
  conns : gmap node_id nat;
  wires : gmap nat Conn;
  onCatalogUpdate : bool;
  updates : nat
}.

Definition with_catalog (h : Handler) (c : C) : Handler :=
  {| catalog := Some c; conns := conns h; wires := wires h;
     onCatalogUpdate := onCatalogUpdate h; updates := updates h |}.
Definition with_conns (h : Handler) (m : gmap node_id nat) : Handler :=
  {| catalog := catalog h; conns := m; wires := wires h;
     onCatalogUpdate := onCatalogUpdate h; updates := updates h |}.
Definition with_wire (h : Handler) (k : nat) (w : Conn) : Handler :=
  {| catalog := catalog h; conns := conns h; wires := <[k := w]> (wires h);
     onCatalogUpdate := onCatalogUpdate h; updates := updates h |}.
Definition notify (h : Handler) : Handler :=
  {| catalog := catalog h; conns := conns h; wires := wires h;
     onCatalogUpdate := onCatalogUpdate h;
     updates := if onCatalogUpdate h then S (updates h) else updates h |}.

(** A call on the connection [k]. *)
Definition on_wire {A} (h : Handler) (k : nat) (f : Conn → outcome A * Conn) :
    outcome A * Handler :=
  match wires h !! k with
  | Some w => let '(res, w') := f w in (res, with_wire h k w')
  | None => (Err net_ErrClosed, h)
  end.

Definition conn_Send (h : Handler) (k : nat) (env : Envelope) : outcome unit * Handler :=
  on_wire h k (λ w, Send w env).

Definition registerConn (h : Handler) (peerID : node_id) (k : nat) : Handler :=
  with_conns h (<[peerID := k]> (conns h)).

Definition unregisterConn (h : Handler) (peerID : node_id) : Handler :=
  with_conns h (delete peerID (conns h)).

Definition catalog_offer (entries : list Entry) : Envelope :=
  envelope (Envelope_CatalogOffer {| CatalogOffer_Files := EntriesToProto entries |}).

Definition sendCatalogOfferTo (h : Handler) (k : nat) : outcome unit * Handler :=
  match catalog h with
  | None => (Panic, h)
  | Some c =>
      match wrap "list for peer: %w" (cx_ListForPeer c (PeerID k)) with
      | Ok entries => conn_Send h k (catalog_offer entries)
      | Err e => (Err e, h)
      | Panic => (Panic, h)
      end
  end.

(** The entries of an offer that convert; the others are skipped. *)
Definition accepted (files : list CatalogFile) : list Entry :=
  omap (λ f, match ProtoToEntry f with Ok e => Some e | _ => None end) files.

Definition catalog_ack (n : Z) : Envelope :=
  envelope (Envelope_CatalogAck {| CatalogAck_ReceivedCount := to_uint32 n |}).

Definition handleCatalogOffer (h : Handler) (k : nat) (offer : CatalogOffer) :
    outcome unit * Handler :=
  match catalog h with
  | None => (Ok tt, h)
  | Some c =>
      let entries := accepted (CatalogOffer_Files offer) in
      match cx_PutPeerEntries c (PeerID k) entries with
      | (Ok _, c') =>
          let h := notify (with_catalog h c') in
          conn_Send h k (catalog_ack (len entries))
      | (Err e, c') => (Err (Wrapf "put peer entries: %w" e), with_catalog h c')
      | (Panic, c') => (Panic, with_catalog h c')
      end
  end.

Definition bad_request : Envelope :=
  envelope (Envelope_Error {| Error_Code := str "bad_request";
                              Error_Message := str "file_id must be 32 bytes" |}).

Definition handleFileRequest (h : Handler) (k : nat) (req : FileRequest) : outcome unit * Handler :=
  if negb (len (FileRequest_FileId req) =? 32) then conn_Send h k bad_request
  else
    let fileID := copy_arr 32 (FileRequest_FileId req) in
    on_wire h k (HandleRequest ctx fs idx fileID).

Definition dispatch (h : Handler) (k : nat) (env : Envelope) : outcome unit * Handler :=
  match Payload env with
  | Some (Envelope_FileRequest m) => handleFileRequest h k m
  | Some (Envelope_CatalogOffer m) => handleCatalogOffer h k m
  | Some (Envelope_CatalogAck _) => (Ok tt, h)
  | _ => (Err (Errorf "handler: unhandled message type %T" []), h)
  end.

(** [Serve] up to its loop: register, and send the first offer; an error of the
    offer is only logged. *)
Definition serve_start (h : Handler) (k : nat) : Handler :=
  let h := registerConn h (PeerID k) k in
  match catalog h with
  | Some _ => snd (sendCatalogOfferTo h k)
  | None => h
  end.

(** One iteration, when [env] arrives; an error of dispatch is only logged. *)
Definition serve_message (h : Handler) (k : nat) (env : Envelope) : Handler :=
  snd (dispatch h k env).

(** The deferred call. *)
Definition serve_end (h : Handler) (k : nat) : Handler := unregisterConn h (PeerID k).

(** The loop over the messages a connection delivers; [served i] is [ctx.Err()] at
    the [i]-th iteration. *)
Fixpoint serve_loop (served : nat → option error) (i : nat) (h : Handler) (k : nat)
    (ms : list (Envelope + error)) : Handler :=
  match served i, ms with
  | None, inl env :: ms' => serve_loop served (S i) (serve_message h k env) k ms'
  | _, _ => h
  end.

Definition Serve (served : nat → option error) (h : Handler) (k : nat)
    (ms : list (Envelope + error)) : Handler :=
  serve_end (serve_loop served 0 (serve_start h k) k ms) k.

(** The broadcast goes through a snapshot of the table, in any order. *)
Definition BroadcastCatalog (h : Handler) : Handler :=
  match catalog h with
  | None => h
  | Some _ => foldl (λ h kv, snd (sendCatalogOfferTo h kv.2)) h (map_to_list (conns h))
  end.

End Handler.
Arguments Handler : clear implicits.
