(* ===== verification/HandlerProps.v ===== *)
(** The properties of the protocol handler: which connections a broadcast reaches,
    what a peer can change in the catalog, and that catalogs synchronise. *)

From S2P Require Import Prelude GoStd Wire Codec Bolt Catalog CatalogSpec CatalogProps Fs Transfer TransferProps Handler.

(** * Runs of the handler *)

Section Runs.
Context {C : Type} `{CatalogExchanger C}.
Context (PeerID : nat → node_id) (fs : FS) (idx : LocalIndex) (ctx : nat → option error).

(** The handler with the set of connections whose [Serve] is running. A peer opens
    a connection when it has none open. *)
Inductive hstep : Handler C * gset nat → Handler C * gset nat → Prop :=
| step_connect h act k :
    (∀ j, j ∈ act → PeerID j ≠ PeerID k) →
    hstep (h, act) (serve_start PeerID h k, {[k]} ∪ act)
| step_message h act k env :
    k ∈ act → hstep (h, act) (serve_message PeerID fs idx ctx h k env, act)
| step_disconnect h act k :
    k ∈ act → hstep (h, act) (serve_end PeerID h k, act ∖ {[k]})
| step_broadcast h act : hstep (h, act) (BroadcastCatalog PeerID h, act).

Lemma on_wire_conns {A} (h : Handler C) k (f : Conn → outcome A * Conn) :
  conns (snd (on_wire h k f)) = conns h.
Proof. unfold on_wire. destruct (wires h !! k); [|done]. by destruct (f _). Qed.

Lemma sendCatalogOfferTo_conns h k : conns (snd (sendCatalogOfferTo PeerID h k)) = conns h.
Proof.
  unfold sendCatalogOfferTo. destruct (catalog h); [|done].
  destruct (wrap _ _); [apply on_wire_conns|done|done].
Qed.

Lemma dispatch_conns h k env : conns (snd (dispatch PeerID fs idx ctx h k env)) = conns h.
Proof.
  unfold dispatch. destruct (Payload env) as [[]|]; try done.
  - unfold handleFileRequest, conn_Send. case_match; by rewrite on_wire_conns.
  - unfold handleCatalogOffer. destruct (catalog h); [|done].
    destruct (cx_PutPeerEntries _ _ _) as [[]]; [|done|done]. unfold conn_Send. by rewrite on_wire_conns.
Qed.

Lemma BroadcastCatalog_conns h : conns (BroadcastCatalog PeerID h) = conns h.
Proof.
  unfold BroadcastCatalog. destruct (catalog h); [|done]. generalize (map_to_list (conns h)) as l.
  intros l. revert h. induction l as [|kv l IH]; intros h; simpl; [done|].
  by rewrite IH, sendCatalogOfferTo_conns.
Qed.

Lemma serve_start_conns h k : conns (serve_start PeerID h k) = <[PeerID k := k]> (conns h).
Proof.
  unfold serve_start. simpl. destruct (catalog h); [|done]. by rewrite sendCatalogOfferTo_conns.
Qed.

Lemma on_wire_catalog {A} (h : Handler C) k (f : Conn → outcome A * Conn) :
  catalog (snd (on_wire h k f)) = catalog h.
Proof. unfold on_wire. destruct (wires h !! k); [|done]. by destruct (f _). Qed.

Lemma serve_start_catalog h k : catalog (serve_start PeerID h k) = catalog h.
Proof.
  unfold serve_start, sendCatalogOfferTo. simpl. destruct (catalog h) eqn:Hc; [|done].
  destruct (wrap _ _); [|done|done]. unfold conn_Send. by rewrite on_wire_catalog.
Qed.

(** The table has exactly the open connections. *)
Definition registry_ok (st : Handler C * gset nat) : Prop :=
  ∀ p k, conns st.1 !! p = Some k ↔ k ∈ st.2 ∧ PeerID k = p.

Lemma registry_step st st' : registry_ok st → hstep st st' → registry_ok st'.
Proof.
  intros Hok Hstep. destruct Hstep as [h act k Hnew|h act k env _|h act k Hk|h act];
    intros p j; specialize (Hok p); simpl in *.
  - rewrite serve_start_conns, lookup_insert. case_decide as E.
    + split; [intros [= <-]; set_solver|]. intros [Hj Hp]. f_equal.
      apply elem_of_union in Hj as [Hj%elem_of_singleton|Hj]; [done|].
      destruct (Hnew j Hj). congruence.
    + rewrite Hok. set_solver.
  - unfold serve_message. rewrite dispatch_conns. apply Hok.
  - rewrite lookup_delete. case_decide as E.
    + split; [done|]. intros [Hj Hp]. exfalso.
      assert (conns h !! p = Some j) as Hj1 by (apply Hok; set_solver).
      assert (conns h !! p = Some k) as Hk1 by (apply Hok; done).
      rewrite Hj1 in Hk1. set_solver.
    + rewrite Hok. set_solver.
  - rewrite BroadcastCatalog_conns. apply Hok.
Qed.

Lemma registry_run st st' : registry_ok st → rtc hstep st st' → registry_ok st'.
Proof. intros Hok Hr. induction Hr; eauto using registry_step. Qed.

End Runs.

(** * Broadcasts *)

Section Broadcasts.
Context {C : Type} `{CatalogExchanger C} (PeerID : nat → node_id).

(** Sending an offer on a connection that works appends it there and changes
    nothing else. *)
Lemma sendCatalogOfferTo_sends h k c es w :
  catalog h = Some c → cx_ListForPeer c (PeerID k) = Ok es →
  wires h !! k = Some w → sends w →
  sendCatalogOfferTo PeerID h k = (Ok tt, with_wire h k (deliver w [catalog_offer es])).
Proof.
  intros Hc He Hw Hs. unfold sendCatalogOfferTo. rewrite Hc, He. simpl.
  unfold conn_Send, on_wire. by rewrite Hw, Send_deliver.
Qed.

(** What is delivered to the connection [k] by offers to the connections [ks]. *)
Definition delivered (c : C) (ks : list nat) (m m' : gmap nat Conn) : Prop :=
  ∀ k, m' !! k = if decide (k ∈ ks)
                 then (λ w, deliver w [catalog_offer (match cx_ListForPeer c (PeerID k) with
                                                      | Ok es => es | _ => [] end)]) <$> m !! k
                 else m !! k.

Lemma broadcast_delivers (h : Handler C) c (l : list (node_id * nat)) :
  catalog h = Some c → NoDup l.*2 →
  (∀ k, k ∈ l.*2 → is_Ok (cx_ListForPeer c (PeerID k)) = true ∧
                   ∃ w, wires h !! k = Some w ∧ sends w) →
  let h' := foldl (λ h kv, snd (sendCatalogOfferTo PeerID h kv.2)) h l in
  catalog h' = Some c ∧ delivered c l.*2 (wires h) (wires h').
Proof.
  revert h. induction l as [|[p k] l IH]; intros h Hc Hnd Hall; simpl.
  { split; [done|]. intros k. by rewrite decide_False by set_solver. }
  apply NoDup_cons in Hnd as [Hk Hnd].
  destruct (Hall k) as [Hok (w & Hw & Hs)]; [by left|].
  destruct (cx_ListForPeer c (PeerID k)) as [es| |] eqn:He; [|done|done].
  rewrite (sendCatalogOfferTo_sends h k c es w) by done. cbn [snd].
  destruct (IH (with_wire h k (deliver w [catalog_offer es]))) as [Hc' Hd]; [done|done| |].
  { intros j Hj. destruct (Hall j) as [? (w' & Hw' & Hs')]; [by right|]. split; [done|].
    exists w'. split; [|done]. simpl. rewrite lookup_insert_ne; [done|]. intros ->. done. }
  split; [done|]. intros j. rewrite Hd. simpl. rewrite lookup_insert.
  destruct (decide (j = k)) as [->|Hne].
  - rewrite decide_False by done. rewrite !decide_True by set_solver. by rewrite Hw, He.
  - rewrite (decide_False (P := k = j)) by done.
    destruct (decide (j ∈ l.*2)); [by rewrite decide_True by set_solver|].
    by rewrite decide_False by set_solver.
Qed.

(** A broadcast, when every registered connection is its peer's and works. *)
Lemma BroadcastCatalog_effect (h : Handler C) c :
  catalog h = Some c →
  (∀ p k, conns h !! p = Some k →
     PeerID k = p ∧ is_Ok (cx_ListForPeer c p) = true ∧ ∃ w, wires h !! k = Some w ∧ sends w) →
  let h' := BroadcastCatalog PeerID h in
  catalog h' = Some c ∧
  ∀ k w, wires h !! k = Some w →
    ((∃ p, conns h !! p = Some k) → ∃ es, cx_ListForPeer c (PeerID k) = Ok es ∧
       wires h' !! k = Some (deliver w [catalog_offer es])) ∧
    ((∀ p, conns h !! p ≠ Some k) → wires h' !! k = Some w).
Proof.
  intros Hc Hall.
  assert (∀ j, j ∈ (map_to_list (conns h)).*2 ↔ ∃ p, conns h !! p = Some j) as Hin.
  { intros j. rewrite list_elem_of_fmap. split.
    - intros ([p j'] & -> & Hj%elem_of_map_to_list). by exists p.
    - intros [p Hj]. exists (p, j). split; [done|]. by apply elem_of_map_to_list. }
  assert (NoDup (map_to_list (conns h)).*2) as Hnd.
  { apply NoDup_fmap_2_strong; [|apply NoDup_map_to_list].
    intros [p j] [p' j'] Hj%elem_of_map_to_list Hj'%elem_of_map_to_list. simpl. intros <-.
    apply Hall in Hj as [<- _]. by apply Hall in Hj' as [<- _]. }
  unfold BroadcastCatalog. rewrite Hc.
  destruct (broadcast_delivers h c (map_to_list (conns h)) Hc Hnd) as [Hc' Hd].
  { intros j [p Hj]%Hin. by destruct (Hall p j Hj) as [-> ?]. }
  split; [done|]. intros k w Hw. specialize (Hd k). rewrite Hd, Hw. split; intros Hk.
  - rewrite decide_True by (by apply Hin). destruct Hk as [p Hk]. destruct (Hall p k Hk) as [-> [Hok _]].
    destruct (cx_ListForPeer c p) as [es| |]; [|done|done]. by exists es.
  - rewrite decide_False; [done|]. rewrite Hin. by intros [p Hp%Hk].
Qed.

End Broadcasts.

(** C27. While every peer has at most one open connection, the connection table is
    exactly the open connections: whatever messages, offers and broadcasts happen,
    a peer is registered, under its own connection, if and only if that
    connection's [Serve] is running. *)
Theorem conns_exact {C : Type} `{CatalogExchanger C} (PeerID : nat → node_id) (fs : FS)
    (idx : LocalIndex) (ctx : nat → option error) (h0 h : Handler C) (act : gset nat) :
  conns h0 = ∅ → rtc (hstep PeerID fs idx ctx) (h0, ∅) (h, act) →
  ∀ p k, conns h !! p = Some k ↔ k ∈ act ∧ PeerID k = p.
Proof.
  intros H0 Hr. apply (registry_run PeerID fs idx ctx (h0, ∅) (h, act)); [|done].
  intros p k. simpl. rewrite H0, lookup_empty. set_solver.
Qed.

(** A broadcast reaches every open connection once and nobody else: each gets
    one offer with the entries the catalog lists for its peer, and no other
    connection changes. *)
Theorem BroadcastCatalog_reaches {C : Type} `{CatalogExchanger C} (PeerID : nat → node_id) (fs : FS)
    (idx : LocalIndex) (ctx : nat → option error) (h0 h : Handler C) (act : gset nat) (c : C) :
  conns h0 = ∅ → rtc (hstep PeerID fs idx ctx) (h0, ∅) (h, act) → catalog h = Some c →
  (∀ k, k ∈ act → is_Ok (cx_ListForPeer c (PeerID k)) = true ∧
                  ∃ w, wires h !! k = Some w ∧ ∀ n, send_fault w n = None) →
  ∀ k w, wires h !! k = Some w →
    (k ∈ act → ∃ es, cx_ListForPeer c (PeerID k) = Ok es ∧
       wires (BroadcastCatalog PeerID h) !! k = Some (deliver w [catalog_offer es])) ∧
    (k ∉ act → wires (BroadcastCatalog PeerID h) !! k = Some w).
Proof.
  intros H0 Hr Hc Hall k w Hw.
  assert (registry_ok PeerID (h, act)) as Hok.
  { apply (registry_run PeerID fs idx ctx (h0, ∅)); [|done].
    intros p j. simpl. rewrite H0, lookup_empty. set_solver. }
  destruct (BroadcastCatalog_effect PeerID h c Hc) as [_ Hb].
  { intros p j [Hj <-]%Hok. by split; [|apply Hall]. }
  destruct (Hb k w Hw) as [Hyes Hno]. split; intros Hk.
  - apply Hyes. exists (PeerID k). by apply Hok.
  - apply Hno. by intros p [? _]%Hok.
Qed.

(** A peer that reconnects before its old connection has ended is forgotten:
    when the old [Serve] returns it removes the table entry of the new connection,
    and a broadcast no longer reaches the peer although its connection is open. *)
Theorem reconnect_forgotten {C : Type} `{CatalogExchanger C} (PeerID : nat → node_id)
    (h : Handler C) (k1 k2 : nat) (w : Conn) :
  k1 ≠ k2 → PeerID k1 = PeerID k2 → (∀ p, conns h !! p ≠ Some k2) →
  let h1 := serve_start PeerID (serve_start PeerID h k1) k2 in
  let h2 := serve_end PeerID h1 k1 in
  conns h1 !! PeerID k2 = Some k2 ∧ conns h2 !! PeerID k2 = None ∧
  (wires h2 !! k2 = Some w → wires (BroadcastCatalog PeerID h2) !! k2 = Some w).
Proof.
  intros Hne Hp Hnew h1 h2.
  assert (k2 ∉ (map_to_list (conns h2)).*2) as Hk.
  { intros ([p j] & -> & Hj%elem_of_map_to_list)%list_elem_of_fmap. unfold h2, h1 in Hj. simpl in Hj.
    rewrite !serve_start_conns in Hj. apply lookup_delete_Some in Hj as [Hpk Hj].
    simpl in Hp. rewrite !lookup_insert_ne in Hj by congruence. by apply (Hnew p). }
  split_and!.
  - unfold h1. by rewrite serve_start_conns, lookup_insert_eq.
  - unfold h2. simpl. by rewrite Hp, lookup_delete_eq.
  - clearbody h2. intros Hw. unfold BroadcastCatalog. destruct (catalog h2); [|done].
    revert Hk. generalize (map_to_list (conns h2)) as l. intros l. revert h2 Hw.
    induction l as [|[p j] l IH]; intros h2 Hw Hk; simpl in *; [done|].
    apply not_elem_of_cons in Hk as [Hj Hk]. apply IH; [|done].
    unfold sendCatalogOfferTo. destruct (catalog h2); [|done]. destruct (wrap _ _); [|done|done].
    unfold conn_Send, on_wire. destruct (wires h2 !! j); [|done]. destruct (Send _ _). simpl.
    by rewrite lookup_insert_ne by done.
Qed.

(** * The handler on the catalog store *)

Section Store.
Context {B : Type} `{BoltLaws B} `{CatalogJson}.
Implicit Types (s : Store B) (e : Entry).

(** An entry as the receiver converts it. *)
Definition wire_entry (e : Entry) : Entry :=
  mk_Entry (Entry_FileID e) (Entry_Name e) (Entry_Size e) (time_Unix (Unix (Entry_ModTime e)))
    (Entry_OwnerNodeID e) [] (Entry_Deleted e) zero_time.

Lemma ProtoToEntry_EntryToProto e : ProtoToEntry (EntryToProto e) = Ok (wire_entry e).
Proof. unfold ProtoToEntry, EntryToProto. simpl. rewrite !len_arr. simpl. by rewrite !copy_arr_id. Qed.

Lemma accepted_offer es : accepted (EntriesToProto es) = map wire_entry es.
Proof.
  unfold accepted, EntriesToProto. induction es as [|e es IH]; [done|].
  cbn [map omap list_omap]. by rewrite ProtoToEntry_EntryToProto, IH.
Qed.

Lemma offered_Some es f e : offered es f = Some e → e ∈ es ∧ Entry_FileID e = f.
Proof. unfold offered. intros Hl%last_Some_elem_of. apply list_elem_of_filter in Hl. tauto. Qed.

Lemma offered_None es f e : offered es f = None → e ∈ es → Entry_FileID e ≠ f.
Proof.
  unfold offered. rewrite last_None. intros Hl Hin Hf.
  assert (e ∈ filter (λ e, Entry_FileID e = f) es) as He by (by apply list_elem_of_filter).
  rewrite Hl in He. by apply elem_of_nil in He.
Qed.

(** The files a receiver has from an offer, against the sender's catalog. *)
Lemma sync_files (P : op → Prop) self (sA : Store B) x es (r : outcome (option Entry)) f :
  reachable P self sA →
  (∀ e, e ∈ es ↔ Entry_Deleted e = false ∧ Entry_OwnerNodeID e ≠ x ∧
                 GetEntry sA (Entry_OwnerNodeID e) (Entry_FileID e) = Ok (Some e)) →
  match offered (map wire_entry es) f with
  | None => r = Ok None
  | Some e => ∃ now, r = Ok (Some (canon_entry (set_owner e self now (Entry_Deleted e))))
  end →
  (∃ e, r = Ok (Some e) ∧ Entry_Deleted e = false) ↔
  (∃ o e, o ≠ x ∧ GetEntry sA o f = Ok (Some e) ∧ Entry_Deleted e = false).
Proof.
  intros Hr Helem Hf. destruct (reachable_abs _ _ _ Hr) as (_ & a & HA & HI & _). split.
  - intros (e & -> & Hd). destruct (offered _ f) as [e0|] eqn:Ho; [|done].
    apply offered_Some in Ho as [(e1 & -> & Hin)%list_elem_of_fmap Hfid].
    apply Helem in Hin as (Hd1 & Hx & Hg). simpl in Hfid. subst f. eauto.
  - intros (o & e & Hx & Hg & Hd). pose proof Hg as Hg'.
    rewrite (GetEntry_abs _ _ _ _ HA) in Hg'. injection Hg' as Hg'.
    destruct (inv_stored _ HI _ _ _ Hg') as (<- & <- & _).
    assert (e ∈ es) as Hin by (by apply Helem).
    assert (wire_entry e ∈ map wire_entry es) as Hin' by (by apply list_elem_of_fmap_2).
    destruct (offered _ (Entry_FileID e)) as [e0|] eqn:Ho.
    2: { by destruct (offered_None _ _ _ Ho Hin'). }
    destruct Hf as [now ->]. eexists; split; [done|]. simpl.
    apply offered_Some in Ho as [(e1 & -> & Hin1)%list_elem_of_fmap _].
    by apply Helem in Hin1 as (? & _).
Qed.

End Store.

(** What a message can do to the catalog: only entries of the peer change, and files
    that are new among them were in the offer. *)
Lemma dispatch_effect {B : Type} `{BoltLaws B} `{CatalogJson} (PeerID : nat → node_id) (fs : FS)
    (idx : LocalIndex) (ctx : nat → option error) (clk : nat → Z) (P : op → Prop) (self : node_id)
    (h : Handler (Store B)) (s : Store B) (k : nat) (env : Envelope) :
  reachable P self s → catalog h = Some s → (∀ es, P (OpPutPeerEntries clk (PeerID k) es)) →
  ∃ s', catalog (snd (dispatch (H := store_exchanger clk) PeerID fs idx ctx h k env)) = Some s' ∧
    reachable P self s' ∧
    (∀ o f, o ≠ PeerID k → GetEntry s' o f = GetEntry s o f) ∧
    ∀ f e, GetEntry s' (PeerID k) f = Ok (Some e) →
      GetEntry s (PeerID k) f = Ok (Some e) ∨
      ∃ m e0, Payload env = Some (Envelope_CatalogOffer m) ∧ e0 ∈ accepted (CatalogOffer_Files m) ∧
        Entry_FileID e0 = f.
Proof.
  intros Hr Hc HP.
  assert (∀ h' : Handler (Store B), catalog h' = Some s →
    ∃ s', catalog h' = Some s' ∧ reachable P self s' ∧ (∀ o f, o ≠ PeerID k → GetEntry s' o f = GetEntry s o f) ∧
    ∀ f e, GetEntry s' (PeerID k) f = Ok (Some e) →
      GetEntry s (PeerID k) f = Ok (Some e) ∨
      ∃ m e0, Payload env = Some (Envelope_CatalogOffer m) ∧ e0 ∈ accepted (CatalogOffer_Files m) ∧
        Entry_FileID e0 = f)
    as Hsame by (intros h' Hh'; exists s; auto).
  unfold dispatch. destruct (Payload env) as [[]|]; try by apply Hsame.
  - unfold handleFileRequest, conn_Send. case_match; apply Hsame; by rewrite on_wire_catalog.
  - unfold handleCatalogOffer. rewrite Hc. simpl.
    destruct (PutPeerEntries clk s (PeerID k) _) as [res s'] eqn:E.
    pose proof (reach_step P self s (OpPutPeerEntries clk (PeerID k) (accepted (CatalogOffer_Files m))) Hr (HP _)) as Hr'.
    simpl in Hr'. rewrite E in Hr'. simpl in Hr'.
    assert (catalog (snd (match res with
      | Ok _ => conn_Send (notify (with_catalog h s')) k (catalog_ack (len (accepted (CatalogOffer_Files m))))
      | Err e => (Err (Wrapf "put peer entries: %w" e), with_catalog h s')
      | Panic => (Panic, with_catalog h s')
      end)) = Some s') as Hcat.
    { destruct res as [[]|e|]; [|done|done]. unfold conn_Send. by rewrite on_wire_catalog. }
    exists s'. destruct (decide (res = Ok tt)) as [->|Hne].
    + split_and!; [done|done|intros o f Ho; by apply (PutPeerEntries_effect P self clk s s' (PeerID k) _ f Hr E)|].
      intros f e He. destruct (PutPeerEntries_effect P self clk s s' (PeerID k) _ f Hr E) as [_ Hf]. rewrite He in Hf.
      destruct (offered (accepted (CatalogOffer_Files m)) f) as [e0|] eqn:Ho; [|done].
      right. exists m, e0. apply offered_Some in Ho as [? ?]. done.
    + rewrite (db_Update_rollback _ _ _ _ _ E Hne) in *. split_and!; [exact Hcat|done|done|auto].
Qed.

(** C9. A peer can only change its own part of the catalog: whatever message
    arrives on a connection, the entries of every owner other than the peer
    authenticated on that connection stay as they are, and the store stays
    reachable by catalog operations. *)
Theorem dispatch_isolated {B : Type} `{BoltLaws B} `{CatalogJson} (PeerID : nat → node_id) (fs : FS)
    (idx : LocalIndex) (ctx : nat → option error) (clk : nat → Z) (P : op → Prop) (self : node_id)
    (h : Handler (Store B)) (s : Store B) (k : nat) (env : Envelope) :
  reachable P self s → catalog h = Some s → (∀ es, P (OpPutPeerEntries clk (PeerID k) es)) →
  ∃ s', catalog (snd (dispatch (H := store_exchanger clk) PeerID fs idx ctx h k env)) = Some s' ∧
    reachable P self s' ∧
    ∀ o f, o ≠ PeerID k → GetEntry s' o f = GetEntry s o f.
Proof.
  intros Hr Hc HP.
  destruct (dispatch_effect PeerID fs idx ctx clk P self h s k env Hr Hc HP) as (s' & ? & ? & ? & _). by exists s'.
Qed.

(** Dispatching an offer, with the calls of the update callback. *)
Lemma dispatch_offer_syncs {B : Type} `{BoltLaws B} `{CatalogJson} (PeerID : nat → node_id) (fs : FS)
    (idx : LocalIndex) (ctx : nat → option error) (clk : nat → Z) (PA PB : op → Prop)
    (selfA selfB : node_id) (sA sB : Store B) (h : Handler (Store B)) (k : nat) (w : Conn)
    (es : list Entry) :
  reachable PA selfA sA → reachable PB selfB sB →
  ListForPeer sA selfB = Ok es →
  catalog h = Some sB → PeerID k = selfA → wires h !! k = Some w → (∀ n, send_fault w n = None) →
  (∀ es, PB (OpPutPeerEntries clk selfA es)) →
  fst (PutPeerEntries clk sB selfA (map wire_entry es)) = Ok tt →
  ∃ sB' h', dispatch (H := store_exchanger clk) PeerID fs idx ctx h k (catalog_offer es) = (Ok tt, h') ∧
    catalog h' = Some sB' ∧ updates h' = (if onCatalogUpdate h then S (updates h) else updates h) ∧ wires h' !! k = Some (deliver w [catalog_ack (len es)]) ∧
    ∀ f,
      ((∃ e, GetEntry sB' selfA f = Ok (Some e) ∧ Entry_Deleted e = false) ↔
       (∃ o e, o ≠ selfB ∧ GetEntry sA o f = Ok (Some e) ∧ Entry_Deleted e = false)) ∧
      ((∃ e, GetEntry sB' selfA f = Ok (Some e) ∧ Entry_Deleted e = false) →
       ∃ hs, GetOwners sB' f = Ok hs ∧ selfA ∈ map Hint_NodeID hs).
Proof.
  intros HrA HrB Hlist Hc Hk Hw Hs HPB Hput. apply pair_fst in Hput as E.
  set (sB' := snd (PutPeerEntries clk sB selfA (map wire_entry es))) in *.
  exists sB'. eexists. split_and!.
  - unfold dispatch, catalog_offer. simpl. unfold handleCatalogOffer. rewrite Hc. cbn [CatalogOffer_Files].
    rewrite accepted_offer. cbn [cx_PutPeerEntries store_exchanger]. rewrite Hk, E.
    unfold conn_Send, on_wire. cbn [wires notify with_catalog]. rewrite Hw, Send_deliver by done. reflexivity.
  - done.
  - done.
  - simpl. rewrite lookup_insert_eq. do 4 f_equal. unfold len. by rewrite length_map.
  - intros f. destruct (PutPeerEntries_effect PB selfB clk sB sB' selfA _ f HrB E) as [_ Hf].
    destruct (ListForPeer_elems PA selfA sA selfB HrA) as (l & Hl & Helem).
    rewrite Hlist in Hl. injection Hl as <-.
    assert (reachable PB selfB sB') as HrB'.
    { apply (reach_step PB selfB sB (OpPutPeerEntries clk selfA (map wire_entry es)) HrB (HPB _)). }
    split.
    2: { intros (e & He & Hd). destruct (GetOwners_live PB selfB sB' selfA f e HrB' He Hd) as (hs & ? & _ & ?). eauto. }
    apply (sync_files PA selfA sA selfB es _ f HrA Helem Hf).
Qed.

(** C8. Catalogs synchronise: when node A's offer for node B is dispatched by B on a
    connection authenticated as A, and B's store accepts it, then B has a live entry
    of A for exactly the files that A has live entries for that B does not own
    itself, B's index names A for each of them, and B acknowledges the number of
    files. *)
Theorem catalog_sync {B : Type} `{BoltLaws B} `{CatalogJson} (PeerID : nat → node_id) (fs : FS)
    (idx : LocalIndex) (ctx : nat → option error) (clk : nat → Z) (PA PB : op → Prop)
    (selfA selfB : node_id) (sA sB : Store B) (h : Handler (Store B)) (k : nat) (w : Conn)
    (es : list Entry) :
  reachable PA selfA sA → reachable PB selfB sB →
  ListForPeer sA selfB = Ok es →
  catalog h = Some sB → PeerID k = selfA → wires h !! k = Some w → (∀ n, send_fault w n = None) →
  (∀ es, PB (OpPutPeerEntries clk selfA es)) →
  fst (PutPeerEntries clk sB selfA (map wire_entry es)) = Ok tt →
  ∃ sB' h', dispatch (H := store_exchanger clk) PeerID fs idx ctx h k (catalog_offer es) = (Ok tt, h') ∧
    catalog h' = Some sB' ∧ wires h' !! k = Some (deliver w [catalog_ack (len es)]) ∧
    ∀ f,
      ((∃ e, GetEntry sB' selfA f = Ok (Some e) ∧ Entry_Deleted e = false) ↔
       (∃ o e, o ≠ selfB ∧ GetEntry sA o f = Ok (Some e) ∧ Entry_Deleted e = false)) ∧
      ((∃ e, GetEntry sB' selfA f = Ok (Some e) ∧ Entry_Deleted e = false) →
       ∃ hs, GetOwners sB' f = Ok hs ∧ selfA ∈ map Hint_NodeID hs).
Proof.
  intros HrA HrB Hlist Hc Hk Hw Hs HPB Hput.
  destruct (dispatch_offer_syncs PeerID fs idx ctx clk PA PB selfA selfB sA sB h k w es)
    as (sB' & h' & Hd & Hc' & _ & Hw' & Hf); [done..|]. by exists sB', h'.
Qed.

(** * Witnesses *)

Module HandlerWitness.
Import MapBolt CatalogInstance CatalogWitness.

Definition bob : node_id := copy_arr 32 (str "bob").
Definition PeerID (k : nat) : node_id := match k with 1%nat | 2%nat => peer | _ => bob end.
Definition fs0 : FS := mk_FS ∅ (λ _, None).
Definition ctx0 (i : nat) : option error := None.

#[local] Instance exchanger : CatalogExchanger (Store (gmap bytes bytes)) := store_exchanger clk.

(** The node of the catalog examples, with two connections that nobody serves. *)
Definition h0 : Handler (Store (gmap bytes bytes)) :=
  mk_Handler (Some s2) ∅ {[ 1%nat := fresh_conn []; 2%nat := fresh_conn [] ]} true 0.

Definition h1 : Handler (Store (gmap bytes bytes)) := serve_start PeerID h0 1.

Lemma run1 : rtc (hstep PeerID fs0 NewLocalIndex ctx0) (h0, ∅) (h1, {[1%nat]}).
Proof.
  apply (rtc_l _ _ (h1, {[1%nat]})); [|apply rtc_refl].
  replace ({[1%nat]} : gset nat) with ({[1%nat]} ∪ ∅ : gset nat) by set_solver.
  apply step_connect. set_solver.
Qed.

Lemma conns_exact_witness :
  conns h1 !! peer = Some 1%nat ↔ 1%nat ∈ ({[1%nat]} : gset nat) ∧ PeerID 1 = peer.
Proof. apply (conns_exact PeerID fs0 NewLocalIndex ctx0 h0 h1 {[1%nat]}); [done|apply run1]. Defined.

(** The first offer is on the wire. *)
Definition w1 : Conn := default (fresh_conn []) (wires h1 !! 1%nat).

Lemma w1_offer : len (sent w1) = 1 ∧ wires h1 !! 1%nat = Some w1.
Proof. split; by vm_compute. Qed.

Lemma BroadcastCatalog_reaches_witness :
  (1%nat ∈ ({[1%nat]} : gset nat) → ∃ es, cx_ListForPeer s2 peer = Ok es ∧
     wires (BroadcastCatalog PeerID h1) !! 1%nat = Some (deliver w1 [catalog_offer es])) ∧
  (1%nat ∉ ({[1%nat]} : gset nat) → wires (BroadcastCatalog PeerID h1) !! 1%nat = Some w1).
Proof.
  apply (BroadcastCatalog_reaches PeerID fs0 NewLocalIndex ctx0 h0 h1 {[1%nat]} s2);
    [done|apply run1|apply serve_start_catalog| |apply w1_offer].
  intros k ->%elem_of_singleton. split; [by vm_compute|]. exists w1. split; [apply w1_offer|].
  by vm_compute.
Defined.

Lemma reconnect_forgotten_witness :
  let h1 := serve_start PeerID (serve_start PeerID h0 1) 2 in
  let h2 := serve_end PeerID h1 1 in
  conns h1 !! PeerID 2 = Some 2%nat ∧ conns h2 !! PeerID 2 = None ∧
  (wires h2 !! 2%nat = Some w1 → wires (BroadcastCatalog PeerID h2) !! 2%nat = Some w1).
Proof. apply (reconnect_forgotten PeerID h0 1 2 w1); done. Defined.

Lemma s2_any : reachable (λ _, True) self s2.
Proof. do 2 (apply reach_step; [|done]). apply reach_new. Qed.

Definition bad_offer : Envelope :=
  envelope (Envelope_CatalogOffer {| CatalogOffer_Files :=
    [Build_CatalogFile (arr_bytes file1) (str "mine now") 1 0 (arr_bytes self) false] |}).

Lemma dispatch_isolated_witness :
  ∃ s', catalog (snd (dispatch PeerID fs0 NewLocalIndex ctx0 h0 1 bad_offer)) = Some s' ∧
    reachable (λ _, True) self s' ∧
    ∀ o f, o ≠ PeerID 1 → GetEntry s' o f = GetEntry s2 o f.
Proof.
  apply (dispatch_isolated PeerID fs0 NewLocalIndex ctx0 clk (λ _, True) self h0 s2 1 bad_offer);
    [apply s2_any|done|done].
Defined.

(** A fresh node [bob] receives the catalog of [self]. *)
Definition sB : Store (gmap bytes bytes) := CatalogProps.new_store bob.
Definition PeerA (k : nat) : node_id := self.
Definition hB : Handler (Store (gmap bytes bytes)) :=
  mk_Handler (Some sB) ∅ {[ 1%nat := fresh_conn [] ]} true 0.
Definition esA : list Entry := match ListForPeer s2 bob with Ok es => es | _ => [] end.

Lemma catalog_sync_witness :
  ∃ sB' h', dispatch PeerA fs0 NewLocalIndex ctx0 hB 1 (catalog_offer esA) = (Ok tt, h') ∧
    catalog h' = Some sB' ∧ wires h' !! 1%nat = Some (deliver (fresh_conn []) [catalog_ack (len esA)]) ∧
    ∀ f,
      ((∃ e, GetEntry sB' self f = Ok (Some e) ∧ Entry_Deleted e = false) ↔
       (∃ o e, o ≠ bob ∧ GetEntry s2 o f = Ok (Some e) ∧ Entry_Deleted e = false)) ∧
      ((∃ e, GetEntry sB' self f = Ok (Some e) ∧ Entry_Deleted e = false) →
       ∃ hs, GetOwners sB' f = Ok hs ∧ self ∈ map Hint_NodeID hs).
Proof.
  apply (catalog_sync PeerA fs0 NewLocalIndex ctx0 clk (λ _, True) (λ _, True) self bob s2 sB hB 1
           (fresh_conn []) esA);
    [apply s2_any|apply reach_new|by vm_compute|done|done|done|done|done|by vm_compute].
Defined.

End HandlerWitness.
