(* ===== verification/Offer.v ===== *)
(** How large a catalog can be sent: [sendCatalogOfferTo] puts the whole catalog into one
    message, which [WriteMsg] refuses above 4 MiB. The sizes are those of the
    protobuf wire format. *)

From S2P Require Import Prelude GoStd Wire Io Codec Protobuf Framing Catalog Transfer Handler.

(** * Sizes *)

Lemma put_varint_len j k n : n < 128 ^ Z.of_nat (S j) → len (put_varint k n) ≤ Z.of_nat (S j).
Proof.
  revert k n. induction j as [|j IH]; intros k n Hn;
    (destruct k as [|k]; [change (put_varint 0 n) with (@nil byte); rewrite len_nil; lia|]);
    rewrite put_varint_S; destruct (Z.ltb_spec n 128); rewrite len_cons, ?len_nil; try lia.
  specialize (IH k (n / 128)). assert (n / 128 < 128 ^ Z.of_nat (S j)); [|lia].
  apply Z.div_lt_upper_bound; [lia|]. by rewrite <- Z.pow_succ_r, <- Nat2Z.inj_succ by lia.
Qed.

Lemma put_varint_len_max k n : len (put_varint k n) ≤ Z.of_nat k.
Proof.
  revert n. induction k as [|k IH]; intros n; [done|]. rewrite put_varint_S.
  destruct (n <? 128); rewrite len_cons, ?len_nil; [|specialize (IH (n / 128))]; lia.
Qed.

Lemma put_varint_len_min k n : 1 ≤ len (put_varint (S k) n).
Proof.
  rewrite put_varint_S. pose proof (len_nonneg (put_varint k (n / 128))).
  destruct (n <? 128); rewrite len_cons, ?len_nil; lia.
Qed.

(** The size of a field: at least two bytes with its value, at most a byte for the
    tag of a small number, and the length. *)
Lemma put_len_field_size num b data :
  put_field (num, RLen b) = Some data → 2 + len b ≤ len data.
Proof.
  unfold put_field. destruct (_ && _); [|done]. destruct (_ <? _); [|done]. intros [= <-].
  rewrite !len_app. pose proof (put_varint_len_min 9 (num * 8 + 2)). pose proof (put_varint_len_min 9 (len b)).
  unfold max_varint. lia.
Qed.

Lemma put_len_field num b :
  1 ≤ num ≤ 15 → len b < 2 ^ 28 → ∃ data, put_field (num, RLen b) = Some data ∧ len data ≤ 5 + len b.
Proof.
  intros Hn Hb. unfold put_field, max_field.
  rewrite (proj2 (Z.leb_le 1 num)), (proj2 (Z.leb_le num _)), (proj2 (Z.ltb_lt (len b) _)) by lia.
  eexists. split; [done|]. rewrite !len_app.
  pose proof (put_varint_len 0 max_varint (num * 8 + 2) ltac:(lia)).
  pose proof (put_varint_len 3 max_varint (len b) ltac:(lia)). lia.
Qed.

Lemma put_varint_field num n :
  1 ≤ num ≤ 15 → 0 ≤ n < 2 ^ 64 →
  ∃ data, put_field (num, RVarint n) = Some data ∧ len data ≤ 11 ∧ (n < 128 → len data ≤ 2).
Proof.
  intros Hn Hb. unfold put_field, max_field.
  rewrite (proj2 (Z.leb_le 1 num)), (proj2 (Z.leb_le num _)), (proj2 (Z.leb_le 0 n)), (proj2 (Z.ltb_lt n _)) by lia.
  eexists. split; [done|]. rewrite !len_app.
  pose proof (put_varint_len 0 max_varint (num * 8) ltac:(lia)).
  pose proof (put_varint_len_max max_varint n). split; [unfold max_varint in *; lia|].
  intros Hs. pose proof (put_varint_len 0 max_varint n ltac:(lia)). lia.
Qed.

Lemma put_fields_cons f fs data :
  put_fields (f :: fs) = Some data ↔
  ∃ b bs, put_field f = Some b ∧ put_fields fs = Some bs ∧ data = b ++ bs.
Proof.
  unfold put_fields. cbn [mapM]. destruct (put_field f) as [b|]; cbn; [|naive_solver].
  destruct (mapM put_field fs) as [bs|]; cbn; [|naive_solver]. split; [|naive_solver].
  intros [= <-]. eauto.
Qed.

(** The sum of what the fields take. *)
Lemma put_fields_bound (fs : list (Z * raw)) (bound : Z * raw → Z) :
  (∀ f, f ∈ fs → ∃ b, put_field f = Some b ∧ len b ≤ bound f) →
  ∃ data, put_fields fs = Some data ∧ len data ≤ foldr (λ f n, bound f + n) 0 fs.
Proof.
  induction fs as [|f fs IH]; intros Hf; [by exists []|].
  destruct (Hf f) as (b & Hb & Hlb); [by left|]. destruct IH as (bs & Hbs & Hlbs).
  { intros g Hg. apply Hf. by right. }
  exists (b ++ bs). split; [apply put_fields_cons; eauto|]. cbn [foldr]. rewrite len_app. lia.
Qed.

(** * Entries *)

(** An entry that a message can carry: the sizes of files and the names that
    [encoding/json] has stored are like that. *)
Definition encodable (e : Entry) : Prop :=
  utf8_ok (Entry_Name e) = true ∧ is_int64 (Entry_Size e).

Definition offer_size (entries : list Entry) : Z :=
  foldr (λ e n, 108 + len (Entry_Name e) + n) 0 entries.

Lemma Unix_int64 t : is_int64 (Unix t).
Proof. unfold Unix, is_int64, to_int64. pose proof (Z.mod_pos_bound (t / 10 ^ 9 + 2 ^ 63) (2 ^ 64)). lia. Qed.

Lemma int64_valid z : is_int64 z → (- 2 ^ 63 <=? z) && (z <? 2 ^ 63) = true.
Proof. unfold is_int64. intros ?. by rewrite andb_true_iff, Z.leb_le, Z.ltb_lt. Qed.

Lemma arr_nonzero {n} (a : arr (S n)) : VB (arr_bytes a) ≠ VB [].
Proof. intros [= E]. pose proof (arr_length a) as Hl. by rewrite E in Hl. Qed.

Lemma b2z_valid b : (Z.b2z b =? 0) || (Z.b2z b =? 1) = true.
Proof. by destruct b. Qed.

(** The fields of an entry. *)
Definition entry_fields (e : Entry) : list (Z * raw) :=
  let f := EntryToProto e in
  let opt (v : sval) (z : sval) (x : Z * raw) := if bool_decide (v = z) then [] else [x] in
  [(1, RLen (CatalogFile_FileId f))] ++
  opt (VB (Entry_Name e)) (VB []) (2, RLen (Entry_Name e)) ++
  opt (VZ (Entry_Size e)) (VZ 0) (3, RVarint (to_uint64 (Entry_Size e))) ++
  opt (VZ (CatalogFile_ModTimeUnix f)) (VZ 0) (4, RVarint (to_uint64 (CatalogFile_ModTimeUnix f))) ++
  [(5, RLen (CatalogFile_OwnerNodeId f))] ++
  opt (VZ (Z.b2z (Entry_Deleted e))) (VZ 0) (6, RVarint (to_uint64 (Z.b2z (Entry_Deleted e)))).

Lemma fields_of_entry e :
  fields_of CatalogFile_schema (m_vals (EntryToProto e)) =
    if utf8_ok (Entry_Name e) && ((- 2 ^ 63 <=? Entry_Size e) && (Entry_Size e <? 2 ^ 63))
    then Some (entry_fields e) else None.
Proof.
  cbn -[utf8_ok to_uint64 Unix Z.pow]. rewrite b2z_valid, (int64_valid _ (Unix_int64 _)).
  cbn -[utf8_ok to_uint64 Unix Z.pow].
  destruct (utf8_ok (Entry_Name e)); cbn -[utf8_ok to_uint64 Unix Z.pow];
    [|by repeat (case_match; cbn -[to_uint64 Unix])].
  destruct ((_ <=? Entry_Size e) && _); [|done]. cbn -[to_uint64 Unix].
  unfold entry_fields. cbn -[to_uint64 Unix].
  rewrite !(bool_decide_eq_false_2 _ (arr_nonzero _)). f_equal.
  repeat case_bool_decide; done.
Qed.

Lemma put_fields_least (fs : list (Z * raw)) (data : bytes) :
  put_fields fs = Some data →
  foldr (λ f n, match f.2 with RLen b => 2 + len b | _ => 0 end + n) 0 fs ≤ len data.
Proof.
  revert data. induction fs as [|[num v] fs IH]; intros data; [intros _; apply len_nonneg|].
  intros (b & bs & Hb & Hbs & ->)%put_fields_cons. apply IH in Hbs. cbn [foldr snd]. rewrite len_app.
  destruct v as [n| |l| |]; try (pose proof (len_nonneg b); lia). apply put_len_field_size in Hb. lia.
Qed.

Lemma len_arr32 (a : arr 32) : len (arr_bytes a) = 32.
Proof. unfold len. by rewrite arr_length. Qed.

(** An entry takes at least its two ids, and not more than a fixed size and its name. *)
Lemma marshal_entry_least e data : marshal (EntryToProto e) = Some data → 68 ≤ len data.
Proof.
  unfold marshal. cbn [m_schema CatalogFile_message]. rewrite fields_of_entry. destruct (_ && _); [|done].
  cbn [mbind option_bind]. intros Hl%put_fields_least. etrans; [|exact Hl]. unfold entry_fields.
  cbn [CatalogFile_FileId CatalogFile_OwnerNodeId EntryToProto]. pose proof (len_nonneg (Entry_Name e)).
  repeat case_bool_decide; cbn [app foldr snd]; rewrite !len_arr32; lia.
Qed.

Lemma entry_fields_bound e f :
  len (Entry_Name e) < 2 ^ 28 → f ∈ entry_fields e → ∃ b, put_field f = Some b ∧
    len b ≤ match f with (_, RLen b) => 5 + len b | (num, _) => if num =? 6 then 2 else 11 end.
Proof.
  intros Hname Hf.
  assert (∀ num (a : arr 32), 1 ≤ num ≤ 15 →
            ∃ b, put_field (num, RLen (arr_bytes a)) = Some b ∧ len b ≤ 5 + len (arr_bytes a)) as Harr.
  { intros num a Hn. apply put_len_field; [done|]. rewrite len_arr32. lia. }
  assert (∀ num z, 1 ≤ num ≤ 15 → num ≠ 6 →
            ∃ b, put_field (num, RVarint (to_uint64 z)) = Some b ∧ len b ≤ 11) as Hint.
  { intros num z Hn _. destruct (put_varint_field num (to_uint64 z)) as (b & ? & ? & _); [done| |eauto].
    apply Z.mod_pos_bound. lia. }
  unfold entry_fields in Hf. rewrite !elem_of_app in Hf.
  destruct Hf as [Hf|[Hf|[Hf|[Hf|[Hf|Hf]]]]]; try (case_bool_decide; [by apply elem_of_nil in Hf|]);
    apply list_elem_of_singleton in Hf as ->.
  - by apply Harr.
  - by apply put_len_field.
  - by apply Hint.
  - by apply Hint.
  - by apply Harr.
  - destruct (put_varint_field 6 (to_uint64 (Z.b2z (Entry_Deleted e)))) as (b & Hb & _ & Hs); [lia| |].
    + by destruct (Entry_Deleted e).
    + exists b. split; [done|]. apply Hs. by destruct (Entry_Deleted e).
Qed.

Lemma marshal_entry e :
  encodable e → len (Entry_Name e) < 2 ^ 28 →
  ∃ data, marshal (EntryToProto e) = Some data ∧ len data ≤ 103 + len (Entry_Name e).
Proof.
  intros [Hu Hs] Hname. unfold marshal. cbn [m_schema CatalogFile_message].
  rewrite fields_of_entry, Hu, int64_valid by done. cbn [andb mbind option_bind].
  destruct (put_fields_bound (entry_fields e) (λ f, match f with
      | (_, RLen b) => 5 + len b | (num, _) => if num =? 6 then 2 else 11 end)) as (data & Hd & Hl).
  { intros f Hf. by apply (entry_fields_bound e). }
  exists data. split; [done|]. etrans; [exact Hl|]. unfold entry_fields.
  cbn [CatalogFile_FileId CatalogFile_OwnerNodeId EntryToProto]. pose proof (len_nonneg (Entry_Name e)).
  repeat case_bool_decide; cbn [app foldr Z.eqb Pos.eqb]; rewrite !len_arr32; lia.
Qed.

(** * Offers *)

Lemma marshal_entries_least es bs :
  mapM marshal (EntriesToProto es) = Some bs → len bs = len es ∧ Forall (λ b, 68 ≤ len b) bs.
Proof.
  revert bs. induction es as [|e es IH]; intros bs; cbn [EntriesToProto map mapM].
  { intros [= <-]. by split. }
  destruct (marshal (EntryToProto e)) as [b|] eqn:Hb; cbn [mbind option_bind]; [|done].
  fold (EntriesToProto es). destruct (mapM marshal (EntriesToProto es)) as [bs'|] eqn:E; cbn [mbind option_bind]; [|done].
  intros [= <-]. destruct (IH bs' eq_refl) as [Hl Hall]. rewrite !len_cons, Hl. split; [done|].
  constructor; [by apply (marshal_entry_least e)|done].
Qed.

Lemma offer_least es data :
  Marshal (catalog_offer es) = Ok data → 70 * len es + 2 ≤ len data.
Proof.
  unfold Marshal. cbn [catalog_offer envelope Payload marshal_payload]. unfold marshal_offer.
  cbn [CatalogOffer_Files]. destruct (mapM marshal (EntriesToProto es)) as [bs|] eqn:E; cbn [mbind option_bind]; [|done].
  apply marshal_entries_least in E as [Hlen Hall].
  destruct (put_fields (map _ bs)) as [body|] eqn:Hbody; cbn [mbind option_bind fst snd]; [|done].
  destruct (put_fields [_]) as [d|] eqn:Hd; [|done]. intros [= <-].
  apply put_fields_least in Hbody, Hd. cbn [foldr snd] in Hd.
  assert (70 * len bs ≤ len body); [|lia]. etrans; [|exact Hbody]. clear -Hall.
  induction Hall as [|b bs Hb _ IH]; [done|]. rewrite len_cons. cbn [map foldr snd]. lia.
Qed.

Lemma offer_size_nonneg es : 0 ≤ offer_size es.
Proof. induction es as [|e es IH]; cbn [offer_size foldr]; [lia|]. fold (offer_size es). pose proof (len_nonneg (Entry_Name e)). lia. Qed.

Lemma marshal_entries es :
  Forall encodable es → offer_size es < 2 ^ 28 →
  ∃ bs body, mapM marshal (EntriesToProto es) = Some bs ∧
    put_fields (map (λ b, (CatalogOffer_files, RLen b)) bs) = Some body ∧ len body ≤ offer_size es.
Proof.
  induction 1 as [|e es He _ IH]; [by exists [], []|]. cbn [offer_size foldr]. fold (offer_size es). intros Hsize.
  pose proof (offer_size_nonneg es). pose proof (len_nonneg (Entry_Name e)).
  destruct IH as (bs & body & Hbs & Hbody & Hlen); [lia|].
  destruct (marshal_entry e He) as (b & Hb & Hlb); [lia|].
  destruct (put_len_field CatalogOffer_files b) as (d & Hd & Hld); [done|lia|].
  exists (b :: bs), (d ++ body). cbn [EntriesToProto map mapM]. fold (EntriesToProto es). rewrite Hb.
  cbn [mbind option_bind]. rewrite Hbs. split_and!; [done|apply put_fields_cons; eauto|rewrite len_app; lia].
Qed.

Lemma offer_marshals es :
  Forall encodable es → offer_size es + 5 ≤ maxMsgSize →
  ∃ data, Marshal (catalog_offer es) = Ok data ∧ len data ≤ maxMsgSize.
Proof.
  rewrite maxMsgSize_val. intros Hes Hsize. destruct (marshal_entries es Hes) as (bs & body & Hbs & Hbody & Hlen); [lia|].
  destruct (put_len_field 11 body) as (d & Hd & Hld); [lia|lia|].
  unfold Marshal. cbn [catalog_offer envelope Payload marshal_payload]. unfold marshal_offer.
  cbn [CatalogOffer_Files]. rewrite Hbs. cbn [mbind option_bind]. rewrite Hbody. cbn [mbind option_bind fst snd].
  assert (put_fields [(11, RLen body)] = Some (d ++ [])) as -> by (apply put_fields_cons; eauto).
  exists (d ++ []). rewrite app_nil_r. split; [done|lia].
Qed.

Lemma WriteMsg_Ok `{ProtoCodec} w env data :
  proto_Marshal env = Ok data → len data ≤ maxMsgSize → w_room w = None →
  WriteMsg w env = (Ok tt, after_write w (frame data)).
Proof.
  intros Hm Hl Hw. assert (∀ p, accepts w p) as Hacc by (intros p; unfold accepts; by rewrite Hw).
  unfold WriteMsg. rewrite Hm. destruct (Z.gtb_spec (len data) maxMsgSize); [lia|].
  rewrite header_small by done. destruct (accepts_app w (be_put 4 (len data)) data (Hacc _)) as [H1 H2].
  rewrite (Write_Ok _ _ H1), (Write_Ok _ _ H2). cbn [wrap]. unfold frame. by rewrite after_write_app.
Qed.

(** * Properties *)

(** C38. Which catalogs reach a peer. Entries as the store keeps them, whose names and a
    fixed 108 bytes each stay within 4 MiB, are written as one frame that the peer reads
    back as the same offer; a catalog of 59919 files or more, whatever they are, is
    never sent: the write fails before a byte is written. *)
Theorem offer_delivery (es : list Entry) (w : Writer) :
  (Forall encodable es → offer_size es + 5 ≤ maxMsgSize → w_room w = None →
   ∃ data, WriteMsg w (catalog_offer es) = (Ok tt, after_write w (frame data)) ∧
     ∀ rest e, ReadMsg {| r_in := frame data ++ rest; r_end := e |} =
                 (Ok (catalog_offer es), {| r_in := rest; r_end := e |})) ∧
  (59919 ≤ len es → ∃ e, WriteMsg w (catalog_offer es) = (Err e, w)).
Proof.
  split.
  - intros Hes Hsize Hw. destruct (offer_marshals es Hes Hsize) as (data & Hm & Hl).
    exists data. split; [by apply WriteMsg_Ok|]. intros rest e. by apply ReadMsg_frame.
  - intros Hn. unfold WriteMsg. cbn [proto_Marshal codec].
    destruct (Marshal (catalog_offer es)) as [data|e|] eqn:Hm; [|eauto|].
    + apply offer_least in Hm. destruct (Z.gtb_spec (len data) maxMsgSize) as [|Hle]; [eauto|].
      rewrite maxMsgSize_val in Hle. lia.
    + unfold Marshal in Hm. by repeat case_match.
Qed.

(** * Witnesses *)

Module OfferWitness.

Definition e1 : Entry :=
  mk_Entry (copy_arr 32 (str "f1")) (str "notes.txt") 12 (1700000000 * 10 ^ 9) (copy_arr 32 (str "alice"))
    (str "/home/alice/notes.txt") false 0.
Definition w0 : Writer := {| w_out := []; w_room := None; w_err := io_EOF |}.
Definition many : list Entry := replicate (Z.to_nat 59919) e1.

(** What is on the wire for a catalog with one file. *)
Lemma offer_bytes :
  Marshal (catalog_offer [e1]) =
    Ok (Byte.x5a :: Byte.x59 :: Byte.x0a :: Byte.x57 ::
        (Byte.x0a :: Byte.x20 :: arr_bytes (Entry_FileID e1)) ++
        (Byte.x12 :: Byte.x09 :: str "notes.txt") ++ [Byte.x18; Byte.x0c] ++
        [Byte.x20; Byte.x80; Byte.xe2; Byte.xcf; Byte.xaa; Byte.x06] ++
        (Byte.x2a :: Byte.x20 :: arr_bytes (Entry_OwnerNodeID e1))).
Proof. by vm_compute. Qed.

Lemma offer_delivery_witness :
  (∃ data, WriteMsg w0 (catalog_offer [e1]) = (Ok tt, after_write w0 (frame data)) ∧
     ∀ rest e, ReadMsg {| r_in := frame data ++ rest; r_end := e |} =
                 (Ok (catalog_offer [e1]), {| r_in := rest; r_end := e |})) ∧
  (∃ e, WriteMsg w0 (catalog_offer many) = (Err e, w0)).
Proof.
  split.
  - apply (proj1 (offer_delivery [e1] w0)); [|by vm_compute|done].
    repeat constructor; [by vm_compute|vm_compute; split; congruence..].
  - apply (proj2 (offer_delivery many w0)). unfold many, len. rewrite length_replicate. lia.
Defined.

End OfferWitness.
