(* ===== verification/Exchange.v ===== *)
(** Two nodes that serve each other over one connection, [protocol.Handler.Serve] on
    both ends: what a node sends in answer to a message, and that an exchange of
    catalogs and files comes to an end. The comment in [daemon.go] about the
    callback of catalog updates is about this: a node that answered an offer with an
    offer would make the two ends exchange offers for ever. *)

From S2P Require Import Prelude Wire Fs Transfer TransferProps Catalog Handler.

(** A message that makes the receiver send something. *)
Definition is_query (env : Envelope) : bool :=
  match Payload env with
  | Some (Envelope_FileRequest _) | Some (Envelope_CatalogOffer _) => true
  | _ => false
  end.

(** Messages that only answer. *)
Abbreviation replies := (Forall (λ env, is_query env = false)).

(** * What is sent in answer to a message *)

(** [w'] is [w] after some answers were sent on it. *)
Definition answered (w w' : Conn) : Prop :=
  ∃ ms, sent w' = sent w ++ ms ∧ replies ms ∧ send_fault w' = send_fault w.

#[global] Instance answered_po : PreOrder answered.
Proof.
  split.
  - intros w. exists []. by rewrite app_nil_r.
  - intros w1 w2 w3 (ms & E & Hms & Hf) (ms' & E' & Hms' & Hf'). exists (ms ++ ms').
    rewrite E', E, app_assoc, Hf'. split_and!; [done|by apply Forall_app|done].
Qed.

Lemma Send_answered w env : is_query env = false → answered w (snd (Send w env)).
Proof.
  intros Hq. unfold Send. destruct (send_fault w _); [done|]. exists [env]. by repeat constructor.
Qed.

(** Case analysis on a send whose result is used. *)
Ltac send_step w env :=
  let Hs := fresh "Hs" in
  pose proof (Send_answered w env eq_refl) as Hs; destruct (Send w env) as [[[]|?e|] ?w']; cbn [wrap fst snd] in Hs |- *.

Lemma send_chunks_answered fuel ctx i fs path f off id w :
  answered w (snd (send_chunks fuel ctx i fs path f off id w)).
Proof.
  revert i off w. induction fuel as [|fuel IH]; intros i off w; [done|]. cbn [send_chunks].
  destruct (ctx i); [done|]. destruct (Read _ _ _ _ _) as [[|b data]|e|]; [| |done|done].
  - send_step w (file_chunk id [] true); done.
  - send_step w (file_chunk id (b :: data) false); [|done|done]. by etrans.
Qed.

Lemma HandleRequest_answered ctx fs idx id w : answered w (snd (HandleRequest ctx fs idx id w)).
Proof.
  unfold HandleRequest, sendNotFound. destruct (Lookup idx id) as [path|]; [|by apply Send_answered].
  destruct (Stat fs path) as [info| |]; [|by apply Send_answered..].
  send_step w (file_response id (file_size info) false); [|done|done].
  destruct (wrap _ _); [|done|done]. etrans; [exact Hs|]. apply send_chunks_answered.
Qed.

Section Exchange.
Context {C : Type} `{CatalogExchanger C} (PeerID : nat → node_id).
Context (fs : FS) (idx : LocalIndex) (ctx : nat → option error).
Implicit Types (h : Handler C).

(** [h'] is [h] after answers on the connection [k] only. *)
Definition answered_on (k : nat) h h' : Prop :=
  (∀ j, j ≠ k → wires h' !! j = wires h !! j) ∧
  match wires h !! k with
  | Some w => ∃ w', wires h' !! k = Some w' ∧ answered w w'
  | None => wires h' !! k = None
  end.

Lemma on_wire_answered {A} h k (f : Conn → outcome A * Conn) :
  (∀ w, answered w (snd (f w))) → answered_on k h (snd (on_wire h k f)).
Proof.
  intros Hf. unfold on_wire, answered_on. destruct (wires h !! k) as [w|] eqn:Hw; [|done].
  specialize (Hf w). destruct (f w) as [r w']. simpl in *. split.
  - intros j Hj. by rewrite lookup_insert_ne.
  - exists w'. by rewrite lookup_insert_eq.
Qed.

Lemma answered_on_same k h h' : wires h' = wires h → answered_on k h h'.
Proof. intros E. unfold answered_on. rewrite E. split; [done|]. destruct (wires h !! k) as [w|]; [|done]. by exists w. Qed.

(** Whatever arrives on a connection, the answers go to that connection only, and
    none of them asks for an answer. *)
Lemma serve_message_answered h k env : answered_on k h (serve_message PeerID fs idx ctx h k env).
Proof.
  unfold serve_message, dispatch.
  destruct (Payload env) as [[]|]; try by apply answered_on_same.
  - unfold handleFileRequest, conn_Send. case_match; apply on_wire_answered; intros w;
      [by apply Send_answered|apply HandleRequest_answered].
  - unfold handleCatalogOffer. destruct (catalog h) as [c|]; [|by apply answered_on_same].
    destruct (cx_PutPeerEntries c _ _) as [[[]| |] c']; [|by apply answered_on_same..].
    apply (on_wire_answered (notify (with_catalog h c'))). intros w. by apply Send_answered.
Qed.

End Exchange.

(** * Two ends *)

Section Link.
Context {CA CB : Type} `{CatalogExchanger CA} `{CatalogExchanger CB} (PeerA PeerB : nat → node_id).
Context (fsA fsB : FS) (idxA idxB : LocalIndex) (ctxA ctxB : nat → option error).
Context (kA kB : nat).

(** The two handlers, the connection being [kA] at one end and [kB] at the other, and
    the messages on their way to each. *)
Record Link := mk_Link {
  endA : Handler CA;
  endB : Handler CB;
  toA : list Envelope;
  toB : list Envelope
}.

(** The messages sent on the connection [k] between two states of a handler. *)
Definition sent_on {C} (k : nat) (h : Handler C) : list Envelope := from_option sent [] (wires h !! k).
Definition new_sent {C} (k : nat) (h h' : Handler C) : list Envelope :=
  drop (length (sent_on k h)) (sent_on k h').

(** A message is delivered; what the receiver sends on the connection is on its way
    back. *)
Inductive deliver_step : Link → Link → Prop :=
| deliver_A l env q :
    toA l = env :: q →
    let hA := serve_message PeerA fsA idxA ctxA (endA l) kA env in
    deliver_step l (mk_Link hA (endB l) q (toB l ++ new_sent kA (endA l) hA))
| deliver_B l env q :
    toB l = env :: q →
    let hB := serve_message PeerB fsB idxB ctxB (endB l) kB env in
    deliver_step l (mk_Link (endA l) hB (toA l ++ new_sent kB (endB l) hB) q).

Lemma answered_new {C} k (h h' : Handler C) : answered_on k h h' → replies (new_sent k h h').
Proof.
  intros [_ Hk]. unfold new_sent, sent_on. destruct (wires h !! k) as [w|]; simpl.
  - destruct Hk as (w' & -> & ms & Hs & Hms & _). simpl. by rewrite Hs, drop_app_length.
  - by rewrite Hk.
Qed.

(** The questions on their way, and all messages on their way. *)
Definition questions (l : Link) : nat := length (List.filter is_query (toA l ++ toB l)).
Definition in_flight (l : Link) : nat := length (toA l ++ toB l).

Lemma replies_no_questions ms : replies ms → List.filter is_query ms = [].
Proof. induction 1 as [|env ms Hq _ IH]; simpl; [done|]. by rewrite Hq. Qed.

Lemma new_sent_same {C} k (h : Handler C) : new_sent k h h = [].
Proof. unfold new_sent. apply drop_ge. lia. Qed.

(** A message without an answer changes nothing. *)
Lemma serve_message_silent {C} `{CatalogExchanger C} PeerID fs idx ctx (h : Handler C) k env :
  is_query env = false → serve_message PeerID fs idx ctx h k env = h.
Proof. unfold is_query, serve_message, dispatch. by destruct (Payload env) as [[]|]. Qed.

(** The messages [ms] that one end sends for [env]. *)
Lemma reply_cases {C} `{CatalogExchanger C} PeerID fs idx ctx (h : Handler C) k env :
  let ms := new_sent k h (serve_message PeerID fs idx ctx h k env) in
  List.filter is_query ms = [] ∧ (is_query env = false → ms = []).
Proof.
  split.
  - apply replies_no_questions, answered_new, serve_message_answered.
  - intros Hq. rewrite serve_message_silent by done. apply new_sent_same.
Qed.

(** A delivery uses up a question, or a message without adding one. *)
Lemma deliver_decreases l l' :
  deliver_step l l' →
  (questions l' < questions l ∨ questions l' = questions l ∧ in_flight l' < in_flight l)%nat.
Proof.
  intros Hst. destruct Hst as [l env q Hq hA|l env q Hq hB]; unfold questions, in_flight; cbn [toA toB];
    rewrite Hq.
  - destruct (reply_cases PeerA fsA idxA ctxA (endA l) kA env) as [Hr Hn]. fold hA in Hr, Hn.
    rewrite !List.filter_app, Hr, !length_app. simpl. destruct (is_query env); simpl; [left; lia|].
    right. rewrite Hn by done. simpl. lia.
  - destruct (reply_cases PeerB fsB idxB ctxB (endB l) kB env) as [Hr Hn]. fold hB in Hr, Hn.
    rewrite !List.filter_app, Hr, !length_app. simpl. destruct (is_query env); simpl; [left; lia|].
    right. rewrite Hn by done. simpl. lia.
Qed.

End Link.

(** * Properties *)

(** C15. An exchange comes to an end: whatever messages are on their way between two
    connected nodes and in whatever order the two ends take them, the deliveries
    with everything the nodes send in answer are finitely many. In particular a
    catalog offer never starts an endless exchange of offers. *)
Theorem exchange_terminates {CA CB : Type} `{CatalogExchanger CA} `{CatalogExchanger CB}
    (PeerA PeerB : nat → node_id) (fsA fsB : FS) (idxA idxB : LocalIndex)
    (ctxA ctxB : nat → option error) (kA kB : nat) (l : Link (CA := CA) (CB := CB)) :
  Acc (flip (deliver_step PeerA PeerB fsA fsB idxA idxB ctxA ctxB kA kB)) l.
Proof.
  remember (questions l) as n eqn:Hn. remember (in_flight l) as m eqn:Hm. revert m l Hn Hm.
  induction (lt_wf n) as [n _ IHn]. intros m. induction (lt_wf m) as [m _ IHm].
  intros l -> ->. constructor. intros l' Hst.
  destruct (deliver_decreases _ _ _ _ _ _ _ _ _ _ _ _ Hst) as [Hlt|[Heq Hlt]].
  - by apply (IHn (questions l')) with (m := in_flight l').
  - by apply (IHm (in_flight l')).
Qed.
