(* ===== verification/RelayServer.v ===== *)
(** The relay's signaling server, [internal/relay/server.go]: nodes register, and a
    connect request makes the server send each of the two nodes the other's
    address. A connection is a number and its [Conn] is part of the server's world,
    as in [Handler]; [entry.send] writes one framed message. *)

From stdpp Require Import pretty.
From S2P Require Import Prelude GoStd Wire Transfer TransferProps.

Record entry := mk_entry {
  e_nodeID : node_id;
  e_publicKey : bytes;
  e_externalAddr : bytes
}.

(** [registry] maps a node id to its connection; [entries] has the entry that was
    created on a connection. *)
Record Server := mk_Server {
  registry : gmap node_id nat;
  entries : gmap nat entry;
  wires : gmap nat Conn
}.

Definition NewServer (ws : gmap nat Conn) : Server :=
  {| registry := ∅; entries := ∅; wires := ws |}.

Definition with_registry (s : Server) (r : gmap node_id nat) : Server :=
  {| registry := r; entries := entries s; wires := wires s |}.

Definition send (s : Server) (k : nat) (env : Envelope) : outcome unit * Server :=
  match wires s !! k with
  | Some w =>
      let '(res, w') := Send w env in
      (res, {| registry := registry s; entries := entries s; wires := <[k := w']> (wires s) |})
  | None => (Err net_ErrClosed, s)
  end.

Definition relayError (reason : string) : Envelope :=
  envelope (Envelope_RelayError {| RelayError_Reason := str reason |}).

Definition deregister (s : Server) (nodeID : node_id) : Server :=
  with_registry s (delete nodeID (registry s)).

(** [fmt.Sprintf("%s:%d", extIP, reg.ListenPort)]. *)
Definition external_addr (extIP : bytes) (port : Z) : bytes :=
  extIP ++ str ":" ++ str (pretty port).

Definition registered (extAddr : bytes) : Envelope :=
  envelope (Envelope_RelayRegistered {| RelayRegistered_ExternalAddr := extAddr |}).

(** [Serve] up to the registration, when the first message is [env]; [None] when it
    returns without one. *)
Definition register_entry (s : Server) (k : nat) (extIP : bytes) (env : Envelope) : option (entry * Server) :=
  match GetRelayRegister env with
  | None => None
  | Some reg =>
      if negb (len (RelayRegister_NodeId reg) =? 32) || negb (len (RelayRegister_PublicKey reg) =? 32)
      then None
      else
        let nodeID := copy_arr 32 (RelayRegister_NodeId reg) in
        let extAddr := external_addr extIP (RelayRegister_ListenPort reg) in
        let e := {| e_nodeID := nodeID; e_publicKey := RelayRegister_PublicKey reg;
                    e_externalAddr := extAddr |} in
        Some (e, {| registry := <[nodeID := k]> (registry s); entries := <[k := e]> (entries s);
                    wires := wires s |})
  end.

(** The confirmation: whether the loop is entered. *)
Definition confirm (s : Server) (k : nat) (e : entry) : bool * Server :=
  match send s k (registered (e_externalAddr e)) with
  | (Ok _, s) => (true, s)
  | (_, s) => (false, deregister s (e_nodeID e))
  end.

(** [Serve] up to its loop. *)
Definition serve_register (s : Server) (k : nat) (extIP : bytes) (env : Envelope) : bool * Server :=
  match register_entry s k extIP env with
  | None => (false, s)
  | Some (e, s) => confirm s k e
  end.

Definition rendezvous (e : entry) : Envelope :=
  envelope (Envelope_RelayRendezvous {|
    RelayRendezvous_PeerNodeId := arr_bytes (e_nodeID e);
    RelayRendezvous_PeerPublicKey := e_publicKey e;
    RelayRendezvous_PeerExternalAddr := e_externalAddr e |}).

(** [requester] is the connection [k] with entry [e]. Errors of the replies are
    ignored. *)
Definition handleConnect (s : Server) (k : nat) (e : entry) (req : RelayConnect) : Server :=
  if negb (len (RelayConnect_TargetNodeId req) =? 32)
  then snd (send s k (relayError "invalid_request"))
  else
    let targetID := copy_arr 32 (RelayConnect_TargetNodeId req) in
    match registry s !! targetID with
    | None => snd (send s k (relayError "peer_not_registered"))
    | Some kt =>
        match entries s !! kt with
        | None => s   (* every registered connection has an entry *)
        | Some target =>
            match send s kt (rendezvous e) with
            | (Ok _, s) => snd (send s k (rendezvous target))
            | (_, s) => snd (send s k (relayError "peer_unreachable"))
            end
        end
    end.

(** One message of the loop of the connection [k]. *)
Definition serve_message (s : Server) (k : nat) (env : Envelope) : Server :=
  match entries s !! k with
  | None => s
  | Some e =>
      match Payload env with
      | Some (Envelope_RelayConnect req) => handleConnect s k e req
      | _ => s
      end
  end.

(** The end of the loop. *)
Definition serve_end (s : Server) (k : nat) : Server :=
  match entries s !! k with
  | None => s
  | Some e => deregister s (e_nodeID e)
  end.

(** [Serve] of one connection on its own: the first message, then the rest until
    the connection fails. *)
Definition Serve (s : Server) (k : nat) (extIP : bytes) (ms : list (Envelope + error)) : Server :=
  match ms with
  | inl env :: ms' =>
      match serve_register s k extIP env with
      | (false, s) => s
      | (true, s) =>
          let fix loop (s : Server) (ms : list (Envelope + error)) : Server :=
            match ms with
            | inl env :: ms' => loop (serve_message s k env) ms'
            | _ => s
            end in
          serve_end (loop s ms') k
      end
  | _ => s
  end.

(** * Runs with several connections *)

Section Runs.

(** The server with the connections that have registered and whose [Serve] has not
    deregistered them ([r_open]), and those among them that are not confirmed yet
    ([r_new]). *)
Record rstate := mk_rstate { r_server : Server; r_open : gset nat; r_new : gset nat }.

(** One critical section or one write of a goroutine. A node registers on a new
    connection when it has none open. *)
Inductive rstep : rstate → rstate → Prop :=
| rstep_refused s act new k extIP env :
    register_entry s k extIP env = None → rstep (mk_rstate s act new) (mk_rstate s act new)
| rstep_register s act new k extIP env e s' :
    k ∉ act → (∀ j e', j ∈ act → entries s !! j = Some e' → e_nodeID e' ≠ e_nodeID e) →
    register_entry s k extIP env = Some (e, s') →
    rstep (mk_rstate s act new) (mk_rstate s' ({[k]} ∪ act) ({[k]} ∪ new))
| rstep_confirmed s act new k e s' :
    k ∈ new → entries s !! k = Some e → confirm s k e = (true, s') →
    rstep (mk_rstate s act new) (mk_rstate s' act (new ∖ {[k]}))
| rstep_unconfirmed s act new k e s' :
    k ∈ new → entries s !! k = Some e → confirm s k e = (false, s') →
    rstep (mk_rstate s act new) (mk_rstate s' (act ∖ {[k]}) (new ∖ {[k]}))
| rstep_message s act new k env :
    k ∈ act → k ∉ new → rstep (mk_rstate s act new) (mk_rstate (serve_message s k env) act new)
| rstep_end s act new k :
    k ∈ act → k ∉ new → rstep (mk_rstate s act new) (mk_rstate (serve_end s k) (act ∖ {[k]}) new).

(** The registry has exactly the open connections, under the ids they registered. *)
Definition reg_ok (st : rstate) : Prop :=
  (∀ k, k ∈ r_open st → is_Some (entries (r_server st) !! k)) ∧ r_new st ⊆ r_open st ∧
  ∀ n k, registry (r_server st) !! n = Some k ↔
    k ∈ r_open st ∧ e_nodeID <$> entries (r_server st) !! k = Some n.

Lemma send_state s k env :
  registry (snd (send s k env)) = registry s ∧ entries (snd (send s k env)) = entries s.
Proof. unfold send. destruct (wires s !! k); [|done]. by destruct (Send _ _). Qed.

Lemma handleConnect_state s k e req :
  registry (handleConnect s k e req) = registry s ∧ entries (handleConnect s k e req) = entries s.
Proof.
  unfold handleConnect. case_match; [apply send_state|].
  destruct (registry s !! _) as [kt|]; [|apply send_state]. destruct (entries s !! kt) as [t|]; [|done].
  pose proof (send_state s kt (rendezvous e)) as [Hr He].
  destruct (send s kt (rendezvous e)) as [[]  s1]; simpl in *; rewrite <- Hr, <- He; apply send_state.
Qed.

Lemma serve_message_state s k env :
  registry (serve_message s k env) = registry s ∧ entries (serve_message s k env) = entries s.
Proof.
  unfold serve_message. destruct (entries s !! k); [|done].
  destruct (Payload env) as [[]|]; try done. apply handleConnect_state.
Qed.

Lemma register_entry_state s k extIP env e s' :
  register_entry s k extIP env = Some (e, s') →
  ∃ reg, GetRelayRegister env = Some reg ∧ e_nodeID e = copy_arr 32 (RelayRegister_NodeId reg) ∧
    registry s' = <[e_nodeID e := k]> (registry s) ∧ entries s' = <[k := e]> (entries s).
Proof.
  unfold register_entry. destruct (GetRelayRegister env) as [reg|]; [|done]. case_match; [done|].
  intros [= <- <-]. by exists reg.
Qed.

Lemma confirm_state s k e b s' :
  confirm s k e = (b, s') →
  entries s' = entries s ∧ registry s' = if b then registry s else delete (e_nodeID e) (registry s).
Proof.
  unfold confirm. pose proof (send_state s k (registered (e_externalAddr e))) as [Hr He].
  destruct (send s k _) as [[] s1]; intros [= <- <-]; simpl in *; by rewrite ?Hr, He.
Qed.

Lemma serve_register_state s k extIP env s' :
  serve_register s k extIP env = (true, s') →
  ∃ e reg, GetRelayRegister env = Some reg ∧ e_nodeID e = copy_arr 32 (RelayRegister_NodeId reg) ∧
    registry s' = <[e_nodeID e := k]> (registry s) ∧ entries s' = <[k := e]> (entries s).
Proof.
  unfold serve_register. destruct (register_entry s k extIP env) as [[e s1]|] eqn:E; [|done].
  apply register_entry_state in E as (reg & ? & ? & Hr & He). intros [He' Hr']%confirm_state.
  exists e, reg. by rewrite Hr', He'.
Qed.

(** A connection that is taken out of the registry, and out of the open ones. *)
Lemma deregister_ok s act new new' k e s' :
  reg_ok (mk_rstate s act new) → k ∈ act → entries s !! k = Some e → new' ⊆ new ∖ {[k]} →
  entries s' = entries s → registry s' = delete (e_nodeID e) (registry s) →
  reg_ok (mk_rstate s' (act ∖ {[k]}) new').
Proof.
  intros (Hent & Hnew & Hok) Hk He Hn' Hes Hrs. simpl in *. split_and!; simpl.
  - intros j Hj. rewrite Hes. apply Hent. set_solver.
  - set_solver.
  - intros n j. rewrite Hrs, Hes, lookup_delete. case_decide as Hn.
    + split; [done|]. intros [Hj Hej]. exfalso.
      assert (registry s !! n = Some j) as H1 by (apply Hok; set_solver).
      assert (registry s !! n = Some k) as H2 by (apply Hok; rewrite He; simpl; split; congruence).
      rewrite H1 in H2. set_solver.
    + rewrite Hok. split; [|set_solver]. intros [Hj Hej]. split; [|done].
      apply elem_of_difference. split; [done|]. intros ->%elem_of_singleton. rewrite He in Hej. naive_solver.
Qed.

Lemma reg_step st st' : reg_ok st → rstep st st' → reg_ok st'.
Proof.
  intros HI Hstep. pose proof HI as (Hent & Hnew & Hok).
  destruct Hstep as [s act new k extIP env _|s act new k extIP env e s' Hk Hone Hreg|s act new k e s' Hk He Hc
    |s act new k e s' Hk He Hc|s act new k env _ _|s act new k Hk Hkn]; simpl in *; [done|..].
  - apply register_entry_state in Hreg as (reg & _ & _ & Hregs & Hes). split_and!; simpl; [|set_solver|].
    { intros j Hj. rewrite Hes, lookup_insert. case_decide; [done|]. apply Hent. set_solver. }
    intros n j. rewrite Hregs, Hes, !lookup_insert. destruct (decide (k = j)) as [->|Hkj]; simpl.
    + case_decide as Hn; [subst; set_solver|]. rewrite Hok. split; [tauto|]. intros [_ [= ?]]. done.
    + case_decide as Hn.
      * split; [congruence|]. intros [Hj He]. exfalso.
        destruct (entries s !! j) as [e'|] eqn:Ej; simpl in He; [|done]. injection He as He.
        apply (Hone j e'); [set_solver|done|congruence].
      * rewrite Hok. set_solver.
  - apply confirm_state in Hc as [Hes Hrs]. split_and!; simpl; [by rewrite Hes|set_solver|]. intros n j. by rewrite Hrs, Hes.
  - apply confirm_state in Hc as [Hes Hrs]. by apply (deregister_ok s act new _ k e); [|apply Hnew|..].
  - destruct (serve_message_state s k env) as [Hr He]. split_and!; simpl; [by rewrite He|done|]. intros n j. by rewrite Hr, He.
  - unfold serve_end. destruct (Hent k Hk) as [e He]. rewrite He. apply (deregister_ok s act new new k e); [done..| |done|done].
    set_solver.
Qed.

Lemma reg_run st st' : reg_ok st → rtc rstep st st' → reg_ok st'.
Proof. intros Hok Hr. induction Hr; eauto using reg_step. Qed.

(** A registration that is confirmed at once. *)
Lemma serve_register_steps s act new k extIP env s' :
  k ∉ act → (∀ j e reg, j ∈ act → entries s !! j = Some e → GetRelayRegister env = Some reg →
               e_nodeID e ≠ copy_arr 32 (RelayRegister_NodeId reg)) →
  serve_register s k extIP env = (true, s') →
  rtc rstep (mk_rstate s act new) (mk_rstate s' ({[k]} ∪ act) (({[k]} ∪ new) ∖ {[k]})).
Proof.
  intros Hk Hone. unfold serve_register. destruct (register_entry s k extIP env) as [[e s1]|] eqn:E; [|done].
  pose proof (register_entry_state _ _ _ _ _ _ E) as (reg & Hreg & Hn & _ & Hes). intros Hc.
  eapply rtc_l; [eapply rstep_register; [done| |exact E]|].
  { intros j e' Hj He'. rewrite Hn. by apply (Hone j e' reg). }
  apply rtc_once. apply (rstep_confirmed s1 _ _ k e); [set_solver|by rewrite Hes, lookup_insert_eq|done].
Qed.

Lemma reg_ok_start ws : reg_ok (mk_rstate (NewServer ws) ∅ ∅).
Proof. split_and!; simpl; [set_solver|done|]. intros n k. rewrite lookup_empty. set_solver. Qed.

End Runs.

Lemma send_deliver s k w env :
  wires s !! k = Some w → send_fault w (length (sent w)) = None →
  send s k env = (Ok tt, {| registry := registry s; entries := entries s;
                            wires := <[k := deliver w [env]]> (wires s) |}).
Proof. intros Hw Hf. unfold send, Send. by rewrite Hw, Hf. Qed.

Lemma send_fails s k w env e :
  wires s !! k = Some w → send_fault w (length (sent w)) = Some e →
  send s k env = (Err e, s).
Proof.
  intros Hw Hf. unfold send, Send. rewrite Hw, Hf. f_equal.
  destruct s; simpl in *. by rewrite insert_id.
Qed.

(** * Properties *)

(** C28. The registry is exact while every node has at most one connection: in every
    interleaving of registrations, confirmations that succeed or fail, messages and ends,
    a node id is registered, to a given connection, if and only if that connection has
    registered under that id and is still being served. *)
Theorem registry_exact (ws : gmap nat Conn) (s : Server) (act new : gset nat) :
  rtc rstep (mk_rstate (NewServer ws) ∅ ∅) (mk_rstate s act new) →
  ∀ n k, registry s !! n = Some k ↔
         k ∈ act ∧ ∃ e, entries s !! k = Some e ∧ e_nodeID e = n.
Proof.
  intros Hr n k. destruct (reg_run _ _ (reg_ok_start ws) Hr) as (_ & _ & Hok).
  rewrite Hok. simpl. rewrite fmap_Some. naive_solver.
Qed.

(** A connect request on a running server: the target gets the requester's id,
    key and address and the requester gets the target's; a target that is not
    registered, an id of the wrong length and a target that cannot be written to
    give the requester the matching error and nobody else anything. *)
Theorem connect_rendezvous (ws : gmap nat Conn) (s : Server) (act new : gset nat) (k : nat) (e : entry)
    (wk : Conn) (req : RelayConnect) :
  rtc rstep (mk_rstate (NewServer ws) ∅ ∅) (mk_rstate s act new) → k ∈ act → entries s !! k = Some e →
  wires s !! k = Some wk → (∀ n, send_fault wk n = None) →
  (∀ j, j ∈ act → is_Some (wires s !! j)) →
  let s' := serve_message s k (envelope (Envelope_RelayConnect req)) in
  let reply env := wires s' = <[k := deliver wk [env]]> (wires s) in
  if negb (len (RelayConnect_TargetNodeId req) =? 32) then reply (relayError "invalid_request")
  else
    let n := copy_arr 32 (RelayConnect_TargetNodeId req) in
    match registry s !! n with
    | None => reply (relayError "peer_not_registered")
    | Some kt =>
        ∃ t wt, entries s !! kt = Some t ∧ e_nodeID t = n ∧ wires s !! kt = Some wt ∧
          (kt ≠ k →
           match send_fault wt (length (sent wt)) with
           | Some _ => reply (relayError "peer_unreachable")
           | None => wires s' = <[k := deliver wk [rendezvous t]]>
                                  (<[kt := deliver wt [rendezvous e]]> (wires s))
           end)
    end.
Proof.
  intros Hr Hk He Hw Hs Hall s' reply.
  destruct (reg_run _ _ (reg_ok_start ws) Hr) as (Hent & _ & Hok).
  unfold reply, s', serve_message. rewrite He. simpl. unfold handleConnect.
  destruct (negb _); [by rewrite (send_deliver s k wk)|].
  destruct (registry s !! copy_arr 32 _) as [kt|] eqn:Hreg; [|by rewrite (send_deliver s k wk)].
  apply Hok in Hreg as [Hkt Hn]. simpl in *.
  destruct (Hall kt Hkt) as [wt Hwt]. destruct (entries s !! kt) as [t|]; [|done].
  injection Hn as Hn. exists t, wt. split_and!; [done..|]. intros Hne.
  destruct (send_fault wt (length (sent wt))) as [err|] eqn:Hf.
  - rewrite (send_fails s kt wt _ err) by done. by rewrite (send_deliver s k wk).
  - rewrite (send_deliver s kt wt) by done. rewrite (send_deliver _ k wk); [done| |done].
    simpl. by rewrite lookup_insert_ne.
Qed.

(** Registration does not check that the node id belongs to the public key, and
    a closing connection removes the id whoever holds it: a second connection that
    registers under the id of a connected node takes its place, and when it closes
    the node is unknown to the relay although it is still connected. *)
Theorem register_displaces (s s' : Server) (k1 k2 : nat) (e1 : entry) (extIP : bytes)
    (env : Envelope) (reg : RelayRegister) :
  k1 ≠ k2 → entries s !! k1 = Some e1 → registry s !! e_nodeID e1 = Some k1 →
  GetRelayRegister env = Some reg → RelayRegister_NodeId reg = arr_bytes (e_nodeID e1) →
  serve_register s k2 extIP env = (true, s') →
  registry s' !! e_nodeID e1 = Some k2 ∧ entries s' !! k1 = Some e1 ∧
  registry (serve_end s' k2) !! e_nodeID e1 = None ∧
  registry (serve_end s' k1) !! e_nodeID e1 = None.
Proof.
  intros Hne He1 _ Hreg Hid E. apply serve_register_state in E as (e2 & reg' & Hreg' & Hn & Hr & Hes).
  rewrite Hreg in Hreg'. injection Hreg' as <-. rewrite Hid, copy_arr_id in Hn. rewrite Hn in Hr.
  assert (entries s' !! k1 = Some e1) as He1' by (by rewrite Hes, lookup_insert_ne by done).
  unfold serve_end. rewrite He1', Hes, lookup_insert_eq, Hn. simpl.
  split_and!; [by rewrite Hr, lookup_insert_eq|done|by rewrite lookup_delete_eq..].
Qed.

(** * Witnesses *)

Module RelayWitness.

Definition alice : node_id := copy_arr 32 (str "alice").
Definition bob : node_id := copy_arr 32 (str "bob").
Definition key (c : byte) : bytes := replicate 32 c.
Definition register (n : node_id) (c : byte) (port : Z) : Envelope :=
  envelope (Envelope_RelayRegister (Build_RelayRegister (arr_bytes n) (key c) port)).

Definition ws : gmap nat Conn := {[ 1%nat := fresh_conn []; 2%nat := fresh_conn [] ]}.
Definition s1 : Server := snd (serve_register (NewServer ws) 1 (str "1.2.3.4") (register alice Byte.x41 7000)).
Definition s2 : Server := snd (serve_register s1 2 (str "5.6.7.8") (register bob Byte.x42 7001)).

Definition new2 : gset nat := ({[2%nat]} ∪ ({[1%nat]} ∪ ∅) ∖ {[1%nat]}) ∖ {[2%nat]}.

Lemma run2 : rtc rstep (mk_rstate (NewServer ws) ∅ ∅) (mk_rstate s2 ({[2%nat]} ∪ ({[1%nat]} ∪ ∅)) new2).
Proof.
  etrans; [apply (serve_register_steps _ ∅ ∅ 1 (str "1.2.3.4") (register alice Byte.x41 7000) s1); [set_solver|set_solver|]|].
  { unfold s1. apply pair_fst. by vm_compute. }
  apply (serve_register_steps _ _ _ 2 (str "5.6.7.8") (register bob Byte.x42 7001)); [set_solver| |].
  - intros j e' reg Hj He Hreg. assert (j = 1%nat) as -> by set_solver.
    injection Hreg as <-. assert (e_nodeID e' = alice) as ->.
    { assert (e_nodeID <$> entries s1 !! 1%nat = Some alice) as Ha by (by vm_compute).
      rewrite He in Ha. by injection Ha. }
    intros Heq. apply (f_equal arr_bytes) in Heq. by vm_compute in Heq.
  - unfold s2. apply pair_fst. by vm_compute.
Qed.

Lemma registry_exact_witness :
  registry s2 !! bob = Some 2%nat ↔
  2%nat ∈ ({[2%nat]} ∪ ({[1%nat]} ∪ ∅) : gset nat) ∧ ∃ e, entries s2 !! 2%nat = Some e ∧ e_nodeID e = bob.
Proof. apply (registry_exact ws s2 _ new2 run2). Defined.

Definition eb : entry := mk_entry bob (key Byte.x42) (str "5.6.7.8:7001").
Definition wb : Conn := default (fresh_conn []) (wires s2 !! 2%nat).
Definition req : RelayConnect := Build_RelayConnect (arr_bytes alice).

Lemma wb_wire : wires s2 !! 2%nat = Some wb ∧ ∀ n, send_fault wb n = None.
Proof. split; [by vm_compute|]. intros n. by vm_compute. Qed.

Lemma s2_wires j : j ∈ ({[2%nat]} ∪ ({[1%nat]} ∪ ∅) : gset nat) → is_Some (wires s2 !! j).
Proof.
  rewrite !elem_of_union, !elem_of_singleton. intros [->|[->|?]]; [by vm_compute; eexists..|set_solver].
Qed.

Lemma connect_rendezvous_witness :
  let s' := serve_message s2 2 (envelope (Envelope_RelayConnect req)) in
  let reply env := wires s' = <[2%nat := deliver wb [env]]> (wires s2) in
  if negb (len (RelayConnect_TargetNodeId req) =? 32) then reply (relayError "invalid_request")
  else
    let n := copy_arr 32 (RelayConnect_TargetNodeId req) in
    match registry s2 !! n with
    | None => reply (relayError "peer_not_registered")
    | Some kt =>
        ∃ t wt, entries s2 !! kt = Some t ∧ e_nodeID t = n ∧ wires s2 !! kt = Some wt ∧
          (kt ≠ 2%nat →
           match send_fault wt (length (sent wt)) with
           | Some _ => reply (relayError "peer_unreachable")
           | None => wires s' = <[2%nat := deliver wb [rendezvous t]]>
                                  (<[kt := deliver wt [rendezvous eb]]> (wires s2))
           end)
    end.
Proof.
  apply (connect_rendezvous ws s2 _ new2 2 eb wb req run2);
    [set_solver|by vm_compute|apply wb_wire|apply wb_wire|apply s2_wires].
Defined.

Definition ea : entry := mk_entry alice (key Byte.x41) (str "1.2.3.4:7000").
Definition evil : Envelope := register alice Byte.x45 9.
Definition s3 : Server := snd (serve_register s1 2 (str "6.6.6.6") evil).

Lemma register_displaces_witness :
  registry s3 !! alice = Some 2%nat ∧ entries s3 !! 1%nat = Some ea ∧
  registry (serve_end s3 2) !! alice = None ∧ registry (serve_end s3 1) !! alice = None.
Proof.
  apply (register_displaces s1 s3 1 2 ea (str "6.6.6.6") evil
           (Build_RelayRegister (arr_bytes alice) (key Byte.x45) 9));
    [done|by vm_compute|by vm_compute|done|done|]. unfold s3. apply pair_fst. by vm_compute.
Defined.

End RelayWitness.
