(* ===== verification/RelayClient.v ===== *)
(** The relay client, [internal/relay/client.go]: waiters for a rendezvous, the read
    loop that routes messages to them, and teardown. Channels are numbered; sending
    on a closed channel and closing a channel twice panic. An operation
    below is one critical section of the client's mutex or one write on its connection;
    [request_begin] is three of them in sequence. *)

From S2P Require Import Prelude GoStd Wire Transfer TransferProps.

Record RendezvousInfo := mk_RendezvousInfo {
  RI_PeerNodeID : node_id;
  RI_PeerPublicKey : bytes;
  RI_PeerExternalAddr : bytes
}.

Definition ErrRelayDisconnected : error := Sentinel "relay: connection lost".

(** A channel of capacity one for a waiter. *)
Record chan := mk_chan { buffer : option RelayRendezvous; chan_closed : bool }.

Definition new_chan : chan := {| buffer := None; chan_closed := false |}.

(** [pending] maps a node to the channel of its waiter; [incoming] is a channel of
    capacity 16; [wire] is the connection to the relay and [conn_closed] whether
    [conn.Close] was called on it. *)
Record Client := mk_Client {
  pending : gmap node_id nat;
  chans : gmap nat chan;
  incoming : list RendezvousInfo;
  incoming_closed : bool;
  closed : bool;
  wire : Conn;
  conn_closed : bool
}.

Definition with_pending (c : Client) (p : gmap node_id nat) : Client :=
  {| pending := p; chans := chans c; incoming := incoming c; incoming_closed := incoming_closed c;
     closed := closed c; wire := wire c; conn_closed := conn_closed c |}.
Definition with_chan (c : Client) (n : nat) (ch : chan) : Client :=
  {| pending := pending c; chans := <[n := ch]> (chans c); incoming := incoming c;
     incoming_closed := incoming_closed c; closed := closed c; wire := wire c;
     conn_closed := conn_closed c |}.
Definition with_incoming (c : Client) (l : list RendezvousInfo) (cl : bool) : Client :=
  {| pending := pending c; chans := chans c; incoming := l; incoming_closed := cl;
     closed := closed c; wire := wire c; conn_closed := conn_closed c |}.
Definition with_closed (c : Client) : Client :=
  {| pending := pending c; chans := chans c; incoming := incoming c;
     incoming_closed := incoming_closed c; closed := true; wire := wire c;
     conn_closed := conn_closed c |}.
Definition with_wire (c : Client) (w : Conn) : Client :=
  {| pending := pending c; chans := chans c; incoming := incoming c;
     incoming_closed := incoming_closed c; closed := closed c; wire := w;
     conn_closed := conn_closed c |}.
Definition with_conn_closed (c : Client) : Client :=
  {| pending := pending c; chans := chans c; incoming := incoming c;
     incoming_closed := incoming_closed c; closed := closed c; wire := wire c;
     conn_closed := true |}.

(** What [Connect] builds once the relay has confirmed the registration. *)
Definition new_client (w : Conn) : Client :=
  {| pending := ∅; chans := ∅; incoming := []; incoming_closed := false; closed := false;
     wire := w; conn_closed := false |}.

Definition relay_register (nodeID : node_id) (pubKey : bytes) (listenPort : Z) : Envelope :=
  envelope (Envelope_RelayRegister {|
    RelayRegister_NodeId := arr_bytes nodeID; RelayRegister_PublicKey := pubKey;
    RelayRegister_ListenPort := listenPort |}).

(** [Connect] with the result of the TLS dial: the client and its external address. *)
Definition Connect (dialed : outcome Conn) (nodeID : node_id) (pubKey : bytes) (listenPort : Z) :
    outcome (Client * bytes) :=
  rawConn ← wrap "relay connect: %w" dialed;
  let '(res, rawConn) := Send rawConn (relay_register nodeID pubKey listenPort) in
  _ ← wrap "relay register: %w" res;
  let '(res, rawConn) := Recv rawConn in
  env ← wrap "relay register response: %w" res;
  match GetRelayRegistered env with
  | None => Err (Errorf "relay: expected RelayRegistered, got %T" [])
  | Some reg => Ok (new_client rawConn, RelayRegistered_ExternalAddr reg)
  end.

(** [close(ch)]. *)
Definition close_chan (c : Client) (n : nat) : outcome Client :=
  match chans c !! n with
  | Some ch => if chan_closed ch then Panic
               else Ok (with_chan c n {| buffer := buffer ch; chan_closed := true |})
  | None => Panic
  end.

(** [select { case ch <- rv: default: }]. *)
Definition try_send (c : Client) (n : nat) (rv : RelayRendezvous) : outcome Client :=
  match chans c !! n with
  | Some ch =>
      if chan_closed ch then Panic
      else match buffer ch with
           | None => Ok (with_chan c n {| buffer := Some rv; chan_closed := false |})
           | Some _ => Ok c
           end
  | None => Ok c
  end.

Definition rendezvousFromProto (rv : RelayRendezvous) : RendezvousInfo :=
  {| RI_PeerNodeID := copy_arr 32 (RelayRendezvous_PeerNodeId rv);
     RI_PeerPublicKey := RelayRendezvous_PeerPublicKey rv;
     RI_PeerExternalAddr := RelayRendezvous_PeerExternalAddr rv |}.

(** The loop over [c.pending], in any order. *)
Fixpoint close_waiters (c : Client) (ws : list (node_id * nat)) : outcome Client :=
  match ws with
  | [] => Ok c
  | (k, n) :: ws' =>
      c ← close_chan c n;
      close_waiters (with_pending c (delete k (pending c))) ws'
  end.

Definition closeLocked (c : Client) : outcome (bool * Client) :=
  if closed c then Ok (false, c)
  else
    let c := with_closed c in
    c ← close_waiters c (map_to_list (pending c));
    if incoming_closed c then Panic
    else Ok (true, with_incoming c (incoming c) true).

Definition closeAllPending (c : Client) : outcome Client :=
  r ← closeLocked c; Ok (snd r).

Definition dispatchError (c : Client) (re : RelayError) : outcome Client := closeAllPending c.

Definition dispatchRendezvous (c : Client) (rv : RelayRendezvous) : outcome Client :=
  if negb (len (RelayRendezvous_PeerNodeId rv) =? 32) then Ok c
  else
    let peerID := copy_arr 32 (RelayRendezvous_PeerNodeId rv) in
    match pending c !! peerID with
    | Some n => try_send c n rv
    | None =>
        if closed c then Ok c
        else if incoming_closed c then Panic
        else if len (incoming c) <? 16
        then Ok (with_incoming c (incoming c ++ [rendezvousFromProto rv]) (incoming_closed c))
        else Ok c
    end.

(** One iteration of [readLoop]; an error ends the loop. *)
Definition readLoop_step (c : Client) (m : Envelope + error) : outcome Client :=
  match m with
  | inr _ => closeAllPending c
  | inl env =>
      match Payload env with
      | Some (Envelope_RelayRendezvous rv) => dispatchRendezvous c rv
      | Some (Envelope_RelayError re) => dispatchError c re
      | _ => Ok c
      end
  end.

Definition Close (c : Client) : outcome Client :=
  r ← closeLocked c;
  let '(did, c) := r in
  Ok (if (did : bool) then with_conn_closed c else c).

Definition relay_connect (target : node_id) : Envelope :=
  envelope (Envelope_RelayConnect {| RelayConnect_TargetNodeId := arr_bytes target |}).

(** The first critical section of [RequestRendezvous], with [n] the new channel. *)
Definition request_register (c : Client) (target : node_id) (n : nat) : outcome unit * Client :=
  if closed c then (Err ErrRelayDisconnected, c)
  else (Ok tt, with_pending (with_chan c n new_chan) (<[target := n]> (pending c))).

(** The request is written without the lock. *)
Definition request_write (c : Client) (target : node_id) : outcome unit * Client :=
  let '(res, w) := Send (wire c) (relay_connect target) in
  (wrap "relay connect request: %w" res, with_wire c w).

(** The deferred delete. *)
Definition request_leave (c : Client) (target : node_id) : Client :=
  with_pending c (delete target (pending c)).

(** [RequestRendezvous] up to its [select], when nothing comes in between: [Err] when it
    returns at once. *)
Definition request_begin (c : Client) (target : node_id) (n : nat) : outcome unit * Client :=
  match request_register c target n with
  | (Ok _, c) =>
      match request_write c target with
      | (Err e, c) => (Err e, request_leave c target)
      | r => r
      end
  | r => r
  end.

(** What the [select] can do: [cancelled] is the error of a context that is done;
    [None] while it blocks. *)
Definition wait_result (c : Client) (n : nat) (cancelled : option error) :
    option (outcome RelayRendezvous) :=
  match cancelled with
  | Some e => Some (Err e)
  | None =>
      match chans c !! n with
      | Some ch =>
          match buffer ch with
          | Some rv => Some (Ok rv)
          | None => if chan_closed ch then Some (Err ErrRelayDisconnected) else None
          end
      | None => None
      end
  end.

(** The end of [RequestRendezvous], with its deferred delete. *)
Definition request_end (c : Client) (target : node_id) (n : nat) (cancelled : option error) :
    option (outcome RendezvousInfo * Client) :=
  res ← wait_result c n cancelled;
  let c := with_pending c (delete target (pending c)) in
  Some (rv ← res;
        if negb (len (RelayRendezvous_PeerNodeId rv) =? 32)
        then Err (Errorf "relay: invalid rendezvous peer_node_id length" [])
        else Ok (rendezvousFromProto rv), c).

(** [WaitForRendezvous]: [false] when the returned channel is already closed. *)
Definition wait_begin (c : Client) (from : node_id) (n : nat) : bool * Client :=
  if closed c then (false, c)
  else (true, with_pending (with_chan c n new_chan) (<[from := n]> (pending c))).

(** The end of its goroutine: the value delivered, if any. *)
Definition wait_end (c : Client) (from : node_id) (n : nat) (cancelled : option error) :
    option (option RendezvousInfo * Client) :=
  res ← wait_result c n cancelled;
  let c := with_pending c (delete from (pending c)) in
  Some (match res with Ok rv => Some (rendezvousFromProto rv) | _ => None end, c).

(** A receive from [Incoming()]. *)
Definition take_incoming (c : Client) : option RendezvousInfo * Client :=
  match incoming c with
  | [] => (None, c)
  | x :: l => (Some x, with_incoming c l (incoming_closed c))
  end.

(** * Runs *)

(** A new channel is one that does not exist yet. *)
Inductive cstep : Client → Client → Prop :=
| c_register c target n : chans c !! n = None → cstep c (snd (request_register c target n))
| c_write c target : cstep c (snd (request_write c target))
| c_leave c target : cstep c (request_leave c target)
| c_request_end c target n x r c' : request_end c target n x = Some (r, c') → cstep c c'
| c_wait c from n : chans c !! n = None → cstep c (snd (wait_begin c from n))
| c_wait_end c from n x r c' : wait_end c from n x = Some (r, c') → cstep c c'
| c_read c m c' : readLoop_step c m = Ok c' → cstep c c'
| c_take c : cstep c (snd (take_incoming c))
| c_close c c' : Close c = Ok c' → cstep c c'.

(** Waiting channels are open and distinct, and after teardown there are none. *)
Record Inv (c : Client) : Prop := {
  inv_open p n : pending c !! p = Some n → ∃ ch, chans c !! n = Some ch ∧ chan_closed ch = false;
  inv_inj p q n : pending c !! p = Some n → pending c !! q = Some n → p = q;
  inv_incoming : incoming_closed c = closed c;
  inv_closed : closed c = true → pending c = ∅;
  inv_room : len (incoming c) ≤ 16
}.

Lemma close_waiters_Ok ws c :
  NoDup ws.*2 → (∀ k n, (k, n) ∈ ws → ∃ ch, chans c !! n = Some ch ∧ chan_closed ch = false) →
  ∃ c', close_waiters c ws = Ok c' ∧
    (∀ k, pending c' !! k = if decide (k ∈ ws.*1) then None else pending c !! k) ∧
    (∀ n, chans c' !! n = if decide (n ∈ ws.*2)
                          then (λ ch, mk_chan (buffer ch) true) <$> chans c !! n else chans c !! n) ∧
    incoming c' = incoming c ∧ incoming_closed c' = incoming_closed c ∧ closed c' = closed c ∧
    wire c' = wire c ∧ conn_closed c' = conn_closed c.
Proof.
  revert c. induction ws as [|[k n] ws IH]; intros c Hnd Hopen; simpl.
  { exists c. split_and!; try done; intros j; (rewrite decide_False; [done|set_solver]). }
  apply NoDup_cons in Hnd as [Hn Hnd]. destruct (Hopen k n) as (ch & Hch & Hcl); [by left|].
  unfold close_chan. rewrite Hch, Hcl. simpl.
  set (c1 := with_pending _ _).
  destruct (IH c1) as (c' & E & Hp & Hc & Hrest); [done| |].
  { intros k' n' Hin. destruct (Hopen k' n') as (ch' & ? & ?); [by right|].
    exists ch'. split; [|done]. simpl. rewrite lookup_insert_ne; [done|].
    intros ->. apply Hn. apply list_elem_of_fmap. by exists (k', n'). }
  exists c'. split; [done|]. split; [|split; [|exact Hrest]].
  - intros j. rewrite Hp. simpl. rewrite lookup_delete. repeat case_decide; set_solver.
  - intros j. rewrite Hc. simpl. rewrite lookup_insert.
    destruct (decide (n = j)) as [<-|Hne].
    + rewrite decide_False by done. rewrite decide_True by set_solver. by rewrite Hch.
    + repeat case_decide; set_solver.
Qed.

(** Teardown in a good state. *)
Lemma closeLocked_Ok c :
  Inv c → ∃ b c', closeLocked c = Ok (b, c') ∧ Inv c' ∧ closed c' = true ∧ b = negb (closed c) ∧
    wire c' = wire c ∧ conn_closed c' = conn_closed c ∧
    (∀ p n ch, pending c !! p = Some n → chans c !! n = Some ch →
       chans c' !! n = Some (mk_chan (buffer ch) true)).
Proof.
  intros HI. pose proof HI as [Hopen Hinj Hinc Hcl Hroom]. unfold closeLocked. destruct (closed c) eqn:Hc.
  { exists false, c. split_and!; try done. intros p n ch Hp. by rewrite Hcl, lookup_empty in Hp. }
  destruct (close_waiters_Ok (map_to_list (pending c)) (with_closed c))
    as (c' & E & Hp & Hch & Hi & Hic & Hclo & Hw & Hcc).
  { apply NoDup_fmap_2_strong; [|apply NoDup_map_to_list].
    intros [p n] [q m] Hp%elem_of_map_to_list Hq%elem_of_map_to_list. simpl. intros <-.
    by rewrite (Hinj p q n). }
  { intros p n Hp%elem_of_map_to_list. by apply (Hopen p). }
  simpl in *. rewrite E. simpl. rewrite Hic, Hinc. do 2 eexists. split; [done|].
  assert (pending c' = ∅) as Hempty.
  { apply map_eq. intros k. rewrite Hp, lookup_empty. case_decide as Hk; [done|].
    destruct (pending c !! k) as [n|] eqn:Ek; [|done]. destruct Hk. apply list_elem_of_fmap.
    exists (k, n). split; [done|]. by apply elem_of_map_to_list. }
  split_and!; simpl; try done.
  - split; simpl; rewrite ?Hempty; try done. by rewrite Hi.
  - intros p n ch Hpn Hn. rewrite Hch, decide_True, Hn; [done|]. apply list_elem_of_fmap.
    exists (p, n). split; [done|]. by apply elem_of_map_to_list.
Qed.

Lemma closeAllPending_Ok c :
  Inv c → ∃ c', closeAllPending c = Ok c' ∧ Inv c' ∧ closed c' = true ∧
    wire c' = wire c ∧ conn_closed c' = conn_closed c ∧
    (∀ p n ch, pending c !! p = Some n → chans c !! n = Some ch →
       chans c' !! n = Some (mk_chan (buffer ch) true)).
Proof.
  intros HI. unfold closeAllPending. destruct (closeLocked_Ok c HI) as (b & c' & -> & ? & ? & _ & ?).
  by exists c'.
Qed.

Lemma dispatchRendezvous_Ok c rv :
  Inv c → ∃ c', dispatchRendezvous c rv = Ok c' ∧ Inv c' ∧ closed c' = closed c ∧
    conn_closed c' = conn_closed c.
Proof.
  intros HI. unfold dispatchRendezvous. case_match; [by exists c|].
  destruct (pending c !! _) as [n|] eqn:Hp.
  - destruct (inv_open _ HI _ _ Hp) as (ch & Hch & Hcl). unfold try_send. rewrite Hch, Hcl.
    destruct (buffer ch); [by exists c|]. eexists; split; [done|]. split; [|done].
    destruct HI as [Hopen Hinj Hinc Hempty Hroom]. split; simpl; try done.
    intros p m Hpm. destruct (decide (n = m)) as [<-|Hne].
    + rewrite lookup_insert_eq. eauto.
    + rewrite lookup_insert_ne by done. by apply (Hopen p).
  - destruct (closed c) eqn:Hc; [by exists c|]. rewrite (inv_incoming _ HI), Hc.
    destruct (Z.ltb_spec (len (incoming c)) 16); [|by exists c].
    eexists; split; [done|]. split; [|done]. destruct HI as [Hopen Hinj Hinc Hempty Hroom].
    split; simpl; try done; try congruence. rewrite len_app, len_cons, len_nil. lia.
Qed.

Lemma readLoop_step_Ok c m :
  Inv c → ∃ c', readLoop_step c m = Ok c' ∧ Inv c' ∧ (closed c = true → closed c' = true) ∧
    conn_closed c' = conn_closed c.
Proof.
  intros HI. unfold readLoop_step, dispatchError. destruct m as [env|e].
  2: { destruct (closeAllPending_Ok c HI) as (c' & -> & ? & ? & _ & ? & _). eauto 6. }
  destruct (Payload env) as [[]|]; try by (exists c; auto).
  - destruct (dispatchRendezvous_Ok c m HI) as (c' & -> & ? & Hc & ?). exists c'. rewrite Hc. auto.
  - destruct (closeAllPending_Ok c HI) as (c' & -> & ? & ? & _ & ? & _). eauto 6.
Qed.

Lemma Close_Ok c : Inv c → ∃ c', Close c = Ok c' ∧ Inv c' ∧ closed c' = true ∧
  (closed c = true → conn_closed c' = conn_closed c).
Proof.
  intros HI. unfold Close. destruct (closeLocked_Ok c HI) as (b & c' & -> & HI' & Hc & -> & _ & Hcc & _).
  simpl. eexists; split; [done|]. destruct (closed c); simpl; [done|].
  split_and!; [|done|done]. by destruct HI'.
Qed.

Lemma delete_pending_Inv c p : Inv c → Inv (with_pending c (delete p (pending c))).
Proof.
  intros [Hopen Hinj Hinc Hcl Hroom]. split; simpl; try done.
  - intros q n [_ Hq]%lookup_delete_Some. by apply (Hopen q).
  - intros q r n [_ Hq]%lookup_delete_Some [_ Hr]%lookup_delete_Some. by apply (Hinj q r n).
  - intros Hc. by rewrite (Hcl Hc), delete_empty.
Qed.

Lemma add_waiter_Inv c p n :
  Inv c → closed c = false → chans c !! n = None →
  Inv (with_pending (with_chan c n new_chan) (<[p := n]> (pending c))).
Proof.
  intros [Hopen Hinj Hinc Hcl Hroom] Hc Hn.
  assert (∀ q, pending c !! q ≠ Some n) as Hnew.
  { intros q Hq. destruct (Hopen _ _ Hq) as (ch & Hch & _). congruence. }
  split; simpl; try done; try congruence.
  - intros q m. rewrite lookup_insert. case_decide.
    + intros [= <-]. rewrite lookup_insert_eq. by eexists.
    + intros Hq. rewrite lookup_insert_ne by (intros <-; by apply (Hnew q)). by apply (Hopen q).
  - intros q r m. rewrite !lookup_insert. repeat case_decide; subst; naive_solver.
Qed.

Lemma request_begin_eq c target n :
  request_begin c target n =
    if closed c then (Err ErrRelayDisconnected, c)
    else
      let c := with_pending (with_chan c n new_chan) (<[target := n]> (pending c)) in
      let '(res, w) := Send (wire c) (relay_connect target) in
      let c := with_wire c w in
      match wrap "relay connect request: %w" res with
      | Ok _ => (Ok tt, c)
      | Err e => (Err e, with_pending c (delete target (pending c)))
      | Panic => (Panic, c)
      end.
Proof.
  unfold request_begin, request_register, request_write. destruct (closed c); [done|]. cbv zeta.
  by destruct (Send _ _) as [[[]|e|] w].
Qed.

Lemma request_begin_steps c target n :
  chans c !! n = None → rtc cstep c (snd (request_begin c target n)).
Proof.
  intros Hn. eapply rtc_l; [by apply (c_register c target n)|]. unfold request_begin.
  destruct (request_register c target n) as [[[]|e|] c1]; [|done..]. cbn [snd].
  eapply rtc_l; [apply (c_write c1 target)|]. destruct (request_write c1 target) as [[[]|e|] c2]; [done| |done].
  apply rtc_once, c_leave.
Qed.

Lemma request_begin_Inv c p n : Inv c → chans c !! n = None → Inv (snd (request_begin c p n)).
Proof.
  intros HI Hn. rewrite request_begin_eq. destruct (closed c) eqn:Hc; [done|]. cbv zeta.
  pose proof (add_waiter_Inv c p n HI Hc Hn) as HI'. destruct (Send _ _) as [res w].
  assert (∀ w, Inv (with_wire (with_pending (with_chan c n new_chan) (<[p := n]> (pending c))) w)) as Hw.
  { intros w'. by destruct HI'. }
  destruct res as [[]|e|]; simpl; [apply Hw|by apply delete_pending_Inv|apply Hw].
Qed.

Lemma cstep_Inv c c' : Inv c → cstep c c' → Inv c'.
Proof.
  intros HI Hs. destruct Hs as [c p n Hn|c p|c p|c p n x r c' E|c p n Hn|c p n x r c' E|c m c' E|c|c c' E].
  - unfold request_register. destruct (closed c) eqn:Hc; [done|]. by apply add_waiter_Inv.
  - unfold request_write. destruct (Send _ _) as [res w]. by destruct HI.
  - by apply delete_pending_Inv.
  - unfold request_end in E. destruct (wait_result c n x); simpl in E; [|done].
    injection E as _ <-. by apply delete_pending_Inv.
  - unfold wait_begin. destruct (closed c) eqn:Hc; [done|]. by apply add_waiter_Inv.
  - unfold wait_end in E. destruct (wait_result c n x); simpl in E; [|done].
    injection E as _ <-. by apply delete_pending_Inv.
  - destruct (readLoop_step_Ok c m HI) as (c1 & E1 & HI1 & _). by rewrite E in E1; injection E1 as <-.
  - unfold take_incoming. destruct (incoming c) as [|x l] eqn:Hi; [done|]. destruct HI as [? ? ? ? Hr].
    split; simpl; try done. rewrite Hi, len_cons in Hr. lia.
  - destruct (Close_Ok c HI) as (c1 & E1 & HI1 & _). by rewrite E in E1; injection E1 as <-.
Qed.

Lemma new_client_Inv w : Inv (new_client w).
Proof. split; simpl; try done; intros; by rewrite lookup_empty in *. Qed.

Lemma run_Inv w c : rtc cstep (new_client w) c → Inv c.
Proof.
  intros Hr. pose proof (new_client_Inv w) as HI. induction Hr; eauto using cstep_Inv.
Qed.

(** * Properties *)

(** C25. The client never panics: in every state that requests, waits, messages,
    errors, receives and [Close] can produce, in any order, reading a message and
    closing send on no closed channel and close no channel twice; the buffer of
    unmatched rendezvous stays within its 16 places. *)
Theorem client_no_panic (w : Conn) (c : Client) (m : Envelope + error) :
  rtc cstep (new_client w) c →
  readLoop_step c m ≠ Panic ∧ Close c ≠ Panic ∧ len (incoming c) ≤ 16.
Proof.
  intros HI%run_Inv. destruct (readLoop_step_Ok c m HI) as (? & -> & _).
  destruct (Close_Ok c HI) as (? & -> & _). split_and!; [done|done|]. apply HI.
Qed.

(** A rendezvous reaches its waiter: after [RequestRendezvous] for a node has
    started on an open client, the arrival of that node's rendezvous makes it
    return the node's id, key and address, and the request is no longer pending. *)
Theorem rendezvous_delivered (w : Conn) (c c1 : Client) (target : node_id) (n : nat)
    (key addr : bytes) :
  rtc cstep (new_client w) c → chans c !! n = None →
  request_begin c target n = (Ok tt, c1) →
  ∃ c2 c3, readLoop_step c1 (inl (envelope (Envelope_RelayRendezvous
             (Build_RelayRendezvous (arr_bytes target) key addr)))) = Ok c2 ∧
    request_end c2 target n None = Some (Ok (mk_RendezvousInfo target key addr), c3) ∧
    pending c3 !! target = None.
Proof.
  intros HI%run_Inv Hn. rewrite request_begin_eq. destruct (closed c) eqn:Hc; [done|]. cbv zeta.
  destruct (Send _ _) as [[[]|e|] w']; simpl; [|done|done]. intros [= <-].
  unfold dispatchRendezvous; simpl. unfold len. rewrite arr_length. simpl.
  rewrite copy_arr_id, lookup_insert_eq. unfold try_send; simpl. rewrite lookup_insert_eq. simpl.
  do 2 eexists. split; [done|]. unfold request_end, wait_result; simpl. rewrite lookup_insert_eq. simpl.
  unfold len. rewrite arr_length. simpl. unfold rendezvousFromProto; simpl. rewrite copy_arr_id.
  split; [done|]. simpl. by rewrite lookup_delete_eq.
Qed.

(** One error message from the relay disables the client for good: after it
    every waiter ends with [ErrRelayDisconnected], and in every later state a
    request fails at once with [ErrRelayDisconnected] and the connection, which is
    still open, is not closed by [Close]. *)
Theorem relay_error_disables (w : Conn) (c c1 c2 : Client) (re : RelayError) (target : node_id) (n : nat) :
  rtc cstep (new_client w) c → closed c = false → conn_closed c = false →
  readLoop_step c (inl (envelope (Envelope_RelayError re))) = Ok c1 → rtc cstep c1 c2 →
  (∀ p k, pending c !! p = Some k → (∀ ch, chans c !! k = Some ch → buffer ch = None) →
     wait_result c1 k None = Some (Err ErrRelayDisconnected)) ∧
  request_begin c2 target n = (Err ErrRelayDisconnected, c2) ∧
  Close c2 = Ok c2 ∧ conn_closed c2 = false.
Proof.
  intros HI%run_Inv Hc Hcc Hread Hrun.
  destruct (closeAllPending_Ok c HI) as (c' & E & HI1 & Hc1 & _ & Hcc1 & Hch).
  simpl in Hread. unfold dispatchError in Hread. rewrite E in Hread. injection Hread as <-.
  split.
  { intros p k Hp Hb. destruct (inv_open _ HI _ _ Hp) as (ch & Hk & _).
    unfold wait_result. rewrite (Hch _ _ _ Hp Hk). simpl. by rewrite (Hb ch Hk). }
  assert (closed c2 = true ∧ conn_closed c2 = false) as [Hc2 Hcc2].
  { rewrite Hcc in Hcc1. clear -Hrun HI1 Hc1 Hcc1.
    induction Hrun as [c|c d c2 Hs _ IH]; [done|]. pose proof (cstep_Inv _ _ HI1 Hs) as HId.
    apply IH; [done|..]; destruct Hs as [c p k Hk|c p|c p|c p k x r c' E|c p k Hk|c p k x r c' E|c m c' E|c|c c' E].
    all: try (unfold request_register; rewrite Hc1; done).
    all: try (unfold request_write; by destruct (Send _ _)).
    all: try done.
    all: try (unfold wait_begin; rewrite Hc1; done).
    all: try (unfold request_end, wait_end in E; destruct (wait_result c k x); simpl in E; simplify_eq; done).
    all: try (unfold take_incoming; by destruct (incoming c)).
    all: try (destruct (readLoop_step_Ok c m HI1) as (c1 & E1 & _ & Ha & Hb); rewrite E in E1;
      injection E1 as <-; rewrite ?Hb; auto; fail).
    all: destruct (Close_Ok c HI1) as (c1 & E1 & _ & Ha & Hb); rewrite E in E1; injection E1 as <-;
      rewrite ?Hb; auto. }
  split_and!; [by rewrite request_begin_eq, Hc2| |done].
  unfold Close, closeLocked. by rewrite Hc2.
Qed.

(** Two requests for the same node interfere: the second takes the place of the
    first, so that a rendezvous wakes only the second; and when the first one gives
    up it removes the second one's entry, so that a rendezvous that arrives then
    wakes nobody. *)
Theorem requests_interfere (w : Conn) (c c1 c2 : Client) (target : node_id) (n1 n2 : nat)
    (cause : error) (key addr : bytes) :
  rtc cstep (new_client w) c → chans c !! n1 = None → chans c !! n2 = None → n1 ≠ n2 →
  request_begin c target n1 = (Ok tt, c1) → request_begin c1 target n2 = (Ok tt, c2) →
  let rv := inl (envelope (Envelope_RelayRendezvous
              (Build_RelayRendezvous (arr_bytes target) key addr))) in
  (∃ c3, readLoop_step c2 rv = Ok c3 ∧ wait_result c3 n1 None = None ∧
         wait_result c3 n2 None ≠ None) ∧
  (∃ r c3 c4, request_end c2 target n1 (Some cause) = Some (r, c3) ∧
     readLoop_step c3 rv = Ok c4 ∧ wait_result c4 n2 None = None).
Proof.
  intros HI%run_Inv Hn1 Hn2 Hne. rewrite !request_begin_eq. destruct (closed c) eqn:Hc; [done|]. cbv zeta.
  destruct (Send _ _) as [[[]|e|] w1]; simpl; [|done|done]. intros [= <-]. simpl. rewrite Hc. simpl.
  destruct (Send _ _) as [[[]|e|] w2]; simpl; [|done|done]. intros [= <-].
  split.
  - simpl. unfold dispatchRendezvous, len; simpl. rewrite arr_length, copy_arr_id. simpl.
    rewrite lookup_insert_eq. unfold try_send; simpl. rewrite lookup_insert_eq. simpl.
    eexists; split; [done|]. unfold wait_result; simpl.
    rewrite lookup_insert_eq, !lookup_insert_ne, lookup_insert_eq by done. done.
  - unfold request_end; simpl.
    destruct (len (incoming c) <? 16) eqn:E16; do 3 eexists; (split; [done|]);
      unfold dispatchRendezvous; simpl; unfold len at 1; rewrite arr_length, copy_arr_id, lookup_delete_eq;
      simpl; rewrite (inv_incoming _ HI), Hc, E16; (split; [done|]);
      unfold wait_result; simpl; by rewrite lookup_insert_eq.
Qed.

(** * Witnesses *)

Module ClientWitness.

Definition bob : node_id := copy_arr 32 (str "bob").
Definition w0 : Conn := fresh_conn [].
Definition c0 : Client := new_client w0.
Definition key : bytes := replicate 32 Byte.x42.
Definition addr : bytes := str "5.6.7.8:7001".

Lemma client_no_panic_witness :
  readLoop_step c0 (inr io_EOF) ≠ Panic ∧ Close c0 ≠ Panic ∧ len (incoming c0) ≤ 16.
Proof. apply (client_no_panic w0 c0 (inr io_EOF)). apply rtc_refl. Defined.

Definition c1 : Client := snd (request_begin c0 bob 1).
Definition c2 : Client := snd (request_begin c1 bob 2).

Lemma c1_step : rtc cstep c0 c1.
Proof. by apply request_begin_steps. Qed.

Lemma rendezvous_delivered_witness :
  ∃ c2 c3, readLoop_step c1 (inl (envelope (Envelope_RelayRendezvous
             (Build_RelayRendezvous (arr_bytes bob) key addr)))) = Ok c2 ∧
    request_end c2 bob 1 None = Some (Ok (mk_RendezvousInfo bob key addr), c3) ∧
    pending c3 !! bob = None.
Proof. apply (rendezvous_delivered w0 c0 c1 bob 1 key addr); [apply rtc_refl|done|done]. Defined.

Definition re : RelayError := {| RelayError_Reason := str "peer_not_registered" |}.
Definition c3 : Client :=
  match readLoop_step c1 (inl (envelope (Envelope_RelayError re))) with Ok c => c | _ => c1 end.

Lemma relay_error_disables_witness :
  (∀ p k, pending c1 !! p = Some k → (∀ ch, chans c1 !! k = Some ch → buffer ch = None) →
     wait_result c3 k None = Some (Err ErrRelayDisconnected)) ∧
  request_begin c3 bob 5 = (Err ErrRelayDisconnected, c3) ∧
  Close c3 = Ok c3 ∧ conn_closed c3 = false.
Proof.
  apply (relay_error_disables w0 c1 c3 c3 re bob 5); [apply c1_step|done|done|done|apply rtc_refl].
Defined.

Lemma requests_interfere_witness :
  let rv := inl (envelope (Envelope_RelayRendezvous
              (Build_RelayRendezvous (arr_bytes bob) key addr))) in
  (∃ c3, readLoop_step c2 rv = Ok c3 ∧ wait_result c3 1 None = None ∧
         wait_result c3 2 None ≠ None) ∧
  (∃ r c3 c4, request_end c2 bob 1 (Some io_EOF) = Some (r, c3) ∧
     readLoop_step c3 rv = Ok c4 ∧ wait_result c4 2 None = None).
Proof.
  apply (requests_interfere w0 c0 c1 c2 bob 1 2 io_EOF key addr); [apply rtc_refl|done..].
Defined.

End ClientWitness.
