(* ===== verification/Watcher.v ===== *)
(** The folder watcher, [internal/watcher]: every file of the shared folder is hashed
    into the catalog and the index, and file events keep both up to date; events
    for one path are grouped by a debounce timer.

    [modtime] gives the modification times that [os.Stat] reports; [clk] is the
    clock of the catalog operation, [now] the time at which an event is handled, in
    nanoseconds. *)

From S2P Require Import Prelude GoStd Wire Codec Bolt Catalog CatalogSpec CatalogProps Sha256 Path Fs Transfer TransferProps.

(** 500 ms. *)
Definition debounceDelay : Z := 500 * 10 ^ 6.

(** An [fsnotify.Event]: the path and the operations it reports. *)
Record Event := mk_Event {
  ev_Name : bytes;
  ev_Create : bool;
  ev_Write : bool;
  ev_Remove : bool;
  ev_Rename : bool
}.

(** * The debouncer *)

(** The running timers, by path, with the time they fire. *)
Abbreviation timers := (gmap bytes Z).

(** A timer that exists is reset. *)
Definition schedule (now : Z) (d : timers) (path : bytes) : timers :=
  <[path := now + debounceDelay]> d.

Definition cancel (d : timers) (path : bytes) : timers := delete path d.

(** The timers that have fired by [now] and the ones still running. *)
Definition due (now : Z) (d : timers) : timers := filter (λ kv, kv.2 ≤ now) d.
Definition running (now : Z) (d : timers) : timers := filter (λ kv, ¬ kv.2 ≤ now) d.

Section Watcher.
Context {B : Type} `{Bolt B} `{JsonCodec Entry} `{JsonCodec (list OwnerHint)}.

(** The catalog and index the watcher writes to, its timers, and how often
    [notifyChange] was called. *)
Record Watcher := mk_Watcher {
  w_catalog : Store B;
  w_index : LocalIndex;
  w_timers : timers;
  w_changes : nat
}.

Definition with_catalog (w : Watcher) (s : Store B) : Watcher :=
  {| w_catalog := s; w_index := w_index w; w_timers := w_timers w; w_changes := w_changes w |}.
Definition with_index (w : Watcher) (i : LocalIndex) : Watcher :=
  {| w_catalog := w_catalog w; w_index := i; w_timers := w_timers w; w_changes := w_changes w |}.
Definition with_timers (w : Watcher) (d : timers) : Watcher :=
  {| w_catalog := w_catalog w; w_index := w_index w; w_timers := d; w_changes := w_changes w |}.
Definition notifyChange (w : Watcher) : Watcher :=
  {| w_catalog := w_catalog w; w_index := w_index w; w_timers := w_timers w;
     w_changes := S (w_changes w) |}.

Definition file_entry (modtime : bytes → Z) (path : bytes) (hash : file_id) (size : Z) : Entry := {|
  Entry_FileID := hash; Entry_Name := Base path; Entry_Size := size;
  Entry_ModTime := modtime path; Entry_OwnerNodeID := zero_arr 32; Entry_LocalPath := path;
  Entry_Deleted := false; Entry_UpdatedAt := zero_time
|}.

(** The watcher's own [hashFile], beside that of the index. *)
Definition watcher_hashFile (fs : FS) (path : bytes) : outcome file_id :=
  f ← os_Open fs path;
  content ← ReadAll fs path f;
  Ok (Sum256 content).

Lemma same_hash fs path : watcher_hashFile fs path = hashFile fs path.
Proof. done. Qed.

Definition indexFile (clk : nat → Z) (fs : FS) (modtime : bytes → Z) (w : Watcher) (path : bytes) :
    outcome unit * Watcher :=
  match Stat fs path with
  | Ok (File content) =>
      match wrap "hash %s: %w" (watcher_hashFile fs path) with
      | Ok hash =>
          let entry := file_entry modtime path hash (len content) in
          match PutLocal clk (w_catalog w) entry with
          | (Ok _, s) =>
              let w := with_catalog w s in
              match Add fs (w_index w) path with
              | (Ok _, i) => (Ok tt, notifyChange (with_index w i))
              | (Err e, _) => (Err (Wrapf "index add: %w" e), w)
              | (Panic, _) => (Panic, w)
              end
          | (Err e, s) => (Err (Wrapf "catalog put: %w" e), with_catalog w s)
          | (Panic, s) => (Panic, with_catalog w s)
          end
      | Err e => (Err e, w)
      | Panic => (Panic, w)
      end
  | Ok _ => (Ok tt, w)
  | Err e => (Err e, w)
  | Panic => (Panic, w)
  end.

Definition handleRemove (clk : nat → Z) (w : Watcher) (path : bytes) : Watcher :=
  match LookupLocalByPath (w_catalog w) path with
  | Ok (Some entry) =>
      match DeleteLocal clk (w_catalog w) (Entry_FileID entry) with
      | (Ok _, s) =>
          notifyChange (with_index (with_catalog w s) (index_Remove (w_index w) (Entry_FileID entry)))
      | (_, s) => with_catalog w s
      end
  | _ => w
  end.

(** The calls of [filepath.WalkDir]; an error of one file is only logged. *)
Fixpoint scan (clk : nat → nat → Z) (k : nat) (fs : FS) (modtime : bytes → Z) (w : Watcher)
    (walk : list (bytes * (node + error))) : outcome unit * Watcher :=
  match walk with
  | [] => (Ok tt, w)
  | (_, inr e) :: _ => (Err e, w)
  | (path, inl d) :: walk' =>
      match d with
      | File _ => scan clk (S k) fs modtime (snd (indexFile (clk k) fs modtime w path)) walk'
      | _ => scan clk (S k) fs modtime w walk'
      end
  end.

Definition handleEvent (now : Z) (clk : nat → Z) (w : Watcher) (ev : Event) : Watcher :=
  if ev_Create ev || ev_Write ev then with_timers w (schedule now (w_timers w) (ev_Name ev))
  else if ev_Remove ev || ev_Rename ev then
    handleRemove clk (with_timers w (cancel (w_timers w) (ev_Name ev))) (ev_Name ev)
  else w.

(** The timers due at [now] fire: each removes itself and indexes its path, with the
    clock [clk path]; an error is only logged. *)
Definition fire (now : Z) (clk : bytes → nat → Z) (fs : FS) (modtime : bytes → Z) (w : Watcher) :
    Watcher :=
  foldl (λ w kv, snd (indexFile (clk kv.1) fs modtime w kv.1))
    (with_timers w (running now (w_timers w))) (map_to_list (due now (w_timers w))).

(** What the [select] of [loop] receives. *)
Inductive input := CtxDone | EventIn (ev : Event) | ErrorIn (e : error) | ChanClosed.

(** The surroundings of the [k]-th input: the clocks, the folder and its times. *)
Record Env := mk_Env {
  env_fire : bytes → nat → Z;
  env_clk : nat → Z;
  env_fs : FS;
  env_modtime : bytes → Z
}.

(** The inputs with the times they are received; timers due by then have fired. The
    flag says whether the loop has returned. *)
Fixpoint loop (env : nat → Env) (k : nat) (w : Watcher) (ins : list (Z * input)) : bool * Watcher :=
  match ins with
  | [] => (false, w)
  | (now, i) :: ins' =>
      let w := fire now (env_fire (env k)) (env_fs (env k)) (env_modtime (env k)) w in
      match i with
      | CtxDone | ChanClosed => (true, w)
      | EventIn ev => loop env (S k) (handleEvent now (env_clk (env k)) w ev) ins'
      | ErrorIn _ => loop env (S k) w ins'
      end
  end.

(** The whole watcher: [init] and [add] are the results of [fsnotify.NewWatcher] and
    of adding the folder to it. *)
Definition Run (clk : nat → nat → Z) (fs : FS) (modtime : bytes → Z)
    (walk : list (bytes * (node + error))) (init add : outcome unit) (env : nat → Env)
    (w : Watcher) (ins : list (Z * input)) : outcome bool * Watcher :=
  match scan clk 0 fs modtime w walk with
  | (Ok _, w) =>
      match (_ ← wrap "watcher init: %w" init; wrap "watcher add: %w" add) with
      | Ok _ => let '(returned, w) := loop env 0 w ins in (Ok returned, w)
      | Err e => (Err e, w)
      | Panic => (Panic, w)
      end
  | (Err e, w) => (Err (Wrapf "watcher scan: %w" e), w)
  | (Panic, w) => (Panic, w)
  end.

End Watcher.
Arguments Watcher : clear implicits.

(** * The debouncer alone *)

(** A history of events with their times: before each event the timers that are due
    fire, and afterwards everything that is due by [horizon]. The result is the log
    of firings, time and path, and the timers left. *)
Fixpoint history (d : timers) (evs : list (Z * Event)) (horizon : Z) : list (Z * bytes) * timers :=
  match evs with
  | [] => (map (λ kv, (kv.2, kv.1)) (map_to_list (due horizon d)), running horizon d)
  | (t, ev) :: evs' =>
      let fired := map (λ kv, (kv.2, kv.1)) (map_to_list (due t d)) in
      let d := running t d in
      let d := if ev_Create ev || ev_Write ev then schedule t d (ev_Name ev)
               else if ev_Remove ev || ev_Rename ev then cancel d (ev_Name ev) else d in
      let '(log, d) := history d evs' horizon in
      (fired ++ log, d)
  end.

Definition write (path : bytes) : Event := mk_Event path false true false false.
Definition remove (path : bytes) : Event := mk_Event path false false true false.

(** A burst: each event follows the previous one by less than the delay. *)
Inductive burst : Z → list Z → Prop :=
| burst_nil t : burst t []
| burst_cons t t' ts : t ≤ t' < t + debounceDelay → burst t' ts → burst t (t' :: ts).

Lemma due_single path t horizon :
  due horizon {[path := t]} = if decide (t ≤ horizon) then {[path := t]} else ∅.
Proof.
  unfold due. case_decide; [by rewrite map_filter_singleton_True|by rewrite map_filter_singleton_False].
Qed.

Lemma running_single path t horizon :
  running horizon {[path := t]} = if decide (t ≤ horizon) then ∅ else {[path := t]}.
Proof.
  unfold running. case_decide; [by rewrite map_filter_singleton_False by auto|by rewrite map_filter_singleton_True].
Qed.

(** From a running timer of [path], a burst of writes ends in one firing. *)
Lemma history_burst path t ts horizon :
  burst t ts → default t (last ts) + debounceDelay ≤ horizon →
  history {[path := t + debounceDelay]} (map (λ t, (t, write path)) ts) horizon =
    ([(default t (last ts) + debounceDelay, path)], ∅).
Proof.
  intros Hb. revert horizon. induction Hb as [t|t t' ts Ht Hb IH]; intros horizon Hu.
  - simpl in *. rewrite due_single, running_single, !decide_True by done.
    by rewrite map_to_list_singleton.
  - cbn [map history]. rewrite due_single, running_single, !decide_False by lia.
    rewrite map_to_list_empty. cbn [map app ev_Create ev_Write write ev_Name orb].
    unfold schedule. rewrite insert_singleton_eq.
    rewrite last_cons in Hu |- *.
    assert (default t (from_option Some (Some t') (last ts)) = default t' (last ts)) as Hl
      by (by destruct (last ts)).
    rewrite IH; destruct (last ts); done.
Qed.

Lemma history_burst_removed path t ts t' horizon :
  burst t (ts ++ [t']) → t' ≤ horizon →
  history {[path := t + debounceDelay]}
    (map (λ t, (t, write path)) ts ++ [(t', remove path)]) horizon = ([], ∅).
Proof.
  revert t. induction ts as [|t1 ts IH]; intros t Hb Hu; inversion Hb as [|? ? ? Ht Hb']; subst;
    cbn [map app history]; rewrite due_single, running_single, !decide_False by lia;
    rewrite map_to_list_empty; cbn [map app ev_Create ev_Write ev_Remove write remove ev_Name orb].
  - unfold cancel. rewrite delete_singleton_eq. simpl. unfold due, running.
    by rewrite !map_filter_empty, map_to_list_empty.
  - unfold schedule. rewrite insert_singleton_eq. by rewrite IH.
Qed.

Lemma history_first path t evs horizon :
  history ∅ ((t, write path) :: evs) horizon = history {[path := t + debounceDelay]} evs horizon.
Proof.
  cbn [history]. unfold due at 1, running at 1. rewrite !map_filter_empty, map_to_list_empty.
  cbn [map app ev_Create ev_Write write ev_Name orb]. unfold schedule. rewrite insert_empty.
  by destruct (history _ evs horizon).
Qed.

(** * Indexing *)

Section Indexing.
Context {B : Type} `{BoltLaws B} `{CatalogJson}.

(** What has to hold for the record of a file to be stored. *)
Record indexable (clk : nat → Z) (s : Store B) (self : node_id) (e : Entry) (hs : list OwnerHint) :
    Prop := {
  ix_hints : GetOwners s (Entry_FileID e) = Ok hs;
  ix_entry : storable (set_owner e self (clk 0%nat) false);
  ix_index : storable (put_hint (clk 1%nat) self hs);
  ix_path : utf8_ok (Entry_LocalPath e) = true
}.

Lemma indexFile_Ok (P : op → Prop) self clk fs modtime (w : Watcher B) path content hs :
  reachable P self (w_catalog w) → (∀ b b' : B, tx_commit b b' = Ok tt) → faultless fs →
  nodes fs !! path = Some (File content) →
  let id := Sum256 content in
  let e := file_entry modtime path id (len content) in
  indexable clk (w_catalog w) self e hs →
  ∃ s', PutLocal clk (w_catalog w) e = (Ok tt, s') ∧
    indexFile clk fs modtime w path =
      (Ok tt, notifyChange (with_index (with_catalog w s') (AddWithHash (w_index w) id path))) ∧
    GetEntry s' self id = Ok (Some (canon_entry (set_owner e self (clk 0%nat) false))) ∧
    (∃ e', LookupLocalByPath s' path = Ok (Some e') ∧ Entry_LocalPath e' = path) ∧
    (∃ hs', GetOwners s' id = Ok hs' ∧ self ∈ map Hint_NodeID hs') ∧
    (∀ o f, (o, f) ≠ (self, id) → GetEntry s' o f = GetEntry (w_catalog w) o f).
Proof.
  intros Hr Hc Hf Hn id e [Hh He Hi Hp].
  destruct (PutLocal_effect P self clk (w_catalog w) e hs Hr Hh Hc He Hi Hp)
    as (s' & e' & hs' & Hput & Hget & Hlook & Hpath & Hown & Hin & Hrest).
  assert (hashFile fs path = Ok id) as Hhash.
  { by apply hashFile_content. }
  exists s'. split_and!; [done| |done|by eauto|by eauto|done].
  unfold indexFile. unfold Stat, attempt. rewrite Hf, Hn, same_hash, Hhash. cbn [wrap]. fold id. fold e.
  rewrite Hput. unfold Add. simpl. by rewrite Hhash.
Qed.

End Indexing.

(** * Properties *)

(** An indexed file is shared: when the watcher indexes a regular file, the
    catalog then has a live entry of this node under the file's hash, finds the
    file by its path and names this node as an owner, and the index serves the hash
    from that path; entries of other files and owners stay as they were, and the
    change callback runs once. *)
Theorem indexFile_shares {B : Type} `{BoltLaws B} `{CatalogJson} (P : op → Prop) (self : node_id)
    (clk : nat → Z) (fs : FS) (modtime : bytes → Z) (w : Watcher B) (path content : bytes)
    (hs : list OwnerHint) :
  reachable P self (w_catalog w) → (∀ b b' : B, tx_commit b b' = Ok tt) → faultless fs →
  nodes fs !! path = Some (File content) →
  let id := Sum256 content in
  indexable clk (w_catalog w) self (file_entry modtime path id (len content)) hs →
  ∃ w', indexFile clk fs modtime w path = (Ok tt, w') ∧
    (∃ e, GetEntry (w_catalog w') self id = Ok (Some e) ∧ Entry_Deleted e = false ∧
          Entry_Size e = len content) ∧
    (∃ e, LookupLocalByPath (w_catalog w') path = Ok (Some e) ∧ Entry_LocalPath e = path) ∧
    (∃ hs', GetOwners (w_catalog w') id = Ok hs' ∧ self ∈ map Hint_NodeID hs') ∧
    Lookup (w_index w') id = Some path ∧ w_changes w' = S (w_changes w) ∧
    (∀ o f, (o, f) ≠ (self, id) → GetEntry (w_catalog w') o f = GetEntry (w_catalog w) o f).
Proof.
  intros Hr Hc Hf Hn id Hix.
  destruct (indexFile_Ok P self clk fs modtime w path content hs Hr Hc Hf Hn Hix)
    as (s' & _ & -> & Hget & Hlook & Hown & Hrest).
  eexists; split; [done|]. simpl. split_and!; [|done|done| |done|done].
  - eexists; split; [exact Hget|]. done.
  - by rewrite Lookup_AddWithHash, decide_True.
Qed.

(** A file that is modified in place leaves its old hash behind: after the
    watcher has indexed the new content, the catalog still has the live entry of
    the old content and the index still serves the old hash from the path, whose
    content now has the new hash. *)
Theorem modified_file_stale {B : Type} `{BoltLaws B} `{CatalogJson} (P : op → Prop) (self : node_id)
    (clk clk' : nat → Z) (fs fs' : FS) (modtime : bytes → Z) (w w1 : Watcher B)
    (path old new : bytes) (hs hs' : list OwnerHint) :
  (∀ clk e, P (OpPutLocal clk e)) →
  reachable P self (w_catalog w) → (∀ b b' : B, tx_commit b b' = Ok tt) →
  faultless fs → faultless fs' →
  nodes fs !! path = Some (File old) → nodes fs' !! path = Some (File new) →
  Sum256 old ≠ Sum256 new →
  indexable clk (w_catalog w) self (file_entry modtime path (Sum256 old) (len old)) hs →
  indexFile clk fs modtime w path = (Ok tt, w1) →
  indexable clk' (w_catalog w1) self (file_entry modtime path (Sum256 new) (len new)) hs' →
  ∃ w2 e, indexFile clk' fs' modtime w1 path = (Ok tt, w2) ∧
    GetEntry (w_catalog w2) self (Sum256 old) = Ok (Some e) ∧ Entry_Deleted e = false ∧
    Lookup (w_index w2) (Sum256 old) = Some path ∧ hashFile fs' path = Ok (Sum256 new).
Proof.
  intros HP Hr Hc Hf Hf' Hn Hn' Hne Hix Hw1 Hix'.
  destruct (indexFile_Ok P self clk fs modtime w path old hs Hr Hc Hf Hn Hix)
    as (s1 & Hput & E & Hget & _ & _ & _).
  rewrite Hw1 in E. injection E as ->.
  assert (reachable P self s1) as Hr1.
  { pose proof (reach_step P self _ (OpPutLocal clk (file_entry modtime path (Sum256 old) (len old))) Hr (HP _ _)) as Hs.
    simpl in Hs. by rewrite Hput in Hs. }
  simpl in Hix'.
  destruct (indexFile_Ok P self clk' fs' modtime
    (notifyChange (with_index (with_catalog w s1) (AddWithHash (w_index w) (Sum256 old) path)))
    path new hs' Hr1 Hc Hf' Hn' Hix') as (s2 & _ & -> & _ & _ & _ & Hrest).
  do 2 eexists. split; [done|]. simpl. split_and!.
  - rewrite Hrest by congruence. exact Hget.
  - done.
  - by rewrite Lookup_AddWithHash, decide_False, Lookup_AddWithHash, decide_True by done.
  - by apply hashFile_content.
Qed.

(** The debouncer groups a burst: writes to a path that follow each other by
    less than the delay cause exactly one indexing, one delay after the last of
    them; when the path is removed within the burst they cause none. *)
Theorem debounce_once (path : bytes) (t : Z) (ts : list Z) (t' horizon : Z) :
  burst t ts →
  (default t (last ts) + debounceDelay ≤ horizon →
   history ∅ ((t, write path) :: map (λ t, (t, write path)) ts) horizon =
     ([(default t (last ts) + debounceDelay, path)], ∅)) ∧
  (burst t (ts ++ [t']) → t' ≤ horizon →
   history ∅ ((t, write path) :: map (λ t, (t, write path)) ts ++ [(t', remove path)]) horizon =
     ([], ∅)).
Proof.
  intros Hb. split; intros; rewrite history_first; [by apply history_burst|by apply history_burst_removed].
Qed.

(** * Witnesses *)

Module WatcherWitness.
Import MapBolt CatalogInstance.

Definition clk (k : nat) : Z := 1000 + Z.of_nat k.
Definition modtime (p : bytes) : Z := 0.
Definition path : bytes := str "/s/a.txt".
Definition old : bytes := str "one".
Definition new : bytes := str "two".
Definition fs1 : FS := mk_FS {[ path := File old ]} (λ _, None).
Definition fs2 : FS := mk_FS {[ path := File new ]} (λ _, None).
Definition w0 : Watcher (gmap bytes bytes) :=
  mk_Watcher (CatalogProps.new_store self) NewLocalIndex ∅ 0.
Definition w1 : Watcher (gmap bytes bytes) := snd (indexFile clk fs1 modtime w0 path).

Lemma storable_ok {A} `{JsonCodec A} (v : A) :
  match json_Marshal v with Ok d => len d <=? MaxValueSize | _ => false end = true → storable v.
Proof.
  unfold storable. destruct (json_Marshal v) as [d| |]; [|done|done]. intros Hl%Z.leb_le. eauto.
Qed.

Lemma indexable0 :
  indexable clk (w_catalog w0) self (file_entry modtime path (Sum256 old) (len old)) [].
Proof. split; [by vm_compute|apply storable_ok; by vm_compute..|by vm_compute]. Qed.

Lemma indexable1 :
  indexable clk (w_catalog w1) self (file_entry modtime path (Sum256 new) (len new)) [].
Proof. split; [by vm_compute|apply storable_ok; by vm_compute..|by vm_compute]. Qed.

Lemma indexFile_shares_witness :
  ∃ w', indexFile clk fs1 modtime w0 path = (Ok tt, w') ∧
    (∃ e, GetEntry (w_catalog w') self (Sum256 old) = Ok (Some e) ∧ Entry_Deleted e = false ∧
          Entry_Size e = len old) ∧
    (∃ e, LookupLocalByPath (w_catalog w') path = Ok (Some e) ∧ Entry_LocalPath e = path) ∧
    (∃ hs', GetOwners (w_catalog w') (Sum256 old) = Ok hs' ∧ self ∈ map Hint_NodeID hs') ∧
    Lookup (w_index w') (Sum256 old) = Some path ∧ w_changes w' = 1%nat ∧
    (∀ o f, (o, f) ≠ (self, Sum256 old) →
            GetEntry (w_catalog w') o f = GetEntry (w_catalog w0) o f).
Proof.
  apply (indexFile_shares (λ _, True) self clk fs1 modtime w0 path old []);
    [apply reach_new|done|done|done|apply indexable0].
Defined.

Lemma modified_file_stale_witness :
  ∃ w2 e, indexFile clk fs2 modtime w1 path = (Ok tt, w2) ∧
    GetEntry (w_catalog w2) self (Sum256 old) = Ok (Some e) ∧ Entry_Deleted e = false ∧
    Lookup (w_index w2) (Sum256 old) = Some path ∧ hashFile fs2 path = Ok (Sum256 new).
Proof.
  apply (modified_file_stale (λ _, True) self clk clk fs1 fs2 modtime w0 w1 path old new [] []);
    [done|apply reach_new|done|done|done|done|done| |apply indexable0| |apply indexable1].
  - intros Heq. apply (f_equal (λ a, be_get (arr_bytes a))) in Heq. by vm_compute in Heq.
  - unfold w1. apply pair_fst. by vm_compute.
Defined.

Lemma debounce_once_witness :
  (200000000 + debounceDelay ≤ 10 ^ 9 →
   history ∅ ((0, write path) :: map (λ t, (t, write path)) [100000000; 200000000]) (10 ^ 9) =
     ([(200000000 + debounceDelay, path)], ∅)) ∧
  (burst 0 ([100000000; 200000000] ++ [300000000]) → 300000000 ≤ 10 ^ 9 →
   history ∅ ((0, write path) :: map (λ t, (t, write path)) [100000000; 200000000] ++
              [(300000000, remove path)]) (10 ^ 9) = ([], ∅)).
Proof.
  apply (debounce_once path 0 [100000000; 200000000] 300000000 (10 ^ 9)).
  repeat (constructor; [unfold debounceDelay; lia|]). constructor.
Defined.

End WatcherWitness.
