(* ===== verification/Folder.v ===== *)
(** The folder, the catalog and the index: what the watcher's scan establishes, what it
    leaves, and what a removal does when two files have the same content. *)

From S2P Require Import Prelude GoStd Wire Codec Bolt Catalog CatalogSpec CatalogProps Sha256 Path Fs Transfer TransferProps Watcher.

Definition any_op (o : op) : Prop := True.

Section Folder.
Context {B : Type} `{BoltLaws B} `{CatalogJson}.
Implicit Types (w : Watcher B).

(** This node offers the file. *)
Definition offers (w : Watcher B) (self : node_id) (f : file_id) : Prop :=
  ∃ e, GetEntry (w_catalog w) self f = Ok (Some e) ∧ Entry_Deleted e = false.

(** What a call of [indexFile] that returned without an error has done. *)
Lemma indexFile_success self clk fs modtime w path content w' :
  reachable any_op self (w_catalog w) → faultless fs → nodes fs !! path = Some (File content) →
  indexFile clk fs modtime w path = (Ok tt, w') →
  reachable any_op self (w_catalog w') ∧
  w_index w' = AddWithHash (w_index w) (Sum256 content) path ∧
  GetEntry (w_catalog w') self (Sum256 content) =
    Ok (Some (canon_entry (set_owner (file_entry modtime path (Sum256 content) (len content))
                             self (clk 0%nat) false))) ∧
  (∀ o f, (o, f) ≠ (self, Sum256 content) → GetEntry (w_catalog w') o f = GetEntry (w_catalog w) o f).
Proof.
  intros Hr Hf Hn. unfold indexFile, Stat, attempt, Add. rewrite Hf, Hn, same_hash, (hashFile_content fs path content Hf Hn).
  cbn [wrap]. set (e := file_entry _ _ _ _).
  pose proof (reach_step any_op self _ (OpPutLocal clk e) Hr I) as Hr'. cbn [exec] in Hr'.
  destruct (PutLocal clk (w_catalog w) e) as [[u|er|] s'] eqn:E; [|done|done].
  intros [= <-]. cbn [w_catalog w_index with_catalog with_index notifyChange snd] in *.
  apply reachable_abs in Hr as (Hid & a & HA & _).
  apply (exec_refines (OpPutLocal clk e) (w_catalog w) a _ _ HA) in E as [HA' _]. cbn [is_Ok] in HA'. rewrite Hid in HA'.
  split_and!; [done|done|..].
  - rewrite (GetEntry_abs _ _ _ _ HA'). cbn [spec add_owner put_file files set_owner Entry_OwnerNodeID Entry_FileID e file_entry].
    by rewrite lookup_insert_eq.
  - intros o f Hne. rewrite (GetEntry_abs _ _ _ _ HA'), (GetEntry_abs _ _ _ _ HA).
    cbn [spec add_owner put_file files set_owner Entry_OwnerNodeID Entry_FileID e file_entry].
    by rewrite lookup_insert_ne by congruence.
Qed.

Lemma indexFile_changes clk fs modtime w path content w' :
  faultless fs → nodes fs !! path = Some (File content) → indexFile clk fs modtime w path = (Ok tt, w') →
  w_changes w' = S (w_changes w).
Proof.
  intros Hf Hn. unfold indexFile, Stat, attempt, Add. rewrite Hf, Hn, same_hash, (hashFile_content fs path content Hf Hn).
  cbn [wrap]. destruct (PutLocal _ _ _) as [[u|er|] s']; [|done|done]. by intros [= <-].
Qed.

Lemma indexFile_offers self clk fs modtime w path content w' f :
  reachable any_op self (w_catalog w) → faultless fs → nodes fs !! path = Some (File content) →
  indexFile clk fs modtime w path = (Ok tt, w') →
  f = Sum256 content ∨ offers w self f → offers w' self f.
Proof.
  intros Hr Hf Hn E Ho. destruct (indexFile_success _ _ _ _ _ _ _ _ Hr Hf Hn E) as (_ & _ & Hget & Hrest).
  destruct (decide (f = Sum256 content)) as [->|Hne]; [by eexists|].
  destruct Ho as [?|(e & He & Hd)]; [done|]. exists e. rewrite Hrest by congruence. done.
Qed.

(** Every file of the scan was indexed: no error was logged. *)
Fixpoint scan_clean (clk : nat → nat → Z) (k : nat) (fs : FS) (modtime : bytes → Z) (w : Watcher B)
    (walk : list (bytes * (node + error))) : Prop :=
  match walk with
  | [] => True
  | (path, inl (File _)) :: walk' =>
      fst (indexFile (clk k) fs modtime w path) = Ok tt ∧
      scan_clean clk (S k) fs modtime (snd (indexFile (clk k) fs modtime w path)) walk'
  | _ :: walk' => scan_clean clk (S k) fs modtime w walk'
  end.

(** The walk reports the folder, which does not change meanwhile, and meets no error. *)
Definition walk_of (fs : FS) (walk : list (bytes * (node + error))) : Prop :=
  Forall (λ pn, match pn with (p, inl n) => nodes fs !! p = Some n | _ => False end) walk.

Lemma scan_effect self clk k fs modtime w walk :
  reachable any_op self (w_catalog w) → faultless fs → walk_of fs walk →
  scan_clean clk k fs modtime w walk →
  ∃ w', scan clk k fs modtime w walk = (Ok tt, w') ∧
    (∀ f, offers w self f ∨ (∃ p c, (p, inl (File c)) ∈ walk ∧ Sum256 c = f) → offers w' self f) ∧
    (∀ h, served fs (w_index w) h ∨ (∃ p c, (p, inl (File c)) ∈ walk ∧ Sum256 c = h) →
          served fs (w_index w') h) ∧
    (∀ h, (∀ p c, (p, inl (File c)) ∈ walk → Sum256 c ≠ h) → Lookup (w_index w') h = Lookup (w_index w) h).
Proof.
  intros Hr Hf Hw. revert k w Hr. induction Hw as [|[p [n|e]] walk Hn _ IH]; intros k w Hr Hc; [..|done].
  { exists w. split_and!; [done|..]; intros f; try (intros [?|(? & ? & []%elem_of_nil & _)]; done). done. }
  assert (∀ q c, (q, inl (File c)) ∈ (p, inl n : node + error) :: walk →
            (q = p ∧ File c = n) ∨ (q, inl (File c)) ∈ walk) as Hcons.
  { intros q c [[= -> ->]|?]%elem_of_cons; auto. }
  destruct n as [content| |]; cbn [scan scan_clean] in *.
  2, 3: destruct (IH (S k) w Hr Hc) as (w' & E & Ho & Hs & Hl); exists w'; split; [done|];
    (split_and!; [intros f Hx; apply Ho|intros f Hx; apply Hs|intros h Hx; apply Hl; intros q c Hin; apply (Hx q c); by right]);
    (destruct Hx as [?|(q & c & [[_ [=]]|?]%Hcons & ?)]; [by left|right; eauto]).
  destruct Hc as [Hc1 Hc2]. destruct (indexFile (clk k) fs modtime w p) as [r w1] eqn:E1. cbn [fst snd] in *. subst r.
  destruct (indexFile_success _ _ _ _ _ _ _ _ Hr Hf Hn E1) as (Hr1 & Hi1 & _).
  destruct (IH (S k) w1 Hr1 Hc2) as (w' & E & Ho & Hs & Hl). exists w'. split; [done|]. split_and!.
  - intros f Hx. apply Ho. destruct Hx as [Hx|(q & c & [[-> [= ->]]|Hin]%Hcons & <-)]; [left|left|right; eauto];
      apply (indexFile_offers _ _ _ _ _ _ _ _ _ Hr Hf Hn E1); auto.
  - intros h Hx. apply Hs. rewrite Hi1.
    destruct Hx as [Hx|(q & c & [[-> [= ->]]|Hin]%Hcons & <-)]; [left|left|right; eauto];
      apply AddWithHash_served; auto using hashFile_content.
  - intros h Hx. rewrite Hl by (intros q c Hin; apply (Hx q c); by right). rewrite Hi1, Lookup_AddWithHash.
    rewrite decide_False; [done|]. apply (Hx p content). by left.
Qed.

End Folder.

(** * Properties *)

(** The initial scan shares the folder: when every file was indexed, this node offers
    every regular file that the walk found and can serve it under its hash. It retires
    nothing: a file that was offered before and is no longer in the folder is offered
    still, although the index does not have it and a request for it fails. *)
Theorem scan_shares_folder {B : Type} `{BoltLaws B} `{CatalogJson} (self : node_id) (clk : nat → nat → Z)
    (fs : FS) (modtime : bytes → Z) (w : Watcher B) (walk : list (bytes * (node + error))) :
  reachable any_op self (w_catalog w) → faultless fs → walk_of fs walk →
  scan_clean clk 0 fs modtime w walk →
  ∃ w', scan clk 0 fs modtime w walk = (Ok tt, w') ∧
    (∀ p c, (p, inl (File c)) ∈ walk → offers w' self (Sum256 c) ∧ served fs (w_index w') (Sum256 c)) ∧
    (∀ f, offers w self f → (∀ p c, (p, inl (File c)) ∈ walk → Sum256 c ≠ f) →
          Lookup (w_index w) f = None →
          offers w' self f ∧ Lookup (w_index w') f = None ∧
          ∀ ctx rw, HandleRequest ctx fs (w_index w') f rw = sendNotFound rw f).
Proof.
  intros Hr Hf Hw Hc. destruct (scan_effect self clk 0 fs modtime w walk Hr Hf Hw Hc) as (w' & E & Ho & Hs & Hl).
  exists w'. split_and!; [done|..].
  - intros p c Hin. split; [apply Ho|apply Hs]; right; eauto.
  - intros f Hoff Hgone Hidx. specialize (Hl f Hgone). rewrite Hidx in Hl. split_and!; [apply Ho; by left|done|].
    intros ctx rw. unfold HandleRequest. by rewrite Hl.
Qed.

(** Removing one of two files with the same content unshares both: when the watcher
    has indexed them one after the other and the second is then removed, the content is
    neither offered nor indexed any more, although the first file is still in the
    folder. *)
Theorem duplicate_unshared {B : Type} `{BoltLaws B} `{CatalogJson} (self : node_id)
    (clk1 clk2 clk3 : nat → Z) (fs : FS) (modtime : bytes → Z) (w w1 w2 : Watcher B) (p q c : bytes) (s : Store B) :
  reachable any_op self (w_catalog w) → faultless fs →
  nodes fs !! p = Some (File c) → nodes fs !! q = Some (File c) → utf8_ok q = true →
  indexFile clk1 fs modtime w p = (Ok tt, w1) → indexFile clk2 fs modtime w1 q = (Ok tt, w2) →
  (∀ f e, GetEntry (w_catalog w) self f = Ok (Some e) → Entry_LocalPath e = q → f = Sum256 c) →
  DeleteLocal clk3 (w_catalog w2) (Sum256 c) = (Ok tt, s) →
  let w3 := handleRemove clk3 w2 q in
  offers w2 self (Sum256 c) ∧ ¬ offers w3 self (Sum256 c) ∧ Lookup (w_index w3) (Sum256 c) = None.
Proof.
  intros Hr Hf Hp Hq Hutf E1 E2 Huniq Hdel w3.
  destruct (indexFile_success _ _ _ _ _ _ _ _ Hr Hf Hp E1) as (Hr1 & _ & _ & Hrest1).
  destruct (indexFile_success _ _ _ _ _ _ _ _ Hr1 Hf Hq E2) as (Hr2 & _ & Hget2 & Hrest2).
  split; [by eexists|].
  apply reachable_abs in Hr2 as (Hid & a & HA & _).
  pose proof (LookupLocalByPath_abs _ _ q HA) as Hlook. rewrite Hid in Hlook.
  rewrite (GetEntry_abs _ _ _ _ HA) in Hget2. injection Hget2 as Hget2.
  assert (∃ e, LookupLocalByPath (w_catalog w2) q = Ok (Some e) ∧ Entry_FileID e = Sum256 c) as (e & He & Hfid).
  { destruct (LookupLocalByPath (w_catalog w2) q) as [[e|]| |]; [|..|done|done].
    - exists e. split; [done|]. destruct Hlook as (f & Hfile & _ & Hpath).
      assert (f = Sum256 c) as ->.
      { destruct (decide (f = Sum256 c)) as [->|Hne]; [done|]. apply (Huniq f e); [|done].
        rewrite <- Hrest1, <- Hrest2 by congruence. by rewrite (GetEntry_abs _ _ _ _ HA), Hfile. }
      rewrite Hget2 in Hfile. by injection Hfile as <-.
    - exfalso. apply (Hlook (Sum256 c) _ Hget2); [done|]. cbn [canon_entry Entry_LocalPath set_owner file_entry].
      by apply bool_decide_eq_true in Hutf. }
  unfold w3, handleRemove. rewrite He, Hfid, Hdel. cbn [w_catalog w_index with_catalog with_index notifyChange].
  apply (exec_refines (OpDeleteLocal clk3 (Sum256 c)) (w_catalog w2) a _ _ HA) in Hdel as [HA' _].
  cbn [is_Ok spec] in HA'. rewrite Hid, Hget2 in HA'. split.
  - intros (e' & He' & Hd). cbn [w_catalog with_catalog with_index notifyChange] in He'.
    rewrite (GetEntry_abs _ _ _ _ HA') in He'. injection He' as He'.
    cbn [remove_owner put_file files set_owner Entry_OwnerNodeID Entry_FileID canon_entry file_entry] in He'.
    rewrite lookup_insert_eq in He'. injection He' as <-. done.
  - unfold Lookup, index_Remove. cbn [index]. apply lookup_delete_eq.
Qed.

(** * Witnesses *)

Module FolderWitness.
Import MapBolt CatalogInstance WatcherWitness.

(** The file of [w1] was removed while the program was not running, and another one was
    added. *)
Definition p2 : bytes := str "/s/b.txt".
Definition fs3 : FS := mk_FS {[ p2 := File new ]} (λ _, None).
Definition restarted : Watcher (gmap bytes bytes) := mk_Watcher (w_catalog w1) NewLocalIndex ∅ 0.
Definition walk : list (bytes * (node + error)) := [(p2, inl (File new))].
Definition clks (_ k : nat) : Z := clk k.

Lemma w1_indexed : indexFile clk fs1 modtime w0 path = (Ok tt, w1).
Proof. unfold w1. apply pair_fst. by vm_compute. Qed.

Lemma w1_reachable : reachable any_op self (w_catalog w1).
Proof. apply (indexFile_success self clk fs1 modtime w0 path old w1); [apply reach_new|done|done|apply w1_indexed]. Qed.

Lemma old_ne_new : Sum256 old ≠ Sum256 new.
Proof. intros Heq. apply (f_equal (λ a, be_get (arr_bytes a))) in Heq. by vm_compute in Heq. Qed.

Lemma old_offered : offers restarted self (Sum256 old).
Proof.
  exact (indexFile_offers self clk fs1 modtime w0 path old w1 (Sum256 old) (reach_new any_op self)
           (λ _, eq_refl) eq_refl w1_indexed (or_introl eq_refl)).
Qed.

Lemma old_gone q c : (q, inl (File c)) ∈ walk → Sum256 c ≠ Sum256 old.
Proof. unfold walk. intros [= _ ->]%list_elem_of_singleton. apply not_eq_sym, old_ne_new. Qed.

Lemma scan_shares_folder_witness :
  ∃ w', scan clks 0 fs3 modtime restarted walk = (Ok tt, w') ∧
    offers w' self (Sum256 new) ∧ served fs3 (w_index w') (Sum256 new) ∧
    offers w' self (Sum256 old) ∧ Lookup (w_index w') (Sum256 old) = None.
Proof.
  destruct (scan_shares_folder self clks fs3 modtime restarted walk) as (w' & E & Hnew & Hold).
  - apply w1_reachable.
  - done.
  - repeat constructor.
  - split; [by vm_compute|done].
  - destruct (Hnew p2 new) as [H1 H2]; [by left|]. destruct (Hold (Sum256 old) old_offered old_gone eq_refl) as (H3 & H4 & _).
    exists w'. exact (conj E (conj H1 (conj H2 (conj H3 H4)))).
Defined.

(** Two copies of a file. *)
Definition fs4 : FS := mk_FS {[ path := File old; p2 := File old ]} (λ _, None).
Definition v1 : Watcher (gmap bytes bytes) := snd (indexFile clk fs4 modtime w0 path).
Definition v2 : Watcher (gmap bytes bytes) := snd (indexFile clk fs4 modtime v1 p2).

Lemma v1_indexed : indexFile clk fs4 modtime w0 path = (Ok tt, v1).
Proof. unfold v1. apply pair_fst. by vm_compute. Qed.

Lemma v2_indexed : indexFile clk fs4 modtime v1 p2 = (Ok tt, v2).
Proof. unfold v2. apply pair_fst. by vm_compute. Qed.

Definition s3 : Store (gmap bytes bytes) := snd (DeleteLocal clk (w_catalog v2) (Sum256 old)).

Lemma s3_deleted : DeleteLocal clk (w_catalog v2) (Sum256 old) = (Ok tt, s3).
Proof. unfold s3. apply pair_fst. by vm_compute. Qed.

Lemma fs4_nodes : nodes fs4 !! path = Some (File old) ∧ nodes fs4 !! p2 = Some (File old).
Proof. by vm_compute. Qed.

Lemma w0_empty f e : GetEntry (w_catalog w0) self f = Ok (Some e) → Entry_LocalPath e = p2 → f = Sum256 old.
Proof.
  assert (∀ k, bucket_Get (entries (w_catalog w0)) k = None) as Hnone by (intros k; apply lookup_empty).
  unfold GetEntry. by rewrite Hnone.
Qed.

Lemma duplicate_unshared_witness :
  offers v2 self (Sum256 old) ∧ ¬ offers (handleRemove clk v2 p2) self (Sum256 old) ∧
  Lookup (w_index (handleRemove clk v2 p2)) (Sum256 old) = None.
Proof.
  exact (duplicate_unshared self clk clk clk fs4 modtime w0 v1 v2 path p2 old s3 (reach_new any_op self)
           (λ _, eq_refl) (proj1 fs4_nodes) (proj2 fs4_nodes) eq_refl v1_indexed v2_indexed w0_empty s3_deleted).
Defined.

End FolderWitness.
