(* ===== verification/Identity.v ===== *)
(** The node's identity, [internal/identity]: a 32-byte seed on disk, the Ed25519 key
    pair made from it, and the node id, the SHA-256 of the public key. [rand] is the
    result of [rand.Read]. *)

From S2P Require Import Prelude GoStd Crypto Sha256 Path Fs.

Definition keyFile : bytes := str "identity.key".
Definition seedSize : Z := 32.

Record Identity := mk_Identity {
  Id_PrivKey : bytes;
  Id_PubKey : bytes;
  Id_NodeID : node_id
}.

Section Identity.
Context `{Ed25519}.

Definition NodeIDHex (id : Identity) : bytes := hex_encode (arr_bytes (Id_NodeID id)).

Definition fromSeed (seed : bytes) : outcome Identity :=
  priv ← NewKeyFromSeed seed;
  pub ← Public priv;
  Ok {| Id_PrivKey := priv; Id_PubKey := pub; Id_NodeID := Sum256 pub |}.

Definition Generate (rand : outcome bytes) : outcome Identity :=
  seed ← wrap "generate seed: %w" rand;
  fromSeed seed.

Definition Save (fs : FS) (id : Identity) (configDir : bytes) : outcome unit * FS :=
  match MkdirAll fs configDir with
  | (Ok _, fs) =>
      match Seed (Id_PrivKey id) with
      | Ok seed =>
          let path := Join configDir keyFile in
          let '(res, fs) := WriteFile fs (Clean configDir) path seed in
          (wrap "write identity file: %w" res, fs)
      | Err e => (Err e, fs)
      | Panic => (Panic, fs)
      end
  | (Err e, fs) => (Err (Wrapf "create config dir: %w" e), fs)
  | (Panic, fs) => (Panic, fs)
  end.

Definition Load (fs : FS) (configDir : bytes) : outcome Identity :=
  let path := Join configDir keyFile in
  seed ← ReadFile fs path;
  if negb (len seed =? seedSize)
  then Err (Errorf "identity file corrupt: expected %d bytes, got %d" [seedSize; len seed])
  else fromSeed seed.

Definition LoadOrGenerate (rand : outcome bytes) (fs : FS) (configDir : bytes) :
    outcome Identity * FS :=
  match Load fs configDir with
  | Ok id => (Ok id, fs)
  | Err err =>
      if negb (errors_Is err os_ErrNotExist) then (Err (Wrapf "load identity: %w" err), fs)
      else
        match wrap "generate identity: %w" (Generate rand) with
        | Ok id =>
            let '(res, fs) := Save fs id configDir in
            match wrap "save identity: %w" res with
            | Ok _ => (Ok id, fs)
            | Err e => (Err e, fs)
            | Panic => (Panic, fs)
            end
        | Err e => (Err e, fs)
        | Panic => (Panic, fs)
        end
  | Panic => (Panic, fs)
  end.

End Identity.

Section Facts.
Context `{Ed25519Laws}.

Lemma fromSeed_Ok seed : len seed = 32 → ∃ id, fromSeed seed = Ok id ∧ Seed (Id_PrivKey id) = Ok seed.
Proof.
  intros Hs. destruct (key_from_seed seed Hs) as (k & Hk & Hlen).
  destruct (public_ok k Hlen) as (p & Hp & _). unfold fromSeed. rewrite Hk. simpl. rewrite Hp. simpl.
  eexists; split; [done|]. by apply (seed_of_key seed).
Qed.

(** The file of an identity that was saved. *)
Lemma Save_nodes fs id dir seed fs' :
  Seed (Id_PrivKey id) = Ok seed → Save fs id dir = (Ok tt, fs') →
  fault fs' = fault fs ∧ nodes fs' !! Join dir keyFile = Some (File seed) ∧
  ∀ q c, q ≠ Join dir keyFile → nodes fs !! q = Some (File c) → nodes fs' !! q = Some (File c).
Proof.
  intros Hseed. unfold Save. destruct (MkdirAll fs dir) as [[[]|e|] fs1] eqn:Hm; [|done|done].
  apply MkdirAll_Ok in Hm as (Hf1 & _ & Hn). rewrite Hseed. unfold WriteFile.
  destruct (attempt _ _ _) as [[]|e|]; [|done|done].
  destruct (attempt fs1 (CWrite _ 0) _) as [[]|e|]; [|done|done]. simpl. intros [= <-]. simpl.
  split_and!; [done|by rewrite lookup_insert_eq|].
  intros q c Hq Hc. rewrite lookup_insert_ne by done. destruct (Hn q) as [->|[? _]]; [done|congruence].
Qed.

Lemma Load_saved fs dir seed :
  (∀ c, fault fs c = None) → len seed = 32 → nodes fs !! Join dir keyFile = Some (File seed) →
  Load fs dir = fromSeed seed.
Proof.
  intros Hf Hs Hn. unfold Load, ReadFile, os_Open, ReadAll, attempt. rewrite Hf, Hn. simpl.
  rewrite Hf. simpl. unfold seedSize. by rewrite Hs.
Qed.

End Facts.

(** The identity is stable: a first start generates and saves an identity, and
    every later start on that configuration directory loads the same key pair and
    node id, whatever random bytes it would draw; no other file is changed. *)
Theorem LoadOrGenerate_stable `{Ed25519Laws} (seed : bytes) (rand' : outcome bytes) (fs fs1 : FS)
    (dir : bytes) (id : Identity) :
  (∀ c, fault fs c = None) → len seed = 32 → nodes fs !! Join dir keyFile = None →
  LoadOrGenerate (Ok seed) fs dir = (Ok id, fs1) →
  fromSeed seed = Ok id ∧
  LoadOrGenerate rand' fs1 dir = (Ok id, fs1) ∧
  ∀ q c, nodes fs !! q = Some (File c) → nodes fs1 !! q = Some (File c).
Proof.
  intros Hf Hs Hnone. unfold LoadOrGenerate at 1, Load, ReadFile, os_Open, attempt.
  rewrite Hf, Hnone. simpl. destruct (fromSeed_Ok seed Hs) as (id' & Hid & Hseed).
  unfold Generate. simpl. rewrite Hid. simpl.
  destruct (Save fs id' dir) as [res fs2] eqn:Hsave. destruct res as [[]|e|]; [|done|done].
  simpl. intros [= <- <-]. apply (Save_nodes _ _ _ _ _ Hseed) in Hsave as (Hf2 & Hn2 & Hrest).
  split_and!; [done| |].
  - unfold LoadOrGenerate. rewrite (Load_saved _ _ seed); [by rewrite Hid|by rewrite Hf2|done|done].
  - intros q c Hq. apply Hrest; [|done]. intros ->. congruence.
Qed.

(** A damaged identity file is reported and left alone. *)
Lemma LoadOrGenerate_corrupt `{Ed25519} rand fs dir content :
  (∀ c, fault fs c = None) → nodes fs !! Join dir keyFile = Some (File content) →
  len content ≠ 32 →
  LoadOrGenerate rand fs dir =
    (Err (Wrapf "load identity: %w"
            (Errorf "identity file corrupt: expected %d bytes, got %d" [32; len content])), fs).
Proof.
  intros Hf Hn Hl. unfold LoadOrGenerate, Load, ReadFile, os_Open, ReadAll, attempt.
  rewrite Hf, Hn. simpl. rewrite Hf. simpl. unfold seedSize.
  by rewrite (proj2 (Z.eqb_neq _ _) Hl).
Qed.

Module IdentityWitness.
Import ToySig.

Definition seed : bytes := replicate 32 Byte.x07.
Definition dir : bytes := str "/home/u/.kin".
Definition fs0 : FS := mk_FS {[ str "/home" := Dir ]} (λ _, None).
Definition id : Identity := mk_Identity (seed ++ seed) seed (Sum256 seed).
Definition fs1 : FS := snd (LoadOrGenerate (Ok seed) fs0 dir).

Lemma LoadOrGenerate_stable_witness :
  fromSeed seed = Ok id ∧
  LoadOrGenerate (Err io_EOF) fs1 dir = (Ok id, fs1) ∧
  ∀ q c, nodes fs0 !! q = Some (File c) → nodes fs1 !! q = Some (File c).
Proof.
  apply (LoadOrGenerate_stable seed (Err io_EOF) fs0 fs1 dir id); [done|done|by vm_compute|].
  unfold fs1. apply pair_fst. by vm_compute.
Defined.

End IdentityWitness.
