(* ===== verification/Transport.v ===== *)
(** The peer transport, [internal/transport]: authenticated connections between
    nodes. QUIC, TLS and X.509 are not part of the repository: they are the classes
    [X509] and [Quic], and what the program relies on is stated in [QuicLaws].
    Modelled from the source are the check of a peer's node id, the opening of a
    stream in both directions with its four-byte framing prime, and the framed
    connection. *)

From S2P Require Import Prelude GoStd Wire Io Codec Framing Sha256.

(** A parsed certificate; the key is [Some] when it is an Ed25519 key. *)
Record Certificate := mk_Certificate { cert_PublicKey : option bytes }.

Class X509 := { ParseCertificate : bytes → outcome Certificate }.

Definition NodeIDFromCert (peerCerts : list Certificate) : outcome node_id :=
  match peerCerts with
  | [] => Err (Errorf "transport: no peer certificates" [])
  | c :: _ =>
      match cert_PublicKey c with
      | None => Err (Errorf "transport: peer certificate is not Ed25519" [])
      | Some pub => Ok (Sum256 pub)
      end
  end.

Section Certs.
Context `{X509}.

Fixpoint parseCerts (rawCerts : list bytes) : outcome (list Certificate) :=
  match rawCerts with
  | [] => Ok []
  | raw :: rawCerts' =>
      c ← wrap "transport: parse cert: %w" (ParseCertificate raw);
      cs ← parseCerts rawCerts';
      Ok (c :: cs)
  end.

(** The [VerifyPeerCertificate] of [clientTLSConfig]. *)
Definition VerifyPeerCertificate (expectedNodeID : node_id) (rawCerts : list bytes) : outcome unit :=
  certs ← parseCerts rawCerts;
  gotID ← NodeIDFromCert certs;
  if negb (bool_decide (gotID = expectedNodeID))
  then Err (Errorf "transport: NodeID mismatch: got %x, want %x" []) else Ok tt.

End Certs.

(** A QUIC connection after its handshake: the certificates the peer presented, and
    the two directions of its stream ([Err] when the stream cannot be opened or
    accepted). *)
Record Session := mk_Session {
  peer_certs : list bytes;
  stream : outcome (Writer * Reader)
}.

(** [quic_Dial addr verify] is a dial with the given certificate check. *)
Class Quic := {
  ResolveUDPAddr : bytes → outcome bytes;
  quic_Dial : bytes → (list bytes → outcome unit) → outcome Session
}.

(** A handshake succeeds only when the client's [VerifyPeerCertificate] returned nil
    on the certificates of the peer. *)
Class QuicLaws `{Quic} : Prop := {
  quic_verified addr verify s : quic_Dial addr verify = Ok s → verify (peer_certs s) = Ok tt
}.

(** [transport.Conn]. *)
Record Conn := mk_Conn { c_w : Writer; c_r : Reader; PeerNodeID : node_id }.

Definition prime : bytes := replicate 4 Byte.x00.

Definition writeFramingPrime (w : Writer) : outcome unit * Writer := Write w prime.

Definition consumeFramingPrime (r : Reader) : outcome unit * Reader :=
  let '(res, r) := ReadFull r 4 in (_ ← res; Ok tt, r).

Definition openDialStream (s : Session) : outcome (Writer * Reader) :=
  st ← wrap "open stream: %w" (stream s);
  let '(res, w) := writeFramingPrime st.1 in
  _ ← wrap "write framing prime: %w" res;
  Ok (w, st.2).

Section Conn.
Context `{X509} `{Quic} `{ProtoCodec}.

(** [Listener.Dial]; [DialContext] differs in the socket only. *)
Definition Listener_Dial (peerAddr : bytes) (peerNodeID : node_id) : outcome Conn :=
  udpAddr ← wrap "resolve %s: %w" (ResolveUDPAddr peerAddr);
  qConn ← wrap "quic dial %s: %w" (quic_Dial udpAddr (VerifyPeerCertificate peerNodeID));
  st ← openDialStream qConn;
  Ok {| c_w := st.1; c_r := st.2; PeerNodeID := peerNodeID |}.

(** [Listener.Accept] of a session the listener produced; [parsed] is the chain that
    TLS parsed during the handshake. *)
Definition Accept (accepted : outcome (Session * list Certificate)) : outcome Conn :=
  qConn ← accepted;
  st ← wrap "accept: accept stream: %w" (stream qConn.1);
  let '(res, r) := consumeFramingPrime st.2 in
  _ ← wrap "accept: framing prime: %w" res;
  peerNodeID ← wrap "accept: extract peer NodeID: %w" (NodeIDFromCert qConn.2);
  Ok {| c_w := st.1; c_r := r; PeerNodeID := peerNodeID |}.

Definition Conn_Send (c : Conn) (env : Envelope) : outcome unit * Conn :=
  let '(res, w) := WriteMsg (c_w c) env in
  (wrap "conn send: %w" res, {| c_w := w; c_r := c_r c; PeerNodeID := PeerNodeID c |}).

Definition Conn_Recv (c : Conn) : outcome Envelope * Conn :=
  let '(res, r) := ReadMsg (c_r c) in
  (wrap "conn recv: %w" res, {| c_w := c_w c; c_r := r; PeerNodeID := PeerNodeID c |}).

(** A sequence of sends, and of receives. *)
Fixpoint Conn_Sends (c : Conn) (envs : list Envelope) : outcome unit * Conn :=
  match envs with
  | [] => (Ok tt, c)
  | env :: envs' =>
      match Conn_Send c env with
      | (Ok _, c1) => Conn_Sends c1 envs'
      | (res, c1) => (res, c1)
      end
  end.

Fixpoint Conn_Recvs (n : nat) (c : Conn) : outcome (list Envelope) * Conn :=
  match n with
  | O => (Ok [], c)
  | S n' =>
      match Conn_Recv c with
      | (Ok env, c1) =>
          let '(res, c2) := Conn_Recvs n' c1 in (envs ← res; Ok (env :: envs), c2)
      | (Err e, c1) => (Err e, c1)
      | (Panic, c1) => (Panic, c1)
      end
  end.

End Conn.

(** * Facts *)

Section Facts.
Context `{X509} `{QuicLaws} `{ProtoLaws}.

Lemma VerifyPeerCertificate_Ok expected raws :
  VerifyPeerCertificate expected raws = Ok tt →
  ∃ raw rest c pub, raws = raw :: rest ∧ ParseCertificate raw = Ok c ∧
    cert_PublicKey c = Some pub ∧ Sum256 pub = expected.
Proof.
  unfold VerifyPeerCertificate. intros (certs & Hp & (got & Hg & Hv)%bind_Ok)%bind_Ok.
  destruct raws as [|raw rest]; simpl in Hp; [injection Hp as <-; done|].
  apply bind_Ok in Hp as (c & Hc%wrap_Ok & (cs & _ & [= <-])%bind_Ok).
  simpl in Hg. destruct (cert_PublicKey c) as [pub|] eqn:Hk; [|done]. injection Hg as <-.
  case_bool_decide as Heq; [|done]. exists raw, rest, c, pub. done.
Qed.

Lemma Conn_Sends_WriteMsgs c envs c' :
  Conn_Sends c envs = (Ok tt, c') → WriteMsgs (c_w c) envs = (Ok tt, c_w c').
Proof.
  revert c. induction envs as [|env envs IH]; intros c; simpl; [by intros [= <-]|].
  unfold Conn_Send. destruct (WriteMsg (c_w c) env) as [[[]|e|] w]; simpl; [|done|done]. apply IH.
Qed.

Lemma Conn_Recvs_ReadMsgs n c envs r' :
  ReadMsgs n (c_r c) = (Ok envs, r') →
  Conn_Recvs n c = (Ok envs, {| c_w := c_w c; c_r := r'; PeerNodeID := PeerNodeID c |}).
Proof.
  revert c envs. induction n as [|n IH]; intros c envs; simpl; [by intros [= <- <-]; destruct c|].
  unfold Conn_Recv. destruct (ReadMsg (c_r c)) as [[env|e|] r]; simpl; [|done|done].
  destruct (ReadMsgs n r) as [[es|e|] r2] eqn:E; simpl; [|done|done]. intros [= <- <-].
  by rewrite (IH _ es).
Qed.

End Facts.

(** * Properties *)

(** C21. A dialed connection is authenticated: when [Listener.Dial] to a node id
    succeeds, the connection carries that id and the peer completed the handshake
    with a first certificate whose Ed25519 key hashes to it. *)
Theorem Dial_authenticated `{X509} `{QuicLaws} (addr : bytes) (id : node_id) (c : Conn) :
  Listener_Dial addr id = Ok c →
  PeerNodeID c = id ∧
  ∃ udp s raw rest cert pub,
    quic_Dial udp (VerifyPeerCertificate id) = Ok s ∧ peer_certs s = raw :: rest ∧
    ParseCertificate raw = Ok cert ∧ cert_PublicKey cert = Some pub ∧ Sum256 pub = id.
Proof.
  unfold Listener_Dial. intros (udp & _ & (s & Hd%wrap_Ok & (st & _ & [= <-])%bind_Ok)%bind_Ok)%bind_Ok.
  split; [done|]. pose proof (quic_verified _ _ _ Hd) as Hv.
  apply VerifyPeerCertificate_Ok in Hv as (raw & rest & cert & pub & Hr & Hc & Hk & Hs).
  exists udp, s, raw, rest, cert, pub. done.
Qed.

(** Streams line up: when a dialer's stream delivers what it wrote, the
    acceptor's connection, past the framing prime, receives exactly the messages
    the dialer sent, in order, and has consumed nothing else. *)
Theorem Dial_Accept_stream `{X509} `{Quic} `{ProtoLaws} (addr : bytes) (id : node_id)
    (s : Session) (w : Writer) (r rA : Reader) (cD cD' cA : Conn) (certs : list Certificate)
    (envs : list Envelope) (sA : Session) (wA : Writer) (rest : bytes) (e : error) :
  (∀ udp, quic_Dial udp (VerifyPeerCertificate id) = Ok s) →
  stream s = Ok (w, r) → w_out w = [] →
  Listener_Dial addr id = Ok cD → Conn_Sends cD envs = (Ok tt, cD') →
  stream sA = Ok (wA, rA) → rA = {| r_in := w_out (c_w cD') ++ rest; r_end := e |} →
  Accept (Ok (sA, certs)) = Ok cA →
  ∃ cA', Conn_Recvs (length envs) cA = (Ok envs, cA') ∧ c_r cA' = {| r_in := rest; r_end := e |}.
Proof.
  intros Hq Hs Hw Hdial Hsend HsA HrA Hacc.
  unfold Listener_Dial in Hdial.
  apply bind_Ok in Hdial as (udp & _ & (s' & Hd%wrap_Ok & (st & Hst & [= <-])%bind_Ok)%bind_Ok).
  rewrite Hq in Hd. injection Hd as <-. unfold openDialStream in Hst. rewrite Hs in Hst. simpl in Hst.
  destruct (writeFramingPrime w) as [res w1] eqn:Hp.
  apply bind_Ok in Hst as ([] & Hres%wrap_Ok & [= <-]). subst res. apply Write_inv in Hp as [_ ->].
  apply Conn_Sends_WriteMsgs in Hsend. simpl in Hsend.
  destruct (WriteMsgs_stream _ _ _ Hsend) as (st & Hout & Hread).
  simpl in Hout. rewrite Hw in Hout. simpl in Hout.
  unfold Accept in Hacc. simpl in Hacc. rewrite HsA in Hacc. simpl in Hacc.
  unfold consumeFramingPrime in Hacc. rewrite HrA, Hout in Hacc.
  change (Byte.x00 :: Byte.x00 :: Byte.x00 :: Byte.x00 :: st) with (prime ++ st) in Hacc.
  rewrite <- app_assoc, ReadFull_Ok in Hacc by done. simpl in Hacc.
  apply bind_Ok in Hacc as (n & _ & [= <-]).
  eexists. split; [by apply Conn_Recvs_ReadMsgs, Hread|done].
Qed.

(** * Witnesses *)

Module TransportWitness.
Import TinyCodec.

Definition pub : bytes := replicate 32 Byte.x42.
Definition bob : node_id := Sum256 pub.

#[local] Instance x509 : X509 := {| ParseCertificate raw := Ok (mk_Certificate (Some raw)) |}.

Definition writer : Writer := {| w_out := []; w_room := None; w_err := io_EOF |}.
Definition reader : Reader := {| r_in := []; r_end := io_EOF |}.
Definition session : Session := mk_Session [pub] (Ok (writer, reader)).

#[local] Instance quic : Quic := {|
  ResolveUDPAddr a := Ok a;
  quic_Dial addr verify := _ ← verify (peer_certs session); Ok session
|}.

#[local] Instance quic_laws : QuicLaws.
Proof.
  split. simpl. intros addr verify s (u & Hv & [= <-])%bind_Ok. simpl. by destruct u.
Qed.

Definition conn : Conn :=
  {| c_w := after_write writer prime; c_r := reader; PeerNodeID := bob |}.

Lemma dial_bob : Listener_Dial (str "h:1") bob = Ok conn.
Proof.
  unfold Listener_Dial. simpl. unfold VerifyPeerCertificate. simpl.
  by rewrite bool_decide_true.
Qed.

Lemma Dial_authenticated_witness :
  PeerNodeID conn = bob ∧
  ∃ udp s raw rest cert pub,
    quic_Dial udp (VerifyPeerCertificate bob) = Ok s ∧ peer_certs s = raw :: rest ∧
    ParseCertificate raw = Ok cert ∧ cert_PublicKey cert = Some pub ∧ Sum256 pub = bob.
Proof. apply (Dial_authenticated (str "h:1") bob conn). apply dial_bob. Defined.

Definition envs : list Envelope :=
  [envelope (Envelope_FileRequest {| FileRequest_FileId := str "abc" |}); empty_Envelope].
Definition conn' : Conn := snd (Conn_Sends conn envs).
Definition arrived : Reader := {| r_in := w_out (c_w conn') ++ []; r_end := io_EOF |}.
Definition sessionA : Session := mk_Session [pub] (Ok (writer, arrived)).
Definition connA : Conn :=
  {| c_w := writer; c_r := {| r_in := drop 4 (w_out (c_w conn')); r_end := io_EOF |};
     PeerNodeID := bob |}.

Lemma Dial_Accept_stream_witness :
  ∃ cA', Conn_Recvs 2 connA = (Ok envs, cA') ∧ c_r cA' = {| r_in := []; r_end := io_EOF |}.
Proof.
  apply (Dial_Accept_stream (str "h:1") bob session writer reader arrived conn conn' connA
           [mk_Certificate (Some pub)] envs sessionA writer [] io_EOF);
    [|done|done|apply dial_bob|by vm_compute|done|done|].
  - intros udp. simpl. unfold VerifyPeerCertificate. simpl. by rewrite bool_decide_true.
  - unfold Accept, connA. simpl. by vm_compute.
Defined.

End TransportWitness.
