(* ===== verification/SendLock.v ===== *)
(** Concurrent sends on one connection, [connEntry] of [internal/protocol/handler.go]:
    the [Serve] loop of a connection answers requests while the folder watcher
    broadcasts the catalog on it. A message is two writes on the stream, the header
    and the body, so goroutines take the entry's mutex around [Send].

    A step is what one goroutine does between two points at which another may run:
    taking the lock, writing the header, writing the body and unlocking. *)

From stdpp Require Import functions.
From S2P Require Import Prelude Wire Io Codec Framing Identity Transport.

Section SendLock.
Context `{ProtoCodec}.

(** [WriteMsg] up to and including its first write; the body is left to write. *)
Definition write_header (w : Writer) (env : Envelope) : outcome bytes * Writer :=
  match proto_Marshal env with
  | Err e => (Err (Wrapf "framing: marshal: %w" e), w)
  | Panic => (Panic, w)
  | Ok data =>
      if len data >? maxMsgSize
      then (Err (Errorf "framing: message too large (%d > %d)" [len data; maxMsgSize]), w)
      else
        let '(res, w1) := Write w (be_put 4 (to_uint32 (len data))) in
        (_ ← wrap "framing: write header: %w" res; Ok data, w1)
  end.

(** The second write of [WriteMsg]. *)
Definition write_body (w : Writer) (data : bytes) : outcome unit * Writer :=
  let '(res, w1) := Write w data in (wrap "framing: write body: %w" res, w1).

(** Where a goroutine is: outside [Send], inside it with the lock taken, or inside
    it with the header written. *)
Inductive pc :=
| Outside
| Entered (env : Envelope)
| Header (env : Envelope) (data : bytes).

(** The entry with its callers: the connection, the holder of the mutex, what each
    goroutine is doing and has left to send, and the calls that returned, in order. *)
Record connEntry := mk_connEntry {
  conn : Conn;
  mu : option nat;
  at_pc : nat → pc;
  todo : nat → list Envelope;
  returned : list (nat * Envelope * outcome unit)
}.

Definition entry_Recv (e : connEntry) : outcome Envelope := fst (Conn_Recv (conn e)).
Definition entry_PeerID (e : connEntry) : node_id := PeerNodeID (conn e).

Definition with_writer (c : Conn) (w : Writer) : Conn :=
  {| c_w := w; c_r := c_r c; PeerNodeID := PeerNodeID c |}.

(** The end of [Send]: the deferred unlock, and the result of [Conn.Send]. *)
Definition return_send (s : connEntry) (t : nat) (env : Envelope) (res : outcome unit) (w : Writer) :
    connEntry :=
  {| conn := with_writer (conn s) w; mu := None; at_pc := <[t := Outside]> (at_pc s); todo := todo s;
     returned := returned s ++ [(t, env, wrap "conn send: %w" res)] |}.

(** A step of goroutine [t]; [None] when it has nothing to do or waits for the lock.
    With [lock = false] the goroutines call [Send] of the connection itself. *)
Definition send_step (lock : bool) (s : connEntry) (t : nat) : option connEntry :=
  match at_pc s t with
  | Outside =>
      match todo s t with
      | [] => None
      | env :: rest =>
          if lock && bool_decide (is_Some (mu s)) then None
          else Some {| conn := conn s; mu := if lock then Some t else None;
                       at_pc := <[t := Entered env]> (at_pc s);
                       todo := <[t := rest]> (todo s); returned := returned s |}
      end
  | Entered env =>
      match write_header (c_w (conn s)) env with
      | (Ok data, w) =>
          Some {| conn := with_writer (conn s) w; mu := mu s; at_pc := <[t := Header env data]> (at_pc s);
                  todo := todo s; returned := returned s |}
      | (Err e, w) => Some (return_send s t env (Err e) w)
      | (Panic, w) => Some (return_send s t env Panic w)
      end
  | Header env data =>
      let '(res, w) := write_body (c_w (conn s)) data in Some (return_send s t env res w)
  end.

(** The scheduler's choices. *)
Fixpoint send_run (lock : bool) (s : connEntry) (sched : list nat) : option connEntry :=
  match sched with
  | [] => Some s
  | t :: sched => s ← send_step lock s t; send_run lock s sched
  end.

Definition new_entry (c : Conn) (progs : nat → list Envelope) : connEntry :=
  {| conn := c; mu := None; at_pc := λ _, Outside; todo := progs; returned := [] |}.

(** The same calls made one after the other, errors included. *)
Fixpoint send_all (c : Conn) (envs : list Envelope) : list (outcome unit) * Conn :=
  match envs with
  | [] => ([], c)
  | env :: envs =>
      let '(res, c) := Conn_Send c env in
      let '(rs, c) := send_all c envs in (res :: rs, c)
  end.

(** What goroutine [t] sent in a list of calls, and what it is sending. *)
Definition sent_by (t : nat) (l : list (nat * Envelope * outcome unit)) : list Envelope :=
  map (λ x, x.1.2) (filter (λ x, x.1.1 = t) l).

Definition in_flight (p : pc) : list Envelope :=
  match p with Outside => [] | Entered env | Header env _ => [env] end.

(** * Facts *)

Lemma WriteMsg_writes w env :
  WriteMsg w env =
    match write_header w env with
    | (Ok data, w1) => write_body w1 data
    | (Err e, w1) => (Err e, w1)
    | (Panic, w1) => (Panic, w1)
    end.
Proof.
  unfold WriteMsg, write_header, write_body. destruct (proto_Marshal env) as [data|e|]; [|done..].
  case_match; [done|]. by destruct (Write w _) as [[[]|e|] w1].
Qed.

Lemma send_all_snoc c envs env rs c1 :
  send_all c envs = (rs, c1) →
  send_all c (envs ++ [env]) = let '(res, c2) := Conn_Send c1 env in (rs ++ [res], c2).
Proof.
  revert c rs. induction envs as [|x envs IH]; intros c rs; simpl.
  { intros [= <- <-]. by destruct (Conn_Send c env). }
  destruct (Conn_Send c x) as [r c2]. destruct (send_all c2 envs) as [rs2 c3] eqn:E.
  intros [= <- <-]. rewrite (IH _ _ E). by destruct (Conn_Send c3 env).
Qed.

Lemma sent_by_snoc t l u env res :
  sent_by t (l ++ [(u, env, res)]) = sent_by t l ++ (if decide (u = t) then [env] else []).
Proof.
  unfold sent_by. rewrite filter_app, map_app. f_equal. rewrite filter_cons. simpl. by case_decide.
Qed.

(** The calls that returned are the sequential ones that lead to [c]. *)
Definition replays (c0 : Conn) (l : list (nat * Envelope * outcome unit)) (c : Conn) : Prop :=
  send_all c0 (map (λ x, x.1.2) l) = (map snd l, c).

Lemma replays_snoc c0 l c t env res w :
  replays c0 l c → WriteMsg (c_w c) env = (res, w) →
  replays c0 (l ++ [(t, env, wrap "conn send: %w" res)]) (with_writer c w).
Proof.
  unfold replays. intros Hl Hw. rewrite !map_app. simpl. rewrite (send_all_snoc _ _ _ _ _ Hl).
  unfold Conn_Send. by rewrite Hw.
Qed.

(** What the holder of the lock has done of its call. *)
Definition holder_ok (c0 : Conn) (s : connEntry) (p : pc) : Prop :=
  match p with
  | Outside => False
  | Entered env => replays c0 (returned s) (conn s)
  | Header env data => ∃ c w, replays c0 (returned s) c ∧
      write_header (c_w c) env = (Ok data, w) ∧ conn s = with_writer c w
  end.

Record lock_inv (c0 : Conn) (progs : nat → list Envelope) (s : connEntry) : Prop := {
  li_excl t : mu s ≠ Some t → at_pc s t = Outside;
  li_conn : match mu s with None => replays c0 (returned s) (conn s) | Some t => holder_ok c0 s (at_pc s t) end;
  li_progs t : sent_by t (returned s) ++ in_flight (at_pc s t) ++ todo s t = progs t
}.

Lemma return_inv c0 progs s t env res w :
  lock_inv c0 progs s → mu s = Some t → in_flight (at_pc s t) = [env] →
  (∃ c, replays c0 (returned s) c ∧ WriteMsg (c_w c) env = (res, w) ∧ with_writer c w = with_writer (conn s) w) →
  lock_inv c0 progs (return_send s t env res w).
Proof.
  intros [He _ Hp] Hmu Hfl (c & Hrep & Hw & Hc). split; simpl.
  - intros u _. destruct (decide (u = t)) as [->|Hne]; [by rewrite fn_lookup_insert|].
    rewrite fn_lookup_insert_ne by done. apply He. congruence.
  - rewrite <- Hc. by apply replays_snoc.
  - intros u. rewrite sent_by_snoc, <- (Hp u). case_decide as Ht.
    + subst u. rewrite fn_lookup_insert, Hfl. by rewrite <- app_assoc.
    + rewrite fn_lookup_insert_ne by done. by rewrite app_nil_r.
Qed.

Lemma send_step_inv c0 progs s t s' :
  lock_inv c0 progs s → send_step true s t = Some s' → lock_inv c0 progs s'.
Proof.
  intros Hinv. pose proof Hinv as [He Hc Hp]. unfold send_step.
  destruct (at_pc s t) as [|env|env data] eqn:Epc.
  - destruct (todo s t) as [|env rest] eqn:Et; [done|]. cbn [andb].
    destruct (mu s) as [u|] eqn:Emu; [by rewrite bool_decide_true|].
    rewrite bool_decide_false by (by intros []). intros [= <-]. split; simpl.
    + intros u Hu. rewrite fn_lookup_insert_ne by congruence. by apply He.
    + by rewrite fn_lookup_insert.
    + intros u. rewrite <- (Hp u). destruct (decide (u = t)) as [->|Hne].
      * by rewrite !fn_lookup_insert, Epc, Et.
      * by rewrite !fn_lookup_insert_ne.
  - assert (mu s = Some t) as Hmu.
    { apply dec_stable. intros Hne. specialize (He t Hne). congruence. }
    rewrite Hmu, Epc in Hc. simpl in Hc. pose proof (WriteMsg_writes (c_w (conn s)) env) as Hw.
    destruct (write_header (c_w (conn s)) env) as [[data|e|] w] eqn:Eh; intros [= <-].
    + split; simpl.
      * intros u Hu. rewrite fn_lookup_insert_ne by congruence. by apply He.
      * rewrite Hmu, fn_lookup_insert. simpl. eauto.
      * intros u. rewrite <- (Hp u). destruct (decide (u = t)) as [->|Hne].
        -- by rewrite fn_lookup_insert, Epc.
        -- by rewrite fn_lookup_insert_ne.
    + apply return_inv; [done|done|by rewrite Epc|eauto].
    + apply return_inv; [done|done|by rewrite Epc|eauto].
  - assert (mu s = Some t) as Hmu.
    { apply dec_stable. intros Hne. specialize (He t Hne). congruence. }
    rewrite Hmu, Epc in Hc. destruct Hc as (c & w1 & Hrep & Hh & Hconn).
    destruct (write_body (c_w (conn s)) data) as [res w] eqn:Eb. intros [= <-].
    apply return_inv; [done|done|by rewrite Epc|]. exists c. split_and!; [done| |by rewrite Hconn].
    rewrite WriteMsg_writes, Hh, <- Eb, Hconn. done.
Qed.

Lemma send_run_inv c0 progs sched s s' :
  lock_inv c0 progs s → send_run true s sched = Some s' → lock_inv c0 progs s'.
Proof.
  revert s. induction sched as [|t sched IH]; intros s Hs; simpl; [by intros [= <-]|].
  destruct (send_step true s t) as [s1|] eqn:E; [|done]. by apply IH, (send_step_inv _ _ s t).
Qed.

Lemma new_entry_inv c progs : lock_inv c progs (new_entry c progs).
Proof. by split. Qed.

Lemma send_all_WriteMsgs c envs rs c' :
  send_all c envs = (rs, c') → Forall (.= Ok tt) rs → WriteMsgs (c_w c) envs = (Ok tt, c_w c').
Proof.
  revert c rs. induction envs as [|env envs IH]; intros c rs; simpl; [by intros [= <- <-]|].
  unfold Conn_Send. destruct (WriteMsg (c_w c) env) as [r w].
  destruct (send_all _ envs) as [rs2 c2] eqn:E. intros [= <- <-] [Hr Hrs]%Forall_cons.
  destruct r as [[]|e|]; [|done..]. by apply (IH _ _ E).
Qed.

End SendLock.

(** * Properties *)

(** C12. Whatever the scheduler does, goroutines that send through the entry send as if
    one after the other: when the mutex is free, the results and the connection are
    those of the calls made in sequence, each goroutine's messages are sent in its own
    order, at most one goroutine is inside [Send], and when no goroutine can go on all
    messages were sent. If no call failed, the peer reads exactly these messages. *)
Theorem sends_serialized `{ProtoLaws} (c : Conn) (progs : nat → list Envelope) (sched : list nat)
    (s : connEntry) :
  send_run true (new_entry c progs) sched = Some s →
  (∀ t u, at_pc s t ≠ Outside → at_pc s u ≠ Outside → t = u) ∧
  (∀ t, sent_by t (returned s) `prefix_of` progs t) ∧
  ((∀ t, send_step true s t = None) → mu s = None ∧ ∀ t, sent_by t (returned s) = progs t) ∧
  (mu s = None →
     let envs := map (λ x, x.1.2) (returned s) in
     send_all c envs = (map snd (returned s), conn s) ∧
     (Forall (.= Ok tt) (map snd (returned s)) →
      ∃ stream, w_out (c_w (conn s)) = w_out (c_w c) ++ stream ∧
        ∀ rest e, ReadMsgs (length envs) {| r_in := stream ++ rest; r_end := e |} =
                    (Ok envs, {| r_in := rest; r_end := e |}))).
Proof.
  intros Hrun. apply (send_run_inv c progs) in Hrun as [He Hc Hp]; [|apply new_entry_inv].
  assert (∀ t, at_pc s t ≠ Outside → mu s = Some t) as Hmu.
  { intros t Ht. apply dec_stable. intros Hne. by apply Ht, He. }
  split_and!.
  - intros t u Ht%Hmu Hu%Hmu. congruence.
  - intros t. eexists. symmetry. apply Hp.
  - intros Hstuck.
    assert (mu s = None) as Hnone.
    { destruct (mu s) as [t|] eqn:Et; [|done]. exfalso. specialize (Hstuck t). unfold send_step in Hstuck.
      destruct (at_pc s t); [done| |by destruct (write_body _ _)]. by destruct (write_header _ _) as [[]]. }
    split; [done|]. intros t. specialize (Hstuck t). unfold send_step in Hstuck.
    rewrite He, Hnone in Hstuck by (by rewrite Hnone). rewrite <- Hp, He by (by rewrite Hnone).
    destruct (todo s t); [by rewrite !app_nil_r|done].
  - intros Hnone. rewrite Hnone in Hc. split; [done|]. intros Hok.
    eapply WriteMsgs_stream, send_all_WriteMsgs; [exact Hc|done].
Qed.

(** * Witnesses *)

Module SendLockWitness.
Import TinyCodec.

Definition ack (n : Z) : Envelope := envelope (Envelope_CatalogAck {| CatalogAck_ReceivedCount := n |}).
Definition ask : Envelope := envelope (Envelope_FileRequest {| FileRequest_FileId := str "abc" |}).

Definition c0 : Conn :=
  {| c_w := {| w_out := []; w_room := None; w_err := net_ErrClosed |};
     c_r := {| r_in := []; r_end := io_EOF |}; PeerNodeID := zero_arr 32 |}.

(** The [Serve] loop sends two messages, a broadcast one. *)
Definition progs (t : nat) : list Envelope :=
  match t with 0%nat => [ack 1; ack 2] | 1%nat => [ask] | _ => [] end.

Definition sched : list nat := [0; 0; 0; 1; 1; 1; 0; 0; 0]%nat.

Definition s1 : connEntry := default (new_entry c0 progs) (send_run true (new_entry c0 progs) sched).

Lemma schedule_result :
  is_Some (send_run true (new_entry c0 progs) sched) ∧ mu s1 = None ∧
  returned s1 = [(0%nat, ack 1, Ok tt); (1%nat, ask, Ok tt); (0%nat, ack 2, Ok tt)].
Proof. split_and!; [apply (bool_decide_unpack _)|..]; by vm_compute. Qed.

Lemma sends_serialized_witness :
  send_all c0 [ack 1; ask; ack 2] = ([Ok tt; Ok tt; Ok tt], conn s1) ∧
  ∃ stream, w_out (c_w (conn s1)) = stream ∧
    ∀ rest e, ReadMsgs 3 {| r_in := stream ++ rest; r_end := e |} =
                (Ok [ack 1; ask; ack 2], {| r_in := rest; r_end := e |}).
Proof.
  destruct schedule_result as ([s Hs] & Hmu & Hret).
  assert (s1 = s) as Heq by (unfold s1; by rewrite Hs). rewrite Heq in *.
  destruct (sends_serialized c0 progs sched s Hs) as (_ & _ & _ & Hseq).
  specialize (Hseq Hmu). rewrite Hret in Hseq. destruct Hseq as [Hall Hread]. split; [exact Hall|].
  destruct Hread as (st & Hst & Hr); [by repeat constructor|]. exists st. split; [exact Hst|exact Hr].
Defined.

(** Without the mutex both sends succeed and the peer can read neither message. *)
Example unlocked_sends_garble :
  match send_run false (new_entry c0 (λ t, match t with 0%nat => [ack 1] | 1%nat => [ask] | _ => [] end))
          [0; 1; 0; 1; 0; 1]%nat with
  | Some s =>
      map snd (returned s) = [Ok tt; Ok tt] ∧
      match fst (ReadMsg {| r_in := w_out (c_w (conn s)); r_end := io_EOF |}) with
      | Ok env => env ≠ ack 1 ∧ env ≠ ask
      | _ => True
      end
  | None => False
  end.
Proof. by vm_compute. Qed.

End SendLockWitness.
