(* ===== verification/Endpoint.v ===== *)
(** The set-up of the transport, [internal/transport]: the self-signed certificate of
    an identity and the TLS configurations ([tls.go]), binding a listener and
    dialing from a fresh socket ([listener.go], [dialer.go]), and closing
    ([conn.go]). X.509, PEM and TLS are the class [CertOps]; what the sockets and
    QUIC answer is a record of outcomes. The log of a call lists what it opened and
    closed, in order. *)

From S2P Require Import Prelude GoStd Io Framing Crypto Sha256 Path Fs Identity Transport.

(** * tls.go *)

Definition alpnKin : bytes := str "kin/1".

(** The template of [GenerateSelfSignedCert]; times in nanoseconds. *)
Record Template := mk_Template {
  SerialNumber : Z;
  CommonName : bytes;
  NotBefore : Z;
  NotAfter : Z;
  DigitalSignature : bool
}.

(** [tls.Certificate]: the chain that is presented. *)
Record TLSCert := mk_TLSCert { cert_chain : list bytes }.

Class CertOps := {
  CreateCertificate : Template → bytes → bytes → outcome bytes;
  MarshalPKCS8PrivateKey : bytes → outcome bytes;
  EncodeToMemory : string → bytes → bytes;
  X509KeyPair : bytes → bytes → outcome TLSCert
}.

(** A created certificate carries the public key it was created for, and a key pair
    made from its PEM form presents exactly it. *)
Class CertLaws `{CertOps} `{X509} : Prop := {
  created_key tmpl pub priv der :
    CreateCertificate tmpl pub priv = Ok der → ParseCertificate der = Ok (mk_Certificate (Some pub));
  pair_chain der key c :
    X509KeyPair (EncodeToMemory "CERTIFICATE" der) (EncodeToMemory "PRIVATE KEY" key) = Ok c →
    cert_chain c = [der]
}.

Definition second : Z := 10 ^ 9.
Definition year : Z := 365 * 24 * 3600 * second.

Section Certs.
Context `{Ed25519} `{CertOps} `{X509}.

Definition template (now : Z) : Template := {|
  SerialNumber := 1; CommonName := str "kin"; NotBefore := now - 60 * second;
  NotAfter := now + 10 * year; DigitalSignature := true
|}.

Definition GenerateSelfSignedCert (now : Z) (priv : bytes) : outcome TLSCert :=
  pub ← Public priv;
  certDER ← wrap "create certificate: %w" (CreateCertificate (template now) pub priv);
  let certPEM := EncodeToMemory "CERTIFICATE" certDER in
  keyDER ← wrap "marshal private key: %w" (MarshalPKCS8PrivateKey priv);
  let keyPEM := EncodeToMemory "PRIVATE KEY" keyDER in
  wrap "load key pair: %w" (X509KeyPair certPEM keyPEM).

Definition certFromIdentity (now : Z) (id : Identity) : outcome TLSCert :=
  wrap "%s: generate cert: %w" (GenerateSelfSignedCert now (Id_PrivKey id)).

Inductive client_auth := NoClientCert | RequireAnyClientCert.

(** [tls.Config], without [Time] and [Rand]; [MinVersion] is TLS 1.3 in all of them. *)
Record Config := mk_Config {
  cfg_Certificates : list TLSCert;
  cfg_ClientAuth : client_auth;
  cfg_InsecureSkipVerify : bool;
  cfg_NextProtos : list bytes;
  cfg_VerifyPeerCertificate : option (list bytes → outcome unit)
}.

Definition serverTLSConfig (cert : TLSCert) : Config :=
  mk_Config [cert] RequireAnyClientCert true [alpnKin] None.

Definition clientTLSConfig (cert : TLSCert) (expectedNodeID : node_id) : Config :=
  mk_Config [cert] NoClientCert true [alpnKin] (Some (VerifyPeerCertificate expectedNodeID)).

(** * listener.go, dialer.go *)

(** [quic.Config], in seconds. *)
Record QuicConfig := mk_QuicConfig { MaxIdleTimeout : Z; KeepAlivePeriod : Z; HandshakeIdleTimeout : Z }.
Definition defaultQUICConfig : QuicConfig := mk_QuicConfig 30 15 5.

Inductive act :=
| SocketOpened | SocketClosed | TransportClosed | ListenerClosed | StreamClosed
| ConnClosed (reason : string).

Record Listener := mk_Listener { l_cert : TLSCert; l_port : Z }.

(** What resolving, binding and [quic.Transport] answer; [n_port] is the port that was
    bound. *)
Record Net := mk_Net {
  n_resolve : bytes → outcome bytes;
  n_listenUDP : bytes → outcome unit;
  n_port : Z;
  n_quicListen : Config → QuicConfig → outcome unit;
  n_quicDial : bytes → Config → QuicConfig → outcome Session
}.

(** The rest of a call, with what it does to the log. *)
Definition logging {A} (a : list act) (r : outcome A * list act) : outcome A * list act :=
  let '(res, log) := r in (res, a ++ log).

(** [x, err := r; if err != nil { cleanup; return fmt.Errorf(format, err) }]. *)
Definition checked {A R} (format : string) (r : outcome A) (cleanup : list act)
    (k : A → outcome R * list act) : outcome R * list act :=
  match wrap format r with
  | Ok a => k a
  | Err e => (Err e, cleanup)
  | Panic => (Panic, [])
  end.

Definition Listen (now : Z) (n : Net) (addr : bytes) (id : Identity) : outcome Listener * list act :=
  match certFromIdentity now id with
  | Err e => (Err e, [])
  | Panic => (Panic, [])
  | Ok cert =>
      checked "resolve %s: %w" (n_resolve n addr) [] (λ udpAddr,
      checked "listen udp %s: %w" (n_listenUDP n udpAddr) [] (λ _,
      logging [SocketOpened]
        (checked "quic listen: %w" (n_quicListen n (serverTLSConfig cert) defaultQUICConfig) [TransportClosed] (λ _,
         (Ok (mk_Listener cert (to_uint16 (n_port n))), [])))))
  end.

(** [Listener.Close]; [errors.Join] of the two results. *)
Definition Listener_Close (closeListener closeTransport : outcome unit) : outcome unit * list act :=
  (match closeListener, closeTransport with
   | Ok _, r => r
   | r, Ok _ => r
   | _, _ => Err (Errorf "%w\n%w" [])
   end, [ListenerClosed; TransportClosed]).

(** [openDialStream] with the connection it closes. *)
Definition open_logged (s : Session) : outcome (Writer * Reader) * list act :=
  match stream s with
  | Ok _ =>
      match openDialStream s with
      | Ok st => (Ok st, [])
      | Err e => (Err e, [ConnClosed "prime"])
      | Panic => (Panic, [])
      end
  | _ => (openDialStream s, [ConnClosed "open-stream"])
  end.

Definition conn_of (st : Writer * Reader) (peerNodeID : node_id) : Conn :=
  {| c_w := st.1; c_r := st.2; PeerNodeID := peerNodeID |}.

(** [Listener.Dial] with its log. *)
Definition dial_shared (n : Net) (l : Listener) (peerAddr : bytes) (peerNodeID : node_id) :
    outcome Conn * list act :=
  checked "resolve %s: %w" (n_resolve n peerAddr) [] (λ udpAddr,
  checked "quic dial %s: %w"
    (n_quicDial n udpAddr (clientTLSConfig (l_cert l) peerNodeID) defaultQUICConfig) [] (λ qConn,
  let '(st, log) := open_logged qConn in
  (st ← st; Ok (conn_of st peerNodeID), log))).

Definition DialContext (now : Z) (n : Net) (addr : bytes) (id : Identity) (expectedNodeID : node_id) :
    outcome Conn * list act :=
  checked "resolve %s: %w" (n_resolve n addr) [] (λ udpAddr,
  checked "dial: open udp socket: %w" (n_listenUDP n (str "0.0.0.0:0")) [] (λ _,
  logging [SocketOpened]
    match certFromIdentity now id with
    | Err e => (Err e, [SocketClosed])
    | Panic => (Panic, [])
    | Ok cert =>
        checked "quic dial %s: %w"
          (n_quicDial n udpAddr (clientTLSConfig cert expectedNodeID) defaultQUICConfig) [TransportClosed] (λ qConn,
        let '(st, log) := open_logged qConn in
        match st with
        | Ok st => (Ok (conn_of st expectedNodeID), log)
        | Err e => (Err e, log ++ [TransportClosed])
        | Panic => (Panic, log)
        end)
    end)).

Definition Dial (now : Z) (n : Net) (addr : bytes) (id : Identity) (expectedNodeID : node_id) :
    outcome Conn * list act :=
  DialContext now n addr id expectedNodeID.

(** * conn.go *)

(** The closing state of a connection: [closeOnce] and [closeErr], and whether it owns
    its transport. *)
Record Closing := mk_Closing { closed_once : bool; closeErr : outcome unit; owned : bool }.

Definition newConn : Closing := mk_Closing false (Ok tt) false.
Definition newOwnedConn : Closing := mk_Closing false (Ok tt) true.

(** The goroutine of [newOwnedConn], when the connection has ended. *)
Definition connection_ended (c : Closing) : list act := if owned c then [TransportClosed] else [].

(** [Conn.Close]; [r] is what closing the stream returns. *)
Definition Conn_Close (r : outcome unit) (c : Closing) : outcome unit * Closing * list act :=
  if closed_once c then (closeErr c, c, [])
  else (r, mk_Closing true r (owned c), [StreamClosed]).

End Certs.

(** * Facts *)

Section Facts.
Context `{Ed25519} `{CertLaws}.

(** The key that an identity was made from belongs to its node id. *)
Definition own_key (id : Identity) : Prop :=
  ∃ pub, Public (Id_PrivKey id) = Ok pub ∧ Id_PubKey id = pub ∧ Id_NodeID id = Sum256 pub.

Lemma fromSeed_own_key seed id : fromSeed seed = Ok id → own_key id.
Proof. unfold fromSeed. intros (priv & _ & (pub & Hp & [= <-])%bind_Ok)%bind_Ok. by exists pub. Qed.

Lemma Load_own_key fs dir id : Load fs dir = Ok id → own_key id.
Proof.
  unfold Load. intros (seed & _ & Hs)%bind_Ok. destruct (negb _); [done|]. by eapply fromSeed_own_key.
Qed.

Lemma LoadOrGenerate_own_key rand fs dir id fs' :
  LoadOrGenerate rand fs dir = (Ok id, fs') → own_key id.
Proof.
  unfold LoadOrGenerate. destruct (Load fs dir) as [i|e|] eqn:E; [|..|done].
  { intros [= <- _]. by eapply Load_own_key. }
  destruct (negb _); [done|]. destruct (wrap _ (Generate rand)) as [i|e'|] eqn:G; [|done|done].
  apply wrap_Ok in G. unfold Generate in G. apply bind_Ok in G as (seed & _ & Hs).
  destruct (Save fs i dir) as [res fs1]. destruct (wrap _ res); [|done|done]. intros [= <- _].
  by eapply fromSeed_own_key.
Qed.

(** The certificate of an identity is a chain of one certificate for its key. *)
Lemma certFromIdentity_chain now id cert :
  own_key id → certFromIdentity now id = Ok cert →
  ∃ der, cert_chain cert = [der] ∧ ParseCertificate der = Ok (mk_Certificate (Some (Id_PubKey id))) ∧
         Id_NodeID id = Sum256 (Id_PubKey id).
Proof.
  intros (pub & Hpub & <- & Hid) Hc%wrap_Ok. unfold GenerateSelfSignedCert in Hc. rewrite Hpub in Hc.
  cbn [mbind outcome_bind] in Hc. apply bind_Ok in Hc as (der & Hder%wrap_Ok & Hc).
  apply bind_Ok in Hc as (key & _ & Hpair%wrap_Ok).
  exists der. split_and!; [by eapply pair_chain|by eapply created_key|done].
Qed.

Lemma Verify_single expected der pub :
  ParseCertificate der = Ok (mk_Certificate (Some pub)) →
  (VerifyPeerCertificate expected [der] = Ok tt ↔ expected = Sum256 pub).
Proof.
  intros Hder. unfold VerifyPeerCertificate. cbn [parseCerts]. rewrite Hder. simpl.
  case_bool_decide as E; simpl; split; try done; congruence.
Qed.

(** ** Dialing with the log is dialing *)

Definition quic_of (n : Net) (cert : TLSCert) : Quic := {|
  ResolveUDPAddr := n_resolve n;
  quic_Dial addr verify :=
    n_quicDial n addr (mk_Config [cert] NoClientCert true [alpnKin] (Some verify)) defaultQUICConfig
|}.

Lemma open_logged_fst s : fst (open_logged s) = openDialStream s.
Proof. unfold open_logged. destruct (stream s); [|done|done]. by destruct (openDialStream s). Qed.

Lemma dial_shared_Dial n l addr peer :
  fst (dial_shared n l addr peer) = @Listener_Dial _ (quic_of n (l_cert l)) addr peer.
Proof.
  unfold dial_shared, checked, Listener_Dial. cbn [ResolveUDPAddr quic_of quic_Dial].
  destruct (wrap _ (n_resolve n addr)) as [udp|e|]; [|done|done]. cbn [mbind outcome_bind].
  unfold clientTLSConfig. destruct (wrap _ (n_quicDial _ _ _ _)) as [q|e|]; [|done|done].
  cbn [mbind outcome_bind]. rewrite <- open_logged_fst. by destruct (open_logged q) as [[st|e|] log].
Qed.

(** ** What stays open *)

(** The sockets that are open after a log. [closes] tells whether closing a
    [quic.Transport] closes the socket it was given. *)
Definition held (closes : bool) (log : list act) : nat :=
  foldl (λ k a, match a with
                | SocketOpened => S k
                | SocketClosed => pred k
                | TransportClosed => if closes then pred k else k
                | _ => k
                end) O log.

Lemma Listen_held closes now n addr id :
  match Listen now n addr id with
  | (Ok _, log) => held closes log = 1%nat
  | (Err _, log) => closes = true → held closes log = 0%nat
  | (Panic, _) => True
  end.
Proof.
  unfold Listen, checked, logging. destruct (certFromIdentity now id) as [cert|e|]; try done.
  repeat (destruct (wrap _ _); [|by intros ->|done]). done.
Qed.

Lemma open_logged_held s log st :
  open_logged s = (st, log) → log = [] ∨ ∃ r, log = [ConnClosed r].
Proof.
  unfold open_logged. destruct (stream s) as [p|e|].
  - destruct (openDialStream s); intros [= _ <-]; eauto.
  - intros [= _ <-]. eauto.
  - intros [= _ <-]. eauto.
Qed.

Lemma DialContext_held closes now n addr id peer :
  match DialContext now n addr id peer with
  | (Ok _, log) => held closes log = 1%nat
  | (Err _, log) => closes = true → held closes log = 0%nat
  | (Panic, _) => True
  end.
Proof.
  unfold DialContext, checked, logging. destruct (wrap _ (n_resolve n addr)); [|done|done].
  destruct (wrap _ (n_listenUDP _ _)); [|done|done]. destruct (certFromIdentity now id); [|done|done].
  destruct (wrap _ (n_quicDial _ _ _ _)) as [q|e|]; [|by intros ->|done].
  destruct (open_logged q) as [st log] eqn:E. apply open_logged_held in E.
  destruct st, E as [->|[r ->]]; try done; by intros ->.
Qed.

End Facts.

(** The results and the log of several calls of [Close]; [rs] is what closing the
    stream would return each time. *)
Fixpoint Conn_Closes (rs : list (outcome unit)) (c : Closing) : list (outcome unit) * list act :=
  match rs with
  | [] => ([], [])
  | r :: rs' =>
      let '(res, c, log) := Conn_Close r c in
      let '(ress, logs) := Conn_Closes rs' c in (res :: ress, log ++ logs)
  end.

Lemma Conn_Closes_after rs c :
  closed_once c = true → Conn_Closes rs c = (map (λ _, closeErr c) rs, []).
Proof.
  intros Hc. induction rs as [|r rs IH]; [done|]. cbn [Conn_Closes]. unfold Conn_Close. rewrite Hc, IH. done.
Qed.

(** * Properties *)

(** C22. The certificate proves the node id: whatever identity a node loads or
    generates at start-up, the certificate that it presents is accepted by a
    dialer's check exactly when the dialer expects that identity's node id, and an
    acceptor extracts exactly that node id from it. *)
Theorem certificate_binds_identity `{Ed25519} `{CertLaws} (rand : outcome bytes) (fs fs' : FS)
    (dir : bytes) (id : Identity) (now : Z) (cert mine : TLSCert) (expected : node_id) :
  LoadOrGenerate rand fs dir = (Ok id, fs') →
  certFromIdentity now id = Ok cert →
  (∃ verify, cfg_VerifyPeerCertificate (clientTLSConfig mine expected) = Some verify ∧
     (verify (cert_chain cert) = Ok tt ↔ expected = Id_NodeID id)) ∧
  (certs ← parseCerts (cert_chain cert); NodeIDFromCert certs) = Ok (Id_NodeID id).
Proof.
  intros Hid%LoadOrGenerate_own_key Hc.
  destruct (certFromIdentity_chain _ _ _ Hid Hc) as (der & -> & Hp & ->). split.
  - eexists. split; [reflexivity|]. by apply Verify_single.
  - cbn [parseCerts]. by rewrite Hp.
Qed.

(** Sockets are accounted for: a [Listen] or [Dial] that succeeds holds one UDP
    socket; closing the listener, or the end of the dialed connection, releases it
    exactly when closing a QUIC transport closes its socket, and then a [Listen] or
    [Dial] that fails leaves none open; and however often a connection is closed,
    its stream is closed once and every call returns the first result. *)
Theorem sockets_released `{Ed25519} `{CertOps} `{X509} (closes : bool) (now : Z) (n : Net) (addr : bytes) (id : Identity)
    (peer : node_id) (r : outcome unit) (rs : list (outcome unit)) (ln tr : outcome unit) :
  match Listen now n addr id with
  | (Ok _, log) =>
      held closes log = 1%nat ∧
      (held closes (log ++ snd (Listener_Close ln tr)) = 0%nat ↔ closes = true)
  | (Err _, log) => closes = true → held closes log = 0%nat
  | (Panic, _) => True
  end ∧
  match Dial now n addr id peer with
  | (Ok _, log) =>
      held closes log = 1%nat ∧
      (held closes (log ++ connection_ended newOwnedConn) = 0%nat ↔ closes = true)
  | (Err _, log) => closes = true → held closes log = 0%nat
  | (Panic, _) => True
  end ∧
  Conn_Closes (r :: rs) newOwnedConn = (map (λ _, r) (r :: rs), [StreamClosed]).
Proof.
  split_and!.
  - pose proof (Listen_held closes now n addr id) as Hl. destruct (Listen now n addr id) as [[l|e|] log]; [|done|done].
    unfold held in *. rewrite foldl_app, Hl. by destruct closes.
  - unfold Dial. pose proof (DialContext_held closes now n addr id peer) as Hd.
    destruct (DialContext now n addr id peer) as [[c|e|] log]; [|done|done].
    unfold held in *. rewrite foldl_app, Hd. by destruct closes.
  - cbn [Conn_Closes]. unfold Conn_Close at 1. cbn [newOwnedConn closed_once].
    by rewrite Conn_Closes_after.
Qed.

(** * Witnesses *)

Module EndpointWitness.
Import ToySig.

(** A certificate is the public key itself. *)
#[local] Instance x509 : X509 := {| ParseCertificate raw := Ok (mk_Certificate (Some raw)) |}.
#[local] Instance certs : CertOps := {|
  CreateCertificate _ pub _ := Ok pub;
  MarshalPKCS8PrivateKey k := Ok k;
  EncodeToMemory _ b := b;
  X509KeyPair c _ := Ok (mk_TLSCert [c])
|}.
#[local] Instance cert_laws : CertLaws.
Proof. split; simpl; [by intros ???? [= ->]|by intros ??? [= <-]]. Qed.

Definition seed : bytes := replicate 32 Byte.x07.
Definition fs0 : FS := mk_FS {[ str "/c" := Dir ]} (λ _, None).
Definition node : Identity := {| Id_PrivKey := seed ++ seed; Id_PubKey := seed; Id_NodeID := Sum256 seed |}.

Lemma certificate_binds_identity_witness :
  VerifyPeerCertificate (Sum256 seed) [seed] = Ok tt.
Proof.
  destruct (certificate_binds_identity (Ok seed) fs0 (snd (LoadOrGenerate (Ok seed) fs0 (str "/c"))) (str "/c")
    node 0 (mk_TLSCert [seed]) (mk_TLSCert []) (Sum256 seed)) as [(v & Hv & Hiff) _];
    [apply pair_fst; by vm_compute|done|].
  injection Hv as <-. by apply Hiff.
Defined.

(** QUIC refuses to listen, and dials fail. *)
Definition net0 : Net :=
  mk_Net Ok (λ _, Ok tt) 7777 (λ _ _, Err (Sentinel "no listener")) (λ _ _ _, Err (Sentinel "timeout")).

Lemma sockets_released_witness :
  Listen 0 net0 (str "h:1") node = (Err (Wrapf "quic listen: %w" (Sentinel "no listener")), [SocketOpened; TransportClosed]) ∧
  held true [SocketOpened; TransportClosed] = 0%nat ∧
  Conn_Closes [Ok tt; Err io_EOF] newOwnedConn = ([Ok tt; Ok tt], [StreamClosed]).
Proof.
  destruct (sockets_released true 0 net0 (str "h:1") node (Sum256 seed) (Ok tt) [Err io_EOF] (Ok tt) (Ok tt))
    as (Hl & _ & Hc).
  split; [done|]. split; [|exact Hc]. exact (Hl eq_refl).
Defined.

End EndpointWitness.
