(* ===== verification/Connmgr.v ===== *)
(** Connection establishment, [internal/connmgr] and [internal/nat]: direct QUIC to
    the plain endpoints of a peer first, then relay-assisted hole punching. What
    the listener and the relay answer are the fields of [Network]. *)

From S2P Require Import Prelude GoStd GoText Wire Transport RelayClient.

Definition ErrNoRoute : error := Sentinel "connmgr: no route to peer".
Definition ErrPunchFailed : error := Sentinel "nat: hole punch failed".

(** [Listener.Dial], [Listener.DiscoverExternalAddr], [Listener.Port],
    [Listener.Prime], [punchCtx.Err()] before each packet of a prime burst, and a
    relay session: [relay.Connect] followed by [RequestRendezvous] for a node. *)
Record Network := mk_Network {
  ln_Dial : bytes → node_id → outcome Conn;
  ln_Discover : bytes → outcome bytes;
  ln_Port : Z;
  ln_Prime : bytes → outcome unit;
  punch_ctx : nat → option error;
  relay_Connect : bytes → Z → outcome unit;
  relay_Request : bytes → node_id → outcome RendezvousInfo
}.

(** * Addresses *)

Definition relay_scheme : bytes := str "relay://".

Fixpoint splitEndpoints (endpoints : list bytes) : list bytes * list bytes :=
  match endpoints with
  | [] => ([], [])
  | ep :: endpoints' =>
      let '(direct, relayAddrs) := splitEndpoints endpoints' in
      if HasPrefix ep relay_scheme then (direct, TrimPrefix ep relay_scheme :: relayAddrs)
      else (ep :: direct, relayAddrs)
  end.

Definition externalPort (net : Network) (relayAddr : bytes) : Z :=
  match ln_Discover net relayAddr with
  | Ok ext =>
      match SplitHostPort ext with
      | Ok (_, portStr) =>
          match ParseUint32 portStr with
          | Ok p => if p =? 0 then to_uint32 (ln_Port net) else to_uint32 p
          | _ => to_uint32 (ln_Port net)
          end
      | _ => to_uint32 (ln_Port net)
      end
  | _ => to_uint32 (ln_Port net)
  end.

(** * nat/punch.go *)

Definition primeBurst : nat := 5.

(** The packets of a burst; [ctx i] is [ctx.Err()] before the [i]-th packet, which
    also stands for a cancellation during the pause before it. Errors are logged. *)
Fixpoint PrimeNAT_from (ctx : nat → option error) (net : Network) (peerAddr : bytes) (i n : nat) :
    list (outcome unit) :=
  match n with
  | O => []
  | S n' =>
      match ctx i with
      | Some _ => []
      | None => ln_Prime net peerAddr :: PrimeNAT_from ctx net peerAddr (S i) n'
      end
  end.

Definition PrimeNAT (ctx : nat → option error) (net : Network) (peerAddr : bytes) :
    list (outcome unit) :=
  PrimeNAT_from ctx net peerAddr 0 primeBurst.

(** The packets of the burst, and the dial that follows it. *)
Definition Punch (net : Network) (peerAddr : bytes) (peerNodeID : node_id) :
    list (outcome unit) * outcome Conn :=
  (PrimeNAT (punch_ctx net) net peerAddr,
   match ln_Dial net peerAddr peerNodeID with
   | Ok conn => Ok conn
   | Err _ => Err (Wrapf "%w: dial %s: %v" ErrPunchFailed)
   | Panic => Panic
   end).

(** * dial.go *)

(** An attempt to reach a peer. *)
Inductive route := Direct (ep : bytes) | ViaRelay (addr : bytes).

Definition punchViaRelay (net : Network) (peerNodeID : node_id) (relayAddr : bytes) : outcome Conn :=
  _ ← wrap "relay %s: %w" (relay_Connect net relayAddr (externalPort net relayAddr));
  rv ← wrap "rendezvous: %w" (relay_Request net relayAddr peerNodeID);
  let '(_, punched) := Punch net (RI_PeerExternalAddr rv) peerNodeID in
  wrap "punch: %w" punched.

(** [tryEach], with the addresses it tried. *)
Fixpoint tryEach_from (lastErr : option error) (addrs : list bytes) (try : bytes → outcome Conn) :
    outcome Conn * list bytes :=
  match addrs with
  | [] => (Err (default ErrNoRoute lastErr), [])
  | addr :: addrs' =>
      match try addr with
      | Ok conn => (Ok conn, [addr])
      | Err e => let '(res, tried) := tryEach_from (Some e) addrs' try in (res, addr :: tried)
      | Panic => (Panic, [addr])
      end
  end.

Definition tryEach (addrs : list bytes) (try : bytes → outcome Conn) : outcome Conn * list bytes :=
  tryEach_from None addrs try.

(** [Dialer.Dial], with the routes it tried in order. *)
Definition Dial (net : Network) (peerNodeID : node_id) (endpoints : list bytes) :
    outcome Conn * list route :=
  let '(direct, relayAddrs) := splitEndpoints endpoints in
  let '(res, tried) := tryEach direct (λ ep, ln_Dial net ep peerNodeID) in
  match res with
  | Ok conn => (Ok conn, map Direct tried)
  | Panic => (Panic, map Direct tried)
  | Err _ =>
      let '(res, tried') := tryEach relayAddrs (punchViaRelay net peerNodeID) in
      (match res with Ok conn => Ok conn | Err _ => Err ErrNoRoute | Panic => Panic end,
       map Direct tried ++ map ViaRelay tried')
  end.

(** * serve.go *)

(** What the loop of [ServePunch] waits for. *)
Inductive serve_event :=
  | CtxDone (e : error)
  | Incoming (rv : RendezvousInfo)
  | IncomingClosed.

Definition relay_lost : error := Errorf "connmgr: relay connection lost" [].

(** The result, and the bursts of the goroutines it started with their addresses; the
    list ends before the loop does when nothing has stopped it yet. *)
Fixpoint ServePunch_loop (ctx : nat → option error) (net : Network) (evs : list serve_event) :
    option error * list (bytes * list (outcome unit)) :=
  match evs with
  | [] => (None, [])
  | CtxDone e :: _ => (Some e, [])
  | IncomingClosed :: _ => (Some relay_lost, [])
  | Incoming rv :: evs' =>
      let '(res, bursts) := ServePunch_loop ctx net evs' in
      (res, (RI_PeerExternalAddr rv, PrimeNAT ctx net (RI_PeerExternalAddr rv)) :: bursts)
  end.

Definition ServePunch (ctx : nat → option error) (net : Network) (relayAddr : bytes)
    (evs : list serve_event) : outcome (option error * list (bytes * list (outcome unit))) :=
  let port := externalPort net relayAddr in
  _ ← wrap "relay connect: %w" (relay_Connect net relayAddr port);
  Ok (ServePunch_loop ctx net evs).

(** * Facts *)

(** The routes of a list of endpoints in the order they are tried. *)
Definition routes (endpoints : list bytes) : list route :=
  map Direct (fst (splitEndpoints endpoints)) ++ map ViaRelay (snd (splitEndpoints endpoints)).

Definition attempt (net : Network) (peer : node_id) (r : route) : outcome Conn :=
  match r with
  | Direct ep => ln_Dial net ep peer
  | ViaRelay addr => punchViaRelay net peer addr
  end.

(** A list of attempts ends at its first success: the ones before it failed. *)
Lemma tryEach_spec last addrs (try : bytes → outcome Conn) :
  (∀ a, try a ≠ Panic) →
  let '(res, tried) := tryEach_from last addrs try in
  (∃ c pre a post, res = Ok c ∧ addrs = pre ++ a :: post ∧ tried = pre ++ [a] ∧ try a = Ok c ∧
     Forall (λ b, is_Ok (try b) = false) pre) ∨
  (∃ e, res = Err e ∧ tried = addrs ∧ Forall (λ b, is_Ok (try b) = false) addrs).
Proof.
  intros Hp. revert last. induction addrs as [|a addrs IH]; intros last; simpl.
  { right. eexists. split_and!; [done|done|constructor]. }
  specialize (Hp a). destruct (try a) as [c|e|] eqn:Ha; [|..|done].
  { left. exists c, [], a, addrs. split_and!; done. }
  specialize (IH (Some e)). destruct (tryEach_from (Some e) addrs try) as [res tried].
  destruct IH as [(c & pre & b & post & -> & -> & -> & Hb & Hpre)|(e' & -> & -> & Hall)].
  - left. exists c, (a :: pre), b, post. split_and!; try done. constructor; [by rewrite Ha|done].
  - right. exists e'. split_and!; try done. constructor; [by rewrite Ha|done].
Qed.

Lemma punchViaRelay_dials net peer addr c :
  punchViaRelay net peer addr = Ok c → ∃ a, ln_Dial net a peer = Ok c.
Proof.
  unfold punchViaRelay. intros (? & _ & (rv & _ & Hp%wrap_Ok)%bind_Ok)%bind_Ok.
  cbn in Hp. destruct (ln_Dial net (RI_PeerExternalAddr rv) peer) eqn:E; simplify_eq. eauto.
Qed.

Lemma splitEndpoints_perm endpoints :
  routes endpoints ≡ₚ
  map (λ ep, if HasPrefix ep relay_scheme then ViaRelay (TrimPrefix ep relay_scheme) else Direct ep)
      endpoints.
Proof.
  unfold routes. induction endpoints as [|ep endpoints IH]; [done|].
  cbn [splitEndpoints map]. destruct (splitEndpoints endpoints) as [direct relays].
  destruct (HasPrefix ep relay_scheme); cbn [map app]; rewrite <- IH; [|reflexivity].
  symmetry. apply Permutation_middle.
Qed.

(** * Properties *)

(** A dial takes the first route that works: the routes are the peer's endpoints,
    direct ones before relays; the ones tried are an initial part of them, all but
    the last failed, and the result is the last one's connection, or
    [ErrNoRoute] when all were tried and failed. A relay cannot substitute another
    node: when the listener authenticates the nodes it dials, the connection is to
    the requested one on every route. *)
Theorem Dial_first_route (net : Network) (peer : node_id) (endpoints : list bytes)
    (res : outcome Conn) (tried : list route) :
  (∀ r, attempt net peer r ≠ Panic) →
  Dial net peer endpoints = (res, tried) →
  ((∃ c pre r post, res = Ok c ∧ routes endpoints = pre ++ r :: post ∧ tried = pre ++ [r] ∧
      attempt net peer r = Ok c ∧ Forall (λ r, is_Ok (attempt net peer r) = false) pre ∧
      ((∀ a c, ln_Dial net a peer = Ok c → PeerNodeID c = peer) → PeerNodeID c = peer)) ∨
   (res = Err ErrNoRoute ∧ tried = routes endpoints ∧
      Forall (λ r, is_Ok (attempt net peer r) = false) (routes endpoints))).
Proof.
  intros Hp. unfold Dial, routes. destruct (splitEndpoints endpoints) as [direct relays]. simpl.
  pose proof (tryEach_spec None direct (λ ep, ln_Dial net ep peer) (λ a, Hp (Direct a))) as Hd.
  unfold tryEach. destruct (tryEach_from None direct _) as [r1 t1].
  destruct Hd as [(c & pre & a & post & -> & -> & -> & Ha & Hpre)|(e & -> & -> & Hall)].
  { intros [= <- <-]. left. exists c, (map Direct pre), (Direct a), (map Direct post ++ map ViaRelay relays).
    split_and!; [done| |by rewrite map_app|done|by apply Forall_fmap|intros Hauth; by apply (Hauth a)].
    by rewrite map_app, <- app_assoc. }
  assert (Forall (λ r, is_Ok (attempt net peer r) = false) (map Direct direct)) as Hall'
    by (by apply Forall_fmap).
  pose proof (tryEach_spec None relays (punchViaRelay net peer) (λ a, Hp (ViaRelay a))) as Hr.
  destruct (tryEach_from None relays _) as [r2 t2].
  destruct Hr as [(c & pre & a & post & -> & -> & -> & Ha & Hpre)|(e' & -> & -> & Hall2)];
    intros [= <- <-].
  - left. exists c, (map Direct direct ++ map ViaRelay pre), (ViaRelay a), (map ViaRelay post).
    split_and!; [done| | |done| |].
    + by rewrite map_app, <- app_assoc.
    + by rewrite map_app, app_assoc.
    + apply Forall_app. split; [done|by apply Forall_fmap].
    + intros Hauth. apply punchViaRelay_dials in Ha as [b Hb]. by apply (Hauth b).
  - right. split_and!; [done|done|]. apply Forall_app. split; [done|by apply Forall_fmap].
Qed.

(** * Witnesses *)

Module ConnmgrWitness.

Definition bob : node_id := copy_arr 32 (str "bob").
Definition evil : node_id := copy_arr 32 (str "evil").
Definition conn : Conn := mk_Conn (Io.Build_Writer [] None io_EOF) (Io.Build_Reader [] io_EOF) bob.

(** The direct endpoint is down; the relay claims another identity. *)
Definition net : Network := {|
  ln_Dial a n := if bool_decide (a = str "9.9.9.9:9") && bool_decide (n = bob) then Ok conn
                 else Err (Errorf "refused" []);
  ln_Discover a := Ok (str "1.2.3.4:4242");
  ln_Port := 7;
  ln_Prime a := Ok tt;
  punch_ctx i := None;
  relay_Connect a p := Ok tt;
  relay_Request a n := Ok (mk_RendezvousInfo evil [] (str "9.9.9.9:9"))
|}.

Definition endpoints : list bytes := [str "relay://r:1"; str "h:1"].

Lemma dial_value :
  Dial net bob endpoints = (Ok conn, [Direct (str "h:1"); ViaRelay (str "r:1")]) ∧
  externalPort net (str "r:1") = 4242 ∧
  SplitHostPort (str "[::1]:80") = Ok (str "::1", str "80") ∧
  is_Ok (SplitHostPort (str "::1:80")) = false ∧
  ServePunch (λ _, None) net (str "r:1") [Incoming (mk_RendezvousInfo evil [] (str "9.9.9.9:9")); IncomingClosed] =
    Ok (Some relay_lost, [(str "9.9.9.9:9", replicate 5 (Ok tt))]).
Proof. by vm_compute. Qed.

Lemma net_no_panic r : attempt net bob r ≠ Panic.
Proof. destruct r as [ep|a]; simpl; [by case_match|]. by vm_compute. Qed.

Lemma Dial_first_route_witness :
  (∃ c pre r post, Ok conn = Ok c ∧ routes endpoints = pre ++ r :: post ∧
     [Direct (str "h:1"); ViaRelay (str "r:1")] = pre ++ [r] ∧
     attempt net bob r = Ok c ∧ Forall (λ r, is_Ok (attempt net bob r) = false) pre ∧
     ((∀ a c, ln_Dial net a bob = Ok c → PeerNodeID c = bob) → PeerNodeID c = bob)) ∨
  (Ok conn = Err ErrNoRoute ∧ [Direct (str "h:1"); ViaRelay (str "r:1")] = routes endpoints ∧
     Forall (λ r, is_Ok (attempt net bob r) = false) (routes endpoints)).
Proof.
  apply (Dial_first_route net bob endpoints (Ok conn) [Direct (str "h:1"); ViaRelay (str "r:1")]);
    [apply net_no_panic|apply dial_value].
Defined.

End ConnmgrWitness.
