(* ===== verification/Rendezvous.v ===== *)
(** The relay with the nodes that use it: the signaling server of
    [internal/relay/server.go], one client of [internal/relay/client.go] per
    connection, and the two users of a client, [ServePunch] and [punchViaRelay] of
    [internal/connmgr]. The two directions of a connection are queues: what one side
    has sent and how much of it the other side has read. *)

From S2P Require Import Prelude GoStd Wire Transfer TransferProps RelayServer RelayClient Connmgr.

(** * The world *)

(** What a node registers with: its id and key, the port it reports, and the address
    that [remoteIP] sees for its connection. *)
Record registrant := mk_registrant {
  r_id : node_id;
  r_key : bytes;
  r_ip : bytes;
  r_port : Z
}.

(** A connection to the relay. [s_calls] are the running calls of
    [RequestRendezvous]: the channel of each and its target. [s_up] and [s_down] are
    the numbers of messages that the relay has read from the client and the client
    from the relay; [s_reading] and [s_serving] say that the two loops are running. *)
Record session := mk_session {
  s_reg : registrant;
  s_client : Client;
  s_calls : gmap nat node_id;
  s_up : nat;
  s_down : nat;
  s_reading : bool;
  s_serving : bool
}.

Record World := mk_World {
  w_srv : Server;
  w_conns : gmap nat session
}.

Definition put (w : World) (k : nat) (x : session) : World :=
  {| w_srv := w_srv w; w_conns := <[k := x]> (w_conns w) |}.

Definition with_client (x : session) (c : Client) : session :=
  {| s_reg := s_reg x; s_client := c; s_calls := s_calls x; s_up := s_up x; s_down := s_down x;
     s_reading := s_reading x; s_serving := s_serving x |}.
Definition with_calls (x : session) (m : gmap nat node_id) : session :=
  {| s_reg := s_reg x; s_client := s_client x; s_calls := m; s_up := s_up x; s_down := s_down x;
     s_reading := s_reading x; s_serving := s_serving x |}.
Definition with_up (x : session) (n : nat) : session :=
  {| s_reg := s_reg x; s_client := s_client x; s_calls := s_calls x; s_up := n; s_down := s_down x;
     s_reading := s_reading x; s_serving := s_serving x |}.
Definition with_down (x : session) (n : nat) : session :=
  {| s_reg := s_reg x; s_client := s_client x; s_calls := s_calls x; s_up := s_up x; s_down := n;
     s_reading := s_reading x; s_serving := s_serving x |}.
Definition with_loops (x : session) (reading serving : bool) : session :=
  {| s_reg := s_reg x; s_client := s_client x; s_calls := s_calls x; s_up := s_up x;
     s_down := s_down x; s_reading := reading; s_serving := serving |}.

(** The relay's [Accept]: a connection on which nothing was sent. *)
Definition accept (s : Server) (k : nat) (c : Conn) : Server :=
  {| registry := registry s; entries := entries s; wires := <[k := c]> (wires s) |}.

(** The two ends of [Connect]: the server's registration of the client's first message,
    and the client on what the server answered. [None] when either side gives up. *)
Definition dial_relay (s : Server) (k : nat) (c : Conn) (r : registrant) : option (Server * session) :=
  match serve_register (accept s k c) k (r_ip r) (relay_register (r_id r) (r_key r) (r_port r)) with
  | (true, s') =>
      match wires s' !! k with
      | None => None
      | Some c' =>
          match Connect (Ok (fresh_conn (sent c'))) (r_id r) (r_key r) (r_port r) with
          | Ok (cl, _) =>
              Some (s', {| s_reg := r; s_client := cl; s_calls := ∅; s_up := length (sent (wire cl));
                           s_down := length (sent c'); s_reading := true; s_serving := true |})
          | _ => None
          end
      end
  | (false, _) => None
  end.

(** A call of [RequestRendezvous] that waits, or returns at once. *)
Definition call (x : session) (target : node_id) (n : nat) : session :=
  match request_begin (s_client x) target n with
  | (Ok _, c) => with_calls (with_client x c) (<[n := target]> (s_calls x))
  | (_, c) => with_client x c
  end.

Inductive wstep : World → World → Prop :=
(** A node connects. *)
| w_connect w k c r s' x :
    w_conns w !! k = None → sent c = [] → dial_relay (w_srv w) k c r = Some (s', x) →
    wstep w {| w_srv := s'; w_conns := <[k := x]> (w_conns w) |}
(** [RequestRendezvous] starts, with a new channel, and returns. *)
| w_request w k x target n :
    w_conns w !! k = Some x → chans (s_client x) !! n = None →
    wstep w (put w k (call x target n))
| w_return w k x target n cause r c' :
    w_conns w !! k = Some x → s_calls x !! n = Some target →
    request_end (s_client x) target n cause = Some (r, c') →
    wstep w (put w k (with_calls (with_client x c') (delete n (s_calls x))))
(** A program other than this client writes any message to the relay. *)
| w_write w k x env :
    w_conns w !! k = Some x →
    wstep w (put w k (with_client x (with_wire (s_client x) (deliver (wire (s_client x)) [env]))))
(** The relay reads the next message of a connection. *)
| w_serve w k x env :
    w_conns w !! k = Some x → s_serving x = true → sent (wire (s_client x)) !! s_up x = Some env →
    wstep w {| w_srv := serve_message (w_srv w) k env;
               w_conns := <[k := with_up x (S (s_up x))]> (w_conns w) |}
(** A client reads the next message of the relay. *)
| w_read w k x cw env c' :
    w_conns w !! k = Some x → s_reading x = true → wires (w_srv w) !! k = Some cw →
    sent cw !! s_down x = Some env → readLoop_step (s_client x) (inl env) = Ok c' →
    wstep w (put w k (with_down (with_client x c') (S (s_down x))))
(** A client's read fails, which ends its loop. *)
| w_lost w k x e c' :
    w_conns w !! k = Some x → s_reading x = true → readLoop_step (s_client x) (inr e) = Ok c' →
    wstep w (put w k (with_loops (with_client x c') false (s_serving x)))
(** [ServePunch] receives from [Incoming()]. *)
| w_take w k x :
    w_conns w !! k = Some x →
    wstep w (put w k (with_client x (snd (take_incoming (s_client x)))))
| w_close w k x c' :
    w_conns w !! k = Some x → Close (s_client x) = Ok c' → wstep w (put w k (with_client x c'))
(** The relay's read fails, which ends [Serve]. *)
| w_end w k x :
    w_conns w !! k = Some x → s_serving x = true →
    wstep w {| w_srv := serve_end (w_srv w) k;
               w_conns := <[k := with_loops x (s_reading x) false]> (w_conns w) |}.

Definition empty_world : World := {| w_srv := NewServer ∅; w_conns := ∅ |}.

(** * What a node can learn *)

(** The entry that the relay keeps for a node and what a client is told about it. *)
Definition entry_of (r : registrant) : entry :=
  {| e_nodeID := r_id r; e_publicKey := r_key r; e_externalAddr := external_addr (r_ip r) (r_port r) |}.

Definition info_of (r : registrant) : RendezvousInfo :=
  {| RI_PeerNodeID := r_id r; RI_PeerPublicKey := r_key r;
     RI_PeerExternalAddr := external_addr (r_ip r) (r_port r) |}.

(** The node of a connection has asked the relay for the node [t]. *)
Definition asked (x : session) (t : node_id) : Prop :=
  ∃ req, envelope (Envelope_RelayConnect req) ∈ sent (wire (s_client x)) ∧
         copy_arr 32 (RelayConnect_TargetNodeId req) = t.

(** One of the two nodes has asked for the other, which is a node that registered. *)
Definition introduced (w : World) (x : session) (r : registrant) : Prop :=
  ∃ j y, w_conns w !! j = Some y ∧ s_reg y = r ∧ (asked x (r_id r) ∨ asked y (r_id (s_reg x))).

(** A rendezvous message with such a node. *)
Definition known (w : World) (x : session) (rv : RelayRendezvous) : Prop :=
  ∃ r, introduced w x r ∧
    rv = Build_RelayRendezvous (arr_bytes (r_id r)) (r_key r) (external_addr (r_ip r) (r_port r)).

Definition message_ok (w : World) (x : session) (env : Envelope) : Prop :=
  ∀ rv, Payload env = Some (Envelope_RelayRendezvous rv) → known w x rv.

(** * The invariant *)

(** What the client of a connection holds: the calls that wait are the pending ones,
    every message it keeps satisfies [P], and a message in the channel of a call is
    about the call's target. *)
Record client_ok (P : RelayRendezvous → Prop) (x : session) : Prop := {
  co_inv : RelayClient.Inv (s_client x);
  co_pending p n : pending (s_client x) !! p = Some n → s_calls x !! n = Some p;
  co_chan n ch rv : chans (s_client x) !! n = Some ch → buffer ch = Some rv →
    P rv ∧ ∀ t, s_calls x !! n = Some t → copy_arr 32 (RelayRendezvous_PeerNodeId rv) = t;
  co_incoming i : i ∈ incoming (s_client x) → ∃ rv, P rv ∧ i = rendezvousFromProto rv
}.

Record session_ok (w : World) (k : nat) (x : session) : Prop := {
  so_entry : entries (w_srv w) !! k = Some (entry_of (s_reg x));
  so_wire : ∃ cw, wires (w_srv w) !! k = Some cw ∧ Forall (message_ok w x) (sent cw);
  so_client : client_ok (known w x) x
}.

Record WInv (w : World) : Prop := {
  wi_session k x : w_conns w !! k = Some x → session_ok w k x;
  wi_registry n k : registry (w_srv w) !! n = Some k →
    ∃ x, w_conns w !! k = Some x ∧ s_serving x = true ∧ r_id (s_reg x) = n
}.

(** ** The client's side *)

Lemma client_ok_mono (P Q : RelayRendezvous → Prop) x :
  (∀ rv, P rv → Q rv) → client_ok P x → client_ok Q x.
Proof.
  intros HPQ [Hi Hp Hc Hinc]. split; [done|done|..].
  - intros n ch rv Hn Hb. destruct (Hc n ch rv Hn Hb). auto.
  - intros i Hin. destruct (Hinc i Hin) as (rv & ? & ?). eauto.
Qed.

(** Fields of a session that the client's side does not depend on. *)
Lemma client_ok_ext P x y :
  s_client y = s_client x → s_calls y = s_calls x → client_ok P x → client_ok P y.
Proof. intros Hc Hs [? ? ? ?]. split; rewrite ?Hc, ?Hs; done. Qed.

Lemma call_ok P x target n :
  client_ok P x → chans (s_client x) !! n = None → client_ok P (call x target n).
Proof.
  intros [Hi Hp Hc Hinc] Hn. unfold call.
  pose proof (request_begin_Inv _ target n Hi Hn) as Hi'. revert Hi'.
  assert (∀ p, pending (s_client x) !! p ≠ Some n) as Hnew.
  { intros p Hpn. destruct (RelayClient.inv_open _ Hi _ _ Hpn) as (ch & ? & _). congruence. }
  assert (∀ m ch rv, <[n := new_chan]> (chans (s_client x)) !! m = Some ch → buffer ch = Some rv →
            m ≠ n ∧ chans (s_client x) !! m = Some ch) as Hold.
  { intros m ch rv. rewrite lookup_insert. case_decide; [by intros [= <-]|auto]. }
  rewrite request_begin_eq. unfold Send. destruct (closed (s_client x)) eqn:Hcl; [done|]. cbn [wire with_pending with_chan].
  destruct (send_fault _ _) as [e|]; simpl; intros Hi'; split; simpl; try done.
  - intros p m. rewrite lookup_delete, lookup_insert. repeat case_decide; [done..|]. apply Hp.
  - intros m ch rv Hm Hb. destruct (Hold m ch rv Hm Hb). eauto.
  - intros p m. rewrite !lookup_insert. case_decide as E1; [intros [= <-]; subst; by rewrite decide_True|].
    intros Hpm. rewrite decide_False; [by apply Hp|]. intros ->. by apply (Hnew p).
  - intros m ch rv Hm Hb. destruct (Hold m ch rv Hm Hb) as [Hne Hm']. rewrite lookup_insert_ne by done. eauto.
Qed.

Lemma return_ok P x target n cause r c' :
  client_ok P x → s_calls x !! n = Some target →
  request_end (s_client x) target n cause = Some (r, c') →
  client_ok P (with_calls (with_client x c') (delete n (s_calls x))).
Proof.
  intros [Hi Hp Hc Hinc] Hn. unfold request_end.
  destruct (wait_result _ n cause); simpl; [|done]. intros [= _ <-].
  split; simpl; [by apply delete_pending_Inv| |..].
  - intros p m [Hpt Hpm]%lookup_delete_Some. pose proof (Hp p m Hpm) as Hm.
    rewrite lookup_delete_ne; [done|]. intros ->. congruence.
  - intros m ch rv Hm Hb. destruct (Hc m ch rv Hm Hb) as [HP Ht]. split; [done|].
    intros t [_ Ht']%lookup_delete_Some. by apply Ht.
  - done.
Qed.

(** Teardown keeps the buffers of the channels. *)
Lemma closeLocked_bufs c :
  RelayClient.Inv c → ∃ b c', closeLocked c = Ok (b, c') ∧ RelayClient.Inv c' ∧ pending c' = ∅ ∧
    incoming c' = incoming c ∧ wire c' = wire c ∧
    (∀ n, buffer <$> chans c' !! n = buffer <$> chans c !! n).
Proof.
  intros HI. destruct (RelayClient.closeLocked_Ok c HI) as (b & c' & E & HI' & Hcl & _ & Hw & _).
  exists b, c'. split; [done|]. split; [done|]. split; [by apply (RelayClient.inv_closed _ HI')|].
  revert E. unfold closeLocked. destruct (closed c) eqn:Hc; [by intros [= _ <-]|].
  destruct (close_waiters_Ok (map_to_list (pending c)) (with_closed c))
    as (c1 & E1 & _ & Hch & Hi & Hic & _ & Hw1 & _).
  { apply NoDup_fmap_2_strong; [|apply NoDup_map_to_list].
    intros [p n] [q m] Hp%elem_of_map_to_list Hq%elem_of_map_to_list. simpl. intros <-.
    by rewrite (RelayClient.inv_inj _ HI p q n). }
  { intros p n Hp%elem_of_map_to_list. by apply (RelayClient.inv_open _ HI p). }
  simpl in *. rewrite E1. simpl. rewrite Hic, (RelayClient.inv_incoming _ HI), Hc. intros [= _ <-].
  split; [done|]. split; [done|]. intros n. simpl. rewrite Hch. case_decide; [|done]. by destruct (chans c !! n).
Qed.

(** A client's teardown: by [Close], by a failed read or by an error message. *)
Lemma closed_ok P x b c' c'' :
  client_ok P x → closeLocked (s_client x) = Ok (b, c') →
  chans c'' = chans c' → incoming c'' = incoming c' → pending c'' = pending c' →
  RelayClient.Inv c'' → client_ok P (with_client x c'').
Proof.
  intros [Hi Hp Hc Hinc] E Hch Hin Hpe Hi''.
  destruct (closeLocked_bufs _ Hi) as (b1 & c1 & E1 & _ & He & Hi1 & _ & Hbuf).
  rewrite E in E1. injection E1 as <- <-. split; simpl; [done|..].
  - intros p n. by rewrite Hpe, He, lookup_empty.
  - intros n ch rv. rewrite Hch. intros Hn Hb. specialize (Hbuf n). rewrite Hn in Hbuf. simpl in Hbuf.
    destruct (chans (s_client x) !! n) as [ch0|] eqn:E0; [|done]. simpl in Hbuf.
    apply (Hc n ch0 rv E0). congruence.
  - rewrite Hin, Hi1. done.
Qed.

Lemma dispatchRendezvous_ok P x rv c' :
  client_ok P x → P rv → dispatchRendezvous (s_client x) rv = Ok c' → client_ok P (with_client x c').
Proof.
  intros Hx HP E. pose proof Hx as [Hi Hp Hc Hinc].
  destruct (RelayClient.dispatchRendezvous_Ok _ rv Hi) as (c1 & E1 & Hi1 & _).
  rewrite E in E1. injection E1 as <-. revert E. unfold dispatchRendezvous.
  case_match; [intros [= <-]; by apply (client_ok_ext _ x)|].
  destruct (pending (s_client x) !! _) as [n|] eqn:Hn.
  - unfold try_send. destruct (chans (s_client x) !! n) as [ch|] eqn:Hch;
      [|intros [= <-]; by apply (client_ok_ext _ x)].
    case_match; [done|]. case_match eqn:Hb; intros [= <-]; [by apply (client_ok_ext _ x)|].
    split; simpl; [done|done| |done].
    intros m ch' rv' Hm Hb'. revert Hm. rewrite lookup_insert. case_decide; [|by eauto].
    intros [= <-]. simpl in Hb'. injection Hb' as <-. subst m. split; [done|].
    intros t Ht. rewrite (Hp _ _ Hn) in Ht. by injection Ht.
  - case_match; [intros [= <-]; by apply (client_ok_ext _ x)|]. case_match; [done|].
    case_match; intros [= <-]; [|by apply (client_ok_ext _ x)].
    split; simpl; [done|done|done|]. intros i [Hin|Hin%list_elem_of_singleton]%elem_of_app; eauto.
Qed.

Lemma read_ok P x m c' :
  client_ok P x → (∀ rv env, m = inl env → Payload env = Some (Envelope_RelayRendezvous rv) → P rv) →
  readLoop_step (s_client x) m = Ok c' → client_ok P (with_client x c').
Proof.
  intros Hx HP E. destruct (RelayClient.readLoop_step_Ok _ m (co_inv _ _ Hx)) as (c1 & E1 & Hi1 & _).
  rewrite E in E1. injection E1 as <-.
  assert (∀ c', closeAllPending (s_client x) = Ok c' → RelayClient.Inv c' → client_ok P (with_client x c')) as Hclose.
  { unfold closeAllPending. intros c1 (bc & Eb & [= <-])%bind_Ok Hi. destruct bc as [b c2].
    by apply (closed_ok P x b c2). }
  revert E. unfold readLoop_step, dispatchError. destruct m as [env|e]; [|auto].
  destruct (Payload env) as [[]|] eqn:Hpl; try (intros [= <-]; by apply (client_ok_ext _ x)); [|auto].
  apply dispatchRendezvous_ok; [done|]. by apply (HP _ env).
Qed.

Lemma take_ok P x : client_ok P x → client_ok P (with_client x (snd (take_incoming (s_client x)))).
Proof.
  intros [Hi Hp Hc Hinc].
  pose proof (RelayClient.cstep_Inv _ _ Hi (c_take (s_client x))) as Hi'.
  split; [done|..]; unfold take_incoming; destruct (incoming (s_client x)) as [|i l] eqn:E; simpl in *; try done.
  - intros i. by rewrite E, elem_of_nil.
  - intros j Hj. apply Hinc. by right.
Qed.

Lemma close_ok P x c' : client_ok P x → Close (s_client x) = Ok c' → client_ok P (with_client x c').
Proof.
  intros Hx E. pose proof (RelayClient.cstep_Inv _ _ (co_inv _ _ Hx) (c_close _ _ E)) as Hi'.
  revert E. unfold Close. intros ([b c1] & Eb & E)%bind_Ok. revert E.
  destruct b; intros [= <-]; by apply (closed_ok P x _ c1 _ Hx Eb).
Qed.

(** ** The relay's side *)

Definition wires_all (Q : nat → Envelope → Prop) (s : Server) : Prop :=
  ∀ j cw, wires s !! j = Some cw → Forall (Q j) (sent cw).

Lemma send_all Q s k env : wires_all Q s → Q k env → wires_all Q (snd (send s k env)).
Proof.
  intros Hall HQ. unfold send. destruct (wires s !! k) as [cw|] eqn:Hk; [|done].
  unfold Send. destruct (send_fault _ _); simpl; intros j c; simpl; rewrite lookup_insert;
    (case_decide; [intros [= <-]; subst j|apply Hall]); simpl.
  - by apply Hall.
  - apply Forall_app. split; [by apply Hall|by repeat constructor].
Qed.

Lemma send_dom s k env j : is_Some (wires s !! j) → is_Some (wires (snd (send s k env)) !! j).
Proof.
  unfold send. destruct (wires s !! k) eqn:Hk; [|done]. destruct (Send _ _). simpl.
  rewrite lookup_insert. by case_decide.
Qed.

Lemma relayError_ok w x reason : message_ok w x (relayError reason).
Proof. by intros rv. Qed.

(** A message that the relay reads changes only what it has sent: errors to the sender,
    and for a connect request a rendezvous to each of the two nodes. *)
Lemma serve_message_all Q s k env :
  wires_all Q s → (∀ reason, Q k (relayError reason)) →
  (∀ e req kt t, entries s !! k = Some e → Payload env = Some (Envelope_RelayConnect req) →
     registry s !! copy_arr 32 (RelayConnect_TargetNodeId req) = Some kt → entries s !! kt = Some t →
     Q kt (rendezvous e) ∧ Q k (rendezvous t)) →
  wires_all Q (serve_message s k env).
Proof.
  intros Hall Herr Hrv. unfold serve_message. destruct (entries s !! k) as [e|] eqn:He; [|done].
  destruct (Payload env) as [[]|] eqn:Hp; try done. unfold handleConnect.
  destruct (negb _); [by apply send_all|].
  destruct (registry s !! _) as [kt|] eqn:Hr; [|by apply send_all].
  destruct (entries s !! kt) as [t|] eqn:Ht; [|done].
  destruct (Hrv e m kt t) as [H1 H2]; [done..|].
  pose proof (send_all Q s kt (rendezvous e) Hall H1) as Hall1.
  destruct (send s kt (rendezvous e)) as [[] s1]; by apply send_all.
Qed.

Lemma serve_message_dom s k env j :
  is_Some (wires s !! j) → is_Some (wires (serve_message s k env) !! j).
Proof.
  intros Hj. unfold serve_message. destruct (entries s !! k) as [e|]; [|done].
  destruct (Payload env) as [[]|]; try done. unfold handleConnect.
  destruct (negb _); [by apply send_dom|]. destruct (registry s !! _) as [kt|]; [|by apply send_dom].
  destruct (entries s !! kt); [|done]. pose proof (send_dom s kt (rendezvous e) j Hj).
  destruct (send s kt (rendezvous e)) as [[] s1]; by apply send_dom.
Qed.

(** ** Growth *)

(** A connection keeps what it registered with and what it has sent. *)
Definition evolves (x x' : session) : Prop :=
  s_reg x' = s_reg x ∧ sent (wire (s_client x)) ⊆ sent (wire (s_client x')).

Definition grows (w w' : World) : Prop :=
  ∀ k x, w_conns w !! k = Some x → ∃ x', w_conns w' !! k = Some x' ∧ evolves x x'.

#[export] Instance evolves_refl : Reflexive evolves.
Proof. intros x. split; [done|set_solver]. Qed.

#[export] Instance grows_refl : Reflexive grows.
Proof. intros w k x Hk. exists x. split; [done|reflexivity]. Qed.

Lemma asked_mono x x' t : evolves x x' → asked x t → asked x' t.
Proof. intros [_ Hs] (req & Hin & Ht). exists req. split; [set_solver|done]. Qed.

Lemma introduced_mono w w' x x' r : grows w w' → evolves x x' → introduced w x r → introduced w' x' r.
Proof.
  intros Hg Hx (j & y & Hj & Hr & Ha). destruct (Hg j y Hj) as (y' & Hj' & Hy).
  exists j, y'. split; [done|]. split; [rewrite <- Hr; apply Hy|].
  destruct Ha as [Ha|Ha]; [left; by apply (asked_mono x)|right].
  destruct Hx as [-> _]. by apply (asked_mono y).
Qed.

Lemma known_mono w w' x x' rv : grows w w' → evolves x x' → known w x rv → known w' x' rv.
Proof. intros Hg Hx (r & Hr & ->). exists r. split; [by apply (introduced_mono w w' x)|done]. Qed.

Lemma message_mono w w' x x' env :
  grows w w' → evolves x x' → message_ok w x env → message_ok w' x' env.
Proof. intros Hg Hx Hm rv Hrv. apply (known_mono w w' x); auto. Qed.

Lemma grows_insert w k x x' s' :
  w_conns w !! k = Some x → evolves x x' →
  grows w {| w_srv := s'; w_conns := <[k := x']> (w_conns w) |}.
Proof.
  intros Hk He j y Hj. simpl. rewrite lookup_insert. case_decide as E.
  - subst j. exists x'. split; [done|]. congruence.
  - exists y. split; [done|reflexivity].
Qed.

Lemma evolves_same x x' :
  s_reg x' = s_reg x → wire (s_client x') = wire (s_client x) → evolves x x'.
Proof. intros Hr Hw. split; [done|]. by rewrite Hw. Qed.

(** One connection's session changes, and the server in its messages at most. *)
Lemma update_WInv w k x x' s' :
  WInv w → w_conns w !! k = Some x → evolves x x' → client_ok (known w x) x' →
  (∀ n j, registry s' !! n = Some j → registry (w_srv w) !! n = Some j ∧ (j = k → s_serving x' = true)) →
  entries s' = entries (w_srv w) →
  (∀ j, is_Some (wires (w_srv w) !! j) → is_Some (wires s' !! j)) →
  wires_all (λ j env, ∀ y, w_conns w !! j = Some y → message_ok w y env) s' →
  WInv {| w_srv := s'; w_conns := <[k := x']> (w_conns w) |}.
Proof.
  intros [Hs Hr] Hk He Hc Hreg Hent Hdom Hall.
  pose proof (grows_insert w k x x' s' Hk He) as Hg. set (w' := mk_World _ _) in *.
  assert (∀ j y y', w_conns w !! j = Some y → evolves y y' → s_reg y' = s_reg y →
            client_ok (known w y) y' → session_ok w' j y') as Hone.
  { intros j y y' Hj Hev Hrg Hcl. split; simpl.
    - rewrite Hent, Hrg. apply Hs, Hj.
    - destruct (so_wire _ _ _ (Hs j y Hj)) as (cw & Hcw & _).
      destruct (Hdom j) as [cw' Hcw']; [by eexists|]. exists cw'. split; [done|].
      eapply Forall_impl; [apply (Hall j cw' Hcw')|]. intros env Hm. simpl in Hm.
      by apply (message_mono w w' y), Hm.
    - apply (client_ok_mono (known w y)); [|done]. intros rv. by apply known_mono. }
  split; simpl.
  - intros j y. rewrite lookup_insert. case_decide as E.
    + intros [= <-]. subst j. apply (Hone k x x'); [done|done|apply He|done].
    + intros Hj. apply (Hone j y y); [done|reflexivity|done|apply (so_client _ _ _ (Hs j y Hj))].
  - intros n j [(y & Hj & Hsy & Hid)%Hr Hsv]%Hreg. rewrite lookup_insert. case_decide as E; [|eauto].
    subst j. exists x'. rewrite Hk in Hj. injection Hj as <-. destruct He as [-> _]. auto.
Qed.

(** A connection that goes on being served. *)
Lemma registry_kept w k x x' :
  WInv w → w_conns w !! k = Some x → s_serving x' = s_serving x →
  ∀ n j, registry (w_srv w) !! n = Some j →
    registry (w_srv w) !! n = Some j ∧ (j = k → s_serving x' = true).
Proof.
  intros HI Hk Hsv n j Hn. split; [done|]. intros ->.
  destruct (wi_registry _ HI n k Hn) as (y & Hy & Hs & _). congruence.
Qed.

(** The messages of a good world. *)
Lemma WInv_wires w : WInv w →
  wires_all (λ j env, ∀ y, w_conns w !! j = Some y → message_ok w y env) (w_srv w).
Proof.
  intros [Hs _] j cw Hj. apply Forall_forall. intros env Henv y Hy.
  destruct (so_wire _ _ _ (Hs j y Hy)) as (cw' & Hcw' & Hall). rewrite Hj in Hcw'. injection Hcw' as <-.
  by apply (Forall_forall (message_ok w y) (sent cw)).
Qed.

Lemma put_WInv w k x x' :
  WInv w → w_conns w !! k = Some x → evolves x x' → s_serving x' = s_serving x →
  client_ok (known w x) x' → WInv (put w k x').
Proof.
  intros HI Hk He Hsv Hc. apply (update_WInv w k x); auto; [by apply (registry_kept w k x)|by apply WInv_wires].
Qed.

(** ** Preservation *)

Lemma call_evolves x target n : evolves x (call x target n).
Proof.
  unfold call. rewrite request_begin_eq. unfold Send. destruct (closed (s_client x)); [split; simpl; set_solver|].
  cbn [wire with_pending with_chan].
  destruct (send_fault _ _); simpl; split; simpl; set_solver.
Qed.

Lemma return_wire c target n cause r c' :
  request_end c target n cause = Some (r, c') → wire c' = wire c.
Proof. unfold request_end. destruct (wait_result c n cause); simpl; [|done]. by intros [= _ <-]. Qed.

Lemma read_wire c m c' : RelayClient.Inv c → readLoop_step c m = Ok c' → wire c' = wire c.
Proof.
  intros HI. assert (∀ c', closeAllPending c = Ok c' → wire c' = wire c) as Hclose.
  { intros c1. destruct (closeAllPending_Ok c HI) as (c2 & -> & _ & _ & Hw & _). by intros [= <-]. }
  unfold readLoop_step, dispatchError. destruct m as [env|e]; [|auto].
  destruct (Payload env) as [[]|]; try (by intros [= <-]); [|auto].
  unfold dispatchRendezvous, try_send. repeat case_match; try done; by intros [= <-].
Qed.

Lemma close_wire c c' : RelayClient.Inv c → Close c = Ok c' → wire c' = wire c.
Proof.
  intros HI. unfold Close. destruct (RelayClient.closeLocked_Ok c HI) as (b & c1 & -> & _ & _ & _ & Hw & _).
  destruct b; intros [= <-]; done.
Qed.

(** What a completed [Connect] leaves: the entry and the registration at the relay, a
    client with nothing pending, and one message each way. *)
Lemma dial_relay_spec s k c r s' x :
  sent c = [] → dial_relay s k c r = Some (s', x) →
  registry s' = <[r_id r := k]> (registry s) ∧ entries s' = <[k := entry_of r]> (entries s) ∧
  (∃ c', wires s' = <[k := c']> (wires s) ∧ send_fault c' = send_fault c ∧
         sent c' = [registered (external_addr (r_ip r) (r_port r))]) ∧
  s_reg x = r ∧ s_calls x = ∅ ∧ s_serving x = true ∧ s_reading x = true ∧
  s_client x = new_client {| inbox := []; sent := [relay_register (r_id r) (r_key r) (r_port r)];
                             send_fault := λ _, None |} ∧
  s_up x = 1%nat ∧ s_down x = 1%nat.
Proof.
  intros Hc. unfold dial_relay, serve_register, register_entry, confirm. cbn -[negb len].
  destruct (negb _ || negb _); [done|]. cbn [RelayRegister_NodeId RelayRegister_PublicKey RelayRegister_ListenPort].
  unfold send. cbn [wires accept]. rewrite lookup_insert_eq. unfold Send. rewrite Hc. simpl.
  destruct (send_fault c 0); [done|]. simpl. rewrite lookup_insert_eq, copy_arr_id. simpl.
  intros [= <- <-]. simpl. split_and!; try done. eexists. by rewrite insert_insert_eq.
Qed.

Lemma connect_WInv w k c r s' x :
  WInv w → w_conns w !! k = None → sent c = [] → dial_relay (w_srv w) k c r = Some (s', x) →
  WInv {| w_srv := s'; w_conns := <[k := x]> (w_conns w) |}.
Proof.
  intros [Hs Hr] Hk Hc Hd.
  apply dial_relay_spec in Hd as (Hreg & Hent & (c' & Hw & _ & Hsent) & Hrx & Hca & Hsv & _ & Hcl & _); [|done].
  set (w' := mk_World _ _). assert (grows w w') as Hg.
  { intros j y Hj. exists y. split; [|reflexivity]. simpl. rewrite lookup_insert_ne; [done|congruence]. }
  split; simpl.
  - intros j y. rewrite lookup_insert. case_decide as E; [intros [= <-]; subst j|intros Hj].
    + split; simpl.
      * by rewrite Hent, lookup_insert_eq, Hrx.
      * exists c'. rewrite Hw, lookup_insert_eq, Hsent. split; [done|]. by repeat constructor.
      * split; rewrite Hcl; simpl; [apply new_client_Inv|..]; intros *; try by rewrite lookup_empty.
        by rewrite elem_of_nil.
    + destruct (Hs j y Hj) as [He (cw & Hcw & Hall) Hy]. split; simpl.
      * by rewrite Hent, lookup_insert_ne.
      * exists cw. rewrite Hw, lookup_insert_ne by done. split; [done|].
        eapply Forall_impl; [done|]. intros env. by apply message_mono.
      * apply (client_ok_mono (known w y)); [|done]. intros rv. by apply known_mono.
  - intros n j. rewrite Hreg, lookup_insert. case_decide as E.
    + intros [= <-]. exists x. rewrite lookup_insert_eq, Hrx. done.
    + intros (y & Hj & ?)%Hr. exists y. rewrite lookup_insert_ne by congruence. done.
Qed.

(** The relay reads a message: the two nodes that a connect request names become
    acquainted with each other. *)
Lemma serve_WInv w k x env :
  WInv w → w_conns w !! k = Some x → sent (wire (s_client x)) !! s_up x = Some env →
  WInv {| w_srv := serve_message (w_srv w) k env;
          w_conns := <[k := with_up x (S (s_up x))]> (w_conns w) |}.
Proof.
  intros HI Hk Henv. destruct (serve_message_state (w_srv w) k env) as [Hr He].
  apply (update_WInv w k x); auto using evolves_same; [by apply (client_ok_ext _ x), (wi_session _ HI k x)|..].
  { rewrite Hr. by apply (registry_kept w k x). }
  { intros j. apply serve_message_dom. }
  apply serve_message_all; [by apply WInv_wires|intros reason y _; apply relayError_ok|].
  intros e req kt t Hek Hreq Hkt Ht. apply (wi_registry _ HI) in Hkt as (y & Hy & _ & Hid).
  rewrite (so_entry _ _ _ (wi_session _ HI k x Hk)) in Hek. injection Hek as <-.
  rewrite (so_entry _ _ _ (wi_session _ HI kt y Hy)) in Ht. injection Ht as <-.
  assert (asked x (r_id (s_reg y))) as Hasked.
  { exists req. split; [|done]. apply list_elem_of_lookup. exists (s_up x). rewrite Henv.
    destruct env; simpl in *. by rewrite Hreq. }
  split; intros z Hz rv [= <-].
  - rewrite Hy in Hz. injection Hz as <-. exists (s_reg x). split; [|done]. exists k, x. auto.
  - rewrite Hk in Hz. injection Hz as <-. exists (s_reg y). split; [|done]. exists kt, y. auto.
Qed.

Lemma end_WInv w k x :
  WInv w → w_conns w !! k = Some x →
  WInv {| w_srv := serve_end (w_srv w) k;
          w_conns := <[k := with_loops x (s_reading x) false]> (w_conns w) |}.
Proof.
  intros HI Hk. pose proof (so_entry _ _ _ (wi_session _ HI k x Hk)) as He.
  unfold serve_end. rewrite He. apply (update_WInv w k x); auto using evolves_same; simpl.
  - by apply (client_ok_ext _ x), (wi_session _ HI k x).
  - intros n j [Hn Hj]%lookup_delete_Some. split; [done|]. intros ->.
    destruct (wi_registry _ HI n k Hj) as (y & Hy & _ & Hid). congruence.
  - by apply WInv_wires.
Qed.

Lemma wstep_WInv w w' : WInv w → wstep w w' → WInv w'.
Proof.
  intros HI Hstep.
  destruct Hstep as [w k c r s' x Hk Hc Hd|w k x t n Hk Hn|w k x t n cause r c' Hk Hn E|w k x env Hk
    |w k x env Hk Hs Henv|w k x cw env c' Hk Hr Hcw Henv E|w k x e c' Hk Hr E|w k x Hk|w k x c' Hk E|w k x Hk Hs];
    try pose proof (so_client _ _ _ (wi_session _ HI k x Hk)) as Hx.
  - by apply (connect_WInv w k c r).
  - apply (put_WInv w k x); [done..|apply call_evolves| |by apply call_ok].
    unfold call. by destruct (request_begin _ _ _) as [[] ?].
  - apply (put_WInv w k x); [done..| |done|by apply (return_ok _ x t n cause r)].
    apply evolves_same; [done|]. by apply return_wire in E.
  - apply (put_WInv w k x); [done..| |done|]; [split; simpl; set_solver|].
    destruct Hx as [Hi ? ? ?]. split; simpl; try done. by destruct Hi.
  - by apply serve_WInv.
  - apply (put_WInv w k x); [done..| |done|].
    + apply evolves_same; [done|]. apply read_wire in E; [done|apply Hx].
    + apply (client_ok_ext _ (with_client x c')); [done..|]. apply (read_ok _ x (inl env)); [done| |done].
      intros rv env' [= <-]. pose proof (WInv_wires w HI k cw Hcw) as Hall. rewrite Forall_forall in Hall.
      apply (Hall env); [|done]. by apply list_elem_of_lookup_2 in Henv.
  - apply (put_WInv w k x); [done..| |done|].
    + apply evolves_same; [done|]. apply read_wire in E; [done|apply Hx].
    + apply (client_ok_ext _ (with_client x c')); [done..|]. by apply (read_ok _ x (inr e)).
  - apply (put_WInv w k x); [done..| |done|by apply take_ok].
    apply evolves_same; [done|]. simpl. unfold take_incoming. by destruct (incoming _).
  - apply (put_WInv w k x); [done..| |done|by apply close_ok].
    apply evolves_same; [done|]. simpl. apply close_wire in E; [done|apply Hx].
  - by apply end_WInv.
Qed.

Lemma run_WInv w : rtc wstep empty_world w → WInv w.
Proof.
  assert (WInv empty_world) as H0.
  { split; simpl; intros *; by rewrite lookup_empty. }
  intros Hr. revert H0. induction Hr; eauto using wstep_WInv.
Qed.

(** ** A request that is answered *)

(** A connection with both loops running, whose messages have all been read and that
    can be written to. *)
Record idle (w : World) (k : nat) (x : session) : Prop := {
  id_conn : w_conns w !! k = Some x;
  id_loops : s_reading x = true ∧ s_serving x = true;
  id_open : closed (s_client x) = false;
  id_client : sends (wire (s_client x)) ∧ s_up x = length (sent (wire (s_client x)));
  id_server : ∃ cw, wires (w_srv w) !! k = Some cw ∧ sends cw ∧ s_down x = length (sent cw)
}.

Lemma call_waits x target n :
  closed (s_client x) = false → sends (wire (s_client x)) →
  call x target n =
    with_calls (with_client x (with_wire (with_pending (with_chan (s_client x) n new_chan)
                                 (<[target := n]> (pending (s_client x))))
                               (deliver (wire (s_client x)) [relay_connect target])))
               (<[n := target]> (s_calls x)).
Proof. intros Hc Hs. unfold call. rewrite request_begin_eq, Hc. simpl. by rewrite Send_deliver. Qed.

(** The relay's answer to a connect request for a registered node. *)
Lemma serve_connect s k e t kt et wk wt :
  entries s !! k = Some e → registry s !! t = Some kt → entries s !! kt = Some et → k ≠ kt →
  wires s !! k = Some wk → sends wk → wires s !! kt = Some wt → sends wt →
  serve_message s k (relay_connect t) =
    {| registry := registry s; entries := entries s;
       wires := <[k := deliver wk [rendezvous et]]> (<[kt := deliver wt [rendezvous e]]> (wires s)) |}.
Proof.
  intros He Hr Het Hne Hwk Hsk Hwt Hst. unfold serve_message. rewrite He. simpl. unfold handleConnect, len. simpl.
  rewrite arr_length, copy_arr_id, Hr, Het. simpl. rewrite (send_deliver s kt wt) by done.
  rewrite (send_deliver _ k wk); [done| |done]. simpl. by rewrite lookup_insert_ne.
Qed.

(** A rendezvous for which a call waits on an empty channel, and one that nobody waits
    for. *)
Lemma read_waiting c r n :
  RelayClient.Inv c → pending c !! r_id r = Some n → chans c !! n = Some new_chan →
  ∃ c', readLoop_step c (inl (rendezvous (entry_of r))) = Ok c' ∧
    ∃ c'', request_end c' (r_id r) n None = Some (Ok (info_of r), c'').
Proof.
  intros HI Hp Hn. simpl. unfold dispatchRendezvous, len. simpl. rewrite arr_length, copy_arr_id. simpl.
  rewrite Hp. unfold try_send. rewrite Hn. simpl. eexists; split; [done|].
  unfold request_end, wait_result. simpl. rewrite lookup_insert_eq. simpl. unfold len. rewrite arr_length. simpl.
  unfold rendezvousFromProto, info_of. simpl. rewrite copy_arr_id. eauto.
Qed.

Lemma read_unmatched c r :
  RelayClient.Inv c → closed c = false → pending c !! r_id r = None → len (incoming c) < 16 →
  ∃ c', readLoop_step c (inl (rendezvous (entry_of r))) = Ok c' ∧
    incoming c' = incoming c ++ [info_of r].
Proof.
  intros HI Hc Hp Hroom. simpl. unfold dispatchRendezvous. simpl. unfold len at 1.
  rewrite arr_length, copy_arr_id. simpl. rewrite Hp, Hc, (RelayClient.inv_incoming _ HI), Hc.
  rewrite (proj2 (Z.ltb_lt _ _) Hroom). eexists; split; [done|].
  unfold rendezvousFromProto, info_of. simpl. by rewrite copy_arr_id.
Qed.

Lemma lookup_last {A} (l : list A) x : (l ++ [x]) !! length l = Some x.
Proof. by rewrite lookup_app_r, Nat.sub_diag by lia. Qed.

Lemma request_answered (w : World) (a b : nat) (xa xb : session) (n : nat) :
  WInv w → a ≠ b → idle w a xa → idle w b xb →
  registry (w_srv w) !! r_id (s_reg xb) = Some b →
  pending (s_client xb) !! r_id (s_reg xa) = None → len (incoming (s_client xb)) < 16 →
  chans (s_client xa) !! n = None →
  ∃ w' xa' xb' c', rtc wstep w w' ∧ w_conns w' !! a = Some xa' ∧ w_conns w' !! b = Some xb' ∧
    request_end (s_client xa') (r_id (s_reg xb)) n None = Some (Ok (info_of (s_reg xb)), c') ∧
    incoming (s_client xb') = incoming (s_client xb) ++ [info_of (s_reg xa)].
Proof.
  intros HI Hab [Ha [Hra Hsa] Hca [Hwa Hua] (wa & Hwka & Hska & Hda)]
    [Hb [Hrb Hsb] Hcb [Hwb Hub] (wb & Hwkb & Hskb & Hdb)] Hreg Hpb Hroom Hn.
  pose proof (wi_session _ HI a xa Ha) as [Hea _ Hka]. pose proof (wi_session _ HI b xb Hb) as [Heb _ Hkb].
  set (t := r_id (s_reg xb)) in *.
  pose proof (w_request w a xa t n Ha Hn) as S1.
  pose proof (call_ok _ xa t n Hka Hn) as Hcall. rewrite call_waits in S1, Hcall by done.
  set (x1 := with_calls _ _) in S1, Hcall. set (w1 := put w a x1) in S1.
  assert (wstep w1 {| w_srv := serve_message (w_srv w) a (relay_connect t);
                      w_conns := <[a := with_up x1 (S (s_up x1))]> (w_conns w1) |}) as S2.
  { apply (w_serve w1 a x1 (relay_connect t)); [by apply lookup_insert_eq|done|]. simpl. rewrite Hua. apply lookup_last. }
  rewrite (serve_connect _ a _ t b _ wa wb Hea Hreg Heb Hab Hwka Hska Hwkb Hskb) in S2.
  set (w2 := mk_World _ _) in S2.
  destruct (read_waiting (s_client x1) (s_reg xb) n) as (c1 & E1 & c2 & E2);
    [apply Hcall|apply lookup_insert_eq|apply lookup_insert_eq|].
  destruct (read_unmatched (s_client xb) (s_reg xa)) as (c3 & E3 & Hinc); [apply Hkb|done..|].
  set (x2 := with_up x1 (S (s_up x1))) in *.
  assert (wstep w2 (put w2 a (with_down (with_client x2 c1) (S (s_down x2))))) as S3.
  { apply (w_read w2 a x2 (deliver wa [rendezvous (entry_of (s_reg xb))]) (rendezvous (entry_of (s_reg xb))));
      [by apply lookup_insert_eq|done|by apply lookup_insert_eq| |done]. simpl. rewrite Hda. apply lookup_last. }
  set (w3 := put w2 a _) in S3.
  assert (wstep w3 (put w3 b (with_down (with_client xb c3) (S (s_down xb))))) as S4.
  { apply (w_read w3 b xb (deliver wb [rendezvous (entry_of (s_reg xa))]) (rendezvous (entry_of (s_reg xa))));
      simpl; rewrite ?lookup_insert_ne by done; [done|done|by apply lookup_insert_eq| |done].
    simpl. rewrite Hdb. apply lookup_last. }
  eexists _, _, _, c2. split; [by eapply rtc_l, rtc_l, rtc_l, rtc_l, rtc_refl|].
  split; [simpl; rewrite lookup_insert_ne by done; apply lookup_insert_eq|].
  split; [apply lookup_insert_eq|]. done.
Qed.

(** ** The users of the client *)

Lemma ServePunch_bursts ctx net (l : list RendezvousInfo) :
  snd (ServePunch_loop ctx net (map Incoming l)) =
    map (λ i, (RI_PeerExternalAddr i, PrimeNAT ctx net (RI_PeerExternalAddr i))) l.
Proof.
  induction l as [|i l IH]; [done|]. simpl. destruct (ServePunch_loop ctx net (map Incoming l)).
  simpl in *. by rewrite IH.
Qed.

Lemma punchViaRelay_dial net peer relayAddr rv conn :
  relay_Connect net relayAddr (externalPort net relayAddr) = Ok tt →
  relay_Request net relayAddr peer = Ok rv → ln_Dial net (RI_PeerExternalAddr rv) peer = Ok conn →
  punchViaRelay net peer relayAddr = Ok conn.
Proof. intros Hc Hr Hd. unfold punchViaRelay, Punch. rewrite Hc. simpl. rewrite Hr. simpl. by rewrite Hd. Qed.

(** * Properties *)

(** C30. With an honest relay, nodes learn only about nodes that are there and that one
    of the two has asked for, whatever the other nodes write and in whatever order
    connections, messages and failures come: what [RequestRendezvous] returns is what
    a node registered under exactly the requested id, and [ServePunch] primes only
    addresses whose host the relay saw on a connection of such a node. *)
Theorem rendezvous_authentic (w : World) (k : nat) (x : session) :
  rtc wstep empty_world w → w_conns w !! k = Some x →
  (∀ n t cause rv c', s_calls x !! n = Some t →
     request_end (s_client x) t n cause = Some (Ok rv, c') →
     ∃ r, introduced w x r ∧ r_id r = t ∧ rv = info_of r) ∧
  (∀ ctx net addr burst,
     (addr, burst) ∈ snd (ServePunch_loop ctx net (map Incoming (incoming (s_client x)))) →
     ∃ r, introduced w x r ∧ addr = external_addr (r_ip r) (r_port r)).
Proof.
  intros HI%run_WInv Hk. destruct (so_client _ _ _ (wi_session _ HI k x Hk)) as [_ _ Hch Hinc]. split.
  - intros n t cause rv c' Ht. unfold request_end, wait_result. destruct cause; [done|].
    destruct (chans (s_client x) !! n) as [ch|] eqn:Hn; [|done].
    destruct (buffer ch) as [m|] eqn:Hb; [|by destruct (chan_closed ch)].
    destruct (Hch n ch m Hn Hb) as [(r & Hr & ->) Hid]. specialize (Hid t Ht).
    simpl in *. unfold len. rewrite arr_length. intros [= <- _]. rewrite copy_arr_id in Hid.
    exists r. split_and!; [done|done|]. unfold rendezvousFromProto, info_of. simpl. by rewrite copy_arr_id.
  - intros ctx net addr burst. rewrite ServePunch_bursts. intros (i & [= -> _] & Hin)%list_elem_of_fmap.
    destruct (Hinc i Hin) as (rv & (r & Hr & ->) & ->). eauto.
Qed.

(** C32. Two nodes behind NATs find each other: when both are connected to the relay and
    idle, and one is registered there, a request by the other leads to a state in
    which the request returns the first node's key and address, and the first node has
    the requester's address; the dial then goes to the one address and the burst of
    packets of [ServePunch] to the other. *)
Theorem rendezvous_completes (w : World) (a b : nat) (xa xb : session) (n : nat) :
  rtc wstep empty_world w → a ≠ b → idle w a xa → idle w b xb →
  registry (w_srv w) !! r_id (s_reg xb) = Some b →
  pending (s_client xb) !! r_id (s_reg xa) = None → len (incoming (s_client xb)) < 16 →
  chans (s_client xa) !! n = None →
  let addr r := external_addr (r_ip r) (r_port r) in
  ∃ w' xa' xb' res c', rtc wstep w w' ∧ w_conns w' !! a = Some xa' ∧ w_conns w' !! b = Some xb' ∧
    request_end (s_client xa') (r_id (s_reg xb)) n None = Some (res, c') ∧
    res = Ok (info_of (s_reg xb)) ∧
    (∀ net relayAddr conn, relay_Connect net relayAddr (externalPort net relayAddr) = Ok tt →
       relay_Request net relayAddr (r_id (s_reg xb)) = res →
       ln_Dial net (addr (s_reg xb)) (r_id (s_reg xb)) = Ok conn →
       punchViaRelay net (r_id (s_reg xb)) relayAddr = Ok conn) ∧
    (∀ ctx net, (addr (s_reg xa), PrimeNAT ctx net (addr (s_reg xa))) ∈
       snd (ServePunch_loop ctx net (map Incoming (incoming (s_client xb'))))).
Proof.
  intros HI%run_WInv Hab Ha Hb Hreg Hp Hroom Hn addr.
  destruct (request_answered w a b xa xb n) as (w' & xa' & xb' & c' & Hrun & Hxa & Hxb & Hend & Hinc); [done..|].
  eexists w', xa', xb', _, c'. split_and!; [done|done|done|done|done| |].
  - intros net relayAddr conn. apply punchViaRelay_dial.
  - intros ctx net. rewrite ServePunch_bursts, Hinc, map_app. apply elem_of_app. right. by left.
Qed.

(** A dial through the relay takes its own node off the relay: [punchViaRelay]
    opens a second connection under the id of the node, which [ServePunch] has already
    registered, and when it is closed the relay forgets the id. The first connection
    is untouched, so neither side notices, and from then on whoever asks for the node
    is told that it is not registered. *)
Theorem dial_unregisters (w : World) (k1 k2 : nat) (x1 x2 : session) (c : Conn) (r : registrant)
    (s2 : Server) :
  rtc wstep empty_world w → w_conns w !! k1 = Some x1 → w_conns w !! k2 = None →
  r_id r = r_id (s_reg x1) → sent c = [] → dial_relay (w_srv w) k2 c r = Some (s2, x2) →
  ∃ w', rtc wstep w w' ∧ w_conns w' !! k1 = Some x1 ∧
    conn_closed <$> (s_client <$> w_conns w' !! k2) = Some true ∧
    registry (w_srv w') !! r_id r = None ∧
    (∀ k e, entries (w_srv w') !! k = Some e →
       serve_message (w_srv w') k (relay_connect (r_id r)) =
       snd (send (w_srv w') k (relayError "peer_not_registered"))).
Proof.
  intros HI%run_WInv Hk1 Hk2 Hid Hc Hd. assert (k1 ≠ k2) as Hne by congruence.
  pose proof (w_connect w k2 c r s2 x2 Hk2 Hc Hd) as S1. set (w1 := mk_World _ _) in S1.
  pose proof (dial_relay_spec _ _ _ _ _ _ Hc Hd) as (_ & Hent & _ & _ & _ & Hsv & _ & Hcl & _).
  assert (Close (s_client x2) = Ok (with_conn_closed (with_incoming (with_closed (s_client x2)) [] true))) as Ecl
    by (by rewrite Hcl).
  pose proof (w_close w1 k2 x2 _ (lookup_insert_eq _ _ _) Ecl) as S2. set (x3 := with_client x2 _) in S2.
  pose proof (w_end (put w1 k2 x3) k2 x3 (lookup_insert_eq _ _ _) Hsv) as S3. set (w3 := mk_World _ _) in S3.
  assert (registry (w_srv w3) !! r_id r = None) as Hnone.
  { simpl. unfold serve_end. rewrite Hent, lookup_insert_eq. apply lookup_delete_eq. }
  exists w3. split_and!; [by eapply rtc_l, rtc_l, rtc_l, rtc_refl| |by simpl; rewrite lookup_insert_eq|done|].
  - simpl. by rewrite !lookup_insert_ne by done.
  - intros k e He. unfold serve_message. rewrite He. simpl. unfold handleConnect, len. simpl.
    simpl in Hnone. by rewrite arr_length, copy_arr_id, Hnone.
Qed.

(** * Witnesses *)

Module RendezvousWitness.

Definition alice : registrant :=
  mk_registrant (copy_arr 32 (str "alice")) (replicate 32 Byte.x41) (str "1.2.3.4") 7000.
Definition bob : registrant :=
  mk_registrant (copy_arr 32 (str "bob")) (replicate 32 Byte.x42) (str "5.6.7.8") 7001.

Definition join (w : World) (k : nat) (r : registrant) : World :=
  match dial_relay (w_srv w) k (fresh_conn []) r with
  | Some (s, x) => {| w_srv := s; w_conns := <[k := x]> (w_conns w) |}
  | None => w
  end.

Definition w2 : World := join (join empty_world 1 alice) 2 bob.
Definition x_of (w : World) (k : nat) : session :=
  default (mk_session alice (new_client (fresh_conn [])) ∅ 0 0 false false) (w_conns w !! k).

Definition present {A} (o : option A) : bool := match o with Some _ => true | None => false end.

Lemma x_of_conn w k : present (w_conns w !! k) = true → w_conns w !! k = Some (x_of w k).
Proof. unfold x_of. by destruct (w_conns w !! k). Qed.

Lemma join_step w k r :
  w_conns w !! k = None → present (dial_relay (w_srv w) k (fresh_conn []) r) = true → wstep w (join w k r).
Proof.
  intros Hk. unfold join. destruct (dial_relay _ _ _ _) as [[s x]|] eqn:E; [|done]. intros _.
  by apply (w_connect w k (fresh_conn []) r).
Qed.

Lemma w2_run : rtc wstep empty_world w2.
Proof.
  eapply rtc_l; [apply (join_step empty_world 1 alice); [done|by vm_compute]|].
  apply rtc_once, join_step; [by vm_compute|by vm_compute].
Qed.

Lemma idle2 : idle w2 1 (x_of w2 1) ∧ idle w2 2 (x_of w2 2).
Proof.
  assert (∀ k : nat, k = 1%nat ∨ k = 2%nat → idle w2 k (x_of w2 k)) as Hall; [|split; apply Hall; auto].
  intros k [-> | ->]; (split; [apply x_of_conn; by vm_compute|by vm_compute|by vm_compute|split; [intros n; by vm_compute|by vm_compute]|]).
  all: match goal with |- ∃ cw, wires ?s !! ?k = _ ∧ _ =>
         exists (default (fresh_conn []) (wires s !! k)) end.
  all: split; [|split; [intros n; by vm_compute|by vm_compute]].
  all: by vm_compute.
Qed.

Lemma rendezvous_completes_witness :
  let addr r := external_addr (r_ip r) (r_port r) in
  ∃ w' xa' xb' res c', rtc wstep w2 w' ∧ w_conns w' !! 1%nat = Some xa' ∧ w_conns w' !! 2%nat = Some xb' ∧
    request_end (s_client xa') (r_id (s_reg (x_of w2 2))) 5 None = Some (res, c') ∧
    res = Ok (info_of (s_reg (x_of w2 2))) ∧
    (∀ net relayAddr conn, relay_Connect net relayAddr (externalPort net relayAddr) = Ok tt →
       relay_Request net relayAddr (r_id (s_reg (x_of w2 2))) = res →
       ln_Dial net (addr (s_reg (x_of w2 2))) (r_id (s_reg (x_of w2 2))) = Ok conn →
       punchViaRelay net (r_id (s_reg (x_of w2 2))) relayAddr = Ok conn) ∧
    (∀ ctx net, (addr (s_reg (x_of w2 1)), PrimeNAT ctx net (addr (s_reg (x_of w2 1)))) ∈
       snd (ServePunch_loop ctx net (map Incoming (incoming (s_client xb'))))).
Proof.
  refine (rendezvous_completes w2 1 2 (x_of w2 1) (x_of w2 2) 5 w2_run _ (proj1 idle2) (proj2 idle2) _ _ _ _);
    [done|by vm_compute..].
Defined.

(** Alice has asked for Bob, the relay has read it and both have read the answer. *)
Definition serve1 (w : World) (k : nat) : World :=
  let x := x_of w k in
  match sent (wire (s_client x)) !! s_up x with
  | Some env => {| w_srv := serve_message (w_srv w) k env; w_conns := <[k := with_up x (S (s_up x))]> (w_conns w) |}
  | None => w
  end.

Definition read1 (w : World) (k : nat) : World :=
  let x := x_of w k in
  match wires (w_srv w) !! k with
  | Some cw =>
      match sent cw !! s_down x with
      | Some env =>
          match readLoop_step (s_client x) (inl env) with
          | Ok c' => put w k (with_down (with_client x c') (S (s_down x)))
          | _ => w
          end
      | None => w
      end
  | None => w
  end.

Lemma serve1_step w k :
  present (w_conns w !! k) = true → s_serving (x_of w k) = true → rtc wstep w (serve1 w k).
Proof.
  intros Hk%x_of_conn Hs. unfold serve1. destruct (sent _ !! _) eqn:E; [|apply rtc_refl]. apply rtc_once. by apply w_serve.
Qed.

Lemma read1_step w k :
  present (w_conns w !! k) = true → s_reading (x_of w k) = true → rtc wstep w (read1 w k).
Proof.
  intros Hk%x_of_conn Hs. unfold read1. destruct (wires _ !! k) as [cw|] eqn:E1; [|apply rtc_refl].
  destruct (sent cw !! _) eqn:E2; [|apply rtc_refl]. destruct (readLoop_step _ _) eqn:E3; [|apply rtc_refl..].
  apply rtc_once. by eapply w_read.
Qed.

Definition w3 : World := put w2 1 (call (x_of w2 1) (r_id bob) 5).
Definition w6 : World := read1 (read1 (serve1 w3 1) 1) 2.

Lemma w6_run : rtc wstep empty_world w6.
Proof.
  etrans; [apply w2_run|].
  eapply rtc_l; [apply (w_request w2 1 (x_of w2 1) (r_id bob) 5); [apply x_of_conn; by vm_compute|by vm_compute]|].
  etrans; [apply (serve1_step w3 1); by vm_compute|].
  etrans; [apply (read1_step (serve1 w3 1) 1); by vm_compute|].
  apply (read1_step (read1 (serve1 w3 1) 1) 2); by vm_compute.
Qed.

Lemma w6_values :
  s_calls (x_of w6 1) !! 5%nat = Some (r_id bob) ∧
  fst <$> request_end (s_client (x_of w6 1)) (r_id bob) 5 None = Some (Ok (info_of bob)) ∧
  incoming (s_client (x_of w6 2)) = [info_of alice].
Proof. by vm_compute. Qed.

Lemma rendezvous_authentic_witness :
  (∀ n t cause rv c', s_calls (x_of w6 1) !! n = Some t →
     request_end (s_client (x_of w6 1)) t n cause = Some (Ok rv, c') →
     ∃ r, introduced w6 (x_of w6 1) r ∧ r_id r = t ∧ rv = info_of r) ∧
  (∀ ctx net addr burst,
     (addr, burst) ∈ snd (ServePunch_loop ctx net (map Incoming (incoming (s_client (x_of w6 1))))) →
     ∃ r, introduced w6 (x_of w6 1) r ∧ addr = external_addr (r_ip r) (r_port r)).
Proof. refine (rendezvous_authentic w6 1 (x_of w6 1) w6_run (x_of_conn w6 1 _)). by vm_compute. Defined.

Definition again : option (Server * session) := dial_relay (w_srv w2) 3 (fresh_conn []) bob.

Lemma again_accepted : ∃ s x, again = Some (s, x).
Proof.
  assert (present again = true) as Hp by (by vm_compute).
  revert Hp. generalize again. intros [[s x]|]; [eauto|done].
Qed.

Lemma dial_unregisters_witness :
  ∃ w', rtc wstep w2 w' ∧ w_conns w' !! 2%nat = Some (x_of w2 2) ∧
    conn_closed <$> (s_client <$> w_conns w' !! 3%nat) = Some true ∧
    registry (w_srv w') !! r_id bob = None ∧
    (∀ k e, entries (w_srv w') !! k = Some e →
       serve_message (w_srv w') k (relay_connect (r_id bob)) =
       snd (send (w_srv w') k (relayError "peer_not_registered"))).
Proof.
  destruct again_accepted as (s & x & E).
  refine (dial_unregisters w2 2 3 (x_of w2 2) x (fresh_conn []) bob s w2_run (x_of_conn w2 2 _) _ _ _ E);
    by vm_compute.
Defined.

End RendezvousWitness.
