(* ===== verification/Discovery.v ===== *)
(** How a node behind a NAT learns its external address: [DiscoverExternalAddr] and
    [Prime] of [internal/transport/listener.go], the UDP echo and [remoteIP] of
    [cmd/relay/main.go], [externalPort] of the connection manager, and the address
    that the relay hands out. [ResolveUDPAddr] is the result of the resolver. *)

From stdpp Require Import pretty.
From S2P Require Import Prelude GoStd GoText Wire Transport RelayClient RelayServer Connmgr.

(** * Addresses *)

(** A [net.UDPAddr] or [net.TCPAddr] without a zone. An IPv4 address that is mapped
    into IPv6 is the IPv4 address, as [IP.Equal] and [IP.String] have it. *)
Inductive ip := V4 (a b c d : Z) | V6 (groups : list Z).

Record Addr := mk_Addr { addr_IP : ip; addr_Port : Z }.

#[global] Instance ip_eq_dec : EqDecision ip.
Proof. solve_decision. Defined.
#[global] Instance Addr_eq_dec : EqDecision Addr.
Proof. solve_decision. Defined.

Definition hex_digits : bytes := str "0123456789abcdef".
Definition hex_char (d : Z) : byte := nth (Z.to_nat d) hex_digits Byte.x30.

(** The digits without leading zeros, at least one. *)
Fixpoint strip_zeros (ds : list Z) : list Z :=
  match ds with
  | d :: ((_ :: _) as ds') => if d =? 0 then strip_zeros ds' else ds
  | _ => ds
  end.

Definition hex16 (v : Z) : bytes :=
  map hex_char (strip_zeros [v / 4096 mod 16; v / 256 mod 16; v / 16 mod 16; v mod 16]).

Fixpoint join_groups (gs : list Z) : bytes :=
  match gs with
  | [] => []
  | [g] => hex16 g
  | g :: gs' => hex16 g ++ colon :: join_groups gs'
  end.

Fixpoint leading_zeros (gs : list Z) : nat :=
  match gs with
  | g :: gs' => if g =? 0 then S (leading_zeros gs') else 0
  | [] => 0
  end.

(** The first longest run of at least two zero groups: its start and length. *)
Definition zero_run (gs : list Z) : nat * nat :=
  foldl (λ best i, let l := leading_zeros (drop i gs) in
                   if (2 <=? l)%nat && (best.2 <? l)%nat then (i, l) else best)
    (0, 0)%nat (seq 0 8).

(** [ip.String()]. *)
Definition ip_String (x : ip) : bytes :=
  match x with
  | V4 a b c d =>
      Itoa a ++ period :: Itoa b ++ period :: Itoa c ++ period :: Itoa d
  | V6 gs =>
      let '(i, l) := zero_run gs in
      if (l =? 0)%nat then join_groups gs
      else join_groups (take i gs) ++ [colon; colon] ++ join_groups (drop (i + l) gs)
  end.

(** [addr.String()]. *)
Definition addr_String (x : Addr) : bytes := JoinHostPort (ip_String (addr_IP x)) (Itoa (addr_Port x)).

Definition valid_ip (x : ip) : Prop :=
  match x with
  | V4 a b c d => Forall (λ v, 0 ≤ v < 256) [a; b; c; d]
  | V6 gs => length gs = 8%nat ∧ Forall (λ v, 0 ≤ v < 65536) gs
  end.

Definition valid_addr (x : Addr) : Prop := valid_ip (addr_IP x) ∧ 0 < addr_Port x < 65536.

Lemma String_examples :
  addr_String (mk_Addr (V4 192 168 0 1) 7777) = str "192.168.0.1:7777" ∧
  addr_String (mk_Addr (V6 [0x2001; 0xdb8; 0; 0; 1; 0; 0; 1]) 80) = str "[2001:db8::1:0:0:1]:80" ∧
  addr_String (mk_Addr (V6 [0; 0; 0; 0; 0; 0; 0; 1]) 1) = str "[::1]:1" ∧
  ip_String (V6 (replicate 8 0)) = str "::" ∧
  ip_String (V6 [1; 0; 2; 3; 4; 5; 6; 7]) = str "1:0:2:3:4:5:6:7".
Proof. by vm_compute. Qed.

(** * cmd/relay/main.go *)

(** [serveUDPEcho]: the datagrams it receives until the socket is closed, each with its
    sender, and the datagrams it sends, each with its receiver; errors of a write
    are ignored. *)
Definition serveUDPEcho (received : list (bytes * Addr)) : list (bytes * Addr) :=
  map (λ d, (addr_String d.2, d.2)) received.

Definition remoteIP (remote : bytes) : bytes :=
  match SplitHostPort remote with
  | Ok (host, _) => host
  | _ => remote
  end.

(** * listener.go *)

(** [Prime]: [resolve] and [write] are the results of the two calls. *)
Definition Prime (resolve : outcome Addr) (write : outcome unit) : outcome unit :=
  _ ← wrap "resolve %s: %w" resolve;
  wrap "prime write: %w" write.

Fixpoint send_discovery (n : nat) (write : nat → outcome unit) : outcome unit :=
  match n with
  | O => Ok tt
  | S n' => _ ← send_discovery n' write; wrap "send discovery: %w" (write n')
  end.

(** The read loop: the packets that arrive that are not QUIC, with their senders, and
    the error of the read after them (the context's, at the latest). The buffer has
    64 bytes. *)
Fixpoint read_discovery (udpAddr : Addr) (packets : list (bytes * Addr)) (last : error) : outcome bytes :=
  match packets with
  | [] => Err (Wrapf "read discovery response: %w" last)
  | (data, from) :: packets' =>
      if bool_decide (from = udpAddr) then Ok (take 64 data) else read_discovery udpAddr packets' last
  end.

Definition DiscoverExternalAddr (resolve : outcome Addr) (write : nat → outcome unit)
    (packets : list (bytes * Addr)) (last : error) : outcome bytes :=
  udpAddr ← wrap "resolve %s: %w" resolve;
  _ ← send_discovery 3 write;
  read_discovery udpAddr packets last.

(** * Facts *)

Lemma hex_char_in d : hex_char d ∈ hex_digits.
Proof.
  unfold hex_char. destruct (nth_in_or_default (Z.to_nat d) hex_digits Byte.x30) as [Hin| ->].
  - by apply list_elem_of_In.
  - by apply (bool_decide_unpack _).
Qed.

Lemma strip_zeros_le ds : (length (strip_zeros ds) ≤ length ds)%nat.
Proof.
  induction ds as [|d [|d' ds] IH]; [done|done|]. cbn [strip_zeros]. destruct (d =? 0); [simpl in *; lia|done].
Qed.

Lemma hex16_short v : (length (hex16 v) ≤ 4)%nat.
Proof. unfold hex16. rewrite length_map. etrans; [apply strip_zeros_le|done]. Qed.

Lemma hex16_chars v b : b ∈ hex16 v → b ∈ hex_digits.
Proof. unfold hex16. intros (d & -> & _)%list_elem_of_fmap. apply hex_char_in. Qed.

Lemma join_groups_chars gs b : b ∈ join_groups gs → b = colon ∨ b ∈ hex_digits.
Proof.
  induction gs as [|g [|g' gs] IH]; [by intros ?%not_elem_of_nil|intros ?%hex16_chars; by right|].
  change (join_groups (g :: g' :: gs)) with (hex16 g ++ colon :: join_groups (g' :: gs)).
  rewrite elem_of_app, elem_of_cons.
  intros [?%hex16_chars|[?|?]]; [by right|by left|by apply IH].
Qed.

Lemma join_groups_short gs : (length (join_groups gs) ≤ 5 * length gs)%nat.
Proof.
  induction gs as [|g [|g' gs] IH]; [done|pose proof (hex16_short g); cbn [join_groups length]; lia|].
  change (join_groups (g :: g' :: gs)) with (hex16 g ++ colon :: join_groups (g' :: gs)).
  rewrite length_app. pose proof (hex16_short g). cbn [length] in *. lia.
Qed.

(** The characters of an address. *)
Lemma ip_String_chars x b :
  valid_ip x → b ∈ ip_String x → is_Some (digit b) ∨ b = period ∨ b = colon ∨ b ∈ hex_digits.
Proof.
  destruct x as [p q r s|gs]; cbn [ip_String valid_ip].
  - rewrite !Forall_cons. intros (Hp & Hq & Hr & Hs & _) Hb.
    repeat (rewrite elem_of_app in Hb || rewrite elem_of_cons in Hb).
    destruct_or! Hb; auto; left; eapply Itoa_chars; try exact Hb; lia.
  - intros _. destruct (zero_run gs) as [i l]. destruct (l =? 0)%nat.
    + intros [?|?]%join_groups_chars; auto.
    + rewrite !elem_of_app, !elem_of_cons. intros Hb. destruct_or! Hb; subst; auto.
      * apply join_groups_chars in Hb as [?|?]; auto.
      * by apply not_elem_of_nil in Hb.
      * apply join_groups_chars in Hb as [?|?]; auto.
Qed.

Lemma ip_String_no_bracket x : valid_ip x → lbracket ∉ ip_String x ∧ rbracket ∉ ip_String x.
Proof.
  assert (lbracket ∉ hex_digits ∧ rbracket ∉ hex_digits) as [Hl Hr] by (apply (bool_decide_unpack _); by vm_compute).
  intros Hv. split; intros [[d Hd]|[?|[?|Hh]]]%(ip_String_chars x); done.
Qed.

Lemma Itoa_plain n : 0 ≤ n → colon ∉ Itoa n ∧ lbracket ∉ Itoa n ∧ rbracket ∉ Itoa n ∧ period ∉ Itoa n.
Proof. intros Hn. split_and!; intros [d Hd]%Itoa_chars; done. Qed.

Lemma SplitHostPort_addr x :
  valid_addr x → SplitHostPort (addr_String x) = Ok (ip_String (addr_IP x), Itoa (addr_Port x)).
Proof.
  intros [Hip Hp]. destruct (ip_String_no_bracket _ Hip) as [Hl Hr].
  destruct (Itoa_plain (addr_Port x)) as (? & ? & ? & _); [lia|]. by apply SplitHostPort_Join.
Qed.

(** Whether an address has colons. *)
Lemma V4_no_colon a b c d : valid_ip (V4 a b c d) → colon ∉ ip_String (V4 a b c d).
Proof.
  cbn [valid_ip ip_String]. rewrite !Forall_cons. intros (Ha & Hb & Hc & Hd & _) Hin.
  repeat (rewrite elem_of_app in Hin || rewrite elem_of_cons in Hin).
  destruct_or! Hin; try done; revert Hin; apply Itoa_plain; lia.
Qed.

Lemma V6_colon gs : valid_ip (V6 gs) → colon ∈ ip_String (V6 gs).
Proof.
  intros [Hl _]. cbn [ip_String]. destruct (zero_run gs) as [i l]. destruct (l =? 0)%nat.
  - destruct gs as [|g [|g' gs]]; [done|done|]. cbn [join_groups]. apply elem_of_app. right. left.
  - rewrite elem_of_app. right. left.
Qed.

Lemma ip_String_short x : valid_ip x → (length (ip_String x) ≤ 42)%nat.
Proof.
  destruct x as [a b c d|gs]; cbn [valid_ip ip_String].
  - rewrite !Forall_cons. intros (Ha & Hb & Hc & Hd & _).
    assert (∀ v, 0 ≤ v < 256 → (length (Itoa v) ≤ 5)%nat) as Hs by (intros; apply Itoa_short; lia).
    pose proof (Hs a Ha). pose proof (Hs b Hb). pose proof (Hs c Hc). pose proof (Hs d Hd).
    repeat (rewrite length_app; cbn [length]). lia.
  - intros [Hl _]. destruct (zero_run gs) as [i l]. destruct (l =? 0)%nat eqn:El.
    + pose proof (join_groups_short gs). lia.
    + apply Nat.eqb_neq in El. rewrite !length_app. cbn [length].
      pose proof (join_groups_short (take i gs)) as H1. pose proof (join_groups_short (drop (i + l) gs)) as H2.
      rewrite length_take in H1. rewrite length_drop in H2. lia.
Qed.

Lemma addr_String_short x : valid_addr x → (length (addr_String x) ≤ 64)%nat.
Proof.
  intros [Hip Hp]. pose proof (ip_String_short _ Hip). pose proof (Itoa_short (addr_Port x)).
  unfold addr_String, JoinHostPort. destruct (bool_decide _); cbn [length app]; rewrite !length_app;
    cbn [length]; lia.
Qed.

(** Packets of other senders do not matter. *)
Lemma read_discovery_strays udpAddr strays data rest last :
  Forall (λ p, p.2 ≠ udpAddr) strays →
  read_discovery udpAddr (strays ++ (data, udpAddr) :: rest) last = Ok (take 64 data).
Proof.
  induction 1 as [|[data' from] strays Hne _ IH]; simpl; [by rewrite bool_decide_true|].
  by rewrite bool_decide_false.
Qed.

(** * Properties *)

(** C37. The discovered port is the NAT's: when the relay at [relay] receives a
    discovery packet from the address [ext] that the NAT gave the node, and its echo
    is the first packet from the relay that reaches the node, whatever other packets
    come before, then the node discovers exactly the text of [ext], registers its
    port, and, for IPv4 and a TCP connection from the same address, the address that
    the relay hands out to other peers is [ext]; for IPv6 it is not an address that
    can be split into host and port. *)
Theorem external_address (net : Network) (relayAddr : bytes) (relay ext tcp : Addr)
    (write : nat → outcome unit) (strays rest : list (bytes * Addr)) (probe : bytes) (last : error) :
  valid_addr ext → valid_addr tcp → addr_IP tcp = addr_IP ext →
  (∀ i, write i = Ok tt) → Forall (λ p, p.2 ≠ relay) strays →
  let echo := from_option fst [] (head (serveUDPEcho [(probe, ext)])) in
  ln_Discover net relayAddr =
    DiscoverExternalAddr (Ok relay) write (strays ++ (echo, relay) :: rest) last →
  ln_Discover net relayAddr = Ok (addr_String ext) ∧
  externalPort net relayAddr = addr_Port ext ∧
  let handed := external_addr (remoteIP (addr_String tcp)) (externalPort net relayAddr) in
  match addr_IP ext with
  | V4 _ _ _ _ => handed = addr_String ext
  | V6 _ => is_Ok (SplitHostPort handed) = false
  end.
Proof.
  intros Hext Htcp Heq Hw Hs echo Hd.
  assert (ln_Discover net relayAddr = Ok (addr_String ext)) as Hdisc.
  { rewrite Hd. unfold DiscoverExternalAddr. cbn [wrap mbind outcome_bind]. simpl.
    rewrite !Hw. cbn [wrap]. simpl. rewrite read_discovery_strays by done.
    f_equal. apply take_ge. by apply addr_String_short. }
  assert (externalPort net relayAddr = addr_Port ext) as Hport.
  { pose proof Hext as [_ Hp]. unfold externalPort. rewrite Hdisc, SplitHostPort_addr by done.
    rewrite ParseUint32_Itoa by lia. rewrite (proj2 (Z.eqb_neq _ _)) by lia.
    unfold to_uint32. apply Z.mod_small. lia. }
  split_and!; [done|done|]. rewrite Hport. unfold remoteIP. rewrite SplitHostPort_addr, Heq by done.
  destruct Hext as [Hip Hp]. destruct ext as [[a b c d|gs] port]; cbn [addr_IP addr_Port] in *.
  - unfold addr_String, JoinHostPort. cbn [addr_IP addr_Port].
    by rewrite bool_decide_false by (by apply V4_no_colon).
  - unfold external_addr, SplitHostPort. change (str ":" ++ ?p) with (colon :: p).
    destruct (Itoa_plain port) as (Hc & _); [lia|]. fold (Itoa port).
    rewrite split_last_colon_app by done.
    pose proof (V6_colon gs Hip) as Hcol. destruct (ip_String_no_bracket _ Hip) as [Hl _].
    destruct (ip_String (V6 gs)) as [|x h]; [by apply elem_of_nil in Hcol|].
    rewrite (bool_decide_false (x = lbracket)) by (intros ->; apply Hl; left).
    by rewrite bool_decide_true.
Qed.

(** * Witnesses *)

Module DiscoveryWitness.

Definition relay : Addr := mk_Addr (V4 5 9 9 9) 7778.
Definition ext : Addr := mk_Addr (V4 5 35 113 250) 2243.
Definition tcp : Addr := mk_Addr (V4 5 35 113 250) 50123.
Definition stray : bytes * Addr := (str "noise", ext).
Definition write (i : nat) : outcome unit := Ok tt.
Definition packets : list (bytes * Addr) := [stray] ++ [(addr_String ext, relay)].

Definition net : Network :=
  mk_Network (λ _ _, Err ErrNoRoute) (λ _, DiscoverExternalAddr (Ok relay) write packets io_EOF) 7777
    (λ _, Ok tt) (λ _, None) (λ _ _, Ok tt) (λ _ _, Err ErrNoRoute).

Lemma external_address_witness :
  ln_Discover net (str "relay:7778") = Ok (str "5.35.113.250:2243") ∧
  externalPort net (str "relay:7778") = 2243 ∧
  external_addr (remoteIP (addr_String tcp)) (externalPort net (str "relay:7778")) = addr_String ext.
Proof.
  apply (external_address net (str "relay:7778") relay ext tcp write [stray] [] [Byte.x00] io_EOF);
    [|..|done|done|by repeat constructor|done].
  - split; [|simpl; lia]. by repeat constructor.
  - split; [|simpl; lia]. by repeat constructor.
Defined.

End DiscoveryWitness.
