(* ===== verification/Ipc.v ===== *)
(** The control socket: the daemon's server ([internal/daemon/server.go], message
    types of [types.go]) and its client ([internal/ipc]). Messages are JSON frames.
    The request handler is a parameter with a state of type [HS]; what [net.Conn]
    delivers and accepts are a [Reader] and a [Writer]. *)

From S2P Require Import Prelude GoStd Io Codec Framing.

(** * types.go *)

(** A [json.RawMessage] that is absent is empty. *)
Record Request := mk_Request {
  Request_ID : Z;
  Request_Method : bytes;
  Request_Params : bytes
}.

Record ErrorInfo := mk_ErrorInfo { ErrorInfo_Code : bytes; ErrorInfo_Message : bytes }.

Record Response := mk_Response {
  Response_ID : Z;
  Response_Error : option ErrorInfo;
  Response_Data : bytes
}.

Record Event := mk_Event { Event_Type : bytes; Event_Data : bytes }.

Definition EventPeerOnline : bytes := str "peer_online".
Definition EventPeerOffline : bytes := str "peer_offline".
Definition EventCatalogUpdated : bytes := str "catalog_updated".

Definition MethodStatus : bytes := str "status".
Definition MethodPeers : bytes := str "peers".
Definition MethodInvite : bytes := str "invite".
Definition MethodJoin : bytes := str "join".
Definition MethodCatalog : bytes := str "catalog".
Definition MethodDownload : bytes := str "download".
Definition MethodSubscribe : bytes := str "subscribe".

(** * server.go *)

Definition errResponse (id : Z) (code message : bytes) : Response :=
  {| Response_ID := id; Response_Error := Some (mk_ErrorInfo code message); Response_Data := [] |}.

(** An error of [json.Marshal] gives no data. *)
Definition marshalData {A} `{JsonCodec A} (v : A) : bytes :=
  match json_Marshal v with Ok data => data | _ => [] end.

Definition okResponse {A} `{JsonCodec A} (id : Z) (v : A) : Response :=
  {| Response_ID := id; Response_Error := None; Response_Data := marshalData v |}.

Section Server.
Context `{JsonCodec Request} `{JsonCodec Response} `{JsonCodec Event}.
Context {HS : Type} (Handle : HS → Request → Response * HS).

(** How a connection's loop ended. *)
Inductive conn_end := ReadFailed | WriteFailed | SubscribeRequest (reqID : Z) | OutOfFuel.

(** The loop of [handleConn]; every iteration consumes a header. *)
Fixpoint handleConn_loop (fuel : nat) (h : HS) (r : Reader) (w : Writer) :
    conn_end * HS * Reader * Writer :=
  match fuel with
  | O => (OutOfFuel, h, r, w)
  | S fuel' =>
      match ReadJSON r json_zero with
      | (Ok req, r) =>
          if bool_decide (Request_Method req = MethodSubscribe)
          then (SubscribeRequest (Request_ID req), h, r, w)
          else
            let '(resp, h) := Handle h req in
            match WriteJSON w resp with
            | (Ok _, w) => handleConn_loop fuel' h r w
            | (_, w) => (WriteFailed, h, r, w)
            end
      | (_, r) => (ReadFailed, h, r, w)
      end
  end.

Definition handleConn (h : HS) (r : Reader) (w : Writer) : conn_end * HS * Reader * Writer :=
  handleConn_loop (S (length (r_in r))) h r w.

(** [deadline] is the result of [SetWriteDeadline]. *)
Record subscriber := mk_subscriber {
  sub_w : Writer;
  sub_deadline : option error;
  sub_closed : bool
}.

Definition sub_send (sub : subscriber) (event : Event) : outcome unit * subscriber :=
  if sub_closed sub then (Err net_ErrClosed, sub)
  else
    match sub_deadline sub with
    | Some e => (Err e, sub)
    | None =>
        let '(res, w) := WriteJSON (sub_w sub) event in
        (res, {| sub_w := w; sub_deadline := sub_deadline sub; sub_closed := sub_closed sub |})
    end.

Definition sub_close (sub : subscriber) : subscriber :=
  {| sub_w := sub_w sub; sub_deadline := sub_deadline sub; sub_closed := true |}.

(** Subscribers are numbered: [subscribers] is the server's slice of pointers and
    [subs] what they point to. *)
Record Server := mk_Server {
  subscribers : list nat;
  subs : gmap nat subscriber;
  closed : bool
}.

Definition with_sub (s : Server) (n : nat) (sub : subscriber) : Server :=
  {| subscribers := subscribers s; subs := <[n := sub]> (subs s); closed := closed s |}.

Fixpoint remove_first (n : nat) (l : list nat) : list nat :=
  match l with
  | [] => []
  | existing :: l' => if bool_decide (existing = n) then l' else existing :: remove_first n l'
  end.

Definition removeSub (s : Server) (n : nat) : Server :=
  {| subscribers := remove_first n (subscribers s); subs := subs s; closed := closed s |}.

(** One turn of the loop of [Broadcast]. *)
Definition broadcast_one (event : Event) (s : Server) (n : nat) : Server :=
  match subs s !! n with
  | None => s
  | Some sub =>
      match sub_send sub event with
      | (Ok _, sub) => with_sub s n sub
      | (_, sub) => with_sub (removeSub s n) n (sub_close sub)
      end
  end.

Definition Broadcast (s : Server) (event : Event) : Server :=
  foldl (broadcast_one event) s (subscribers s).

(** [handleSubscribe] up to its read loop, with the new subscriber [n]: [false]
    when the acknowledgement could not be written. *)
Definition subscribe_begin (s : Server) (n : nat) (w : Writer) (deadline : option error) (reqID : Z) :
    bool * Server :=
  match WriteJSON w {| Response_ID := reqID; Response_Error := None; Response_Data := [] |} with
  | (Ok _, w) =>
      (true, {| subscribers := subscribers s ++ [n];
                subs := <[n := mk_subscriber w deadline false]> (subs s); closed := closed s |})
  | _ => (false, s)
  end.

(** The client has closed the connection. *)
Definition subscribe_end (s : Server) (n : nat) : Server := removeSub s n.

Definition close_sub (s : Server) (n : nat) : Server :=
  match subs s !! n with Some sub => with_sub s n (sub_close sub) | None => s end.

(** [ln_Close] is the result of closing the listener. *)
Definition Close (ln_Close : outcome unit) (s : Server) : outcome unit * Server :=
  if closed s then (Ok tt, s)
  else
    let subs' := subscribers s in
    let s := {| subscribers := []; subs := subs s; closed := true |} in
    (ln_Close, foldl close_sub s subs').

End Server.

(** [removeStaleSocket] with the results of its calls: [os.Stat], [net.Dial] and
    [os.Remove]. *)
Definition removeStaleSocket (stat dial remove : outcome unit) : outcome unit :=
  match stat with
  | Err err => if errors_Is err os_ErrNotExist then Ok tt else Err err
  | Panic => Panic
  | Ok _ =>
      match dial with
      | Ok _ => Err (Errorf "another daemon is already running (socket %s is live)" [])
      | Err _ => remove
      | Panic => Panic
      end
  end.

(** * internal/ipc *)

Section Client.
Context `{JsonCodec Request} `{JsonCodec Response} `{JsonCodec Event}.

Record Client := mk_Client { c_r : Reader; c_w : Writer; nextID : Z }.

(** [nextID.Add(1)]. *)
Definition next_id (c : Client) : Z := to_uint64 (nextID c + 1).

Definition exchange (c : Client) (req : Request) : outcome Response * Client :=
  let c := {| c_r := c_r c; c_w := c_w c; nextID := next_id c |} in
  match WriteJSON (c_w c) req with
  | (Ok _, w) =>
      let '(res, r) := ReadJSON (c_r c) json_zero in
      (res, {| c_r := r; c_w := w; nextID := nextID c |})
  | (Err e, w) => (Err e, {| c_r := c_r c; c_w := w; nextID := nextID c |})
  | (Panic, w) => (Panic, {| c_r := c_r c; c_w := w; nextID := nextID c |})
  end.

(** [params] is the marshalled argument, [Ok []] for none. *)
Definition call (c : Client) (method : bytes) (params : outcome bytes) : outcome Response * Client :=
  match wrap "ipc: marshal params: %w" params with
  | Ok rawParams =>
      exchange c {| Request_ID := next_id c; Request_Method := method; Request_Params := rawParams |}
  | Err e => (Err e, {| c_r := c_r c; c_w := c_w c; nextID := next_id c |})
  | Panic => (Panic, c)
  end.

Definition callAndDecode {T} `{JsonCodec T} (c : Client) (method : bytes) (params : outcome bytes) :
    outcome T * Client :=
  let '(res, c) := call c method params in
  (resp ← res;
   match Response_Error resp with
   | Some e => Err (Errorf "daemon: %s: %s" [])
   | None => wrap "ipc: unmarshal %s: %w" (json_Unmarshal (Response_Data resp) json_zero)
   end, c).

(** The goroutine of [Subscribe]: the channel holds 64 events, [taken] is how many
    the consumer has received before each event arrives; events that do not fit
    are dropped. *)
Fixpoint subscribe_loop (fuel : nat) (taken : nat → nat) (i : nat) (r : Reader) (ch : list Event) :
    list Event :=
  match fuel with
  | O => ch
  | S fuel' =>
      match ReadJSON r json_zero with
      | (Ok event, r) =>
          let ch := if (length ch - taken i <? 64)%nat then ch ++ [event] else ch in
          subscribe_loop fuel' taken (S i) r ch
      | _ => ch
      end
  end.

(** The events the channel carried until the connection was lost. *)
Definition Subscribe (taken : nat → nat) (c : Client) : outcome (list Event) * Client :=
  let '(res, c) := exchange c {| Request_ID := next_id c; Request_Method := MethodSubscribe;
                                 Request_Params := [] |} in
  (resp ← res;
   match Response_Error resp with
   | Some e => Err (Errorf "daemon: %s: %s" [])
   | None => Ok (subscribe_loop (S (length (r_in (c_r c)))) taken 0 (c_r c) [])
   end, c).

End Client.

(** * Fuel *)

Section Fuel.
Context `{JsonCodec Request} `{JsonCodec Response} `{JsonCodec Event}.
Context {HS : Type} (Handle : HS → Request → Response * HS).

Lemma handleConn_loop_fuel fuel h r w :
  (length (r_in r) < fuel)%nat →
  handleConn_loop Handle fuel h r w = handleConn Handle h r w ∧
  (handleConn Handle h r w).1.1.1 ≠ OutOfFuel.
Proof.
  unfold handleConn.
  assert (∀ n f h r w, (length (r_in r) ≤ n)%nat → (length (r_in r) < f)%nat →
    handleConn_loop Handle f h r w = handleConn_loop Handle (S n) h r w ∧
    (handleConn_loop Handle (S n) h r w).1.1.1 ≠ OutOfFuel) as Hgen; [|by apply Hgen].
  clear. intros n. induction n as [n IH] using lt_wf_ind. intros f h r w Hn Hf.
  destruct f as [|f]; [lia|]. cbn [handleConn_loop].
  destruct (ReadJSON r json_zero) as [[req|e|] r1] eqn:Er; [|done|done].
  apply ReadJSON_progress in Er. destruct (bool_decide _); [done|].
  destruct (Handle h req) as [resp h1]. destruct (WriteJSON w resp) as [[u|e|] w1]; [|done|done].
  destruct n as [|n]; [lia|]. apply IH; lia.
Qed.

Lemma subscribe_loop_fuel fuel taken i r ch :
  (length (r_in r) < fuel)%nat →
  subscribe_loop fuel taken i r ch = subscribe_loop (S (length (r_in r))) taken i r ch.
Proof.
  assert (∀ n f i r ch, (length (r_in r) ≤ n)%nat → (length (r_in r) < f)%nat →
    subscribe_loop f taken i r ch = subscribe_loop (S n) taken i r ch) as Hgen; [|by apply Hgen].
  clear. intros n. induction n as [n IH] using lt_wf_ind. intros f i r ch Hn Hf.
  destruct f as [|f]; [lia|]. cbn [subscribe_loop].
  destruct (ReadJSON r json_zero) as [[ev|e|] r1] eqn:Er; [|done|done].
  apply ReadJSON_progress in Er. destruct n as [|n]; [lia|]. apply IH; lia.
Qed.

End Fuel.

(** * A client and a server *)

Section Exchange.
Context `{JReq : JsonLaws Request} `{JResp : JsonLaws Response} `{JEv : JsonCodec Event}.
Context {HS : Type} (Handle : HS → Request → Response * HS).

(** Consecutive calls of a client, whatever their results. *)
Fixpoint calls (c : Client) (l : list (bytes * bytes)) : list (outcome Response) * Client :=
  match l with
  | [] => ([], c)
  | (method, params) :: l' =>
      let '(res, c) := call c method (Ok params) in
      let '(ress, c) := calls c l' in
      (res :: ress, c)
  end.

(** The requests they send: ids count up from the client's counter. *)
Fixpoint requests (id : Z) (l : list (bytes * bytes)) : list Request :=
  match l with
  | [] => []
  | (method, params) :: l' =>
      let id := to_uint64 (id + 1) in
      mk_Request id method params :: requests id l'
  end.

(** The handler applied to one request after the other. *)
Fixpoint handle_all (h : HS) (reqs : list Request) : list Response * HS :=
  match reqs with
  | [] => ([], h)
  | req :: reqs' =>
      let '(resp, h) := Handle h req in
      let '(resps, h) := handle_all h reqs' in
      (resp :: resps, h)
  end.

Definition frames (datas : list bytes) : bytes := concat (map frame datas).

Lemma frames_cons d ds : frames (d :: ds) = frame d ++ frames ds.
Proof. done. Qed.

Lemma ReadJSON_empty (v : Request) : is_Ok (fst (ReadJSON {| r_in := []; r_end := io_EOF |} v)) = false.
Proof. done. Qed.

(** A server that reads the frames of some requests and then the end of the
    stream answers all of them, unless a response cannot be written. *)
Lemma handleConn_loop_frames reqs datas fuel h w h' r' w' :
  Forall2 sendable reqs datas → (length reqs < fuel)%nat →
  handleConn_loop Handle fuel h {| r_in := frames datas; r_end := io_EOF |} w = (ReadFailed, h', r', w') →
  let '(resps, h2) := handle_all h (map json_canon reqs) in
  h' = h2 ∧ ∃ rdatas, Forall2 sendable resps rdatas ∧ w_out w' = w_out w ++ frames rdatas.
Proof.
  intros Hs. revert fuel h w. induction Hs as [|req data reqs datas Hd Hs IH]; intros fuel h w Hf.
  { destruct fuel as [|fuel]; [simpl in Hf; lia|]. cbn [handleConn_loop frames map concat].
    destruct (ReadJSON _ _) as [[req|e|] r1] eqn:E; [|intros [= <- <- <-]..|intros [= <- <- <-]].
    { pose proof (ReadJSON_empty json_zero) as Hn. by rewrite E in Hn. }
    all: split; [done|]; exists []; by rewrite app_nil_r. }
  destruct fuel as [|fuel]; [simpl in Hf; lia|]. rewrite frames_cons.
  cbn [handleConn_loop map handle_all]. rewrite (ReadJSON_frame _ _ _ _ Hd).
  destruct (bool_decide _); [done|]. destruct (Handle h (json_canon req)) as [resp h1].
  destruct (WriteJSON w resp) as [[[]|e|] w1] eqn:E; [|done|done].
  intros Hl. apply WriteJSON_inv in E as (rd & Hrd & _ & ->).
  apply IH in Hl; [|simpl in Hf; lia]. destruct (handle_all h1 _) as [resps h2].
  destruct Hl as (-> & rds & Hrds & Hout). split; [done|]. exists (rd :: rds).
  split; [by constructor|]. by rewrite Hout, frames_cons, app_assoc.
Qed.

(** A client that reads the frames of the responses, one per call. *)
Lemma calls_frames l c reqs datas resps rdatas rest e :
  requests (nextID c) l = reqs → Forall2 sendable reqs datas → w_room (c_w c) = None →
  Forall2 sendable resps rdatas → length resps = length reqs →
  c_r c = {| r_in := frames rdatas ++ rest; r_end := e |} →
  ∃ c', calls c l = (map (λ resp, Ok (json_canon resp)) resps, c') ∧
    w_out (c_w c') = w_out (c_w c) ++ frames datas ∧ c_r c' = {| r_in := rest; r_end := e |}.
Proof.
  revert c reqs datas resps rdatas.
  induction l as [|[method params] l IH]; intros c reqs datas resps rdatas; simpl; intros <- Hs Hroom Hr Hlen Hc.
  { inversion Hs. destruct resps; [|done]. inversion Hr; subst. exists c. by rewrite app_nil_r. }
  inversion Hs as [|req data ? datas' Hd Hs']; subst. destruct resps as [|resp resps]; [done|].
  inversion Hr as [|? rd ? rds Hrd Hrs]; subst. simpl in Hlen.
  unfold call, exchange, next_id. cbn [wrap c_w c_r].
  rewrite (WriteJSON_Ok _ _ _ Hd) by (by unfold accepts; rewrite Hroom).
  rewrite Hc, frames_cons, <- app_assoc, (ReadJSON_frame _ _ _ _ Hrd). cbn [nextID].
  edestruct (IH {| c_r := {| r_in := frames rds ++ rest; r_end := e |};
                   c_w := after_write (c_w c) (frame data); nextID := to_uint64 (nextID c + 1) |})
    as (c' & -> & Hw & Hr'); [done|done|by simpl; rewrite Hroom|done|by injection Hlen|done|].
  exists c'. split_and!; [done| |done]. rewrite Hw, frames_cons. cbn [after_write w_out]. by rewrite app_assoc.
Qed.

(** What the calls write does not depend on what they read. *)
Lemma calls_wrote l c datas :
  Forall2 sendable (requests (nextID c) l) datas → w_room (c_w c) = None →
  w_out (c_w (snd (calls c l))) = w_out (c_w c) ++ frames datas.
Proof.
  revert c datas. induction l as [|[method params] l IH]; intros c datas; simpl; intros Hs Hroom.
  { inversion Hs. by rewrite app_nil_r. }
  inversion Hs as [|req data ? datas' Hd Hs']; subst.
  unfold call, exchange, next_id. cbn [wrap c_w c_r].
  rewrite (WriteJSON_Ok _ _ _ Hd) by (by unfold accepts; rewrite Hroom).
  destruct (ReadJSON (c_r c) json_zero) as [res r]. cbn [nextID].
  specialize (IH {| c_r := r; c_w := after_write (c_w c) (frame data);
                    nextID := to_uint64 (nextID c + 1) |} datas' Hs').
  destruct (calls _ l) as [ress c']. simpl in *. rewrite IH by (by rewrite Hroom).
  by rewrite frames_cons, app_assoc.
Qed.

Lemma frames_length datas : (length datas ≤ length (frames datas))%nat.
Proof.
  induction datas as [|d ds IH]; [done|]. rewrite frames_cons, length_app. unfold frame.
  rewrite length_app, be_put_length. simpl. lia.
Qed.

Lemma handle_all_length h reqs : length (fst (handle_all h reqs)) = length reqs.
Proof.
  revert h. induction reqs as [|req reqs IH]; intros h; simpl; [done|].
  destruct (Handle h req) as [resp h1]. specialize (IH h1). destruct (handle_all h1 reqs). simpl in *. lia.
Qed.

End Exchange.

(** * Subscribers *)

Section Subscribers.
Context `{JResp : JsonCodec Response} `{JEv : JsonLaws Event}.

(** What happens to the server's subscribers: a client subscribes or leaves, an
    event is broadcast, the server is closed. *)
Inductive sstep : Server → Server → Prop :=
| s_subscribe s n w deadline reqID s' :
    subs s !! n = None → closed s = false →
    subscribe_begin s n w deadline reqID = (true, s') → sstep s s'
| s_leave s n : sstep s (subscribe_end s n)
| s_broadcast s ev : sstep s (Broadcast s ev)
| s_close s r : sstep s (snd (Close r s)).

Definition NewServer : Server := {| subscribers := []; subs := ∅; closed := false |}.

(** The listed subscribers are distinct and open. *)
Definition subs_ok (s : Server) : Prop :=
  NoDup (subscribers s) ∧
  ∀ n, n ∈ subscribers s → ∃ sub, subs s !! n = Some sub ∧ sub_closed sub = false.

Lemma remove_first_elem n k l : NoDup l → k ∈ remove_first n l ↔ k ∈ l ∧ k ≠ n.
Proof.
  induction l as [|x l IH]; intros Hnd; [set_solver|]. apply NoDup_cons in Hnd as [Hx Hnd]. simpl.
  case_bool_decide as Heq; subst; [set_solver|]. rewrite !elem_of_cons, IH by done. set_solver.
Qed.

Lemma remove_first_NoDup n l : NoDup l → NoDup (remove_first n l).
Proof.
  induction l as [|x l IH]; intros Hnd; [done|]. apply NoDup_cons in Hnd as [Hx Hnd]. simpl.
  case_bool_decide; [done|]. apply NoDup_cons. rewrite remove_first_elem by done. naive_solver.
Qed.

Lemma sub_send_open sub ev : sub_closed (snd (sub_send sub ev)) = sub_closed sub.
Proof.
  unfold sub_send. destruct (sub_closed sub) eqn:E; [done|]. destruct (sub_deadline sub); [done|].
  by destruct (WriteJSON (sub_w sub) ev).
Qed.

(** One turn of a broadcast. *)
Lemma broadcast_one_effect ev s n sub :
  NoDup (subscribers s) → subs s !! n = Some sub →
  let s' := broadcast_one ev s n in
  NoDup (subscribers s') ∧ closed s' = closed s ∧
  if is_Ok (fst (sub_send sub ev))
  then subscribers s' = subscribers s ∧ subs s' = <[n := snd (sub_send sub ev)]> (subs s)
  else (∀ k, k ∈ subscribers s' ↔ k ∈ subscribers s ∧ k ≠ n) ∧
       subs s' = <[n := sub_close (snd (sub_send sub ev))]> (subs s).
Proof.
  intros Hnd Hn. unfold broadcast_one. rewrite Hn. destruct (sub_send sub ev) as [[u|e|] sub']; simpl.
  - done.
  - split_and!; [by apply remove_first_NoDup|done| |done]. intros k. by apply remove_first_elem.
  - split_and!; [by apply remove_first_NoDup|done| |done]. intros k. by apply remove_first_elem.
Qed.

(** What a broadcast to the subscribers [l] does to the one numbered [n]. *)
Definition told (ev : Event) (l : list nat) (s s' : Server) (n : nat) (sub : subscriber) : Prop :=
  if decide (n ∈ l)
  then if is_Ok (fst (sub_send sub ev))
       then subs s' !! n = Some (snd (sub_send sub ev)) ∧ (n ∈ subscribers s' ↔ n ∈ subscribers s)
       else subs s' !! n = Some (sub_close (snd (sub_send sub ev))) ∧ n ∉ subscribers s'
  else subs s' !! n = Some sub ∧ (n ∈ subscribers s' ↔ n ∈ subscribers s).

Lemma broadcast_loop ev l s :
  NoDup (subscribers s) → NoDup l → (∀ n, n ∈ l → is_Some (subs s !! n)) →
  let s' := foldl (broadcast_one ev) s l in
  NoDup (subscribers s') ∧ closed s' = closed s ∧ (∀ n, n ∈ subscribers s' → n ∈ subscribers s) ∧
  ∀ n sub, subs s !! n = Some sub → told ev l s s' n sub.
Proof.
  revert s. induction l as [|k l IH]; intros s Hnds Hnd Hl; cbn [foldl].
  { split_and!; [done|done|done|]. intros n sub Hn. unfold told. by rewrite decide_False by set_solver. }
  apply NoDup_cons in Hnd as [Hk Hnd]. destruct (Hl k) as [sub Hsub]; [left|].
  destruct (broadcast_one_effect ev s k sub Hnds Hsub) as (Hnd1 & Hc1 & Heff).
  set (s1 := broadcast_one ev s k) in *. clearbody s1.
  assert (∃ sub', subs s1 = <[k := sub']> (subs s) ∧
            (∀ n, n ≠ k → n ∈ subscribers s1 ↔ n ∈ subscribers s) ∧
            (k ∈ subscribers s1 → k ∈ subscribers s) ∧ told ev [k] s s1 k sub)
    as (sub' & Hsubs & Hin & Hink & Htold1).
  { unfold told. rewrite decide_True by left.
    destruct (is_Ok (fst (sub_send sub ev))); destruct Heff as [Hl1 ->]; eexists; (split; [done|]);
      rewrite lookup_insert_eq; [by rewrite Hl1|]. split_and!; set_solver. }
  destruct (IH s1 Hnd1 Hnd) as (Hnd' & Hc' & Hsup & Htold).
  { intros n Hn. rewrite Hsubs, lookup_insert_ne by (by intros ->). apply Hl. by right. }
  split_and!; [done|congruence| |].
  - intros n Hn%Hsup. destruct (decide (n = k)) as [->|Hne]; [auto|by apply Hin].
  - intros n x Hn. destruct (decide (n = k)) as [->|Hne].
    + rewrite Hsub in Hn. injection Hn as <-. specialize (Htold k sub').
      rewrite Hsubs, lookup_insert_eq in Htold. specialize (Htold eq_refl).
      unfold told in *. rewrite decide_True by left. rewrite decide_True in Htold1 by left.
      rewrite decide_False in Htold by done. rewrite Hsubs, lookup_insert_eq in Htold1.
      destruct (is_Ok (fst (sub_send sub ev))); destruct Htold as [-> ->]; done.
    + specialize (Htold n x). rewrite Hsubs, lookup_insert_ne in Htold by done.
      specialize (Htold Hn). specialize (Hin n Hne). unfold told in *.
      destruct (decide (n ∈ l)).
      * rewrite decide_True by (by right). destruct (is_Ok (fst (sub_send x ev))); tauto.
      * rewrite decide_False; [tauto|]. by intros [?|?]%elem_of_cons.
Qed.

Lemma Broadcast_effect ev s :
  subs_ok s →
  let s' := Broadcast s ev in
  NoDup (subscribers s') ∧ closed s' = closed s ∧ (∀ n, n ∈ subscribers s' → n ∈ subscribers s) ∧
  ∀ n sub, subs s !! n = Some sub → told ev (subscribers s) s s' n sub.
Proof.
  intros [Hnd Hopen]. apply broadcast_loop; [done|done|].
  intros n (sub & Hn & _)%Hopen. by eexists.
Qed.

Lemma subs_ok_step s s' : subs_ok s → sstep s s' → subs_ok s'.
Proof.
  intros Hok Hst. revert Hok. destruct Hst as [s0 n w dl reqID s1 Hn Hcl Hb|s0 n|s0 ev|s0 r]; intros Hok.
  - unfold subscribe_begin in Hb. destruct (WriteJSON w _) as [[[]| |] w'] eqn:E; try done.
    injection Hb as <-. destruct Hok as [Hnd Hopen].
    assert (n ∉ subscribers s0) as Hnin by (intros (? & Hs & _)%Hopen; congruence). split; simpl.
    + apply NoDup_app. split_and!; [done|set_solver|apply NoDup_singleton].
    + intros k Hk. destruct (decide (k = n)) as [->|Hne].
      * rewrite lookup_insert_eq. by eexists.
      * rewrite lookup_insert_ne by done. apply Hopen. set_solver.
  - destruct Hok as [Hnd Hopen]. split; [by apply remove_first_NoDup|].
    intros k [Hk _]%remove_first_elem; [|done]. by apply Hopen.
  - destruct (Broadcast_effect ev s0 Hok) as (Hnd & _ & Hsup & Htold). split; [done|].
    intros n Hn. pose proof (Hsup _ Hn) as Hin. destruct Hok as [_ Hopen].
    destruct (Hopen _ Hin) as (sub & Hs & Hc). specialize (Htold _ _ Hs). unfold told in Htold.
    rewrite decide_True in Htold by done.
    destruct (is_Ok _); destruct Htold as [Hs' Hn']; [|done].
    exists (snd (sub_send sub ev)). by rewrite sub_send_open.
  - unfold Close. destruct (closed s0); [done|]. simpl.
    assert (∀ l t, subscribers (foldl close_sub t l) = subscribers t) as Hl.
    { induction l as [|k l IH]; intros t; simpl; [done|]. rewrite IH. unfold close_sub. by case_match. }
    split; rewrite Hl; simpl; [constructor|set_solver].
Qed.

Lemma subs_ok_run s s' : rtc sstep s s' → subs_ok s → subs_ok s'.
Proof. induction 1; eauto using subs_ok_step. Qed.

(** An event that can be sent reaches a subscriber whose connection takes it. *)
Definition takes (data : bytes) (sub : subscriber) : Prop :=
  sub_deadline sub = None ∧ accepts (sub_w sub) (frame data).

Definition received (data : bytes) (sub : subscriber) : subscriber :=
  {| sub_w := after_write (sub_w sub) (frame data); sub_deadline := sub_deadline sub;
     sub_closed := sub_closed sub |}.

Lemma sub_send_takes sub ev data :
  sendable ev data → sub_closed sub = false →
  (takes data sub → sub_send sub ev = (Ok tt, received data sub)) ∧
  (is_Ok (fst (sub_send sub ev)) = true → takes data sub).
Proof.
  intros Hs Hc. unfold sub_send. rewrite Hc. split.
  - intros [Hd Ha]. unfold received. by rewrite Hd, Hc, (WriteJSON_Ok _ _ _ Hs Ha).
  - destruct (sub_deadline sub) as [e|] eqn:Ed; [done|].
    destruct (WriteJSON (sub_w sub) ev) as [[[]|e|] w] eqn:E; [intros _|done|done].
    apply WriteJSON_inv in E as (d & Hd & Ha & _). split; [done|].
    destruct Hs as [Hs _], Hd as [Hd _]. rewrite Hs in Hd. by injection Hd as ->.
Qed.

End Subscribers.

(** * Properties *)

(** Calls over the control socket are answered in order: when a client makes a
    sequence of calls, and the server's connection loop reads what the client wrote
    and the client what the server wrote, the loop handles exactly the client's
    requests one after the other, and each call returns the handler's response to
    its own request. *)
Theorem ipc_calls_answered `{JsonLaws Request} `{JsonLaws Response} {HS : Type}
    (Handle : HS → Request → Response * HS) (l : list (bytes * bytes)) (c : Client)
    (datas : list bytes) (h h' : HS) (w w' : Writer) (r' : Reader) (rest : bytes) (e : error) :
  Forall2 sendable (requests (nextID c) l) datas →
  w_room (c_w c) = None → w_out (c_w c) = [] → w_out w = [] →
  handleConn Handle h {| r_in := w_out (c_w (snd (calls c l))); r_end := io_EOF |} w =
    (ReadFailed, h', r', w') →
  c_r c = {| r_in := w_out w' ++ rest; r_end := e |} →
  let '(resps, h2) := handle_all Handle h (map json_canon (requests (nextID c) l)) in
  h' = h2 ∧ fst (calls c l) = map (λ resp, Ok (json_canon resp)) resps ∧
  c_r (snd (calls c l)) = {| r_in := rest; r_end := e |}.
Proof.
  intros Hs Hroom Hc0 Hw0 Hh Hr.
  rewrite (calls_wrote _ _ _ Hs Hroom), Hc0 in Hh. simpl in Hh. unfold handleConn in Hh.
  apply (handleConn_loop_frames Handle _ _ _ _ _ _ _ _ Hs) in Hh;
    [|rewrite (Forall2_length _ _ _ Hs); simpl; pose proof (frames_length datas); lia].
  pose proof (handle_all_length Handle h (map json_canon (requests (nextID c) l))) as Hlen.
  destruct (handle_all Handle h _) as [resps h2]. destruct Hh as (-> & rds & Hrds & Hout).
  rewrite length_map in Hlen. rewrite Hout, Hw0 in Hr. simpl in Hr.
  destruct (calls_frames l c _ _ _ _ _ _ eq_refl Hs Hroom Hrds Hlen Hr) as (c' & -> & _ & Hr'). done.
Qed.

(** A broadcast reaches every subscriber that can be written to: in every state
    that subscriptions, departures, broadcasts and [Close] produce, each listed
    subscriber whose connection takes the event's frame gets exactly that frame and
    stays listed; any other listed subscriber is closed and no longer listed; nobody
    else is touched. *)
Theorem Broadcast_delivers `{JsonCodec Response} `{JsonLaws Event} (s : Server) (ev : Event)
    (data : bytes) (n : nat) (sub : subscriber) :
  rtc sstep NewServer s → sendable ev data → subs s !! n = Some sub →
  let s' := Broadcast s ev in
  (n ∈ subscribers s → takes data sub →
     subs s' !! n = Some (received data sub) ∧ n ∈ subscribers s') ∧
  (n ∈ subscribers s → ¬ takes data sub →
     (∃ sub', subs s' !! n = Some sub' ∧ sub_closed sub' = true) ∧ n ∉ subscribers s') ∧
  (n ∉ subscribers s → subs s' !! n = Some sub ∧ n ∉ subscribers s').
Proof.
  intros Hr Hs Hn. assert (subs_ok s) as Hok.
  { apply (subs_ok_run _ _ Hr). by split; [constructor|set_solver]. }
  destruct (Broadcast_effect ev s Hok) as (_ & _ & Hsup & Htold). specialize (Htold _ _ Hn).
  unfold told in Htold. destruct (decide (n ∈ subscribers s)) as [Hin|Hnin].
  - destruct Hok as [_ Hopen]. destruct (Hopen _ Hin) as (x & Hx & Hc). rewrite Hn in Hx. injection Hx as <-.
    destruct (sub_send_takes sub ev data Hs Hc) as [Hyes Hno]. split_and!; [| |done].
    + intros _ Ht. rewrite (Hyes Ht) in Htold. simpl in Htold. naive_solver.
    + intros _ Ht. destruct (is_Ok _) eqn:E; [by destruct Ht; apply Hno|].
      destruct Htold as [-> Hn']. eauto.
  - split_and!; [done|done|]. naive_solver.
Qed.

(** * Witnesses *)

Module IpcInstance.

#[export] Instance Request_eq_dec : EqDecision Request.
Proof. solve_decision. Defined.
#[export] Instance Request_count : Countable Request.
Proof.
  refine (inj_countable' (λ r, (Request_ID r, Request_Method r, Request_Params r))
            (λ t, let '(i, m, p) := t in mk_Request i m p) _). by intros [].
Defined.
#[export] Instance ErrorInfo_eq_dec : EqDecision ErrorInfo.
Proof. solve_decision. Defined.
#[export] Instance ErrorInfo_count : Countable ErrorInfo.
Proof.
  refine (inj_countable' (λ r, (ErrorInfo_Code r, ErrorInfo_Message r))
            (λ t, let '(c, m) := t in mk_ErrorInfo c m) _). by intros [].
Defined.
#[export] Instance Response_eq_dec : EqDecision Response.
Proof. solve_decision. Defined.
#[export] Instance Response_count : Countable Response.
Proof.
  refine (inj_countable' (λ r, (Response_ID r, Response_Error r, Response_Data r))
            (λ t, let '(i, e, d) := t in mk_Response i e d) _). by intros [].
Defined.
#[export] Instance Event_eq_dec : EqDecision Event.
Proof. solve_decision. Defined.
#[export] Instance Event_count : Countable Event.
Proof.
  refine (inj_countable' (λ r, (Event_Type r, Event_Data r))
            (λ t, let '(y, d) := t in mk_Event y d) _). by intros [].
Defined.

#[export] Instance req_codec : JsonCodec Request := TinyJson.codec (mk_Request 0 [] []) id.
#[export] Instance resp_codec : JsonCodec Response := TinyJson.codec (mk_Response 0 None []) id.
#[export] Instance event_codec : JsonCodec Event := TinyJson.codec (mk_Event [] []) id.
#[export] Instance req_laws : JsonLaws Request.
Proof. by apply TinyJson.laws. Qed.
#[export] Instance resp_laws : JsonLaws Response.
Proof. by apply TinyJson.laws. Qed.
#[export] Instance event_laws : JsonLaws Event.
Proof. by apply TinyJson.laws. Qed.

End IpcInstance.

Module IpcWitness.
Import IpcInstance.

Definition open_writer : Writer := {| w_out := []; w_room := None; w_err := io_EOF |}.

(** A handler that counts requests and echoes the method. *)
Definition echo (h : nat) (req : Request) : Response * nat :=
  (mk_Response (Request_ID req) None (Request_Method req), S h).

Definition l : list (bytes * bytes) := [(MethodStatus, []); (str "x", str "{}")].
Definition datas : list bytes := map marshalData (requests 4 l).
Definition served : conn_end * nat * Reader * Writer :=
  handleConn echo 7%nat {| r_in := frames datas; r_end := io_EOF |} open_writer.
Definition w' : Writer := snd served.
Definition c : Client :=
  {| c_r := {| r_in := w_out w' ++ str "rest"; r_end := net_ErrClosed |}; c_w := open_writer;
     nextID := 4 |}.

Lemma datas_sendable : Forall2 sendable (requests (nextID c) l) datas.
Proof. repeat constructor; by vm_compute. Qed.

Lemma served_value :
  handleConn echo 7%nat {| r_in := w_out (c_w (snd (calls c l))); r_end := io_EOF |} open_writer =
    (ReadFailed, 9%nat, {| r_in := []; r_end := io_EOF |}, w').
Proof. by vm_compute. Qed.

Lemma ipc_calls_answered_witness :
  let '(resps, h2) := handle_all echo 7%nat (map json_canon (requests (nextID c) l)) in
  9%nat = h2 ∧ fst (calls c l) = map (λ resp, Ok (json_canon resp)) resps ∧
  c_r (snd (calls c l)) = {| r_in := str "rest"; r_end := net_ErrClosed |}.
Proof.
  apply (ipc_calls_answered echo l c datas 7%nat 9%nat open_writer w' {| r_in := []; r_end := io_EOF |});
    [apply datas_sendable|done|done|done|apply served_value|done].
Defined.

(** The second subscriber's connection is full after the acknowledgement. *)
Definition ack : Response := mk_Response 1 None [].
Definition ack_size : nat := length (frame (marshalData ack)).
Definition small_writer : Writer := {| w_out := []; w_room := Some ack_size; w_err := net_ErrClosed |}.
Definition s1 : Server := snd (subscribe_begin NewServer 1 open_writer None 1).
Definition s2 : Server := snd (subscribe_begin s1 2 small_writer None 1).
Definition ev : Event := mk_Event EventCatalogUpdated [].
Definition sub1 : subscriber := default (mk_subscriber open_writer None true) (subs s2 !! 1%nat).

Lemma s2_run : rtc sstep NewServer s2.
Proof.
  apply (rtc_l _ _ s1); [|apply (rtc_l _ _ s2); [|apply rtc_refl]].
  - apply (s_subscribe _ 1 open_writer None 1); [done|done|]. apply pair_fst. by vm_compute.
  - apply (s_subscribe _ 2 small_writer None 1); [by vm_compute|by vm_compute|].
    apply pair_fst. by vm_compute.
Qed.

Lemma s2_listed : subscribers s2 = [1; 2]%nat ∧ subscribers (Broadcast s2 ev) = [1]%nat.
Proof. by vm_compute. Qed.

Lemma Broadcast_delivers_witness :
  let s' := Broadcast s2 ev in
  (1%nat ∈ subscribers s2 → takes (marshalData ev) sub1 →
     subs s' !! 1%nat = Some (received (marshalData ev) sub1) ∧ 1%nat ∈ subscribers s') ∧
  (1%nat ∈ subscribers s2 → ¬ takes (marshalData ev) sub1 →
     (∃ sub', subs s' !! 1%nat = Some sub' ∧ sub_closed sub' = true) ∧ 1%nat ∉ subscribers s') ∧
  (1%nat ∉ subscribers s2 → subs s' !! 1%nat = Some sub1 ∧ 1%nat ∉ subscribers s').
Proof.
  apply (Broadcast_delivers s2 ev (marshalData ev) 1%nat sub1);
    [apply s2_run|split; by vm_compute|by vm_compute].
Defined.

End IpcWitness.
