(* ===== verification/Daemon.v ===== *)
(** The daemon, [internal/daemon]: the handler of control requests ([handler.go])
    composed of the peer store, the catalog, invites and the connection manager, and
    the loops of [daemon.go]. [err_text] is the text of an error value
    ([err.Error()]); the clock and the random source of a request are its [Call]. *)

From S2P Require Import Prelude GoStd GoText Wire Io Codec Bolt Crypto Sha256 Catalog CatalogSpec Peerstore Invite Transport RelayClient Connmgr Identity Ipc.

(** * types.go *)

Record StatusResponse := mk_StatusResponse {
  Status_NodeID : bytes;
  Status_NodeIDShort : bytes;
  Status_ListenAddr : bytes;
  Status_SharedDir : bytes;
  Status_PeerCount : Z;
  Status_RelayAddr : bytes;
  Status_RelayOnline : bool
}.

Record PeerInfo := mk_PeerInfo {
  PeerInfo_NodeID : bytes;
  PeerInfo_NodeIDShort : bytes;
  PeerInfo_TrustState : bytes;
  PeerInfo_LastSeen : bytes;
  PeerInfo_Endpoints : list bytes;
  PeerInfo_Online : bool
}.

Record PeersResponse := mk_PeersResponse { PeersResponse_Peers : list PeerInfo }.
Record InviteResponse := mk_InviteResponse { InviteResponse_Token : bytes }.
Record JoinParams := mk_JoinParams { JoinParams_Token : bytes }.
Record JoinResponse := mk_JoinResponse { JoinResponse_PeerNodeID : bytes }.

Record FileInfo := mk_FileInfo {
  FileInfo_FileID : bytes;
  FileInfo_Name : bytes;
  FileInfo_Size : Z;
  FileInfo_ModTime : bytes;
  FileInfo_OwnerNodeID : bytes;
  FileInfo_IsLocal : bool
}.

Record CatalogResponse := mk_CatalogResponse { CatalogResponse_Files : list FileInfo }.
Record DownloadParams := mk_DownloadParams { DownloadParams_FileID : bytes }.
Record PeerOfflineEvent := mk_PeerOfflineEvent { PeerOffline_NodeID : bytes }.

(** The messages of the control socket can be serialized. *)
Class IpcCodecs := {
  status_codec :: JsonCodec StatusResponse;
  peers_codec :: JsonCodec PeersResponse;
  invite_codec :: JsonCodec InviteResponse;
  join_params_codec :: JsonCodec JoinParams;
  join_codec :: JsonCodec JoinResponse;
  catalog_codec :: JsonCodec CatalogResponse;
  download_params_codec :: JsonCodec DownloadParams;
  peer_info_codec :: JsonCodec PeerInfo;
  peer_offline_codec :: JsonCodec PeerOfflineEvent
}.

(** * Helpers *)

Definition hexNodeID (id : arr 32) : bytes := hex_encode (arr_bytes id).

Definition shortID (hex : bytes) : bytes := if 16 <? len hex then take 16 hex else hex.

Definition isRoutableListenAddr (addr : bytes) : bool :=
  match SplitHostPort addr with
  | Ok (host, _) =>
      match host with
      | [] => false
      | _ => match ParseIP host with Some ip => negb (IsUnspecified ip) | None => false end
      end
  | _ => false
  end.

(** The events the daemon broadcasts. *)
Definition peer_online_event `{IpcCodecs} (peerID : node_id) : Event :=
  let nodeID := hexNodeID peerID in
  mk_Event EventPeerOnline (marshalData (mk_PeerInfo nodeID (shortID nodeID) [] [] [] true)).

Definition peer_offline_event `{IpcCodecs} (peerID : node_id) : Event :=
  mk_Event EventPeerOffline (marshalData (mk_PeerOfflineEvent (hexNodeID peerID))).

Definition catalog_updated_event : Event := mk_Event EventCatalogUpdated [].

(** * handler.go *)

Section Handler.
Context {B : Type} `{Bolt B} `{JsonCodec Peer} `{JsonCodec Entry} `{JsonCodec (list OwnerHint)}.
Context `{Ed25519} `{IpcCodecs} (err_text : error → bytes).

(** [h_joined] is the connections given to [serveJoinedPeer]. *)
Record Handler := mk_Handler {
  h_id : Identity;
  h_store : Peerstore.Store B;
  h_catalog : Catalog.Store B;
  h_net : Network;
  h_listenAddr : bytes;
  h_sharedDir : bytes;
  h_relayAddr : bytes;
  h_joined : list Transport.Conn
}.

Definition with_store (h : Handler) (s : Peerstore.Store B) : Handler :=
  {| h_id := h_id h; h_store := s; h_catalog := h_catalog h; h_net := h_net h;
     h_listenAddr := h_listenAddr h; h_sharedDir := h_sharedDir h; h_relayAddr := h_relayAddr h;
     h_joined := h_joined h |}.
Definition with_joined (h : Handler) (c : Transport.Conn) : Handler :=
  {| h_id := h_id h; h_store := h_store h; h_catalog := h_catalog h; h_net := h_net h;
     h_listenAddr := h_listenAddr h; h_sharedDir := h_sharedDir h; h_relayAddr := h_relayAddr h;
     h_joined := h_joined h ++ [c] |}.

(** The times at which a request creates or validates a token and stores a peer,
    and its random nonce. *)
Record Call := mk_Call { call_now : Z; call_put : Z; call_rand : outcome (arr 16) }.

(** [errResponse(id, code, fmt.Sprintf(text + "%v", err))]. *)
Definition failed (id : Z) (code text : string) (err : error) : Response :=
  errResponse id (str code) (str text ++ err_text err).

Definition handleStatus (h : Handler) (id : Z) : outcome Response :=
  match ListPeers (h_store h) with
  | Err e => Ok (failed id "internal" "list peers: " e)
  | Panic => Panic
  | Ok peers =>
      let nodeID := NodeIDHex (h_id h) in
      Ok (okResponse id {|
        Status_NodeID := nodeID; Status_NodeIDShort := shortID nodeID;
        Status_ListenAddr := h_listenAddr h; Status_SharedDir := h_sharedDir h;
        Status_PeerCount := len peers; Status_RelayAddr := h_relayAddr h;
        Status_RelayOnline := negb (bool_decide (h_relayAddr h = [])) |})
  end.

Definition peer_info (p : Peer) : PeerInfo :=
  let nodeID := hexNodeID (Peer_NodeID p) in
  {| PeerInfo_NodeID := nodeID; PeerInfo_NodeIDShort := shortID nodeID;
     PeerInfo_TrustState := Peer_TrustState p; PeerInfo_LastSeen := Format_RFC3339 (Peer_LastSeen p);
     PeerInfo_Endpoints := Peer_Endpoints p; PeerInfo_Online := false |}.

Definition handlePeers (h : Handler) (id : Z) : outcome Response :=
  match ListPeers (h_store h) with
  | Err e => Ok (failed id "internal" "list peers: " e)
  | Panic => Panic
  | Ok peers => Ok (okResponse id {| PeersResponse_Peers := map peer_info peers |})
  end.

(** The endpoints an invite carries. *)
Definition invite_endpoints (h : Handler) : list bytes :=
  let addr := h_listenAddr h in
  (if negb (bool_decide (addr = [])) && isRoutableListenAddr addr then [addr] else []) ++
  (if negb (bool_decide (h_relayAddr h = [])) then [relay_scheme ++ h_relayAddr h] else []).

Definition handleInvite (e : Call) (h : Handler) (id : Z) : outcome Response :=
  let endpoints := invite_endpoints h in
  match Create (call_rand e) (call_now e) (Id_PrivKey (h_id h)) endpoints DefaultTTL with
  | Err err => Ok (failed id "internal" "create invite: " err)
  | Panic => Panic
  | Ok tok =>
      match Encode tok (Id_PrivKey (h_id h)) with
      | Err err => Ok (failed id "internal" "encode invite: " err)
      | Panic => Panic
      | Ok raw => Ok (okResponse id {| InviteResponse_Token := raw |})
      end
  end.

(** The end of [handleJoin], with the token's key and endpoints. *)
Definition join_connect (e : Call) (h : Handler) (id : Z) (tok : Token) : outcome Response * Handler :=
  let peerNodeID := Sum256 (Token_PublicKey tok) in
  match Token_Endpoints tok with
  | [] => (Ok (errResponse id (str "invalid_token") (str "invite has no endpoints")), h)
  | _ =>
      match fst (Dial (h_net h) peerNodeID (Token_Endpoints tok)) with
      | Err err => (Ok (failed id "connect_failed" "connect: " err), h)
      | Panic => (Panic, h)
      | Ok conn =>
          let actualPeerID := PeerNodeID conn in
          let '(res, s) := PutPeer (call_put e) (h_store h)
            {| Peer_NodeID := actualPeerID; Peer_PublicKey := Token_PublicKey tok;
               Peer_Endpoints := Token_Endpoints tok; Peer_TrustState := TrustTOFU;
               Peer_LastSeen := zero_time |} in
          let h := with_store h s in
          match res with
          | Panic => (Panic, h)
          | _ =>   (* an error is only logged *)
              (Ok (okResponse id {| JoinResponse_PeerNodeID := hexNodeID actualPeerID |}),
               with_joined h conn)
          end
      end
  end.

Definition handleJoin (e : Call) (h : Handler) (id : Z) (params : bytes) : outcome Response * Handler :=
  match json_Unmarshal params json_zero with
  | Err err => (Ok (failed id "invalid_params" "decode params: " err), h)
  | Panic => (Panic, h)
  | Ok p =>
      let raw := JoinParams_Token p in
      if bool_decide (raw = [])
      then (Ok (errResponse id (str "invalid_params") (str "token is required")), h)
      else
        match Decode raw with
        | Err err => (Ok (failed id "invalid_token" "decode invite: " err), h)
        | Panic => (Panic, h)
        | Ok tok =>
            let '(res, s) := Validate (call_now e) tok raw (h_store h) in
            let h := with_store h s in
            match res with
            | Err err => (Ok (failed id "invalid_token" "validate invite: " err), h)
            | Panic => (Panic, h)
            | Ok _ =>
                if negb (len (Token_PublicKey tok) =? 32)
                then (Ok (errResponse id (str "invalid_token")
                            (str "unexpected public key length " ++ padded 0 (len (Token_PublicKey tok)))), h)
                else join_connect e h id tok
            end
        end
  end.

Definition file_info (h : Handler) (x : Entry) : FileInfo := {|
  FileInfo_FileID := hexNodeID (Entry_FileID x); FileInfo_Name := Entry_Name x;
  FileInfo_Size := Entry_Size x; FileInfo_ModTime := Format_RFC3339 (Entry_ModTime x);
  FileInfo_OwnerNodeID := hexNodeID (Entry_OwnerNodeID x);
  FileInfo_IsLocal := bool_decide (Entry_OwnerNodeID x = Id_NodeID (h_id h))
|}.

Definition handleCatalog (h : Handler) (id : Z) : outcome Response :=
  match ListAll (h_catalog h) with
  | Err e => Ok (failed id "internal" "list catalog: " e)
  | Panic => Panic
  | Ok entries => Ok (okResponse id {| CatalogResponse_Files := map (file_info h) entries |})
  end.

Definition handleDownload (id : Z) (params : bytes) : outcome Response :=
  match json_Unmarshal params json_zero with
  | Err err => Ok (failed id "invalid_params" "decode params: " err)
  | Panic => Panic
  | Ok p =>
      if bool_decide (DownloadParams_FileID p = [])
      then Ok (errResponse id (str "invalid_params") (str "file_id is required"))
      else Ok (errResponse id (str "not_implemented") (str "download via daemon is not yet implemented"))
  end.

Definition Handle (e : Call) (h : Handler) (req : Request) : outcome Response * Handler :=
  let m := Request_Method req in
  let id := Request_ID req in
  if bool_decide (m = MethodStatus) then (handleStatus h id, h)
  else if bool_decide (m = MethodPeers) then (handlePeers h id, h)
  else if bool_decide (m = MethodInvite) then (handleInvite e h id, h)
  else if bool_decide (m = MethodJoin) then handleJoin e h id (Request_Params req)
  else if bool_decide (m = MethodCatalog) then (handleCatalog h id, h)
  else if bool_decide (m = MethodDownload) then (handleDownload id (Request_Params req), h)
  else (Ok (errResponse id (str "unknown_method") (str "unknown method: " ++ m)), h).

End Handler.
Arguments Handler : clear implicits.

(** * daemon.go *)

(** [relayLoop]: the waits between attempts, in seconds, when [ServePunch] has
    returned [n] times; how long it was connected does not matter. *)
Definition maxBackoff : Z := 30.

Fixpoint relayLoop_waits (backoff : Z) (n : nat) : list Z :=
  match n with
  | O => []
  | S n' => backoff :: relayLoop_waits (Z.min (backoff * 2) maxBackoff) n'
  end.

Definition relayLoop (n : nat) : list Z := relayLoop_waits 1 n.

(** * Facts *)

Lemma relayLoop_waits_nth n k b :
  0 ≤ b ≤ maxBackoff → (k < n)%nat →
  relayLoop_waits b n !! k = Some (Z.min (b * 2 ^ Z.of_nat k) maxBackoff).
Proof.
  unfold maxBackoff. revert k b. induction n as [|n IH]; intros k b Hb Hk; [lia|].
  destruct k as [|k]; simpl; [f_equal; lia|]. rewrite IH by (unfold maxBackoff; lia).
  f_equal. rewrite Nat2Z.inj_succ, Z.pow_succ_r by lia. unfold maxBackoff.
  destruct (Z.min_spec (b * 2) 30) as [[? ->]|[? ->]]; [lia|].
  pose proof (Z.pow_pos_nonneg 2 (Z.of_nat k)). nia.
Qed.

Section Facts.
Context {B : Type} `{BoltLaws B} `{PeerJson} `{JEntry : JsonCodec Entry} `{JHints : JsonCodec (list OwnerHint)}.
Context `{Ed25519Laws} `{IpcCodecs} (err_text : error → bytes).
Implicit Types (h : Handler B) (e : Call).

(** The store operations of a request. *)
Definition request_ops (h : Handler B) (h' : Handler B) : Prop :=
  ∃ os, h_store h' = snd (exec_all os (h_store h)).

Lemma request_ops_refl h : request_ops h h.
Proof. by exists []. Qed.

Lemma exec_all_app os os' (s : Peerstore.Store B) :
  snd (exec_all (os ++ os') s) = snd (exec_all os' (snd (exec_all os s))).
Proof.
  revert s. induction os as [|o os IH]; intros s; [done|]. cbn [app exec_all].
  destruct (exec o s) as [r s1]. specialize (IH s1).
  destruct (exec_all (os ++ os') s1), (exec_all os s1). done.
Qed.

Lemma request_ops_trans h1 h2 h3 : request_ops h1 h2 → request_ops h2 h3 → request_ops h1 h3.
Proof. intros [os E] [os' E']. exists (os ++ os'). by rewrite exec_all_app, <- E. Qed.

Lemma request_ops_exec o h s res :
  exec o (h_store h) = (res, s) → request_ops h (with_store h s).
Proof. intros E. exists [o]. simpl. by rewrite E. Qed.

Lemma Validate_ops now t raw h res s :
  Validate now t raw (h_store h) = (res, s) → request_ops h (with_store h s).
Proof.
  unfold Validate. destruct (_ ← verify_token now t raw; check_nonce t (h_store h)) as [u|err|].
  - unfold record_nonce. simpl. destruct (SaveNonce (h_store h) (Token_Nonce t)) as [r s1] eqn:E.
    intros [= _ <-]. by apply (request_ops_exec (OpSaveNonce (Token_Nonce t)) h s1 r).
  - intros [= _ <-]. by exists [].
  - intros [= _ <-]. by exists [].
Qed.

(** The dialed connection of a join, if the request made one. *)
Definition joins (e : Call) (h h' : Handler B) : Prop :=
  ∃ raw tok c, Decode raw = Ok tok ∧ verify_token (call_now e) tok raw = Ok tt ∧
    HasNonce (h_store h) (Token_Nonce tok) = Ok false ∧
    fst (Dial (h_net h) (Sum256 (Token_PublicKey tok)) (Token_Endpoints tok)) = Ok c ∧
    h_joined h' = h_joined h ++ [c].

Lemma join_connect_effect e h id tok res h' :
  join_connect err_text e h id tok = (res, h') →
  request_ops h h' ∧ h_catalog h' = h_catalog h ∧
  (h_joined h' = h_joined h ∨
   ∃ c, fst (Dial (h_net h) (Sum256 (Token_PublicKey tok)) (Token_Endpoints tok)) = Ok c ∧
        h_joined h' = h_joined h ++ [c]).
Proof.
  unfold join_connect. destruct (Token_Endpoints tok) as [|ep eps] eqn:Heps.
  { intros [= <- <-]. split_and!; [apply request_ops_refl|done|by left]. }
  destruct (fst (Dial _ _ _)) as [c|err|] eqn:Hd; cbv zeta.
  - destruct (PutPeer _ _ _) as [r s] eqn:E.
    pose proof (request_ops_exec (OpPutPeer _ _) _ _ _ E) as Hops.
    destruct r as [[]|err|]; intros [= <- <-]; (split_and!; [done|done|]); eauto.
  - intros [= <- <-]. split_and!; [apply request_ops_refl|done|by left].
  - intros [= <- <-]. split_and!; [apply request_ops_refl|done|by left].
Qed.

Lemma handleJoin_effect e h id params res h' :
  handleJoin err_text e h id params = (res, h') →
  request_ops h h' ∧ h_catalog h' = h_catalog h ∧ (h_joined h' = h_joined h ∨ joins e h h').
Proof.
  unfold handleJoin. destruct (json_Unmarshal params json_zero) as [p|err|].
  2-3: intros [= <- <-]; split_and!; [apply request_ops_refl|done|by left].
  cbv zeta. destruct (bool_decide _).
  { intros [= <- <-]. split_and!; [apply request_ops_refl|done|by left]. }
  destruct (Decode (JoinParams_Token p)) as [tok|err|] eqn:Hdec.
  2-3: intros [= <- <-]; split_and!; [apply request_ops_refl|done|by left].
  destruct (Validate _ _ _ _) as [r s] eqn:Hv. pose proof (Validate_ops _ _ _ _ _ _ Hv) as Hops.
  destruct r as [[]|err|]; [|intros [= <- <-]; split_and!; [done|done|by left]..].
  destruct (negb _); [intros [= <- <-]; split_and!; [done|done|by left]|].
  intros (Hops' & Hcat & Hj)%join_connect_effect. split_and!; [by eapply request_ops_trans|done|].
  destruct Hj as [Hj|(c & Hd & Hj)]; [by left|right].
  exists (JoinParams_Token p), tok, c. apply Validate_Ok in Hv as (Hvt & Hc%check_nonce_Ok & _). done.
Qed.

Lemma Handle_effect e h req res h' :
  Handle err_text e h req = (res, h') →
  request_ops h h' ∧ h_catalog h' = h_catalog h ∧ (h_joined h' = h_joined h ∨ joins e h h').
Proof.
  unfold Handle. cbv zeta.
  repeat (destruct (bool_decide _);
    [first [intros [= _ <-]; split_and!; [apply request_ops_refl|done|by left]
           |apply handleJoin_effect]|]).
  intros [= _ <-]. split_and!; [apply request_ops_refl|done|by left].
Qed.

End Facts.

(** * Properties *)

(** C5. Control requests are safe: no request changes the catalog, and whatever it
    does to the peer store, every known peer keeps its key and its endpoints and
    every used nonce stays used. A connection to a new peer is made only for a token
    that decodes, is unexpired and correctly signed and whose nonce was unused, and
    it is dialed by the hash of the token's key. *)
Theorem Handle_safe {B : Type} `{BoltLaws B} `{PeerJson} `{JsonCodec Entry} `{JsonCodec (list OwnerHint)}
    `{Ed25519Laws} `{IpcCodecs} (err_text : error → bytes) (e : Call) (h h' : Handler B)
    (req : Request) (res : outcome Response) :
  Handle err_text e h req = (res, h') →
  h_catalog h' = h_catalog h ∧
  (∀ n p, GetPeer (h_store h) n = Ok (Some p) →
     ∃ p', GetPeer (h_store h') n = Ok (Some p') ∧
       Peer_PublicKey p' = Peer_PublicKey p ∧ Peer_Endpoints p `prefix_of` Peer_Endpoints p') ∧
  (∀ m, HasNonce (h_store h) m = Ok true → HasNonce (h_store h') m = Ok true) ∧
  (h_joined h' = h_joined h ∨
   ∃ raw tok c, Decode raw = Ok tok ∧ verify_token (call_now e) tok raw = Ok tt ∧
     HasNonce (h_store h) (Token_Nonce tok) = Ok false ∧
     fst (Dial (h_net h) (Sum256 (Token_PublicKey tok)) (Token_Endpoints tok)) = Ok c ∧
     h_joined h' = h_joined h ++ [c]).
Proof.
  intros ([os Hos] & Hcat & Hj)%Handle_effect. rewrite Hos. split_and!; [done| | |done].
  - intros n p Hp. by apply (exec_all_extends os _ _ _ Hp).
  - intros m Hm. by rewrite (exec_all_nonces os _ _ _ Hm).
Qed.

(** A join that cannot connect uses up the invite: once a request ends with
    "connect_failed", the same token is refused as an invalid token by every later
    join, although no peer was added. *)
Theorem failed_join_burns_invite {B : Type} `{BoltLaws B} `{PeerJson} `{JsonCodec Entry}
    `{JsonCodec (list OwnerHint)} `{Ed25519Laws} `{IpcCodecs} (err_text : error → bytes) (e e' : Call)
    (h h' : Handler B) (id id' : Z) (params : bytes) (resp : Response) (msg : bytes) :
  handleJoin err_text e h id params = (Ok resp, h') →
  Response_Error resp = Some (mk_ErrorInfo (str "connect_failed") msg) →
  h_joined h' = h_joined h ∧ (∀ n, GetPeer (h_store h') n = GetPeer (h_store h) n) ∧
  ∃ msg', handleJoin err_text e' h' id' params =
            (Ok (errResponse id' (str "invalid_token") msg'), h').
Proof.
  unfold handleJoin at 1. destruct (json_Unmarshal params json_zero) as [p|err|] eqn:Hp; [|by intros [= <- <-] [=]|done].
  cbv zeta. destruct (bool_decide _) eqn:Hraw; [by intros [= <- <-] [=]|].
  destruct (Decode (JoinParams_Token p)) as [tok|err|] eqn:Hdec; [|by intros [= <- <-] [=]|done].
  destruct (Validate _ _ _ _) as [r s] eqn:Hv.
  destruct r as [[]|err|]; [|by intros [= <- <-] [=]|done].
  destruct (negb _); [by intros [= <- <-] [=]|]. unfold join_connect.
  destruct (Token_Endpoints tok) as [|ep eps]; [by intros [= <- <-] [=]|].
  destruct (fst (Dial _ _ _)) as [c|err|]; [|intros [= <- <-] _|done].
  { cbv zeta. by destruct (PutPeer _ _ _) as [[[]|err|] s']; intros [= <- <-] [=]. }
  split; [done|]. pose proof Hv as [_ Hn]%Validate_saves.
  apply Validate_Ok in Hv as (_ & _ & Hr%record_nonce_Ok).
  split; [by apply (SaveNonce_keeps _ _ _ Hr)|].
  unfold handleJoin. rewrite Hp. cbv zeta. rewrite Hraw, Hdec. simpl.
  destruct (Validate_used_Err (call_now e') tok (JoinParams_Token p) s Hdec Hn) as [e1 ->].
  by eexists.
Qed.

(** C4. Inviting and joining fit together: the token that node A's daemon hands out
    is accepted by node B's daemon until it expires; B dials A's node id at A's
    endpoints and, when the dial succeeds, stores A's key and endpoints as trusted
    on first use, serves the connection and answers with A's node id. *)
Theorem invite_join {B : Type} `{BoltLaws B} `{PeerJson} `{JsonCodec Entry} `{JsonCodec (list OwnerHint)}
    `{Ed25519Laws} `{IpcCodecs} (err_text : error → bytes) (eA eB : Call) (hA hB : Handler B)
    (idA idB : Z) (seed : bytes) (nonce : arr 16) (s1 : Peerstore.Store B) (conn : Transport.Conn)
    (data : bytes) :
  let node := Id_NodeID (h_id hA) in
  let eps := invite_endpoints hA in
  let peer := mk_Peer node (Id_PubKey (h_id hA)) eps TrustTOFU zero_time in
  fromSeed seed = Ok (h_id hA) → len seed = 32 → call_rand eA = Ok nonce →
  eps ≠ [] → Forall short eps →
  is_sec ((call_now eA + DefaultTTL) / 10 ^ 9) →
  call_now eB ≤ (call_now eA + DefaultTTL) / 10 ^ 9 * 10 ^ 9 →
  HasNonce (h_store hB) nonce = Ok false → SaveNonce (h_store hB) nonce = (Ok tt, s1) →
  fst (Dial (h_net hB) node eps) = Ok conn → PeerNodeID conn = node →
  GetPeer (h_store hB) node = Ok None → (∀ b b' : B, tx_commit b b' = Ok tt) →
  json_Marshal (merged (call_put eB) None peer) = Ok data → len data ≤ MaxValueSize →
  ∃ raw, handleInvite err_text eA hA idA = Ok (okResponse idA (mk_InviteResponse raw)) ∧
    ∀ params, json_Unmarshal params json_zero = Ok (mk_JoinParams raw) →
      ∃ hB', handleJoin err_text eB hB idB params =
               (Ok (okResponse idB (mk_JoinResponse (hexNodeID node))), hB') ∧
        h_joined hB' = h_joined hB ++ [conn] ∧
        ∃ p, GetPeer (h_store hB') node = Ok (Some p) ∧
          Peer_PublicKey p = Id_PubKey (h_id hA) ∧ Peer_Endpoints p = map utf8_repair eps ∧
          Peer_TrustState p = TrustTOFU.
Proof.
  intros node eps peer Hid Hseed Hrand Heps Hshort Hsec Hnow Hfresh Hsave Hdial Hpeer Hnone Hcommit Hm Hlen.
  destruct (key_from_seed seed Hseed) as (k & Hk & Hklen). destruct (public_ok k Hklen) as (pub & Hpub & Hplen).
  assert (h_id hA = mk_Identity k pub (Sum256 pub)) as HA.
  { unfold fromSeed in Hid. rewrite Hk in Hid. simpl in Hid. rewrite Hpub in Hid. simpl in Hid. congruence. }
  assert (len eps ≤ 65535) as Hcount.
  { unfold eps, invite_endpoints, len. destruct (_ && _), (negb _); simpl; lia. }
  destruct (created_valid nonce (call_now eA) DefaultTTL (call_now eB) k pub eps (h_store hB) s1)
    as (Hc & raw & He & Hne & Hd & Hv); [done..|].
  exists raw. split.
  { unfold handleInvite. cbv zeta. fold eps. rewrite Hrand, HA. simpl. rewrite Hc, He. done. }
  intros params Hparams. unfold handleJoin. rewrite Hparams. cbv zeta. cbn [JoinParams_Token].
  rewrite bool_decide_false by done. rewrite Hd. cbn [Token_PublicKey truncated].
  rewrite Hv. cbn [negb]. rewrite Hplen. cbn [negb Z.eqb].
  assert (node = Sum256 pub) as Hnode by (unfold node; by rewrite HA).
  assert (Id_PubKey (h_id hA) = pub) as Hkey by (by rewrite HA).
  apply SaveNonce_keeps in Hsave as [Hro Hget].
  unfold join_connect. cbn [Token_PublicKey Token_Endpoints truncated h_net h_store with_store].
  rewrite <- Hnode. destruct eps as [|ep rest] eqn:Eeps; [done|]. rewrite Hdial. cbv zeta.
  rewrite Hpeer. rewrite <- Hkey. fold peer.
  destruct (PutPeer_stores (call_put eB) s1 peer None data) as (s2 & Hput & Hget2);
    [done|done|by rewrite Hget|done|done|done|].
  rewrite Hput. eexists; split; [done|]. split; [done|].
  cbn [h_store with_store with_joined]. rewrite Hget2, decide_True by done.
  eexists; split; [done|]. done.
Qed.

(** * Witnesses *)

Module DaemonWitness.
Import MapBolt PeerInstance CatalogInstance ToySig.

(** Messages whose text is the token itself; the others are not decoded here. *)
Definition opaque_codec {A} (zero : A) : JsonCodec A :=
  {| json_zero := zero; json_Marshal _ := Ok (str "{}"); json_Unmarshal _ _ := Err (Errorf "unsupported" []);
     json_canon := id |}.

#[local] Instance codecs : IpcCodecs := {|
  status_codec := opaque_codec (mk_StatusResponse [] [] [] [] 0 [] false);
  peers_codec := opaque_codec (mk_PeersResponse []);
  invite_codec := {| json_zero := mk_InviteResponse []; json_Marshal r := Ok (InviteResponse_Token r);
                     json_Unmarshal raw _ := Ok (mk_InviteResponse raw); json_canon := id |};
  join_params_codec := {| json_zero := mk_JoinParams []; json_Marshal r := Ok (JoinParams_Token r);
                          json_Unmarshal raw _ := Ok (mk_JoinParams raw); json_canon := id |};
  join_codec := {| json_zero := mk_JoinResponse []; json_Marshal r := Ok (JoinResponse_PeerNodeID r);
                   json_Unmarshal raw _ := Ok (mk_JoinResponse raw); json_canon := id |};
  catalog_codec := opaque_codec (mk_CatalogResponse []);
  download_params_codec := opaque_codec (mk_DownloadParams []);
  peer_info_codec := opaque_codec (mk_PeerInfo [] [] [] [] [] false);
  peer_offline_codec := opaque_codec (mk_PeerOfflineEvent [])
|}.

Definition seed : bytes := replicate 32 Byte.x07.
Definition idA : Identity := mk_Identity (seed ++ seed) seed (Sum256 seed).
Definition idB : Identity := mk_Identity (replicate 64 Byte.x08) (replicate 32 Byte.x08) (zero_arr 32).
Definition conn : Transport.Conn :=
  Transport.mk_Conn (Io.Build_Writer [] None io_EOF) (Io.Build_Reader [] io_EOF) (Sum256 seed).

(** A network where A is reached at its listen address, and one where nobody is. *)
Definition net (up : bool) : Network := {|
  ln_Dial a n := if up && bool_decide (a = str "1.2.3.4:7777") then Ok conn else Err (Errorf "refused" []);
  ln_Discover a := Err (Errorf "no route" []);
  ln_Port := 7;
  ln_Prime a := Ok tt;
  punch_ctx i := None;
  relay_Connect a p := Err (Errorf "refused" []);
  relay_Request a n := Err (Errorf "refused" [])
|}.

Definition handler (id : Identity) (addr relay : string) (up : bool) : Handler (gmap bytes bytes) :=
  mk_Handler id PeerInstance.new_store (CatalogInstance.new_store (Id_NodeID id)) (net up) (str addr) (str "/s") (str relay) [].
Definition hA : Handler (gmap bytes bytes) := handler idA "1.2.3.4:7777" "r:1" true.
Definition hB (up : bool) : Handler (gmap bytes bytes) := handler idB "0.0.0.0:7777" "" up.
Definition nonce : arr 16 := copy_arr 16 (str "nonce-1").
Definition eA : Call := mk_Call (1700000000 * 10 ^ 9) 0 (Ok nonce).
Definition eB : Call := mk_Call (1700000100 * 10 ^ 9) 5 (Ok nonce).
Definition text (e : error) : bytes := [].

Definition s1 : Peerstore.Store (gmap bytes bytes) := snd (SaveNonce PeerInstance.new_store nonce).
Definition peerA : Peer := mk_Peer (Sum256 seed) seed (invite_endpoints hA) TrustTOFU zero_time.
Definition data : bytes := marshalData (merged (call_put eB) None peerA).

Lemma endpoints_value : invite_endpoints hA = [str "1.2.3.4:7777"; str "relay://r:1"].
Proof. by vm_compute. Qed.

Lemma endpoints_short : Forall short (invite_endpoints hA).
Proof. rewrite endpoints_value. repeat constructor; by vm_compute. Qed.

Lemma join_save : SaveNonce PeerInstance.new_store nonce = (Ok tt, s1).
Proof. apply pair_fst. by vm_compute. Qed.

Lemma dial1 : fst (Dial (h_net (hB true)) (Sum256 seed) (invite_endpoints hA)) = Ok conn.
Proof. rewrite endpoints_value. by vm_compute. Qed.

Lemma invite_join_witness :
  ∃ raw, handleInvite text eA hA 1 = Ok (okResponse 1 (mk_InviteResponse raw)) ∧
    ∀ params, json_Unmarshal params json_zero = Ok (mk_JoinParams raw) →
      ∃ hB', handleJoin text eB (hB true) 2 params =
               (Ok (okResponse 2 (mk_JoinResponse (hexNodeID (Sum256 seed)))), hB') ∧
        h_joined hB' = [] ++ [conn] ∧
        ∃ p, GetPeer (h_store hB') (Sum256 seed) = Ok (Some p) ∧
          Peer_PublicKey p = seed ∧ Peer_Endpoints p = map utf8_repair (invite_endpoints hA) ∧
          Peer_TrustState p = TrustTOFU.
Proof.
  apply (invite_join text eA eB hA (hB true) 1 2 seed nonce s1 conn data);
    [done|done|done|by rewrite endpoints_value|apply endpoints_short|by vm_compute|by vm_compute|done
    |apply join_save|apply dial1|done|by vm_compute|done|by vm_compute|by vm_compute].
Defined.

(** The token of the invite, and a join with it. *)
Definition raw : bytes :=
  match handleInvite text eA hA 1 with Ok r => Response_Data r | _ => [] end.
Definition req : Request := mk_Request 2 MethodJoin raw.
Definition hB1 : Handler (gmap bytes bytes) := snd (Handle text eB (hB true) req).

Lemma joined_value : length (h_joined hB1) = 1%nat.
Proof. by vm_compute. Qed.

Lemma Handle_safe_witness :
  h_catalog hB1 = h_catalog (hB true) ∧
  (∀ n p, GetPeer (h_store (hB true)) n = Ok (Some p) →
     ∃ p', GetPeer (h_store hB1) n = Ok (Some p') ∧
       Peer_PublicKey p' = Peer_PublicKey p ∧ Peer_Endpoints p `prefix_of` Peer_Endpoints p') ∧
  (∀ m, HasNonce (h_store (hB true)) m = Ok true → HasNonce (h_store hB1) m = Ok true) ∧
  (h_joined hB1 = h_joined (hB true) ∨
   ∃ raw tok c, Decode raw = Ok tok ∧ verify_token (call_now eB) tok raw = Ok tt ∧
     HasNonce (h_store (hB true)) (Token_Nonce tok) = Ok false ∧
     fst (Dial (h_net (hB true)) (Sum256 (Token_PublicKey tok)) (Token_Endpoints tok)) = Ok c ∧
     h_joined hB1 = h_joined (hB true) ++ [c]).
Proof. apply (Handle_safe text eB (hB true) hB1 req (fst (Handle text eB (hB true) req))), surjective_pairing. Defined.

(** The same token when A cannot be reached. *)
Definition hB2 : Handler (gmap bytes bytes) := snd (handleJoin text eB (hB false) 2 raw).
Definition refused : Response := errResponse 2 (str "connect_failed") (str "connect: ").

Lemma refused_value : handleJoin text eB (hB false) 2 raw = (Ok refused, hB2).
Proof. apply pair_fst. by vm_compute. Qed.

Lemma failed_join_burns_invite_witness :
  h_joined hB2 = h_joined (hB false) ∧ GetPeer (h_store hB2) (Sum256 seed) = GetPeer (h_store (hB false)) (Sum256 seed) ∧
  ∃ msg', handleJoin text eA hB2 3 raw = (Ok (errResponse 3 (str "invalid_token") msg'), hB2).
Proof.
  destruct (failed_join_burns_invite text eB eA (hB false) hB2 2 3 raw refused (str "connect: "))
    as (Hj & Hg & Hn); [apply refused_value|reflexivity|].
  exact (conj Hj (conj (Hg (Sum256 seed)) Hn)).
Defined.

End DaemonWitness.
