(* ===== verification/Node.v ===== *)
(** A whole node, [internal/daemon/daemon.go]: the start-up and shutdown of [Run], the
    accept loop, the joined peers of [handler.go], and the callbacks that connect the
    watcher, the protocol handler and the control socket. The protocol handler and
    the watcher share the catalog and the index of the node. *)

From S2P Require Import Prelude GoStd Wire Io Codec Framing Bolt Catalog CatalogSpec CatalogProps Peerstore Crypto Sha256 Path Fs Identity Transport Endpoint Transfer TransferProps Handler HandlerProps Watcher Ipc Daemon.

(** * Start-up and shutdown *)

(** What [Run] opens and closes, in order; [Udp] is what the transport does with its
    socket. *)
Inductive resource := PeerDB | CatalogDB | QuicListener | ControlSocket.

Inductive action := Opened (r : resource) | Closed (r : resource) | Udp (a : act).

(** The deferred calls, last first; [ln.Close()] is [Listener_Close]. *)
Definition closing (held : list resource) : list action :=
  flat_map (λ r, match r with
                 | QuicListener => map Udp (snd (Listener_Close (Ok tt) (Ok tt))) ++ [Closed r]
                 | _ => [Closed r]
                 end) held.

(** [if err != nil { return fmt.Errorf(...) }]: the deferred calls run, and also when
    the call panics. *)
Definition start_step {A R} (r : outcome A) (format : string) (held : list resource)
    (k : A → outcome R * list action) : outcome R * list action :=
  match r with
  | Ok a => k a
  | Err e => (Err (Wrapf format e), closing held)
  | Panic => (Panic, closing held)
  end.

Definition logged {R} (acts : list action) (k : outcome R * list action) : outcome R * list action :=
  let '(res, log) := k in (res, acts ++ log).

Definition opening {R} (r : resource) (k : outcome R * list action) : outcome R * list action :=
  logged [Opened r] k.

(** [NewServer]: a stale socket file is removed, the socket is bound and made private;
    it is closed again when that fails. *)
Definition NewServer (stale listen chmod : outcome unit) : outcome unit * list action :=
  start_step stale "daemon: stale socket: %w" [] (λ _,
  start_step listen "daemon: listen: %w" [] (λ _,
  opening ControlSocket (start_step chmod "daemon: chmod socket: %w" [ControlSocket] (λ _, (Ok tt, []))))).

Section Start.
Context {B : Type} `{Bolt B} `{JsonCodec Peer} `{Ed25519} `{CertOps}.

(** What the calls of [Run] find, and the listen address. *)
Record Surroundings := mk_Surroundings {
  sur_fs : FS;
  sur_rand : outcome bytes;
  sur_peers : outcome (option B * option B);
  sur_catalog : outcome (option B * option B);
  sur_walk : list (bytes * (node + error));
  sur_addr : bytes;
  sur_now : Z;
  sur_net : Net;
  sur_stale : outcome unit;
  sur_bind : outcome unit;
  sur_chmod : outcome unit
}.

(** The subsystems of a running daemon. *)
Record Started := mk_Started {
  st_id : Identity;
  st_store : Peerstore.Store B;
  st_catalog : Catalog.Store B;
  st_index : LocalIndex
}.

(** [Run] until it is ready, then, when the context is done, its end. *)
Definition Run (x : Surroundings) (cfgDir sharedDir : bytes) : outcome Started * list action :=
  let '(id, fs) := LoadOrGenerate (sur_rand x) (sur_fs x) cfgDir in
  start_step id "identity: %w" [] (λ id,
  start_step (Peerstore.Open (sur_peers x)) "peerstore: %w" [] (λ store,
  opening PeerDB (
  let '(mk, fs) := MkdirAll fs sharedDir in
  start_step mk "create shared dir: %w" [PeerDB] (λ _,
  start_step (Catalog.Open (sur_catalog x) (Id_NodeID id)) "catalog: %w" [PeerDB] (λ cat,
  opening CatalogDB (
  (* an error of the scan is only logged *)
  let '(scanned, idx) := Scan fs NewLocalIndex (sur_walk x) in
  match scanned with
  | Panic => (Panic, closing [CatalogDB; PeerDB])
  | _ =>
      let '(ln, udp) := Listen (sur_now x) (sur_net x) (sur_addr x) id in
      logged (map Udp udp) (
      start_step ln "listen: %w" [CatalogDB; PeerDB] (λ _,
      opening QuicListener (
      let '(srv, log) := NewServer (sur_stale x) (sur_bind x) (sur_chmod x) in
      match srv with
      | Ok _ =>
          (Ok (mk_Started id store cat idx),
           log ++ closing [ControlSocket; QuicListener; CatalogDB; PeerDB])
      | Err e => (Err (Wrapf "daemon socket: %w" e), log ++ closing [QuicListener; CatalogDB; PeerDB])
      | Panic => (Panic, log ++ closing [QuicListener; CatalogDB; PeerDB])
      end)))
  end)))))).

End Start.

(** The resources that are open after a log, last opened first; [None] when one is
    closed that is not the last one opened. *)
Fixpoint replay (held : list resource) (log : list action) : option (list resource) :=
  match log with
  | [] => Some held
  | Udp _ :: log' => replay held log'
  | Opened r :: log' => replay (r :: held) log'
  | Closed r :: log' =>
      match held with
      | r' :: held' =>
          match r, r' with
          | PeerDB, PeerDB | CatalogDB, CatalogDB | QuicListener, QuicListener
          | ControlSocket, ControlSocket => replay held' log'
          | _, _ => None
          end
      | [] => None
      end
  end.

(** What happened to the transport's socket. *)
Definition socket_log (log : list action) : list act :=
  omap (λ a, match a with Udp a => Some a | _ => None end) log.

(** The sockets that were bound. *)
Definition bound (log : list act) : nat :=
  length (List.filter (λ a, match a with SocketOpened => true | _ => false end) log).

(** What [Listen] does with its socket. *)
Lemma Listen_log `{Ed25519} `{CertOps} now net addr id :
  match Listen now net addr id with
  | (Ok _, log) => log = [SocketOpened]
  | (Err _, log) => log = [] ∨ log = [SocketOpened; TransportClosed]
  | (Panic, log) => log = [] ∨ log = [SocketOpened]
  end.
Proof.
  unfold Listen, checked, logging. destruct (certFromIdentity now id) as [cert|e|]; [|by left..].
  destruct (wrap _ (n_resolve net addr)) as [u|e|]; [|by left..].
  destruct (wrap _ (n_listenUDP net u)) as [[]|e|]; [|by left..].
  destruct (wrap _ (n_quicListen _ _ _)) as [[]|e|]; simpl; auto.
Qed.

(** The log of [Run] is balanced but for the socket. *)
Lemma Run_log {B : Type} `{Bolt B} `{JsonCodec Peer} `{Ed25519} `{CertOps} (x : Surroundings (B := B))
    (cfgDir sharedDir : bytes) :
  let '(res, log) := Run x cfgDir sharedDir in
  replay [] log = Some [] ∧
  (is_Ok res = true →
   take 5 log = [Opened PeerDB; Opened CatalogDB; Udp SocketOpened; Opened QuicListener; Opened ControlSocket]) ∧
  (res ≠ Panic → ∀ closes,
   held closes (socket_log log) = if closes then 0%nat else bound (socket_log log)).
Proof.
  unfold Run, start_step, opening, logged, NewServer.
  destruct (LoadOrGenerate _ _ _) as [[id| |] fs]; [|split_and!; [done|done|by intros ? []]..].
  destruct (Peerstore.Open _) as [store| |]; [|split_and!; [done|done|by intros ? []]..].
  destruct (MkdirAll fs sharedDir) as [[[]| |] fs']; [|split_and!; [done|done|by intros ? []]..].
  destruct (Catalog.Open _ _) as [cat| |]; [|split_and!; [done|done|by intros ? []]..].
  pose proof (Listen_log (sur_now x) (sur_net x) (sur_addr x) id) as Hl.
  destruct (Scan _ _ _) as [[[]| |] idx]; [| |split_and!; [done|done|by intros ? []]].
  all: destruct (Listen _ _ _ id) as [[l|el|] udp].
  all: try subst udp; try destruct Hl as [->| ->].
  all: destruct (sur_stale x), (sur_bind x), (sur_chmod x); (split_and!; [done|done|by intros ? []]).
Qed.

(** * The running node *)

Section Node.
Context {B : Type} `{Bolt B} `{JsonCodec Peer} `{JsonCodec Entry} `{JsonCodec (list OwnerHint)}.
Context `{JsonCodec Event} `{IpcCodecs}.
Context (PeerID : nat → node_id) (ctx : nat → option error).

(** [n_proto] has the catalog; [n_index] is the index of the sender. *)
Record Node := mk_Node {
  n_store : Peerstore.Store B;
  n_proto : Handler.Handler (Catalog.Store B);
  n_index : LocalIndex;
  n_srv : Server
}.

Definition with_proto (n : Node) (h : Handler.Handler (Catalog.Store B)) : Node :=
  {| n_store := n_store n; n_proto := h; n_index := n_index n; n_srv := n_srv n |}.
Definition with_srv (n : Node) (s : Server) : Node :=
  {| n_store := n_store n; n_proto := n_proto n; n_index := n_index n; n_srv := s |}.

Definition BroadcastPeerOnline (n : Node) (peerID : node_id) : Node :=
  with_srv n (Broadcast (n_srv n) (peer_online_event peerID)).
Definition BroadcastPeerOffline (n : Node) (peerID : node_id) : Node :=
  with_srv n (Broadcast (n_srv n) (peer_offline_event peerID)).
Definition BroadcastCatalogUpdated (n : Node) : Node :=
  with_srv n (Broadcast (n_srv n) catalog_updated_event).

(** What [acceptLoop] does with the connection [k] before it starts the goroutine; an
    error of the store is only logged. *)
Definition accepted_conn (now : Z) (n : Node) (k : nat) : outcome Node :=
  let '(res, s) := UpdateLastSeen now (n_store n) (PeerID k) in
  let n := {| n_store := s; n_proto := n_proto n; n_index := n_index n; n_srv := n_srv n |} in
  match res with
  | Panic => Panic
  | _ => Ok (BroadcastPeerOnline n (PeerID k))
  end.

(** [handler.Serve] up to its loop. *)
Definition serve_begin (n : Node) (k : nat) : Node :=
  with_proto n (serve_start PeerID (H := store_exchanger (λ _, 0)) (n_proto n) k).

(** One message in [handler.Serve]; the update callback is [BroadcastCatalogUpdated]. *)
Definition message (clk : nat → Z) (fs : FS) (n : Node) (k : nat) (env : Envelope) : Node :=
  let h := serve_message (H := store_exchanger clk) PeerID fs (n_index n) ctx (n_proto n) k env in
  Nat.iter (updates h - updates (n_proto n)) BroadcastCatalogUpdated (with_proto n h).

(** The end of the goroutine of a connection. *)
Definition serve_finish (n : Node) (k : nat) : Node :=
  BroadcastPeerOffline (with_proto n (serve_end PeerID (n_proto n) k)) (PeerID k).

(** The start of [serveJoinedPeer]; its end is [serve_finish]. *)
Definition joined_conn (n : Node) (k : nat) : Node :=
  serve_begin (BroadcastPeerOnline n (PeerID k)) k.

(** The loop over the results of [ln.Accept()]; [stopped i] is whether the context is
    done after the [i]-th one. The goroutines that the loop starts go on by
    [message] and [serve_finish]. *)
Fixpoint acceptLoop (now : nat → Z) (stopped : nat → bool) (i : nat) (n : Node)
    (conns : list (outcome nat)) : outcome Node :=
  match conns with
  | [] => Ok n
  | Ok k :: conns' =>
      n ← accepted_conn (now i) n k;
      acceptLoop now stopped (S i) (serve_begin n k) conns'
  | Err _ :: conns' => if stopped i then Ok n else acceptLoop now stopped (S i) n conns'
  | Panic :: _ => Panic
  end.

(** The callback of the watcher. *)
Definition onChange (n : Node) : Node :=
  let n := BroadcastCatalogUpdated n in
  with_proto n (BroadcastCatalog (H := store_exchanger (λ _, 0)) PeerID (n_proto n)).

(** The node's watcher does something, up to its callbacks: how many are to run, and the
    node with the catalog and the index as they are then. *)
Definition watched {A} (n : Node) (f : Watcher B → A * Watcher B) : nat * Node :=
  match catalog (n_proto n) with
  | None => (0%nat, n)
  | Some s =>
      let '(_, w) := f (mk_Watcher s (n_index n) ∅ 0) in
      (w_changes w,
       {| n_store := n_store n; n_proto := Handler.with_catalog (n_proto n) (w_catalog w);
          n_index := w_index w; n_srv := n_srv n |})
  end.

(** The callback runs for every change. *)
Definition watch {A} (n : Node) (f : Watcher B → A * Watcher B) : Node :=
  let '(changes, n) := watched n f in Nat.iter changes onChange n.

Definition file_written (clk : nat → Z) (fs : FS) (modtime : bytes → Z) (n : Node) (path : bytes) : Node :=
  watch n (λ w, indexFile clk fs modtime w path).

Definition file_removed (clk : nat → Z) (n : Node) (path : bytes) : Node :=
  watch n (λ w, (tt, handleRemove clk w path)).

End Node.
Arguments Node : clear implicits.

(** * Facts *)

Section Facts.
Context {B : Type} `{BoltLaws B} `{JPeer : JsonCodec Peer} `{CatalogJson}.
Context `{JEv : JsonCodec Event} `{IpcCodecs}.
Implicit Types (n : Node B).

Definition registered_works (PeerID : nat → node_id) n : Prop :=
  ∀ p k, conns (n_proto n) !! p = Some k →
    PeerID k = p ∧ ∃ w, wires (n_proto n) !! k = Some w ∧ sends w.

(** [onChange] puts an offer on every registered connection. *)
Lemma onChange_offers PeerID (P : CatalogSpec.op → Prop) self n s :
  reachable P self s → catalog (n_proto n) = Some s → registered_works PeerID n →
  let n' := onChange PeerID n in
  n_srv n' = Broadcast (n_srv n) catalog_updated_event ∧ n_index n' = n_index n ∧
  catalog (n_proto n') = Some s ∧
  ∀ p k w, conns (n_proto n) !! p = Some k → wires (n_proto n) !! k = Some w →
    ∃ es, ListForPeer s p = Ok es ∧
      wires (n_proto n') !! k = Some (deliver w [catalog_offer es]).
Proof.
  intros Hr Hc Hreg.
  destruct (BroadcastCatalog_effect (H := store_exchanger (λ _, 0)) PeerID (n_proto n) s Hc) as [Hc' Hb].
  { intros p k Hk. destruct (Hreg p k Hk) as [Hp Hw]. split_and!; [done| |done].
    destruct (ListForPeer_elems P self s p Hr) as (l & Hl & _). simpl. by rewrite Hl. }
  split_and!; [done|done|done|]. intros p k w Hk Hw. destruct (Hreg p k Hk) as [<- _].
  apply Hb; [done|by eexists].
Qed.

(** Indexing a new file: the catalog and the index have it, and every registered
    connection carries an offer. *)
Lemma file_written_offers PeerID (P : CatalogSpec.op → Prop) self clk fs modtime n s path content hs :
  (∀ e, P (OpPutLocal clk e)) →
  reachable P self s → (∀ b b' : B, tx_commit b b' = Ok tt) → faultless fs →
  catalog (n_proto n) = Some s → registered_works PeerID n →
  nodes fs !! path = Some (File content) →
  let id := Sum256 content in
  indexable clk s self (file_entry modtime path id (len content)) hs →
  let n' := file_written PeerID clk fs modtime n path in
  n_srv n' = Broadcast (n_srv n) catalog_updated_event ∧ Lookup (n_index n') id = Some path ∧
  ∃ s', catalog (n_proto n') = Some s' ∧ reachable P self s' ∧
    (∃ e, GetEntry s' self id = Ok (Some e) ∧ Entry_Deleted e = false) ∧
    ∀ p k w, conns (n_proto n) !! p = Some k → wires (n_proto n) !! k = Some w →
      ∃ es, ListForPeer s' p = Ok es ∧ wires (n_proto n') !! k = Some (deliver w [catalog_offer es]).
Proof.
  intros HP Hr Hcommit Hf Hc Hreg Hn id Hix. unfold file_written, watch, watched. rewrite Hc.
  destruct (indexFile_Ok P self clk fs modtime (mk_Watcher s (n_index n) ∅ 0) path content hs Hr Hcommit Hf Hn Hix)
    as (s' & Hput & -> & Hget & _).
  cbn [notifyChange Watcher.with_index Watcher.with_catalog w_changes w_catalog w_index Nat.iter nat_rect].
  assert (reachable P self s') as Hr'.
  { pose proof (reach_step P self s (OpPutLocal clk (file_entry modtime path id (len content))) Hr (HP _)) as Hs.
    cbn [CatalogSpec.exec] in Hs. cbn [w_catalog] in Hput. fold id in Hput. by rewrite Hput in Hs. }
  edestruct (onChange_offers PeerID P self
    {| n_store := n_store n; n_proto := Handler.with_catalog (n_proto n) s';
       n_index := AddWithHash (n_index n) id path; n_srv := n_srv n |} s' Hr')
    as (Hsrv & Hidx & Hcat & Hoff); [done|done|].
  split_and!; [exact Hsrv| |].
  { etrans; [exact (f_equal (λ i, Lookup i id) Hidx)|]. cbn [n_index].
    by rewrite Lookup_AddWithHash, decide_True. }
  exists s'. split_and!; [exact Hcat|done| |exact Hoff].
  eexists. split; [exact Hget|done].
Qed.

(** An offer that arrives: the peer's entries are replaced, and the subscribers told. *)
Lemma offer_arrives PeerID ctx (PA PB : CatalogSpec.op → Prop) selfA selfB clk fs n sA sB k w es :
  reachable PA selfA sA → reachable PB selfB sB → ListForPeer sA selfB = Ok es →
  catalog (n_proto n) = Some sB → PeerID k = selfA →
  wires (n_proto n) !! k = Some w → sends w → onCatalogUpdate (n_proto n) = true →
  (∀ es, PB (OpPutPeerEntries clk selfA es)) →
  fst (PutPeerEntries clk sB selfA (map wire_entry es)) = Ok tt →
  let n' := message PeerID ctx clk fs n k (catalog_offer es) in
  n_srv n' = Broadcast (n_srv n) catalog_updated_event ∧
  ∃ sB', catalog (n_proto n') = Some sB' ∧
    ∀ o f e, o ≠ selfB → GetEntry sA o f = Ok (Some e) → Entry_Deleted e = false →
      (∃ e', GetEntry sB' selfA f = Ok (Some e') ∧ Entry_Deleted e' = false) ∧
      (∃ hs, GetOwners sB' f = Ok hs ∧ selfA ∈ map Hint_NodeID hs).
Proof.
  intros HrA HrB Hl Hc Hk Hw Hs Hcb HPB Hput.
  destruct (dispatch_offer_syncs PeerID fs (n_index n) ctx clk PA PB selfA selfB sA sB (n_proto n) k w es)
    as (sB' & h' & Hd & Hc' & Hu & _ & Hf); [done..|].
  unfold message, serve_message. rewrite Hd, Hcb in *. cbn [snd]. rewrite Hu.
  replace (S (updates (n_proto n)) - updates (n_proto n))%nat with 1%nat by lia.
  split; [done|]. exists sB'. split; [done|]. intros o f e Ho He Hdel.
  destruct (Hf f) as [Hiff Hown]. assert (∃ e', GetEntry sB' selfA f = Ok (Some e') ∧ Entry_Deleted e' = false)
    as Hlive by (apply Hiff; eauto).
  split; [done|by apply Hown].
Qed.

End Facts.

(** * Properties *)


Section Admission.
Context {B : Type} `{BoltLaws B} `{JPeer : JsonCodec Peer} `{CatalogJson} `{JEv : JsonCodec Event} `{IpcCodecs}.

(** A connection of a peer the store does not know. *)
Lemma accepted_unknown PeerID now (n : Node B) k :
  (∀ b b' : B, tx_commit b b' = Ok tt) → GetPeer (n_store n) (PeerID k) = Ok None →
  accepted_conn PeerID now n k = Ok (BroadcastPeerOnline n (PeerID k)).
Proof.
  intros Hcommit Hg. unfold accepted_conn, UpdateLastSeen, Peerstore.Update. unfold GetPeer in Hg.
  destruct n as [[peers nonces ro] h idx srv]. cbn [n_store Peerstore.peers read_only] in *.
  destruct ro; [done|]. unfold db_Update. cbn [Peerstore.peers].
  destruct peers as [b|]; [|done]. unfold on_bucket in *. cbn beta iota in *.
  destruct (bucket_Get b (arr_bytes (PeerID k))) as [data|].
  { by destruct (json_Unmarshal data json_zero). }
  by rewrite Hcommit.
Qed.

Lemma serve_begin_offers PeerID (P : CatalogSpec.op → Prop) self (n : Node B) s k w :
  reachable P self s → catalog (n_proto n) = Some s → wires (n_proto n) !! k = Some w → sends w →
  ∃ es, ListForPeer s (PeerID k) = Ok es ∧
    wires (n_proto (serve_begin PeerID n k)) !! k = Some (deliver w [catalog_offer es]).
Proof.
  intros Hr Hc Hw Hs. destruct (ListForPeer_elems P self s (PeerID k) Hr) as (es & Hes & _).
  exists es. split; [done|]. unfold serve_begin, serve_start. cbn [n_proto with_proto].
  cbn [catalog registerConn with_conns]. rewrite Hc.
  rewrite (sendCatalogOfferTo_sends (H := store_exchanger (λ _, 0)) PeerID _ k s es w) by done.
  simpl. by rewrite lookup_insert_eq.
Qed.

Lemma file_request_served PeerID ctx clk fs (n : Node B) k w id path content :
  live ctx → faultless fs → wires (n_proto n) !! k = Some w → sends w →
  Lookup (n_index n) id = Some path → nodes fs !! path = Some (File content) →
  ∃ ps, concat ps = content ∧
    wires (n_proto (message PeerID ctx clk fs n k (file_request id))) !! k =
      Some (deliver w (file_response id (len content) false :: chunk_stream id ps)).
Proof.
  intros Hctx Hf Hw Hs Hl Hn.
  destruct (HandleRequest_frames ctx fs (n_index n) id w path content) as (ps & Hr & Hc & _); [done..|].
  exists ps. split; [done|]. unfold message, serve_message, dispatch, file_request.
  cbn [Payload envelope]. unfold handleFileRequest. cbn [FileRequest_FileId].
  assert (len (arr_bytes id) = 32) as -> by (unfold len; by rewrite arr_length). cbn [Z.eqb negb Pos.eqb].
  rewrite copy_arr_id. unfold on_wire. rewrite Hw, Hr. cbn [snd with_wire updates].
  rewrite Nat.sub_diag. simpl. by rewrite lookup_insert_eq.
Qed.

End Admission.

(** C33. Anyone who connects is served: a node that the peer store has never heard of
    is accepted, gets an offer of the whole catalog, and its request for any indexed
    file is answered with the file. *)
Theorem stranger_served {B : Type} `{BoltLaws B} `{JPeer : JsonCodec Peer} `{CatalogJson}
    `{JEv : JsonCodec Event} `{IpcCodecs} (PeerID : nat → node_id) (ctx : nat → option error)
    (P : CatalogSpec.op → Prop) (self : node_id) (now : Z) (clk : nat → Z) (fs : FS) (n : Node B)
    (s : Catalog.Store B) (k : nat) (w : Conn) (id : file_id) (path content : bytes) :
  (∀ b b' : B, tx_commit b b' = Ok tt) → GetPeer (n_store n) (PeerID k) = Ok None →
  reachable P self s → catalog (n_proto n) = Some s → wires (n_proto n) !! k = Some w → sends w →
  live ctx → faultless fs → Lookup (n_index n) id = Some path → nodes fs !! path = Some (File content) →
  ∃ n1 n2 es ps,
    accepted_conn PeerID now n k = Ok n1 ∧ n2 = serve_begin PeerID n1 k ∧
    GetPeer (n_store n2) (PeerID k) = Ok None ∧ ListForPeer s (PeerID k) = Ok es ∧ concat ps = content ∧
    wires (n_proto (message PeerID ctx clk fs n2 k (file_request id))) !! k =
      Some (deliver w (catalog_offer es :: file_response id (len content) false :: chunk_stream id ps)).
Proof.
  intros Hcommit Hg Hr Hc Hw Hs Hctx Hf Hl Hn.
  pose proof (accepted_unknown PeerID now n k Hcommit Hg) as Ha.
  destruct (serve_begin_offers PeerID P self (BroadcastPeerOnline n (PeerID k)) s k w Hr Hc Hw Hs)
    as (es & Hes & Hoff).
  destruct (file_request_served PeerID ctx clk fs (serve_begin PeerID (BroadcastPeerOnline n (PeerID k)) k) k
              (deliver w [catalog_offer es]) id path content) as (ps & Hps & Hfin); [done..|].
  do 4 eexists. split_and!; [exact Ha|done|exact Hg|exact Hes|exact Hps|].
  rewrite Hfin. by rewrite deliver_app.
Qed.

(** C31. [Run] releases what it opened, except its UDP socket: whatever its calls return,
    the databases, the QUIC listener and the control socket that it opened are closed when
    it returns, the last first; it runs only when all were opened, in this order. The
    socket that [Listen] has bound is closed exactly when closing a QUIC transport closes
    the socket it was given; otherwise every socket that was bound, also by a [Listen]
    that failed, stays open. *)
Theorem Run_releases {B : Type} `{Bolt B} `{JsonCodec Peer} `{Ed25519} `{CertOps} (x : Surroundings (B := B))
    (cfgDir sharedDir : bytes) :
  let '(res, log) := Run x cfgDir sharedDir in
  replay [] log = Some [] ∧
  (is_Ok res = true →
   take 5 log = [Opened PeerDB; Opened CatalogDB; Udp SocketOpened; Opened QuicListener; Opened ControlSocket]) ∧
  (res ≠ Panic → ∀ closes,
   held closes (socket_log log) = if closes then 0%nat else bound (socket_log log)).
Proof.
  apply Run_log.
Qed.

(** * Witnesses *)

Module NodeWitness.
Import MapBolt CatalogInstance PeerInstance IpcInstance WatcherWitness.
#[local] Existing Instance DaemonWitness.codecs.

Abbreviation TestNode := (Node (gmap bytes bytes)).

Definition bob : node_id := copy_arr 32 (str "bob").
Definition ctx (i : nat) : option error := None.

(** Node A, with a connection to Bob, and Bob's node. *)
Definition nA : TestNode :=
  mk_Node PeerInstance.new_store
    (Handler.mk_Handler (Some (CatalogProps.new_store self)) {[ bob := 1%nat ]} {[ 1%nat := fresh_conn [] ]} true 0)
    NewLocalIndex Ipc.NewServer.
Definition nB : TestNode :=
  mk_Node PeerInstance.new_store
    (Handler.mk_Handler (Some (CatalogProps.new_store bob)) {[ self := 1%nat ]} {[ 1%nat := fresh_conn [] ]} true 0)
    NewLocalIndex Ipc.NewServer.

Definition PeerA (k : nat) : node_id := bob.
Definition PeerB (k : nat) : node_id := self.
Definition fsB : FS := mk_FS {[ str "/b" := Dir ]} (λ _, None).
Definition any (o : CatalogSpec.op) : Prop := True.

Lemma registered_A : registered_works PeerA nA.
Proof.
  intros p k Hk. simpl in Hk. apply lookup_singleton_Some in Hk as [<- <-]. split; [done|].
  exists (fresh_conn []). done.
Qed.

Lemma readyB : ready fsB (str "/b") (str "1") (Sum256 old).
Proof.
  split; [by vm_compute|done| |by vm_compute|by vm_compute].
  apply (bool_decide_unpack _). by vm_compute.
Qed.

(** The offer that A sends, and that Bob's store takes it. *)
Definition nA' : TestNode := file_written PeerA clk fs1 modtime nA path.

Definition esA : list Entry :=
  match ListForPeer (default (CatalogProps.new_store self) (catalog (n_proto nA'))) bob with
  | Ok es => es
  | _ => []
  end.

Lemma offer_taken :
  len esA = 1 ∧ fst (PutPeerEntries clk (CatalogProps.new_store bob) self (map wire_entry esA)) = Ok tt.
Proof. split; by vm_compute. Qed.


(** Somebody connects to A, which serves a file. *)
Definition nS : TestNode :=
  mk_Node PeerInstance.new_store
    (Handler.mk_Handler (Some (CatalogProps.new_store self)) ∅ {[ 1%nat := fresh_conn [] ]} true 0)
    (AddWithHash NewLocalIndex (Sum256 old) path) Ipc.NewServer.

Lemma stranger_served_witness :
  ∃ n1 n2 es ps,
    accepted_conn PeerA 5 nS 1 = Ok n1 ∧ n2 = serve_begin PeerA n1 1 ∧
    GetPeer (n_store n2) bob = Ok None ∧ ListForPeer (CatalogProps.new_store self) bob = Ok es ∧
    concat ps = old ∧
    wires (n_proto (message PeerA ctx clk fs1 n2 1 (file_request (Sum256 old)))) !! 1%nat =
      Some (deliver (fresh_conn []) (catalog_offer es :: file_response (Sum256 old) (len old) false ::
              chunk_stream (Sum256 old) ps)).
Proof.
  apply (stranger_served PeerA ctx any self 5 clk fs1 nS (CatalogProps.new_store self) 1 (fresh_conn [])
    (Sum256 old) path old);
    [done|by vm_compute|apply reach_new|reflexivity|by vm_compute|done|done|done|by vm_compute|by vm_compute].
Defined.

End NodeWitness.
