(* ===== verification/Cluster.v ===== *)
(** Many nodes: any number of daemons, each with its folder, catalog and connections,
    that offer their catalogs to each other. A connection has a node at either end; what
    one end has sent is delivered to the other in order.

    A step is what one goroutine of a node does between two points at which another one
    can come in. In particular an offer is three steps, as in [BroadcastCatalog] and
    [sendCatalogOfferTo]: the table of connections is copied, the catalog is listed for a
    connection, and what was listed is sent; other goroutines can change, list and send
    in between. The indexing of a file up to its callback is one step, since its change of
    the catalog is one transaction, and so is the handling of a message, since its change
    is one and its replies are no offers. Here are the model and where files come from;
    [Converge] and [Circulate] have what the nodes end up with. *)

From S2P Require Import Prelude GoStd Wire Codec Bolt Catalog CatalogSpec CatalogProps Peerstore Sha256 Path Fs Transfer TransferProps Handler HandlerProps Exchange Watcher Folder Ipc Daemon Node.

(** * The cluster *)

(** A goroutine that sends offers: the callback of the watcher, or [Serve] of the
    connection [g_start] before its loop. [g_copy]: it has not copied the table of
    connections yet; [g_left]: the connections that it has not listed for; [g_listed]: what
    it has listed, for which connection and when, and has not sent. *)
Record goroutine := mk_goroutine {
  g_node : node_id;
  g_start : option nat;
  g_copy : bool;
  g_left : gset nat;
  g_listed : option (nat * list Entry * nat)
}.

Definition announcer (x : node_id) : goroutine := mk_goroutine x None true ∅ None.
Definition starter (x : node_id) (c : nat) (offers : bool) : goroutine :=
  mk_goroutine x (Some c) false (if offers then {[c]} else ∅) None.

(** Nothing is left to do. *)
Definition idle (g : goroutine) : bool :=
  negb (g_copy g) && bool_decide (g_left g = ∅) && match g_listed g with None => true | Some _ => false end.

Lemma elem_of_set {A} (l : list A) i (y z : A) : z ∈ <[i := y]> l → z = y ∨ z ∈ l.
Proof.
  intros [j Hj]%list_elem_of_lookup. apply list_lookup_insert_Some in Hj as [(_ & -> & _)|[_ Hj]]; [by left|].
  right. by eapply list_elem_of_lookup_2.
Qed.

Section Cluster.
Context {B : Type} `{Bolt B} `{JsonCodec Peer} `{JsonCodec Entry} `{JsonCodec (list OwnerHint)}.
Context `{JsonCodec Event} `{IpcCodecs}.

(** The two nodes of every connection, as the handshakes have authenticated them. *)
Context (ends : nat → node_id * node_id).

Definition far (x : node_id) (c : nat) : node_id :=
  if decide (x = (ends c).1) then (ends c).2 else (ends c).1.

(** [w_read]: how many messages an end has read from its connection; [w_serving]: the ends
    that are being served; [w_born]: the file ids that the watcher of a node has computed
    from a file; [w_time]: the number of steps so far; [w_offered]: when the last offer
    that an end has sent was listed. *)
Record World := mk_World {
  w_nodes : gmap node_id (Node B);
  w_read : gmap (node_id * nat) nat;
  w_serving : gset (node_id * nat);
  w_born : gset (node_id * file_id);
  w_threads : list goroutine;
  w_time : nat;
  w_offered : gmap (node_id * nat) nat
}.

Definition put_node (w : World) (x : node_id) (n : Node B) : World :=
  mk_World (<[x := n]> (w_nodes w)) (w_read w) (w_serving w) (w_born w) (w_threads w) (w_time w) (w_offered w).
Definition with_born (w : World) (s : gset (node_id * file_id)) : World :=
  mk_World (w_nodes w) (w_read w) (w_serving w) s (w_threads w) (w_time w) (w_offered w).
Definition with_serving (w : World) (s : gset (node_id * nat)) : World :=
  mk_World (w_nodes w) (w_read w) s (w_born w) (w_threads w) (w_time w) (w_offered w).
Definition with_threads (w : World) (l : list goroutine) : World :=
  mk_World (w_nodes w) (w_read w) (w_serving w) (w_born w) l (w_time w) (w_offered w).
Definition with_offered (w : World) (m : gmap (node_id * nat) nat) : World :=
  mk_World (w_nodes w) (w_read w) (w_serving w) (w_born w) (w_threads w) (w_time w) m.
Definition tick (w : World) : World :=
  mk_World (w_nodes w) (w_read w) (w_serving w) (w_born w) (w_threads w) (S (w_time w)) (w_offered w).

Definition spawn (w : World) (l : list goroutine) : World := with_threads w (w_threads w ++ l).
Definition set_thread (w : World) (g : nat) (th : goroutine) : World := with_threads w (<[g := th]> (w_threads w)).

Definition incoming (w : World) (x : node_id) (c : nat) : list Envelope :=
  from_option (λ n, sent_on c (n_proto n)) [] (w_nodes w !! far x c).
Definition read_pos (w : World) (x : node_id) (c : nat) : nat := default 0%nat (w_read w !! (x, c)).

Definition read_one (w : World) (x : node_id) (c : nat) : World :=
  mk_World (w_nodes w) (<[(x, c) := S (read_pos w x c)]> (w_read w)) (w_serving w) (w_born w)
    (w_threads w) (w_time w) (w_offered w).

(** The watcher of a node comes to a file or a removal; a node accepts or has dialed a
    connection and begins to serve it; a goroutine copies the table of connections, lists
    for one, or sends what it has listed; a node takes the next message of a connection;
    the serving of a connection ends. *)
Inductive action :=
| Write (x : node_id) (clk : nat → Z) (fs : FS) (modtime : bytes → Z) (path : bytes)
| Remove (x : node_id) (clk : nat → Z) (path : bytes)
| Accept (x : node_id) (c : nat) (wire : Conn) (now : Z)
| Joined (x : node_id) (c : nat) (wire : Conn)
| Copy (g : nat)
| List (g : nat) (k : nat)
| Transmit (g : nat)
| Deliver (x : node_id) (c : nat) (ctx : nat → option error) (clk : nat → Z) (fs : FS)
| End (x : node_id) (c : nat).

(** The connection [c] is new to the node [x], one of its ends, and nothing was sent. *)
Definition can_begin (x : node_id) (c : nat) (wire : Conn) (n : Node B) : bool :=
  bool_decide (x = (ends c).1 ∨ x = (ends c).2) && bool_decide (far x c ≠ x) &&
  match wires (n_proto n) !! c, sent wire with None, [] => true | _, _ => false end.

Definition attach (n : Node B) (c : nat) (wire : Conn) : Node B :=
  with_proto n (with_wire (n_proto n) c wire).

(** [Serve] registers the connection and is about to send the first offer. *)
Definition begin_serving (w : World) (x : node_id) (c : nat) (n : Node B) : World :=
  let n := with_proto n (registerConn (n_proto n) (far x c) c) in
  spawn (with_serving (put_node w x n) ({[(x, c)]} ∪ w_serving w))
    [starter x c (match catalog (n_proto n) with Some _ => true | None => false end)].

(** [Serve] of [c] has come to its loop. *)
Definition in_loop (w : World) (x : node_id) (c : nat) : bool :=
  bool_decide ((x, c) ∈ w_serving w) &&
  forallb (λ g, idle g || negb (bool_decide (g_node g = x ∧ g_start g = Some c))) (w_threads w).

(** Something the watcher of [x] does; its callback is another goroutine's next step. *)
Definition watcher_step {A} (w : World) (x : node_id) (f : Watcher B → A * Watcher B) : option World :=
  n ← w_nodes w !! x;
  let '(changes, n) := watched n f in
  Some (spawn (put_node w x n) (replicate changes (announcer x))).

(** The callback up to the copy of the table in [BroadcastCatalog]. *)
Definition copy_step (w : World) (i : nat) : option World :=
  g ← w_threads w !! i;
  n ← w_nodes w !! g_node g;
  if g_copy g then
    let left := match catalog (n_proto n) with
                | Some _ => list_to_set (map snd (map_to_list (conns (n_proto n))))
                | None => ∅
                end in
    Some (set_thread (put_node w (g_node g) (BroadcastCatalogUpdated n)) i
            (mk_goroutine (g_node g) (g_start g) false left (g_listed g)))
  else None.

(** The first half of [sendCatalogOfferTo]; an error is only logged. *)
Definition list_step (w : World) (i k : nat) : option World :=
  g ← w_threads w !! i;
  n ← w_nodes w !! g_node g;
  s ← catalog (n_proto n);
  if negb (g_copy g) && bool_decide (k ∈ g_left g) && bool_decide (g_listed g = None) then
    let left := g_left g ∖ {[k]} in
    match ListForPeer s (far (g_node g) k) with
    | Ok es => Some (set_thread w i (mk_goroutine (g_node g) (g_start g) false left (Some (k, es, w_time w))))
    | Err _ => Some (set_thread w i (mk_goroutine (g_node g) (g_start g) false left None))
    | Panic => None
    end
  else None.

(** The second half. *)
Definition transmit_step (w : World) (i : nat) : option World :=
  g ← w_threads w !! i;
  n ← w_nodes w !! g_node g;
  '(k, es, t) ← g_listed g;
  let '(res, h) := conn_Send (n_proto n) k (catalog_offer es) in
  let w := set_thread (put_node w (g_node g) (with_proto n h)) i
             (mk_goroutine (g_node g) (g_start g) (g_copy g) (g_left g) None) in
  Some (match res with
        | Ok _ => with_offered w (<[(g_node g, k) := t]> (w_offered w))
        | _ => w
        end).

(** [None] when the action is not possible. *)
Definition act (w : World) (a : action) : option World :=
  match a with
  | Write x clk fs modtime path =>
      w ← watcher_step w x (λ v, indexFile clk fs modtime v path);
      Some (match watcher_hashFile fs path with
            | Ok h => with_born w ({[(x, h)]} ∪ w_born w)
            | _ => w
            end)
  | Remove x clk path => watcher_step w x (λ v, (tt, handleRemove clk v path))
  | Accept x c wire now =>
      n ← w_nodes w !! x;
      if can_begin x c wire n then
        match accepted_conn (far x) now (attach n c wire) c with
        | Ok n => Some (begin_serving w x c n)
        | _ => None
        end
      else None
  | Joined x c wire =>
      n ← w_nodes w !! x;
      if can_begin x c wire n then Some (begin_serving w x c (BroadcastPeerOnline (attach n c wire) (far x c)))
      else None
  | Copy g => copy_step w g
  | List g k => list_step w g k
  | Transmit g => transmit_step w g
  | Deliver x c ctx clk fs =>
      n ← w_nodes w !! x;
      env ← incoming w x c !! read_pos w x c;
      if in_loop w x c then Some (read_one (put_node w x (message (far x) ctx clk fs n c env)) x c)
      else None
  | End x c =>
      n ← w_nodes w !! x;
      if in_loop w x c then
        Some (with_serving (put_node w x (serve_finish (far x) n c)) (w_serving w ∖ {[(x, c)]}))
      else None
  end.

Definition step (w : World) (a : action) : option World := tick <$> act w a.

Fixpoint run (w : World) (acts : list action) : option World :=
  match acts with
  | [] => Some w
  | a :: acts => w ← step w a; run w acts
  end.

(** [P] holds of every action of a run where it is taken. *)
Fixpoint along (P : World → action → Prop) (w : World) (acts : list action) : Prop :=
  match acts with
  | [] => True
  | a :: acts => P w a ∧ match step w a with Some w => along P w acts | None => True end
  end.

(** Nothing goes wrong in an action: the folder can be read and the store takes what is
    written, connections carry what is sent, and a node has at most one connection with
    another. *)
Definition clean (w : World) (a : action) : Prop :=
  match a with
  | Write x clk fs modtime path =>
      faultless fs ∧ ∀ n s, w_nodes w !! x = Some n → catalog (n_proto n) = Some s →
        fst (indexFile clk fs modtime (mk_Watcher s (n_index n) ∅ 0) path) = Ok tt
  | Accept x c wire _ | Joined x c wire =>
      sends wire ∧ ∀ c', (x, c') ∈ w_serving w → far x c' ≠ far x c
  | Deliver x c _ clk _ =>
      ∀ n s es, w_nodes w !! x = Some n → catalog (n_proto n) = Some s →
        incoming w x c !! read_pos w x c = Some (catalog_offer es) →
        fst (PutPeerEntries clk s (far x c) (map wire_entry es)) = Ok tt
  | _ => True
  end.

(** No offer is sent on a connection after one that was listed later. *)
Definition in_order (w : World) (a : action) : Prop :=
  match a with
  | Transmit i =>
      ∀ g k es t t', w_threads w !! i = Some g → g_listed g = Some (k, es, t) →
        w_offered w !! (g_node g, k) = Some t' → (t' ≤ t)%nat
  | _ => True
  end.

(** The goroutines of a node that send offers have nothing left to do. *)
Definition quiet (w : World) (x : node_id) : Prop :=
  ∀ g, g ∈ w_threads w → g_node g = x → idle g = true.

(** A cluster before anything has happened: nodes with the catalog of an earlier run or a
    new one, and no connections. *)
Definition fresh_node (x : node_id) (n : Node B) : Prop :=
  conns (n_proto n) = ∅ ∧ wires (n_proto n) = ∅ ∧
  ∃ s, catalog (n_proto n) = Some s ∧ reachable any_op x s.

Definition start (nodes : gmap node_id (Node B)) : World := mk_World nodes ∅ ∅ ∅ [] 0 ∅.

End Cluster.
Arguments World : clear implicits.

(** * What a handler puts on its connections *)

(** [h'] is [h] after messages that satisfy [Q] were sent on its connections. *)
Definition emitted {C} (Q : nat → Envelope → Prop) (h h' : Handler.Handler C) : Prop :=
  ∀ k, match wires h !! k, wires h' !! k with
       | Some w, Some w' =>
           ∃ ms, sent w' = sent w ++ ms ∧ Forall (Q k) ms ∧ send_fault w' = send_fault w
       | None, None => True
       | _, _ => False
       end.

#[export] Instance emitted_po {C} Q : PreOrder (emitted (C := C) Q).
Proof.
  split.
  - intros h k. destruct (wires h !! k) as [w|]; [|done]. exists []. by rewrite app_nil_r.
  - intros h1 h2 h3 H12 H23 k. specialize (H12 k). specialize (H23 k).
    destruct (wires h1 !! k) as [w1|], (wires h2 !! k) as [w2|], (wires h3 !! k) as [w3|]; try done.
    destruct H12 as (ms & E & HQ & Hf), H23 as (ms' & E' & HQ' & Hf'). exists (ms ++ ms').
    rewrite E', E, app_assoc, Hf'. split_and!; [done|by apply Forall_app|done].
Qed.

Lemma emitted_mono {C} (Q R : nat → Envelope → Prop) (h h' : Handler.Handler C) :
  (∀ k env, Q k env → R k env) → emitted Q h h' → emitted R h h'.
Proof.
  intros HQR He k. specialize (He k). destruct (wires h !! k), (wires h' !! k); try done.
  destruct He as (ms & ? & HQ & ?). exists ms. split_and!; [done| |done]. eapply Forall_impl; eauto.
Qed.

Lemma emitted_wires {C} Q (h h' : Handler.Handler C) : wires h' = wires h → emitted Q h h'.
Proof. intros E k. rewrite E. destruct (wires h !! k) as [w|]; [|done]. exists []. by rewrite app_nil_r. Qed.

Lemma conn_Send_emitted {C} Q (h : Handler.Handler C) k env : Q k env → emitted Q h (snd (conn_Send h k env)).
Proof.
  intros HQ j. unfold conn_Send, on_wire. destruct (wires h !! k) as [w|] eqn:Hk.
  2: { simpl. destruct (wires h !! j) as [w|]; [|done]. exists []. by rewrite app_nil_r. }
  destruct (Send w env) as [r w'] eqn:E. cbn [snd wires with_wire].
  destruct (decide (j = k)) as [->|Hne].
  - rewrite Hk, lookup_insert_eq. revert E. unfold Send. destruct (send_fault w _); intros [= <- <-].
    + exists []. by rewrite app_nil_r.
    + exists [env]. split_and!; [done|by constructor|done].
  - rewrite lookup_insert_ne by done. destruct (wires h !! j) as [u|]; [|done]. exists []. by rewrite app_nil_r.
Qed.

Lemma conn_Send_frame {C} (h : Handler.Handler C) k env :
  catalog (snd (conn_Send h k env)) = catalog h ∧ conns (snd (conn_Send h k env)) = conns h.
Proof. unfold conn_Send, on_wire. destruct (wires h !! k) as [w|]; [|done]. by destruct (Send w env). Qed.

Lemma answered_emitted {C} k (h h' : Handler.Handler C) :
  answered_on k h h' → emitted (λ _ env, is_query env = false) h h'.
Proof.
  intros [Hne Hk] j. destruct (decide (j = k)) as [->|Hj].
  - destruct (wires h !! k) as [w|].
    + destruct Hk as (w' & -> & ms & ? & ? & ?). exists ms. done.
    + by rewrite Hk.
  - rewrite Hne by done. destruct (wires h !! j) as [w|]; [|done]. exists []. by rewrite app_nil_r.
Qed.

(** * The operations of one node *)

Section Ops.
Context {B : Type} `{BoltLaws B} `{JPeer : JsonCodec Peer} `{CatalogJson} `{JEv : JsonCodec Event} `{IpcCodecs}.
Implicit Types (n : Node B) (s : Catalog.Store B) (v : Watcher B).

(** [s'] has the same entries as [s] except for this node's entry of a file in [fs]. *)
Definition own_change (x : node_id) (fs : file_id → Prop) s s' : Prop :=
  ∀ o f, o ≠ x ∨ ¬ fs f → GetEntry s' o f = GetEntry s o f.

Lemma own_refl x fs s : own_change x fs s s.
Proof. done. Qed.

Lemma exec_own x (o : CatalogSpec.op) s (P : file_id → Prop) :
  reachable any_op x s →
  match o with
  | OpPutLocal _ e => P (Entry_FileID e)
  | OpDeleteLocal _ f => P f
  | _ => False
  end →
  own_change x P s (snd (CatalogSpec.exec o s)).
Proof.
  intros Hr HP p f Hpf. pose proof Hr as (Hid & a & HA & _)%reachable_abs.
  destruct (CatalogSpec.exec o s) as [r s'] eqn:E. apply (exec_refines o s a _ _ HA) in E as [HA' _]. cbn [snd].
  rewrite (GetEntry_abs _ _ _ _ HA'), (GetEntry_abs _ _ _ _ HA). destruct (is_Ok r); [|done].
  rewrite Hid. destruct o as [clk e|clk g| |]; cbn [CatalogSpec.spec]; try done.
  - cbn [add_owner put_file files set_owner Entry_OwnerNodeID Entry_FileID].
    rewrite lookup_insert_ne; [done|]. intros [= <- <-]. by destruct Hpf.
  - destruct (files a !! (x, g)) as [e|] eqn:Hg; [|done].
    pose proof Hr as (_ & a' & HA2 & HI & _)%reachable_abs.
    cbn [remove_owner put_file files set_owner Entry_OwnerNodeID Entry_FileID].
    rewrite lookup_insert_ne; [done|]. intros Heq.
    assert (Entry_FileID e = g) as Hfid.
    { pose proof (GetEntry_abs _ _ x g HA) as E1. rewrite (GetEntry_abs _ _ x g HA2), Hg in E1.
      injection E1 as E1. by destruct (inv_stored _ HI _ _ _ E1) as (_ & ? & _). }
    injection Heq as <- Hfg. rewrite Hfid in Hfg. subst f. by destruct Hpf.
Qed.

(** [indexFile], whatever the folder and the store answer. *)
Lemma indexFile_effect x clk fs modtime v path :
  reachable any_op x (w_catalog v) →
  let '(r, v') := indexFile clk fs modtime v path in
  reachable any_op x (w_catalog v') ∧
  own_change x (λ f, watcher_hashFile fs path = Ok f) (w_catalog v) (w_catalog v') ∧
  (v' = v ∨ w_changes v' = S (w_changes v) ∨ w_changes v' = w_changes v ∧ r ≠ Ok tt).
Proof.
  intros Hr. unfold indexFile. destruct (Stat fs path) as [[c| |]|e|]; try by split_and!; auto.
  destruct (watcher_hashFile fs path) as [h|e|]; cbn [wrap]; try by split_and!; auto.
  set (e := file_entry _ _ _ _).
  pose proof (reach_step any_op x _ (OpPutLocal clk e) Hr I) as Hr'.
  pose proof (exec_own x (OpPutLocal clk e) (w_catalog v) (λ f, Ok h = Ok f) Hr eq_refl) as Hown. cbn [CatalogSpec.exec] in *.
  destruct (PutLocal clk (w_catalog v) e) as [[u|er|] s']; cbn [snd] in *; [|by split_and!; auto..].
  cbn [w_index Watcher.with_catalog].
  destruct (Add fs (w_index v) path) as [[u'|er|] i]; cbn; split_and!; auto.
Qed.

(** [handleRemove]. *)
Lemma handleRemove_effect x clk v path :
  reachable any_op x (w_catalog v) →
  let v' := handleRemove clk v path in
  reachable any_op x (w_catalog v') ∧
  own_change x (λ f, ∃ e, GetEntry (w_catalog v) x f = Ok (Some e)) (w_catalog v) (w_catalog v') ∧
  (own_change x (λ _, False) (w_catalog v) (w_catalog v') ∧ w_changes v' = w_changes v ∨
   w_changes v' = S (w_changes v)).
Proof.
  intros Hr. unfold handleRemove. pose proof Hr as (Hid & a & HA & HI & _)%reachable_abs.
  pose proof (LookupLocalByPath_abs (w_catalog v) a path HA) as Hl. rewrite Hid in Hl.
  destruct (LookupLocalByPath (w_catalog v) path) as [[e|]|er|]; try by eauto using own_refl.
  destruct Hl as (f & Hf & _). destruct (inv_stored _ HI _ _ _ Hf) as (_ & Hfid & _). rewrite Hfid.
  pose proof (reach_step any_op x _ (OpDeleteLocal clk f) Hr I) as Hr'.
  assert (∃ e, GetEntry (w_catalog v) x f = Ok (Some e)) as Hex
    by (exists e; by rewrite (GetEntry_abs _ _ _ _ HA), Hf).
  pose proof (exec_own x (OpDeleteLocal clk f) (w_catalog v) (λ f, ∃ e, GetEntry (w_catalog v) x f = Ok (Some e)) Hr Hex)
    as Hown.
  cbn [CatalogSpec.exec] in *. destruct (DeleteLocal clk (w_catalog v) f) as [[u|er|] s'] eqn:E; cbn [snd] in *.
  - split_and!; [done|done|by right].
  - split_and!; [done|done|left]. cbn [w_catalog Watcher.with_catalog w_changes]. split; [|done]. intros o g _.
    apply (exec_refines (OpDeleteLocal clk f) _ a _ _ HA) in E as [HA' _]. cbn [is_Ok] in HA'.
    by rewrite (GetEntry_abs _ _ _ _ HA'), (GetEntry_abs _ _ _ _ HA).
  - split_and!; [done|done|left]. cbn [w_catalog Watcher.with_catalog w_changes]. split; [|done]. intros o g _.
    apply (exec_refines (OpDeleteLocal clk f) _ a _ _ HA) in E as [HA' _]. cbn [is_Ok] in HA'.
    by rewrite (GetEntry_abs _ _ _ _ HA'), (GetEntry_abs _ _ _ _ HA).
Qed.

(** What the watcher leaves of a node, and the callbacks that are to run. *)
Lemma watched_eq {A} n s (f : Watcher B → A * Watcher B) :
  catalog (n_proto n) = Some s → let v := snd (f (mk_Watcher s (n_index n) ∅ 0)) in
  watched n f = (w_changes v, mk_Node (n_store n) (Handler.with_catalog (n_proto n) (w_catalog v)) (w_index v) (n_srv n)).
Proof. intros Hc. unfold watched. rewrite Hc. by destruct (f _). Qed.

(** [n'] is [n] with this node's entries of files in [P] changed; [silent]: no callback is
    to run, although nothing has failed. *)
Definition changed (x : node_id) (P : file_id → Prop) (silent : Prop) s n n' : Prop :=
  ∃ s', n_proto n' = Handler.with_catalog (n_proto n) s' ∧ reachable any_op x s' ∧
    own_change x P s s' ∧ (silent → ∀ f, GetEntry s' x f = GetEntry s x f).

Lemma written_effect x clk fs modtime n s path :
  catalog (n_proto n) = Some s → reachable any_op x s →
  let '(changes, n') := watched n (λ v, indexFile clk fs modtime v path) in
  changed x (λ f, watcher_hashFile fs path = Ok f)
    (changes = 0%nat ∧ fst (indexFile clk fs modtime (mk_Watcher s (n_index n) ∅ 0) path) = Ok tt) s n n'.
Proof.
  intros Hc Hr. rewrite (watched_eq n s _ Hc).
  pose proof (indexFile_effect x clk fs modtime (mk_Watcher s (n_index n) ∅ 0) path Hr) as Hi.
  destruct (indexFile clk fs modtime (mk_Watcher s (n_index n) ∅ 0) path) as [r v'].
  cbn [fst snd w_catalog w_changes] in *. destruct Hi as (Hr' & Hown & Hch).
  exists (w_catalog v'). split_and!; [done..|]. intros [Hz ->]. destruct Hch as [->|[Hch|[_ []]]]; [done|congruence|done].
Qed.

Lemma removed_effect x clk n s path :
  catalog (n_proto n) = Some s → reachable any_op x s →
  let '(changes, n') := watched n (λ v, (tt, handleRemove clk v path)) in
  changed x (λ f, ∃ e, GetEntry s x f = Ok (Some e)) (changes = 0%nat) s n n'.
Proof.
  intros Hc Hr. rewrite (watched_eq n s _ Hc). cbn [snd].
  destruct (handleRemove_effect x clk (mk_Watcher s (n_index n) ∅ 0) path Hr) as (Hr' & Hown & Hch).
  cbn [w_catalog w_changes] in *. exists (w_catalog (handleRemove clk (mk_Watcher s (n_index n) ∅ 0) path)).
  split_and!; [done..|]. intros Hz f. destruct Hch as [[Hno _]|Hch]; [|congruence]. apply Hno. right. by intros [].
Qed.

Lemma message_proto PeerID ctx clk fs n k env :
  n_proto (message PeerID ctx clk fs n k env) =
    serve_message (H := store_exchanger clk) PeerID fs (n_index n) ctx (n_proto n) k env.
Proof.
  unfold message. generalize (updates (serve_message (H := store_exchanger clk) PeerID fs (n_index n) ctx (n_proto n) k env)
    - updates (n_proto n))%nat as u. induction u as [|u IH]; [done|]. exact IH.
Qed.

Lemma accepted_proto PeerID now n k n' :
  accepted_conn PeerID now n k = Ok n' → n_proto n' = n_proto n.
Proof.
  unfold accepted_conn. destruct (UpdateLastSeen now (n_store n) (PeerID k)) as [r st'].
  destruct r; try done; by intros [= <-].
Qed.

(** A goroutine that lists and sends without being interrupted does what the source's
    [sendCatalogOfferTo] does as a whole. *)
Lemma list_transmit ends w i k w1 w2 g n :
  w_threads w !! i = Some g → w_nodes w !! g_node g = Some n →
  list_step ends w i k = Some w1 → transmit_step w1 i = Some w2 →
  w_nodes w2 = <[g_node g := with_proto n (snd (sendCatalogOfferTo (H := store_exchanger (λ _, 0)) (far ends (g_node g)) (n_proto n) k))]> (w_nodes w).
Proof.
  intros Hg Hn. unfold list_step. rewrite Hg. cbn. rewrite Hn. cbn. destruct (catalog (n_proto n)) as [s|] eqn:Hc; [|done].
  cbn. destruct (_ && _); [|done]. pose proof (lookup_lt_Some _ _ _ Hg) as Hlt.
  unfold transmit_step, sendCatalogOfferTo. rewrite Hc. cbn [cx_ListForPeer store_exchanger].
  destruct (ListForPeer s (far ends (g_node g) k)) as [es|e|]; [|intros [= <-]..|done];
    cbn [set_thread with_threads w_threads w_nodes]; rewrite ?list_lookup_insert_eq by done; cbn.
  - intros [= <-]. cbn. rewrite list_lookup_insert_eq by done. cbn. rewrite Hn. cbn.
    destruct (conn_Send (n_proto n) k (catalog_offer es)) as [[]  h]; by intros [= <-].
  - rewrite Hn. cbn. done.
Qed.

End Ops.

(** * Where files come from *)

Section Provenance.
Context {B : Type} `{BoltLaws B} `{JPeer : JsonCodec Peer} `{CatalogJson} `{JEv : JsonCodec Event} `{IpcCodecs}.
Context (ends : nat → node_id * node_id).
Implicit Types (n : Node B) (s : Catalog.Store B) (w : World B) (K : file_id → Prop).

Definition only_files K s : Prop := ∀ o f e, GetEntry s o f = Ok (Some e) → K f.

Definition offer_ok K (env : Envelope) : Prop :=
  ∀ m e, Payload env = Some (Envelope_CatalogOffer m) → e ∈ accepted (CatalogOffer_Files m) → K (Entry_FileID e).

(** The node [x] knows and has offered only files in [K]. *)
Record node_ok K (x : node_id) n : Prop := {
  no_catalog : ∃ s, catalog (n_proto n) = Some s ∧ reachable any_op x s ∧ only_files K s;
  no_sent c env : env ∈ sent_on c (n_proto n) → offer_ok K env
}.

Lemma node_ok_mono K K' x n : (∀ f, K f → K' f) → node_ok K x n → node_ok K' x n.
Proof.
  intros HK [(s & ? & ? & Hs) Hsent]. split; [exists s; split_and!; [done|done|]|].
  - intros o f e He. by eapply HK, Hs.
  - intros c env Hin m e Hm He. by eapply HK, Hsent.
Qed.

Lemma node_ok_proto K x n n' : n_proto n' = n_proto n → node_ok K x n → node_ok K x n'.
Proof. intros E [Hc Hs]. split; by rewrite E. Qed.

Lemma listed_offer_ok K x s y es :
  reachable any_op x s → only_files K s → ListForPeer s y = Ok es → offer_ok K (catalog_offer es).
Proof.
  intros Hr Hs Hes m e [= <-]. cbn [CatalogOffer_Files]. rewrite accepted_offer.
  intros (e0 & -> & Hin)%list_elem_of_fmap. destruct (ListForPeer_elems any_op x s y Hr) as (l & Hl & Hx).
  rewrite Hl in Hes. injection Hes as ->. apply Hx in Hin as (_ & _ & Hg). exact (Hs _ _ _ Hg).
Qed.

Lemma emitted_sent {C} Q (h h' : Handler.Handler C) c env :
  emitted Q h h' → env ∈ sent_on c h' → env ∈ sent_on c h ∨ Q c env.
Proof.
  intros He. specialize (He c). unfold sent_on. destruct (wires h !! c) as [u|], (wires h' !! c) as [u'|]; try done; simpl.
  - destruct He as (ms & -> & HQ & _). rewrite elem_of_app. rewrite Forall_forall in HQ. intros [?|?]; auto.
  - by intros ?%elem_of_nil.
Qed.

(** A node after an operation. *)
Lemma node_ok_step K x n n' s' Q :
  node_ok K x n → catalog (n_proto n') = Some s' → reachable any_op x s' → only_files K s' →
  emitted Q (n_proto n) (n_proto n') → (∀ c env, Q c env → offer_ok K env) → node_ok K x n'.
Proof.
  intros [_ Hsent] Hc Hr Hs He HQ. split; [by exists s'|].
  intros c env [Hin|Hq]%(emitted_sent _ _ _ _ _ He); [by eapply Hsent|by eapply HQ].
Qed.

Lemma node_ok_attach K x n c u : node_ok K x n → sent u = [] → node_ok K x (attach n c u).
Proof.
  intros [Hc Hsent] Hu. split; [done|]. intros k env. unfold sent_on, attach. cbn [n_proto with_proto with_wire wires].
  destruct (decide (c = k)) as [->|Hne]; [rewrite lookup_insert_eq; cbn; rewrite Hu; by intros ?%elem_of_nil|].
  rewrite lookup_insert_ne by done. apply Hsent.
Qed.

(** The catalog has changed, and nothing was sent. *)
Lemma node_ok_changed K K' x P silent n n' s :
  node_ok K x n → catalog (n_proto n) = Some s → changed x P silent s n n' →
  (∀ f, K f → K' f) → (∀ f, P f ∧ K' f ∨ ¬ P f) → node_ok K' x n'.
Proof.
  intros Hok Hc (s' & Hp & Hr' & Hown & _) HK HP.
  destruct (no_catalog _ _ _ Hok) as (s0 & Hc0 & _ & Hs). rewrite Hc in Hc0. injection Hc0 as <-.
  apply (node_ok_step K' x n n' s' (λ _ _, False)); [by eapply node_ok_mono|by rewrite Hp|done| |by apply emitted_wires; rewrite Hp|done].
  intros o f e Hg. destruct (decide (o = x)) as [->|Ho]; [|rewrite Hown in Hg by auto; eapply HK, Hs, Hg].
  destruct (HP f) as [[_ ?]|Hn]; [done|]. rewrite Hown in Hg by auto. eapply HK, Hs, Hg.
Qed.

Definition born (nodes : gmap node_id (Node B)) w (f : file_id) : Prop :=
  (∃ x, (x, f) ∈ w_born w) ∨
  ∃ x n s o e, nodes !! x = Some n ∧ catalog (n_proto n) = Some s ∧ GetEntry s o f = Ok (Some e).

Record PInv (nodes : gmap node_id (Node B)) w : Prop := {
  pi_nodes x n : w_nodes w !! x = Some n → node_ok (born nodes w) x n;
  pi_threads g k es t : g ∈ w_threads w → g_listed g = Some (k, es, t) → offer_ok (born nodes w) (catalog_offer es)
}.

Lemma born_mono nodes w w' f : w_born w ⊆ w_born w' → born nodes w f → born nodes w' f.
Proof. intros Hb [[x Hx]|Hx]; [left; exists x; set_solver|by right]. Qed.

(** What the goroutines of [w'] have listed was listed in [w], or is an offer of known
    files. *)
Definition threads_ok (K : file_id → Prop) w w' : Prop :=
  ∀ g k es t, g ∈ w_threads w' → g_listed g = Some (k, es, t) →
    (∃ g0, g0 ∈ w_threads w ∧ g_listed g0 = Some (k, es, t)) ∨ offer_ok K (catalog_offer es).

Lemma threads_ok_spawn K w w' l :
  w_threads w' = w_threads w ++ l → (∀ g, g ∈ l → g_listed g = None) → threads_ok K w w'.
Proof.
  intros Hw Hl g k es t. rewrite Hw, elem_of_app. intros [Hg|Hg] El; [left; by exists g|].
  rewrite (Hl g Hg) in El. done.
Qed.

Lemma threads_ok_set K w w' i g0 th :
  w_threads w !! i = Some g0 → w_threads w' = <[i := th]> (w_threads w) →
  (∀ k es t, g_listed th = Some (k, es, t) → g_listed g0 = Some (k, es, t) ∨ offer_ok K (catalog_offer es)) →
  threads_ok K w w'.
Proof.
  intros Hi Hw Hth g k es t Hg El. rewrite Hw in Hg. apply elem_of_set in Hg as [->|Hg]; [|left; by exists g].
  destruct (Hth k es t El) as [?|?]; [left; exists g0; split; [by eapply list_elem_of_lookup_2|done]|by right].
Qed.

(** One node changes, and goroutines come or go on. *)
Lemma PInv_put nodes w w' x n :
  PInv nodes w → w_nodes w' = <[x := n]> (w_nodes w) → w_born w ⊆ w_born w' →
  threads_ok (born nodes w) w w' → node_ok (born nodes w') x n → PInv nodes w'.
Proof.
  intros [HI HT] Hn Hb Hth Hok. split.
  - intros y m. rewrite Hn. intros [[<- <-]|[_ Hy]]%lookup_insert_Some; [done|].
    eapply node_ok_mono; [|by apply HI]. intros f. by apply born_mono.
  - intros g k es t Hg El m e Hm He. eapply born_mono; [exact Hb|].
    destruct (Hth g k es t Hg El) as [(g0 & Hg0 & El0)|Hok']; [by eapply HT|by eapply Hok'].
Qed.

Lemma can_begin_sent x c u n : can_begin ends x c u n = true → sent u = [] ∧ far ends x c ≠ x ∧ wires (n_proto n) !! c = None.
Proof.
  unfold can_begin. intros [[_ Hf%bool_decide_eq_true]%andb_true_iff Hs]%andb_true_iff.
  destruct (wires (n_proto n) !! c), (sent u); done.
Qed.

Lemma begin_PInv nodes w x c n n1 u :
  PInv nodes w → w_nodes w !! x = Some n → can_begin ends x c u n = true → n_proto n1 = n_proto (attach n c u) →
  PInv nodes (begin_serving ends w x c n1).
Proof.
  intros HI Hn (Hu & _)%can_begin_sent Hp. eapply PInv_put; [done|done|done| |].
  - eapply threads_ok_spawn; [reflexivity|]. intros g ->%list_elem_of_singleton. done.
  - destruct (node_ok_attach (born nodes w) x n c u (pi_nodes _ _ HI x n Hn) Hu) as [Hcat Hsent].
    rewrite <- Hp in Hcat, Hsent. by split.
Qed.

(** What the watcher does. *)
Lemma watcher_PInv {A} nodes w w' x (f : Watcher B → A * Watcher B) b :
  PInv nodes w → watcher_step w x f = Some w' → w_born w ⊆ b →
  (∀ n s, w_nodes w !! x = Some n → catalog (n_proto n) = Some s → reachable any_op x s → only_files (born nodes w) s →
     ∃ P silent, changed x P silent s n (snd (watched n f)) ∧ ∀ g, P g ∧ born nodes (with_born w b) g ∨ ¬ P g) →
  PInv nodes (with_born w' b).
Proof.
  intros HI (n & Hn & E)%bind_Some Hb Hf. pose proof (pi_nodes _ _ HI x n Hn) as Hok.
  destruct (no_catalog _ _ _ Hok) as (s & Hc & Hr & Hs). destruct (Hf n s Hn Hc Hr Hs) as (P & silent & Hch & HP).
  destruct (watched n f) as [k n'] eqn:Ew. cbn [snd] in Hch. injection E as <-.
  eapply (PInv_put nodes w _ x n'); [done|done|done| |].
  - eapply threads_ok_spawn; [reflexivity|]. by intros g [-> _]%elem_of_replicate.
  - eapply (node_ok_changed (born nodes w)); [done|done|exact Hch| |exact HP]. intros g. by apply born_mono.
Qed.

Lemma copy_PInv nodes w i w' : PInv nodes w → copy_step w i = Some w' → PInv nodes w'.
Proof.
  intros HI (g & Hg & (n & Hn & E)%bind_Some)%bind_Some. destruct (g_copy g); [|done]. injection E as <-.
  eapply PInv_put; [done|done|done| |].
  - eapply (threads_ok_set _ _ _ i g _ Hg); [reflexivity|]. auto.
  - apply (node_ok_proto _ _ n); [done|]. by apply HI.
Qed.

Lemma list_PInv nodes w i k w' : PInv nodes w → list_step ends w i k = Some w' → PInv nodes w'.
Proof.
  intros HI (g & Hg & (n & Hn & (s & Hs & E)%bind_Some)%bind_Some)%bind_Some. destruct (_ && _); [|done].
  pose proof (pi_nodes _ _ HI _ n Hn) as Hok. destruct (no_catalog _ _ _ Hok) as (s0 & Hc & Hr & Hf).
  rewrite Hs in Hc. injection Hc as <-. symmetry in Hn.
  destruct (ListForPeer s (far ends (g_node g) k)) as [es|er|] eqn:El; [| |done]; injection E as <-;
    (eapply (PInv_put nodes w _ (g_node g) n); [done|by rewrite insert_id|done| |by apply Hok]);
    (eapply (threads_ok_set _ _ _ i g _ Hg); [reflexivity|]); cbn; [|done].
  intros k' es' t [= <- <- <-]. right. by eapply listed_offer_ok.
Qed.

Lemma transmit_PInv nodes w i w' : PInv nodes w → transmit_step w i = Some w' → PInv nodes w'.
Proof.
  intros HI (g & Hg & (n & Hn & ([[k es] t] & El & E)%bind_Some)%bind_Some)%bind_Some.
  pose proof (pi_nodes _ _ HI _ n Hn) as Hok. destruct (no_catalog _ _ _ Hok) as (s & Hc & Hr & Hf).
  destruct (conn_Send (n_proto n) k (catalog_offer es)) as [res h] eqn:Es.
  pose proof (conn_Send_emitted (λ _ env, env = catalog_offer es) (n_proto n) k _ eq_refl) as He. rewrite Es in He. cbn [snd] in He.
  assert (PInv nodes (set_thread (put_node w (g_node g) (with_proto n h)) i
            (mk_goroutine (g_node g) (g_start g) (g_copy g) (g_left g) None))) as HI'.
  { eapply PInv_put; [done|done|done|by eapply (threads_ok_set _ _ _ i g _ Hg); [reflexivity|]|].
    eapply (node_ok_step _ _ n); [exact Hok| |exact Hr|exact Hf|exact He|].
    - destruct (conn_Send_frame (n_proto n) k (catalog_offer es)) as [Hk _]. rewrite Es in Hk. cbn in *. congruence.
    - intros c env ->. eapply (pi_threads _ _ HI g); [by eapply list_elem_of_lookup_2|exact El]. }
  injection E as <-. destruct res; [|exact HI'|exact HI']. destruct HI' as [? ?]. by split.
Qed.

Lemma deliver_PInv nodes w x c ctx clk fs n env :
  PInv nodes w → w_nodes w !! x = Some n → incoming ends w x c !! read_pos w x c = Some env →
  PInv nodes (read_one (put_node w x (message (far ends x) ctx clk fs n c env)) x c).
Proof.
  intros HI Hn Henv. pose proof (pi_nodes _ _ HI _ n Hn) as Hok. destruct (no_catalog _ _ _ Hok) as (s & Hc & Hr & Hs).
  eapply PInv_put; [done|done|done|intros g k es t Hg El; left; by exists g|].
  destruct (dispatch_effect (far ends x) fs (n_index n) ctx clk any_op x (n_proto n) s c env Hr Hc) as (s' & Hc' & Hr' & Hiso & Hnew);
    [done|].
  assert (offer_ok (born nodes w) env) as Hoffer.
  { unfold incoming in Henv. destruct (w_nodes w !! far ends x c) as [y|] eqn:Hy; [|done]. cbn in Henv.
    apply (no_sent _ _ _ (pi_nodes _ _ HI _ _ Hy) c env). by apply list_elem_of_lookup_2 in Henv. }
  eapply (node_ok_step (born nodes w) x n _ s'); [done|by rewrite message_proto|done| | |].
  - intros o f e Hg. destruct (decide (o = far ends x c)) as [->|Ho]; [|rewrite Hiso in Hg by done; by eapply Hs].
    destruct (Hnew f e Hg) as [?|(m & e0 & Hm & Hin & <-)]; [by eapply Hs|by eapply Hoffer].
  - rewrite message_proto. apply (answered_emitted c), serve_message_answered.
  - intros k env' Hq m e Hm. unfold is_query in Hq. cbn in Hq. by rewrite Hm in Hq.
Qed.

Lemma end_PInv nodes w x c n b :
  PInv nodes w → w_nodes w !! x = Some n → PInv nodes (with_serving (put_node w x (serve_finish (far ends x) n c)) b).
Proof.
  intros HI Hn. pose proof (pi_nodes _ _ HI _ n Hn) as Hok.
  eapply PInv_put; [done|done|done|intros g k es t Hg El; left; by exists g|]. destruct Hok as [Hc Hsent]. by split.
Qed.

Lemma step_PInv nodes w a w' : PInv nodes w → step ends w a = Some w' → PInv nodes w'.
Proof.
  intros HI (w1 & E & ->)%fmap_Some. enough (PInv nodes w1) as [? ?] by by split. revert E.
  destruct a as [x clk fs modtime path|x clk path|x c u now|x c u|i|i k|i|x c ctx clk fs|x c]; cbn [act].
  - intros (w2 & Ew & E)%bind_Some.
    assert (w1 = with_born w2 (match watcher_hashFile fs path with Ok h => {[(x, h)]} ∪ w_born w2 | _ => w_born w2 end)) as ->
      by (injection E as <-; destruct w2; by destruct (watcher_hashFile fs path)).
    assert (w_born w2 = w_born w) as Hb.
    { unfold watcher_step in Ew. apply bind_Some in Ew as (n & _ & Ew). destruct (watched n _). by injection Ew as <-. }
    rewrite Hb. eapply watcher_PInv; [exact HI|exact Ew|destruct (watcher_hashFile fs path); set_solver|].
    intros n s Hn Hc Hr _. pose proof (written_effect x clk fs modtime n s path Hc Hr) as Hw.
    destruct (watched n _) as [k n']. eexists _, _. split; [exact Hw|]. intros f. cbn beta.
    destruct (watcher_hashFile fs path) as [h| |]; [|by right|by right].
    destruct (decide (h = f)) as [->|Hne]; [left|right; congruence]. split; [done|]. left. exists x. set_solver.
  - intros Ew. assert (w_born w1 = w_born w) as Hb.
    { unfold watcher_step in Ew. apply bind_Some in Ew as (n & _ & Ew). destruct (watched n _). by injection Ew as <-. }
    replace w1 with (with_born w1 (w_born w)) by (rewrite <- Hb; by destruct w1).
    eapply watcher_PInv; [exact HI|exact Ew|done|]. intros n s Hn Hc Hr Hs.
    pose proof (removed_effect x clk n s path Hc Hr) as Hw. destruct (watched n _) as [k n']. eexists _, _. split; [exact Hw|].
    intros f. cbn beta. destruct (GetEntry s x f) as [[e|]| |] eqn:Eg; [left|right..]; [|by intros [? ?]..].
    split; [by eexists|]. by eapply Hs.
  - intros (n & Hn & E)%bind_Some. destruct (can_begin ends x c u n) eqn:Eb; [|done].
    destruct (accepted_conn (far ends x) now (attach n c u) c) as [n1|er|] eqn:Ea; [|done|done]. injection E as <-.
    apply accepted_proto in Ea. by eapply begin_PInv.
  - intros (n & Hn & E)%bind_Some. destruct (can_begin ends x c u n) eqn:Eb; [|done]. injection E as <-.
    by eapply begin_PInv.
  - by apply copy_PInv.
  - by apply list_PInv.
  - by apply transmit_PInv.
  - intros (n & Hn & (env & Henv & E)%bind_Some)%bind_Some. destruct (in_loop w x c); [|done]. injection E as <-.
    by apply deliver_PInv.
  - intros (n & Hn & E)%bind_Some. destruct (in_loop w x c); [|done]. injection E as <-. by apply end_PInv.
Qed.

Lemma run_PInv nodes acts : ∀ w w', PInv nodes w → run ends w acts = Some w' → PInv nodes w'.
Proof.
  induction acts as [|a acts IH]; intros w w' HI; cbn [run]; [by intros [= <-]|].
  intros (w1 & Ea & Er)%bind_Some. eauto using step_PInv.
Qed.

Lemma start_PInv nodes : (∀ x n, nodes !! x = Some n → fresh_node x n) → PInv nodes (start nodes).
Proof.
  intros Hf. split; [|by intros g k es t []%elem_of_nil]. intros x n Hn. destruct (Hf x n Hn) as (_ & Hw & s & Hc & Hr). split.
  - exists s. split_and!; [done|done|]. intros o f e He. right. exists x, n, s, o, e. done.
  - intros c env. unfold sent_on. rewrite Hw, lookup_empty. by intros ?%elem_of_nil.
Qed.

End Provenance.

(** * Properties *)

(** C11. Files come from folders: in any run of any number of nodes, with failing stores,
    folders and connections, every entry that any node has, of whatever owner, is for a
    file whose hash the watcher of some node has computed, or that was in a catalog at
    the start. *)
Theorem entries_come_from_folders {B : Type} `{BoltLaws B} `{JPeer : JsonCodec Peer} `{CatalogJson}
    `{JEv : JsonCodec Event} `{IpcCodecs} (ends : nat → node_id * node_id) (nodes : gmap node_id (Node B))
    (acts : list action) (w : World B) (x : node_id) (n : Node B) (s : Catalog.Store B) (o : node_id)
    (f : file_id) (e : Entry) :
  (∀ y m, nodes !! y = Some m → fresh_node y m) → run ends (start nodes) acts = Some w →
  w_nodes w !! x = Some n → catalog (n_proto n) = Some s → GetEntry s o f = Ok (Some e) →
  (∃ y, (y, f) ∈ w_born w) ∨
  ∃ y m s0 o0 e0, nodes !! y = Some m ∧ catalog (n_proto m) = Some s0 ∧ GetEntry s0 o0 f = Ok (Some e0).
Proof.
  intros Hf Hrun Hn Hc He. pose proof (run_PInv ends nodes acts _ _ (start_PInv nodes Hf) Hrun) as [Hnodes _].
  pose proof (Hnodes x n Hn) as Hok.
  destruct (no_catalog _ _ _ Hok) as (s' & Hc' & _ & Hs). rewrite Hc in Hc'. injection Hc' as <-. exact (Hs o f e He).
Qed.
