(* ===== verification/Converge.v ===== *)
(** What the nodes of a cluster come to know: in a run without failures, in which offers do
    not overtake each other, a node that has read everything a peer has sent lists the
    files of that peer; and how offers can overtake each other. *)

From S2P Require Import Prelude GoStd Wire Codec Bolt Catalog CatalogSpec CatalogProps Peerstore Sha256 Path Fs Transfer TransferProps Handler HandlerProps Exchange Watcher Folder Ipc Daemon Node Cluster.

(** * Convergence *)

Definition is_offer (env : Envelope) : bool :=
  match Payload env with Some (Envelope_CatalogOffer _) => true | _ => false end.

Definition last_offer (l : list Envelope) : option Envelope := last (List.filter is_offer l).

(** The files of an offer. *)
Definition offer_ids (env : Envelope) : list file_id :=
  match Payload env with
  | Some (Envelope_CatalogOffer m) => map Entry_FileID (accepted (CatalogOffer_Files m))
  | _ => []
  end.

Lemma last_offer_app l ms : List.filter is_offer ms = [] → last_offer (l ++ ms) = last_offer l.
Proof. intros E. unfold last_offer. by rewrite List.filter_app, E, app_nil_r. Qed.

Lemma last_offer_snoc l env : is_offer env = true → last_offer (l ++ [env]) = Some env.
Proof. intros E. unfold last_offer. rewrite List.filter_app. simpl. by rewrite E, last_snoc. Qed.

Lemma offer_ids_offer es : offer_ids (catalog_offer es) = map Entry_FileID es.
Proof. unfold offer_ids. cbn. rewrite accepted_offer, map_map. done. Qed.

Lemma far_far ends x c : x = (ends c).1 ∨ x = (ends c).2 → far ends (far ends x c) c = x.
Proof. unfold far. intros Hx. repeat case_decide; destruct Hx; congruence. Qed.

Lemma serve_message_no_offer {C} `{CatalogExchanger C} PeerID fs idx ctx (h : Handler.Handler C) k env :
  is_offer env = false → catalog (serve_message PeerID fs idx ctx h k env) = catalog h.
Proof.
  unfold is_offer, serve_message, dispatch. destruct (Payload env) as [[]|]; try done. intros _.
  unfold handleFileRequest, conn_Send. case_match; by rewrite on_wire_catalog.
Qed.

Lemma replies_no_offers ms : replies ms → List.filter is_offer ms = [].
Proof.
  induction 1 as [|env ms Hq _ IH]; [done|]. simpl. rewrite IH. unfold is_query, is_offer in *.
  by destruct (Payload env) as [[]|].
Qed.

Section Convergence.
Context {B : Type} `{BoltLaws B} `{JPeer : JsonCodec Peer} `{CatalogJson} `{JEv : JsonCodec Event} `{IpcCodecs}.
Context (ends : nat → node_id * node_id).

(** The catalogs that a node has had. *)
Context (K : node_id → Catalog.Store B → Prop).
Implicit Types (n : Node B) (s : Catalog.Store B) (w : World B).

Definition live_in s (o : node_id) (f : file_id) : Prop :=
  ∃ e, GetEntry s o f = Ok (Some e) ∧ Entry_Deleted e = false.

(** An offer that the node [x] has made to [y]: what a catalog of [x] listed. *)
Definition snapshot (x y : node_id) (env : Envelope) s : Prop :=
  (reachable any_op x s ∧ K x s) ∧ ∃ es, ListForPeer s y = Ok es ∧ env = catalog_offer es.

Definition same_own (x : node_id) s s' : Prop := ∀ f, GetEntry s x f = GetEntry s' x f.

(** What holds of the node [x] and its connections in a run without failures. *)
Record node_inv w (x : node_id) n : Prop := {
  ni_cat : ∃ s, catalog (n_proto n) = Some s ∧ reachable any_op x s ∧ K x s;
  ni_offers c env : env ∈ sent_on c (n_proto n) → is_offer env = true → ∃ s, snapshot x (far ends x c) env s;
  ni_conns y c : conns (n_proto n) !! y = Some c → (x, c) ∈ w_serving w ∧ far ends x c = y;
  ni_end c : (x, c) ∈ w_serving w → (x = (ends c).1 ∨ x = (ends c).2) ∧ far ends x c ≠ x;
  ni_uniq c c' : (x, c) ∈ w_serving w → (x, c') ∈ w_serving w → far ends x c = far ends x c' → c = c';
  ni_reg c : (x, c) ∈ w_serving w →
    conns (n_proto n) !! far ends x c = Some c ∧ ∃ u, wires (n_proto n) !! c = Some u ∧ sends u;
  ni_read c s : catalog (n_proto n) = Some s → (x, c) ∈ w_serving w →
    (read_pos w x c ≤ length (incoming ends w x c))%nat ∧
    ∀ env, last_offer (take (read_pos w x c) (incoming ends w x c)) = Some env →
      ∀ f, live_in s (far ends x c) f ↔ f ∈ offer_ids env;
  ni_unread c : wires (n_proto n) !! c = None → w_read w !! (x, c) = None
}.

(** A goroutine of [x] has yet to send, on [c], what it has listed at [t0] or later. *)
Definition pending w (x : node_id) (t0 c : nat) : Prop :=
  ∃ g, g ∈ w_threads w ∧ g_node g = x ∧
    (g_copy g = true ∨ c ∈ g_left g ∨ ∃ es t, g_listed g = Some (c, es, t) ∧ (t0 ≤ t)%nat).

(** The last change of this node's own files was at [t0]: what was listed since has them as
    they are in its catalog [s], and on every connection such an offer was sent last or is
    yet to be sent. *)
Record told w (x : node_id) n s (t0 : nat) : Prop := {
  to_listed g k es t : g ∈ w_threads w → g_node g = x → g_listed g = Some (k, es, t) →
    (t < w_time w)%nat ∧ ∃ s0, snapshot x (far ends x k) (catalog_offer es) s0 ∧ ((t0 ≤ t)%nat → same_own x s0 s);
  to_offered c t : w_offered w !! (x, c) = Some t →
    (t < w_time w)%nat ∧ ∃ env s0, last_offer (sent_on c (n_proto n)) = Some env ∧
      snapshot x (far ends x c) env s0 ∧ ((t0 ≤ t)%nat → same_own x s0 s);
  to_each c : (x, c) ∈ w_serving w →
    pending w x t0 c ∨ ∃ t, w_offered w !! (x, c) = Some t ∧ (t0 ≤ t)%nat
}.

Definition told_since w x n : Prop :=
  ∃ t0, (t0 ≤ w_time w)%nat ∧ ∀ s, catalog (n_proto n) = Some s → told w x n s t0.

Definition CInv w : Prop :=
  (∀ x c, (x, c) ∈ w_serving w → is_Some (w_nodes w !! x)) ∧
  ∀ x n, w_nodes w !! x = Some n → node_inv w x n ∧ told_since w x n.

(** Nothing about the node [y] has changed. *)
Record untouched w w' (y : node_id) : Prop := {
  un_serving c : (y, c) ∈ w_serving w' ↔ (y, c) ∈ w_serving w;
  un_read c : w_read w' !! (y, c) = w_read w !! (y, c);
  un_offered c : w_offered w' !! (y, c) = w_offered w !! (y, c);
  un_threads g : g_node g = y → g ∈ w_threads w' ↔ g ∈ w_threads w
}.

Lemma pending_mono w w' x t0 c :
  (∀ g, g_node g = x → g ∈ w_threads w → g ∈ w_threads w') → pending w x t0 c → pending w' x t0 c.
Proof. intros Hth (g & Hg & Hx & Hp). exists g. auto. Qed.

(** A node that has changed does not disturb the others. *)
Lemma CInv_put w w' x n n' :
  CInv w → w_nodes w !! x = Some n → w_nodes w' = <[x := n']> (w_nodes w) → (w_time w ≤ w_time w')%nat →
  (∀ y, y ≠ x → untouched w w' y) →
  (∀ c, sent_on c (n_proto n) `prefix_of` sent_on c (n_proto n')) →
  node_inv w' x n' → told_since w' x n' → CInv w'.
Proof.
  intros [HS HI] Hn Hn' Htime Hun Hpre Hx Htold. split.
  { intros y c Hy. rewrite Hn'. destruct (decide (y = x)) as [->|Hne]; [by rewrite lookup_insert_eq|].
    rewrite lookup_insert_ne by done. apply (HS y c). by apply (un_serving _ _ _ (Hun y Hne)). }
  intros y m. rewrite Hn'. intros [[<- <-]|[Hne Hy]]%lookup_insert_Some; [done|].
  destruct (HI y m Hy) as [[H1' H2' H3' H4' H5' H6' H7' H8'] (t0 & Ht0 & Hto)].
  destruct (Hun y (not_eq_sym Hne)) as [Hsy Hrd Hof Hth].
  assert (∀ c, read_pos w' y c = read_pos w y c) as Hry by (intros c; unfold read_pos; by rewrite Hrd).
  assert (∀ c, incoming ends w y c `prefix_of` incoming ends w' y c) as Hin.
  { intros c. unfold incoming. rewrite Hn'. destruct (decide (far ends y c = x)) as [->|Hf].
    - rewrite Hn, lookup_insert_eq. apply Hpre.
    - by rewrite lookup_insert_ne by done. }
  split.
  - split; try done.
    + intros z c Hz. rewrite Hsy. by apply H3'.
    + intros c. rewrite Hsy. by apply H4'.
    + intros c c'. rewrite !Hsy. by apply H5'.
    + intros c Hs%Hsy. by apply H6'.
    + intros c s Hc Hs%Hsy. rewrite Hry. destruct (H7' c s Hc Hs) as [Hle Hlive]. destruct (Hin c) as [ms ->].
      split; [rewrite length_app; lia|]. by rewrite take_app_le by done.
    + intros c Hw. rewrite Hrd. by apply H8'.
  - exists t0. split; [lia|]. intros s Hs. destruct (Hto s Hs) as [Hl Ho He]. split.
    + intros g k es t Hg Hgy Hgl. apply (Hth g Hgy) in Hg. destruct (Hl g k es t Hg Hgy Hgl). split; [lia|done].
    + intros c t. rewrite Hof. intros Ht. destruct (Ho c t Ht). split; [lia|done].
    + intros c Hc%Hsy. rewrite Hof. destruct (He c Hc) as [Hp|?]; [left|by right].
      eapply pending_mono; [|exact Hp]. intros g Hg. by apply Hth.
Qed.

Lemma emitted_prefix {C} Q (h h' : Handler.Handler C) c : emitted Q h h' → sent_on c h `prefix_of` sent_on c h'.
Proof.
  intros He. specialize (He c). unfold sent_on. destruct (wires h !! c), (wires h' !! c); try done; simpl.
  destruct He as (ms & -> & _). by apply prefix_app_r.
Qed.

Lemma incoming_far w w' x c n' :
  w_nodes w' = <[x := n']> (w_nodes w) → far ends x c ≠ x → incoming ends w' x c = incoming ends w x c.
Proof. intros Hn Hf. unfold incoming. rewrite Hn. by rewrite lookup_insert_ne by done. Qed.

Lemma snapshot_offer x y env s : snapshot x y env s → is_offer env = true.
Proof. by intros (_ & es & _ & ->). Qed.

Lemma live_in_eq s s' o f : GetEntry s' o f = GetEntry s o f → live_in s' o f ↔ live_in s o f.
Proof. intros E. unfold live_in. by rewrite E. Qed.

Lemma emitted_wire {C} Q (h h' : Handler.Handler C) c u :
  emitted Q h h' → wires h !! c = Some u →
  ∃ u' ms, wires h' !! c = Some u' ∧ sent u' = sent u ++ ms ∧ Forall (Q c) ms ∧ send_fault u' = send_fault u.
Proof.
  intros He Hu. specialize (He c). rewrite Hu in He. destruct (wires h' !! c) as [u'|]; [|done].
  destruct He as (ms & ? & ? & ?). by exists u', ms.
Qed.

Lemma emitted_none {C} Q (h h' : Handler.Handler C) c : emitted Q h h' → wires h' !! c = None → wires h !! c = None.
Proof. intros He Hu. specialize (He c). rewrite Hu in He. by destruct (wires h !! c). Qed.

(** What the node [x] does by itself: its own files may change, and offers of catalogs it
    has had may be sent. *)
Lemma local_inv w w' x n n' s s' (P : file_id → Prop) :
  node_inv w x n → w_nodes w' = <[x := n']> (w_nodes w) → w_serving w' = w_serving w → w_read w' = w_read w →
  catalog (n_proto n) = Some s → catalog (n_proto n') = Some s' → reachable any_op x s' → K x s' →
  own_change x P s s' → conns (n_proto n') = conns (n_proto n) →
  emitted (λ k env, ∃ s0, snapshot x (far ends x k) env s0) (n_proto n) (n_proto n') →
  node_inv w' x n'.
Proof.
  intros [_ Hof Hco Hen Hun Hse Hre Hur] Hn Hsv Hrd Hc Hc' Hr' HK Hown Hcn He.
  split; rewrite ?Hcn, ?Hsv, ?Hrd; try done.
  - by exists s'.
  - intros c env Hin Ho. destruct (emitted_sent _ _ _ _ _ He Hin) as [?|Hq]; [by apply Hof|done].
  - intros c Hs. destruct (Hse c Hs) as (Hreg & u & Hu & Hsend). split; [done|].
    destruct (emitted_wire _ _ _ _ _ He Hu) as (u' & ms & Hu' & _ & _ & Hfault).
    exists u'. split; [done|]. intros i. rewrite Hfault. apply Hsend.
  - intros c t Ht Hs. rewrite Hc' in Ht. injection Ht as <-. destruct (Hen c Hs) as [_ Hf].
    rewrite (incoming_far w w' x c n' Hn Hf). destruct (Hre c s Hc Hs) as [Hle Hlive].
    unfold read_pos in *. rewrite Hrd. split; [done|]. intros env Henv f.
    rewrite <- (Hlive env Henv f). apply live_in_eq, Hown. by left.
  - intros c Hw. apply Hur. by eapply emitted_none.
Qed.

(** ** The goroutines *)

Lemma set_old {A} (l : list A) i y0 y z : l !! i = Some y0 → z ∈ l → z ∈ <[i := y]> l ∨ z = y0.
Proof.
  intros Hi [j Hj]%list_elem_of_lookup. destruct (decide (j = i)) as [->|Hne]; [right; congruence|left].
  eapply list_elem_of_lookup_2. rewrite list_lookup_insert_ne; [exact Hj|done].
Qed.

Lemma set_new {A} (l : list A) i y0 y : l !! i = Some y0 → y ∈ <[i := y]> l.
Proof.
  intros Hi%lookup_lt_Some. eapply list_elem_of_lookup_2. apply list_lookup_insert_eq. exact Hi.
Qed.

Lemma set_threads (l : list goroutine) i g0 th g :
  l !! i = Some g0 → g_node g ≠ g_node g0 → g_node th = g_node g0 → g ∈ <[i := th]> l ↔ g ∈ l.
Proof.
  intros Hi Hne Hth. split.
  - intros [->|?]%elem_of_set; [congruence|done].
  - intros Hg. destruct (set_old l i g0 th g Hi Hg) as [?| ->]; done.
Qed.

Lemma spawn_threads (l l' : list goroutine) g x :
  (∀ h, h ∈ l' → g_node h = x) → g_node g ≠ x → g ∈ l ++ l' ↔ g ∈ l.
Proof. intros Hx Hne. rewrite elem_of_app. split; [intros [?|Hg]; [done|by destruct Hne; apply Hx]|by left]. Qed.

(** ** The steps *)

(** A change of the catalog: either there is none, or it is the last one and a goroutine
    will tell everybody. *)
Lemma watched_told w x n n' s s' l :
  told_since w x n → catalog (n_proto n) = Some s → catalog (n_proto n') = Some s' →
  wires (n_proto n') = wires (n_proto n) → (∀ g, g ∈ l → g_listed g = None) →
  same_own x s s' ∨ announcer x ∈ l →
  told_since (tick (spawn (put_node w x n') l)) x n'.
Proof.
  intros (t0 & Ht0 & Hto) Hc Hc' Hw Hl Hcase. destruct (Hto s Hc) as [Hli Hof Hea].
  assert (∀ c, sent_on c (n_proto n') = sent_on c (n_proto n)) as Hsent by (intros c; unfold sent_on; by rewrite Hw).
  destruct Hcase as [Hsame|Hin].
  - exists t0. split; [cbn; lia|]. intros s1 Hs1. rewrite Hc' in Hs1. injection Hs1 as <-. split.
    + intros g k es t [Hg|Hg]%elem_of_app Hx Hgl; [|by rewrite (Hl g Hg) in Hgl].
      destruct (Hli g k es t Hg Hx Hgl) as [Hlt (s0 & Hsn & Hs0)]. split; [cbn; lia|]. exists s0. split; [done|].
      intros Hle f. rewrite (Hs0 Hle f). apply Hsame.
    + intros c t Ht. destruct (Hof c t Ht) as [Hlt (env & s0 & Hla & Hsn & Hs0)]. split; [cbn; lia|]. exists env, s0.
      rewrite Hsent. split_and!; [done|done|]. intros Hle f. rewrite (Hs0 Hle f). apply Hsame.
    + intros c Hcs. destruct (Hea c Hcs) as [Hp|?]; [left|by right]. eapply pending_mono; [|exact Hp].
      intros g _ Hg. apply elem_of_app. by left.
  - exists (w_time w). split; [cbn; lia|]. intros s1 Hs1. rewrite Hc' in Hs1. injection Hs1 as <-. split.
    + intros g k es t [Hg|Hg]%elem_of_app Hx Hgl; [|by rewrite (Hl g Hg) in Hgl].
      destruct (Hli g k es t Hg Hx Hgl) as [Hlt (s0 & Hsn & _)]. split; [cbn; lia|]. exists s0. split; [done|lia].
    + intros c t Ht. destruct (Hof c t Ht) as [Hlt (env & s0 & Hla & Hsn & _)]. split; [cbn; lia|]. exists env, s0.
      rewrite Hsent. split_and!; [done|done|lia].
    + intros c _. left. exists (announcer x). split_and!; [apply elem_of_app; by right|done|by left].
Qed.

Lemma watched_inv w x n n' s P silent k :
  CInv w → w_nodes w !! x = Some n → catalog (n_proto n) = Some s → changed x P silent s n n' →
  (k = 0%nat → silent) → (∀ s', catalog (n_proto n') = Some s' → K x s') →
  CInv (tick (spawn (put_node w x n') (replicate k (announcer x)))).
Proof.
  intros HC Hn Hc (s' & Hp & Hr' & Hown & Hsil) Hk HK. pose proof HC as [_ HI]. destruct (HI x n Hn) as [Hi Hto].
  assert (catalog (n_proto n') = Some s') as Hc' by (by rewrite Hp).
  eapply (CInv_put w _ x n); [done|done|reflexivity|cbn; lia| |intros c; by rewrite Hp| |].
  - intros y Hy. split; [done..|]. intros g <-. apply (spawn_threads _ _ _ x); [by intros h [-> _]%elem_of_replicate|done].
  - eapply (local_inv w _ x n n' s s' P); [done|reflexivity|done|done|done|done|done|by apply HK|done|by rewrite Hp|].
    apply emitted_wires. by rewrite Hp.
  - eapply watched_told; [exact Hto|done|done|by rewrite Hp|by intros g [-> _]%elem_of_replicate|].
    destruct k as [|k]; [left; intros f; symmetry; by apply Hsil, Hk|right; by left].
Qed.

(** The serving of a connection begins: its goroutine will send the first offer. *)
Lemma begin_node_inv w w' x n n' s c u :
  node_inv w x n → catalog (n_proto n) = Some s →
  n_proto n' = registerConn (n_proto (attach n c u)) (far ends x c) c →
  w_nodes w' = <[x := n']> (w_nodes w) → w_read w' = w_read w → w_serving w' = {[(x, c)]} ∪ w_serving w →
  (x = (ends c).1 ∨ x = (ends c).2) → far ends x c ≠ x → wires (n_proto n) !! c = None → sent u = [] → sends u →
  (∀ c', (x, c') ∈ w_serving w → far ends x c' ≠ far ends x c) →
  node_inv w' x n'.
Proof.
  intros [Hcat Hof Hco Hen Hun Hse Hre Hur] Hc Hp Hn Hrd Hsv' Hend Hf Hwn Hu0 Hsu Hone.
  assert (∀ k, (x, k) ∈ w_serving w' ↔ k = c ∨ (x, k) ∈ w_serving w) as Hsv.
  { intros k. rewrite Hsv', elem_of_union, elem_of_singleton. split; [intros [[= ->]|?]; auto|intros [->|?]; auto]. }
  assert (∀ k, (x, k) ∈ w_serving w → k ≠ c) as Hold by (intros k Hk ->; by apply (Hone c)).
  assert (wires (n_proto n') = <[c := u]> (wires (n_proto n))) as Hw by (by rewrite Hp).
  assert (conns (n_proto n') = <[far ends x c := c]> (conns (n_proto n))) as Hcn by (by rewrite Hp).
  assert (catalog (n_proto n') = catalog (n_proto n)) as Hc' by (by rewrite Hp).
  split.
  - by rewrite Hc'.
  - intros k env Hin Ho. unfold sent_on in Hin. rewrite Hw in Hin. destruct (decide (k = c)) as [->|Hk].
    + rewrite lookup_insert_eq in Hin. cbn in Hin. rewrite Hu0 in Hin. by apply elem_of_nil in Hin.
    + rewrite lookup_insert_ne in Hin by done. by apply Hof.
  - intros y k. rewrite Hcn, Hsv. intros [[<- <-]|[_ Hk]]%lookup_insert_Some; [by auto|]. destruct (Hco y k Hk). auto.
  - intros k [->|Hk]%Hsv; [done|by apply Hen].
  - intros k k' [->|Hk]%Hsv [->|Hk']%Hsv Hfar; [done|by destruct (Hone k' Hk')|by destruct (Hone k Hk)|by apply Hun].
  - intros k [->|Hk]%Hsv; rewrite Hcn, Hw.
    + split; [apply lookup_insert_eq|]. exists u. split; [apply lookup_insert_eq|done].
    + rewrite lookup_insert_ne by (apply not_eq_sym, Hone, Hk). rewrite lookup_insert_ne by (apply not_eq_sym, Hold, Hk).
      by apply Hse.
  - intros k t Ht [->|Hk]%Hsv; rewrite Hc' in Ht.
    + unfold read_pos. rewrite Hrd, Hur by done. cbn [default]. split; [lia|]. by rewrite take_0.
    + destruct (Hen k Hk) as [_ Hfk]. rewrite (incoming_far w w' x k n' Hn Hfk). unfold read_pos. rewrite Hrd.
      by apply (Hre k t).
  - intros k Hk. rewrite Hrd. apply Hur. rewrite Hw in Hk. by apply lookup_insert_None in Hk as [? _].
Qed.

Lemma begin_told w x n n1 s c u :
  told_since w x n → catalog (n_proto n) = Some s → n_proto n1 = n_proto (attach n c u) →
  wires (n_proto n) !! c = None →
  told_since (tick (begin_serving ends w x c n1)) x (with_proto n1 (registerConn (n_proto n1) (far ends x c) c)).
Proof.
  intros (t0 & Ht0 & Hto) Hc Hp Hwn. exists t0. split; [cbn; lia|]. intros s1 Hs1.
  cbn in Hs1. rewrite Hp in Hs1. cbn in Hs1. rewrite Hc in Hs1. injection Hs1 as <-. destruct (Hto s Hc) as [Hli Hof Hea]. split.
  - intros g k es t [Hg|Hg]%elem_of_app Hx Hgl; [|apply list_elem_of_singleton in Hg as ->; done].
    destruct (Hli g k es t Hg Hx Hgl). split; [cbn; lia|done].
  - intros k t Ht. destruct (Hof k t Ht) as [Hlt (env & s0 & Hla & Hrest)]. split; [cbn; lia|]. exists env, s0.
    split; [|done]. rewrite <- Hla. f_equal. unfold sent_on. cbn. rewrite Hp. cbn.
    rewrite lookup_insert_ne; [done|]. intros <-. unfold sent_on in Hla. by rewrite Hwn in Hla.
  - intros k Hk. cbn in Hk. rewrite elem_of_union, elem_of_singleton in Hk. destruct Hk as [[= ->]|Hk].
    + left. eexists. split_and!; [apply elem_of_app; right; by apply list_elem_of_singleton|done|].
      right. left. cbn. rewrite Hp. cbn. rewrite Hc. set_solver.
    + destruct (Hea k Hk) as [Hp'|?]; [left|by right]. eapply pending_mono; [|exact Hp'].
      intros g _ Hg. apply elem_of_app. by left.
Qed.

Lemma begin_inv w x n n1 s c u :
  CInv w → w_nodes w !! x = Some n → catalog (n_proto n) = Some s → can_begin ends x c u n = true →
  n_proto n1 = n_proto (attach n c u) → sends u →
  (∀ c', (x, c') ∈ w_serving w → far ends x c' ≠ far ends x c) →
  CInv (tick (begin_serving ends w x c n1)).
Proof.
  intros HC Hn Hc Hb Hp Hs Hone. pose proof (can_begin_sent _ _ _ _ _ Hb) as (Hu & Hf & Hw).
  pose proof HC as [_ HI]. destruct (HI x n Hn) as [Hi Hto].
  assert (x = (ends c).1 ∨ x = (ends c).2) as Hend.
  { unfold can_begin in Hb. apply andb_true_iff in Hb as [[Hb _]%andb_true_iff _]. by apply bool_decide_eq_true in Hb. }
  eapply (CInv_put w _ x n); [done|done|reflexivity|cbn; lia| | | |by eapply begin_told].
  - intros y Hy. split; [|done|done|].
    + intros k. cbn. rewrite elem_of_union, elem_of_singleton. naive_solver.
    + intros g <-. apply (spawn_threads _ _ _ x); [by intros h ->%list_elem_of_singleton|done].
  - intros k. cbn. rewrite Hp. unfold sent_on. cbn.
    destruct (decide (c = k)) as [<-|Hne]; [rewrite Hw; apply prefix_nil|by rewrite lookup_insert_ne].
  - eapply (begin_node_inv w _ x n _ s c u); try done. cbn. by rewrite Hp.
Qed.

(** [BroadcastCatalog] copies the table: every connection that is served is in it. *)
Lemma copy_told w x n n' s i g :
  told_since w x n → node_inv w x n → catalog (n_proto n) = Some s → n_proto n' = n_proto n →
  w_threads w !! i = Some g → g_node g = x →
  told_since (tick (set_thread (put_node w x n') i
    (mk_goroutine x (g_start g) false (list_to_set (map snd (map_to_list (conns (n_proto n))))) (g_listed g)))) x n'.
Proof.
  intros (t0 & Ht0 & Hto) Hi Hc Hp Hg Hgx. exists t0. split; [cbn; lia|]. intros s1 Hs1.
  rewrite Hp in Hs1. destruct (Hto s1 Hs1) as [Hli Hof Hea]. pose proof (list_elem_of_lookup_2 _ _ _ Hg) as Hgin. split.
  - intros h k es t [->|Hh]%elem_of_set Hx Hgl; [destruct (Hli g k es t Hgin Hgx Hgl)|destruct (Hli h k es t Hh Hx Hgl)];
      (split; [cbn; lia|done]).
  - intros k t Ht. destruct (Hof k t Ht). rewrite Hp. split; [cbn; lia|done].
  - intros k Hk. destruct (Hea k Hk) as [(h & Hh & Hx & Hpe)|?]; [left|by right].
    destruct (ni_reg _ _ _ Hi k Hk) as [Hreg _]. destruct (set_old _ i g
      (mk_goroutine x (g_start g) false (list_to_set (map snd (map_to_list (conns (n_proto n))))) (g_listed g)) h Hg Hh) as [Hin| ->].
    + exists h. done.
    + eexists. split_and!; [by eapply set_new|done|]. right. left. cbn. apply elem_of_list_to_set, list_elem_of_fmap.
      exists (far ends x k, k). split; [done|]. by apply elem_of_map_to_list.
Qed.

Lemma copy_inv w i w' : CInv w → copy_step w i = Some w' → CInv (tick w').
Proof.
  intros HC (g & Hg & (n & Hn & E)%bind_Some)%bind_Some. destruct (g_copy g) eqn:Hcp; [|done].
  pose proof HC as [_ HI]. destruct (HI _ n Hn) as [Hi Hto]. destruct (ni_cat _ _ _ Hi) as (s & Hc & Hr & HK).
  rewrite Hc in E. injection E as <-.
  eapply (CInv_put w _ (g_node g) n); [done|done|reflexivity|cbn; lia| |done| |].
  - intros y Hy. split; [done..|]. intros h <-. by eapply set_threads.
  - eapply (local_inv w _ (g_node g) n _ s s (λ _, False)); done.
  - by eapply copy_told.
Qed.

(** A goroutine lists the catalog as it is. *)
Lemma list_told w x n s i g k es :
  told_since w x n → catalog (n_proto n) = Some s → reachable any_op x s → K x s →
  w_threads w !! i = Some g → g_node g = x → g_copy g = false → g_listed g = None →
  ListForPeer s (far ends x k) = Ok es →
  told_since (tick (set_thread w i (mk_goroutine x (g_start g) false (g_left g ∖ {[k]}) (Some (k, es, w_time w))))) x n.
Proof.
  intros (t0 & Ht0 & Hto) Hc Hr HK Hg Hgx Hcp Hgn Hes. exists t0. split; [cbn; lia|]. intros s1 Hs1.
  rewrite Hc in Hs1. injection Hs1 as <-. destruct (Hto s Hc) as [Hli Hof Hea]. split.
  - intros h k' es' t [->|Hh]%elem_of_set Hx Hgl.
    + injection Hgl as <- <- <-. split; [cbn; lia|]. exists s. split; [|done]. split; [done|by exists es].
    + destruct (Hli h k' es' t Hh Hx Hgl). split; [cbn; lia|done].
  - intros c t Ht. destruct (Hof c t Ht). split; [cbn; lia|done].
  - intros c Hcs. destruct (Hea c Hcs) as [(h & Hh & Hx & Hpe)|?]; [left|by right].
    destruct (set_old _ i g (mk_goroutine x (g_start g) false (g_left g ∖ {[k]}) (Some (k, es, w_time w))) h Hg Hh) as [Hin| ->].
    + exists h. done.
    + eexists. split_and!; [by eapply set_new|done|]. cbn.
      destruct Hpe as [?|[Hpe|(es' & t & ? & _)]]; [congruence| |congruence].
      destruct (decide (c = k)) as [->|Hne]; [|set_solver]. right. right. by exists es, (w_time w).
Qed.

Lemma list_inv w i k w' : CInv w → list_step ends w i k = Some w' → CInv (tick w').
Proof.
  intros HC (g & Hg & (n & Hn & (s & Hs & E)%bind_Some)%bind_Some)%bind_Some. destruct (_ && _) eqn:Eb; [|done].
  apply andb_true_iff in Eb as [[Hcp%negb_true_iff _]%andb_true_iff Hgn%bool_decide_eq_true].
  pose proof HC as [_ HI]. destruct (HI _ n Hn) as [Hi Hto]. destruct (ni_cat _ _ _ Hi) as (s0 & Hc & Hr & HK).
  rewrite Hs in Hc. injection Hc as <-. destruct (ListForPeer_elems any_op _ s (far ends (g_node g) k) Hr) as (es & Hes & _).
  rewrite Hes in E. injection E as <-.
  eapply (CInv_put w _ (g_node g) n n); [done|done|by symmetry; apply insert_id|cbn; lia| |done| |].
  - intros y Hy. split; [done..|]. intros h <-. by eapply set_threads.
  - eapply (local_inv w _ (g_node g) n _ s s (λ _, False)); try done. by symmetry; apply insert_id.
  - by eapply list_told.
Qed.

Lemma conn_Send_cases {C} (h : Handler.Handler C) k env :
  (∃ u, wires h !! k = Some u ∧ conn_Send h k env = (Ok tt, with_wire h k (deliver u [env]))) ∨
  (∃ e, fst (conn_Send h k env) = Err e) ∧ wires (snd (conn_Send h k env)) = wires h ∧
  ∀ u, wires h !! k = Some u → ¬ sends u.
Proof.
  unfold conn_Send, on_wire, Send. destruct (wires h !! k) as [u|] eqn:Hu; [|right; split_and!; [by eexists|done..]].
  destruct (send_fault u (length (sent u))) as [e|] eqn:He; [right|left; by exists u].
  split_and!; [by eexists|by apply insert_id|]. intros u' [= <-] Hs. by rewrite Hs in He.
Qed.

Lemma sent_on_deliver {C} (h : Handler.Handler C) k u env c :
  wires h !! k = Some u →
  sent_on c (with_wire h k (deliver u [env])) = if decide (c = k) then sent_on c h ++ [env] else sent_on c h.
Proof.
  intros Hu. unfold sent_on. cbn. case_decide as Hck.
  - subst c. rewrite lookup_insert_eq, Hu. done.
  - by rewrite lookup_insert_ne by done.
Qed.

(** What was listed is sent; nothing listed later was sent before. *)
Lemma transmit_told w w' x n n' i g k es t :
  told_since w x n → node_inv w x n → w_threads w !! i = Some g → g_node g = x → g_listed g = Some (k, es, t) →
  (∀ t', w_offered w !! (x, k) = Some t' → (t' ≤ t)%nat) →
  w_time w' = S (w_time w) → w_serving w' = w_serving w →
  w_threads w' = <[i := mk_goroutine x (g_start g) (g_copy g) (g_left g) None]> (w_threads w) →
  n_proto n' = snd (conn_Send (n_proto n) k (catalog_offer es)) →
  w_offered w' = match fst (conn_Send (n_proto n) k (catalog_offer es)) with
                 | Ok _ => <[(x, k) := t]> (w_offered w)
                 | _ => w_offered w
                 end →
  told_since w' x n'.
Proof.
  intros (t0 & Ht0 & Hto) Hi Hg Hgx Hgl Hord Htime Hsv Hth Hp Hof'.
  pose proof (proj1 (conn_Send_frame (n_proto n) k (catalog_offer es))) as Hcat. rewrite <- Hp in Hcat.
  exists t0. split; [lia|]. intros s Hs. rewrite Hcat in Hs. destruct (Hto s Hs) as [Hli Hof Hea].
  pose proof (list_elem_of_lookup_2 _ _ _ Hg) as Hgin.
  assert (∀ h k' es' t', h ∈ w_threads w' → g_node h = x → g_listed h = Some (k', es', t') →
    (t' < w_time w')%nat ∧ ∃ s0, snapshot x (far ends x k') (catalog_offer es') s0 ∧ ((t0 ≤ t')%nat → same_own x s0 s)) as Hli'.
  { intros h k' es' t'. rewrite Hth. intros [->|Hh]%elem_of_set Hx Hl; [done|].
    destruct (Hli h k' es' t' Hh Hx Hl). split; [lia|done]. }
  assert (∀ c, pending w x t0 c → c ≠ k ∨ (t < t0)%nat → pending w' x t0 c) as Hpe.
  { intros c (h & Hh & Hx & Hpe) Hck. unfold pending. rewrite Hth. destruct (set_old _ i g
      (mk_goroutine x (g_start g) (g_copy g) (g_left g) None) h Hg Hh) as [Hin| ->]; [by exists h|].
    eexists. split_and!; [by eapply set_new|done|]. cbn. destruct Hpe as [?|[?|(es' & t' & Hl & Hle)]]; [auto|auto|].
    rewrite Hgl in Hl. injection Hl as -> _ ->. destruct Hck; [done|lia]. }
  destruct (conn_Send_cases (n_proto n) k (catalog_offer es)) as [(u & Hu & Es)|([e Ee] & Hw & Hno)].
  - rewrite Es in Hp, Hof'. cbn [fst snd] in Hp, Hof'. split; [done|..].
    + intros c t'. rewrite Hof', Hp, (sent_on_deliver _ _ _ _ _ Hu).
      intros [[[= <-] <-]|[Hne Ht']]%lookup_insert_Some.
      * destruct (Hli g k es t Hgin Hgx Hgl) as [Hlt (s0 & Hsn & Hown)]. split; [lia|].
        exists (catalog_offer es), s0. rewrite decide_True by done. split_and!; [by apply last_offer_snoc|done|done].
      * rewrite decide_False by congruence. destruct (Hof c t' Ht'). split; [lia|done].
    + intros c. rewrite Hsv, Hof'. intros Hc. destruct (decide (c = k)) as [->|Hck].
      * rewrite lookup_insert_eq. destruct (decide (t0 ≤ t)%nat) as [?|Hlt]; [right; by exists t|left].
        destruct (Hea k Hc) as [?|(t' & Ht' & Hle)]; [apply Hpe; [done|right; lia]|]. specialize (Hord t' Ht'). lia.
      * rewrite lookup_insert_ne by congruence. destruct (Hea c Hc) as [?|?]; [left|by right]. apply Hpe; auto.
  - rewrite Ee in Hof'. rewrite <- Hp in Hw. split; [done|..].
    + intros c t'. rewrite Hof'. intros Ht'. unfold sent_on. rewrite Hw. destruct (Hof c t' Ht'). split; [lia|done].
    + intros c. rewrite Hsv, Hof'. intros Hc. destruct (Hea c Hc) as [?|?]; [left|by right]. apply Hpe; [done|left].
      intros ->. destruct (ni_reg _ _ _ Hi k Hc) as (_ & u & Hu & Hsu). by apply (Hno u).
Qed.

Lemma transmit_inv w i w' : CInv w → in_order w (Transmit i) → transmit_step w i = Some w' → CInv (tick w').
Proof.
  intros HC Hord (g & Hg & (n & Hn & ([[k es] t] & El & E)%bind_Some)%bind_Some)%bind_Some.
  pose proof HC as [_ HI]. destruct (HI _ n Hn) as [Hi Hto]. destruct (ni_cat _ _ _ Hi) as (s & Hc & Hr & HK).
  pose proof (conn_Send_emitted (λ k' env, k' = k ∧ env = catalog_offer es) (n_proto n) k _ (conj eq_refl eq_refl)) as He.
  destruct (conn_Send_frame (n_proto n) k (catalog_offer es)) as [Hcat Hcn].
  pose proof (transmit_told w (tick w') (g_node g) n (with_proto n (snd (conn_Send (n_proto n) k (catalog_offer es)))) i g k es t Hto Hi Hg
    eq_refl El (λ t', Hord g k es t t' Hg El)) as Htold.
  destruct Hto as (t0 & _ & Hto). destruct (Hto s Hc) as [Hli _ _].
  destruct (Hli g k es t (list_elem_of_lookup_2 _ _ _ Hg) eq_refl El) as [_ (s0 & Hsn & _)].
  destruct (conn_Send (n_proto n) k (catalog_offer es)) as [res h] eqn:Es. cbn [fst snd] in *.
  eapply (CInv_put w _ (g_node g) n (with_proto n h)); [done|done| | | | | |].
  - injection E as <-. by destruct res.
  - injection E as <-. destruct res; cbn; lia.
  - intros y Hy. injection E as <-. split.
    + by destruct res.
    + by destruct res.
    + intros c. destruct res; [|done|done]. cbn. by rewrite lookup_insert_ne by congruence.
    + intros h' <-. destruct res; by eapply set_threads.
  - intros c. by eapply emitted_prefix.
  - eapply (local_inv w _ (g_node g) n _ s s (λ _, False)); try done; try (injection E as <-; by destruct res).
    + cbn. congruence.
    + eapply emitted_mono; [|exact He]. intros k' env [-> ->]. by exists s0.
  - apply Htold; injection E as <-; by destruct res.
Qed.

(** An offer that was stored. *)
Lemma offer_stored clk fs idx ctx x y s s0 env k u (h : Handler.Handler (Catalog.Store B)) :
  reachable any_op x s → catalog h = Some s → far ends x k = y → wires h !! k = Some u → sends u →
  snapshot y x env s0 →
  (∀ es, env = catalog_offer es → fst (PutPeerEntries clk s y (map wire_entry es)) = Ok tt) →
  ∃ s', catalog (serve_message (H := store_exchanger clk) (far ends x) fs idx ctx h k env) = Some s' ∧
    ∀ f, live_in s' y f ↔ f ∈ offer_ids env.
Proof.
  intros Hr Hc Hy Hu Hs ((Hr0 & _) & es & Hes & ->) Hput.
  destruct (dispatch_offer_syncs (far ends x) fs idx ctx clk any_op any_op y x s0 s h k u es) as (s' & h' & Hd & Hc' & _ & _ & Hf);
    [done..|by apply Hput|].
  exists s'. unfold serve_message. rewrite Hd. split; [done|]. intros f. destruct (Hf f) as [Hiff _].
  unfold live_in. rewrite Hiff, offer_ids_offer.
  destruct (ListForPeer_elems any_op y s0 x Hr0) as (l & Hl & Hel). rewrite Hes in Hl. injection Hl as <-.
  rewrite list_elem_of_fmap. split.
  - intros (o & e & Ho & He & Hd'). exists e. pose proof Hr0 as (_ & a & HA & HI & _)%reachable_abs.
    pose proof He as He'. rewrite (GetEntry_abs _ _ _ _ HA) in He'. injection He' as He'.
    destruct (inv_stored _ HI _ _ _ He') as (<- & <- & _). split; [done|]. by apply Hel.
  - intros (e & -> & (Hdel & Ho & Hg)%Hel). eauto.
Qed.

Lemma deliver_node_inv w w' x n c ctx clk fs env :
  CInv w → w_nodes w !! x = Some n → (x, c) ∈ w_serving w →
  incoming ends w x c !! read_pos w x c = Some env →
  (∀ s es, catalog (n_proto n) = Some s → env = catalog_offer es →
     fst (PutPeerEntries clk s (far ends x c) (map wire_entry es)) = Ok tt) →
  let n' := message (far ends x) ctx clk fs n c env in
  (∀ s, catalog (n_proto n') = Some s → K x s) →
  w_nodes w' = <[x := n']> (w_nodes w) → w_serving w' = w_serving w →
  w_read w' = <[(x, c) := S (read_pos w x c)]> (w_read w) →
  node_inv w' x n'.
Proof.
  intros [_ HI] Hn Hsc Henv Hput n' HK Hn' Hsv Hrd. pose proof (HI x n Hn) as [Hi _].
  destruct (ni_cat _ _ _ Hi) as (s & Hc & Hr & _).
  destruct Hi as [_ Hof Hco Hen Hun Hse Hre Hur]. destruct (Hen c Hsc) as [Hend Hf].
  assert (n_proto n' = serve_message (H := store_exchanger clk) (far ends x) fs (n_index n) ctx (n_proto n) c env) as Hp
    by apply message_proto.
  assert (emitted (λ _ e, is_query e = false) (n_proto n) (n_proto n')) as He
    by (rewrite Hp; apply (answered_emitted c), serve_message_answered).
  assert (conns (n_proto n') = conns (n_proto n)) as Hcn by (rewrite Hp; apply dispatch_conns).
  destruct (dispatch_effect (far ends x) fs (n_index n) ctx clk any_op x (n_proto n) s c env Hr Hc) as (s' & Hc' & Hr' & Hiso & _);
    [done|]. change (catalog (serve_message (H := store_exchanger clk) (far ends x) fs (n_index n) ctx (n_proto n) c env) = Some s') in Hc'.
  rewrite <- Hp in Hc'. split; rewrite ?Hsv, ?Hcn; try done.
  - exists s'. auto.
  - intros k e Hin Ho. destruct (emitted_sent _ _ _ _ _ He Hin) as [?|Hq]; [by apply Hof|].
    unfold is_query, is_offer in *. by destruct (Payload e) as [[]|].
  - intros k Hk. destruct (Hse k Hk) as (Hrk & u & Hu & Hs). split; [done|].
    destruct (emitted_wire _ _ _ _ _ He Hu) as (u' & ms & Hu' & _ & _ & Hfault).
    exists u'. split; [done|]. intros i. rewrite Hfault. apply Hs.
  - intros k t Ht Hk. rewrite Hc' in Ht. injection Ht as <-. destruct (Hen k Hk) as [_ Hfk].
    rewrite (incoming_far w w' x k n' Hn' Hfk). destruct (Hre k s Hc Hk) as [Hle Hlive].
    destruct (decide (k = c)) as [->|Hkc].
    + assert (read_pos w' x c = S (read_pos w x c)) as -> by (unfold read_pos at 1; by rewrite Hrd, lookup_insert_eq).
      split; [by apply lookup_lt_Some in Henv|]. rewrite (take_S_r _ _ _ Henv). intros e1.
      destruct (is_offer env) eqn:Hoff.
      * rewrite last_offer_snoc by done. intros [= <-]. destruct (Hse c Hsc) as (_ & u & Hu & Hs).
        unfold incoming in Henv. destruct (w_nodes w !! far ends x c) as [m|] eqn:Hm; [|done]. cbn in Henv.
        destruct (ni_offers _ _ _ (proj1 (HI _ _ Hm)) c env (list_elem_of_lookup_2 _ _ _ Henv) Hoff) as [s0 Hsn].
        rewrite far_far in Hsn by done.
        destruct (offer_stored clk fs (n_index n) ctx x (far ends x c) s s0 env c u (n_proto n)) as (s2 & Hs2 & Hf2);
          [done..|intros es; by apply Hput|].
        rewrite <- Hp, Hc' in Hs2. by injection Hs2 as ->.
      * rewrite last_offer_app by (simpl; by rewrite Hoff). intros Hl f.
        pose proof (serve_message_no_offer (H := store_exchanger clk) (far ends x) fs (n_index n) ctx (n_proto n) c env Hoff) as Hsame.
        rewrite <- Hp, Hc', Hc in Hsame. injection Hsame as ->. by apply Hlive.
    + assert (read_pos w' x k = read_pos w x k) as ->
        by (unfold read_pos at 1; rewrite Hrd, lookup_insert_ne by congruence; done).
      split; [done|]. intros e1 Hl f. rewrite <- (Hlive e1 Hl f). apply live_in_eq, Hiso. intros Heq. by apply Hkc, Hun.
  - intros k Hk. apply (emitted_none _ _ _ _ He) in Hk. rewrite Hrd.
    rewrite lookup_insert_ne; [by apply Hur|]. intros [= <-]. destruct (Hse c Hsc) as (_ & u & Hu & _). congruence.
Qed.

(** A message of a peer changes nothing of this node's own, and its replies are no offers. *)
Lemma deliver_told w w' x n n' s s' :
  told_since w x n → catalog (n_proto n) = Some s → catalog (n_proto n') = Some s' → same_own x s s' →
  emitted (λ _ e, is_query e = false) (n_proto n) (n_proto n') →
  w_time w' = S (w_time w) → w_serving w' = w_serving w → w_threads w' = w_threads w → w_offered w' = w_offered w →
  told_since w' x n'.
Proof.
  intros (t0 & Ht0 & Hto) Hc Hc' Hsame He Htime Hsv Hth Hof'. destruct (Hto s Hc) as [Hli Hof Hea].
  exists t0. split; [lia|]. intros s1 Hs1. rewrite Hc' in Hs1. injection Hs1 as <-. split.
  - intros g k es t. rewrite Hth. intros Hg Hx Hl. destruct (Hli g k es t Hg Hx Hl) as [Hlt (s0 & Hsn & Hs0)].
    split; [lia|]. exists s0. split; [done|]. intros Hle f. rewrite (Hs0 Hle f). apply Hsame.
  - intros c t. rewrite Hof'. intros Ht. destruct (Hof c t Ht) as [Hlt (env & s0 & Hla & Hsn & Hs0)]. split; [lia|].
    exists env, s0. split_and!; [|done|intros Hle f; rewrite (Hs0 Hle f); apply Hsame].
    rewrite <- Hla. unfold sent_on in *. specialize (He c).
    destruct (wires (n_proto n) !! c) as [u|], (wires (n_proto n') !! c) as [u'|]; [|done|done|done].
    destruct He as (ms & Hms & HF & _). cbn. rewrite Hms. apply last_offer_app. by apply replies_no_offers.
  - intros c. rewrite Hsv, Hof'. intros Hcs. destruct (Hea c Hcs) as [Hp|?]; [left|by right].
    eapply pending_mono; [|exact Hp]. by rewrite Hth.
Qed.

Lemma deliver_inv w x n c ctx clk fs env :
  CInv w → w_nodes w !! x = Some n → (x, c) ∈ w_serving w →
  incoming ends w x c !! read_pos w x c = Some env →
  (∀ s es, catalog (n_proto n) = Some s → env = catalog_offer es →
     fst (PutPeerEntries clk s (far ends x c) (map wire_entry es)) = Ok tt) →
  let n' := message (far ends x) ctx clk fs n c env in
  (∀ s, catalog (n_proto n') = Some s → K x s) →
  CInv (tick (read_one (put_node w x n') x c)).
Proof.
  intros HC Hn Hsc Henv Hput n' HK. pose proof HC as [_ HI]. destruct (HI x n Hn) as [Hi Hto].
  destruct (ni_cat _ _ _ Hi) as (s & Hc & Hr & _). destruct (ni_end _ _ _ Hi c Hsc) as [_ Hf].
  assert (emitted (λ _ e, is_query e = false) (n_proto n) (n_proto n')) as He
    by (unfold n'; rewrite message_proto; apply (answered_emitted c), serve_message_answered).
  destruct (dispatch_effect (far ends x) fs (n_index n) ctx clk any_op x (n_proto n) s c env Hr Hc) as (s' & Hc' & Hr' & Hiso & _); [done|].
  eapply (CInv_put w _ x n); [done|done|reflexivity|cbn; lia| |intros k; by eapply emitted_prefix| |].
  - intros y Hy. split; [done| |done|done]. intros k. cbn. by rewrite lookup_insert_ne by congruence.
  - by eapply deliver_node_inv.
  - eapply (deliver_told w _ x n n' s s'); try done; [unfold n'; by rewrite message_proto|].
    intros f. symmetry. apply Hiso. by apply not_eq_sym.
Qed.

Lemma end_node_inv w w' x n c :
  node_inv w x n → (x, c) ∈ w_serving w →
  let n' := serve_finish (far ends x) n c in
  w_nodes w' = <[x := n']> (w_nodes w) → w_serving w' = w_serving w ∖ {[(x, c)]} → w_read w' = w_read w →
  node_inv w' x n'.
Proof.
  intros [Hcat Hof Hco Hen Hun Hse Hre Hur] Hsc n' Hn' Hsv' Hrd.
  assert (∀ k, (x, k) ∈ w_serving w' ↔ (x, k) ∈ w_serving w ∧ k ≠ c) as Hsv.
  { intros k. rewrite Hsv', elem_of_difference, elem_of_singleton. naive_solver. }
  split; try done.
  - intros y k Hk. change (delete (far ends x c) (conns (n_proto n)) !! y = Some k) in Hk.
    apply lookup_delete_Some in Hk as [Hy Hk]. destruct (Hco y k Hk) as [Hs Hfar].
    split; [|done]. apply Hsv. split; [done|]. intros ->. congruence.
  - intros k [Hk _]%Hsv. by apply Hen.
  - intros k k' [Hk _]%Hsv [Hk' _]%Hsv. by apply Hun.
  - intros k [Hk Hne]%Hsv. destruct (Hse k Hk) as (Hreg & Hu). split; [|done].
    change (delete (far ends x c) (conns (n_proto n)) !! far ends x k = Some k).
    rewrite lookup_delete_ne; [done|]. intros Heq. by apply Hne, Hun.
  - intros k s Hc [Hk Hne]%Hsv. destruct (Hen k Hk) as [_ Hfk].
    rewrite (incoming_far w w' x k n' Hn' Hfk). unfold read_pos. rewrite Hrd. by apply (Hre k s).
  - intros k. rewrite Hrd. apply Hur.
Qed.

Lemma end_inv w x n c :
  CInv w → w_nodes w !! x = Some n → (x, c) ∈ w_serving w →
  CInv (tick (with_serving (put_node w x (serve_finish (far ends x) n c)) (w_serving w ∖ {[(x, c)]}))).
Proof.
  intros HC Hn Hsc. pose proof HC as [_ HI]. destruct (HI x n Hn) as [Hi (t0 & Ht0 & Hto)].
  eapply (CInv_put w _ x n); [done|done|reflexivity|cbn; lia| |done|by eapply end_node_inv|].
  - intros y Hy. split; [|done..]. intros k. cbn. rewrite elem_of_difference, elem_of_singleton. naive_solver.
  - exists t0. split; [cbn; lia|]. intros s Hs. destruct (Hto s Hs) as [Hli Hof Hea]. split.
    + intros g k es t Hg Hx Hl. destruct (Hli g k es t Hg Hx Hl). split; [cbn; lia|done].
    + intros k t Ht. destruct (Hof k t Ht). split; [cbn; lia|done].
    + intros k Hk. cbn in Hk. apply elem_of_difference in Hk as [Hk _]. by apply Hea.
Qed.

Lemma with_born_inv w b : CInv w → CInv (with_born w b).
Proof. intros [HS HI]. split; [done|]. intros x n Hn. destruct (HI x n Hn) as [[] (t0 & Ht0 & Hto)]. split; [by split|].
  exists t0. split; [done|]. intros s Hs. destruct (Hto s Hs). by split.
Qed.

Lemma in_loop_serving w x c : in_loop w x c = true → (x, c) ∈ w_serving w.
Proof. unfold in_loop. by intros [?%bool_decide_eq_true _]%andb_true_iff. Qed.

Lemma step_CInv w a w' :
  CInv w → clean ends w a → in_order w a → step ends w a = Some w' →
  (∀ x n s, w_nodes w' !! x = Some n → catalog (n_proto n) = Some s → K x s) → CInv w'.
Proof.
  intros HC Hcl Hord (w1 & E & ->)%fmap_Some HK. pose proof HC as [_ HI]. revert E HK.
  destruct a as [x clk fs modtime path|x clk path|x c u now|x c u|i|i k|i|x c ctx clk fs|x c]; cbn [act].
  - intros (w2 & (n & Hn & Ew)%bind_Some & E)%bind_Some HK. destruct (HI x n Hn) as [Hi _].
    destruct (ni_cat _ _ _ Hi) as (s & Hc & Hr & _). destruct Hcl as [_ Hok].
    pose proof (written_effect x clk fs modtime n s path Hc Hr) as Hw.
    destruct (watched n _) as [k n'] eqn:Ek. injection Ew as <-.
    assert (CInv (tick (spawn (put_node w x n') (replicate k (announcer x))))) as HC'.
    { eapply watched_inv; [done|done|done|exact Hw|intros ->; split; [done|by eapply Hok]|].
      intros s' Hs'. eapply HK; [|exact Hs']. injection E as <-.
      destruct (watcher_hashFile fs path); apply lookup_insert_eq. }
    injection E as <-. destruct (watcher_hashFile fs path) as [h| |]; [|done|done].
    exact (with_born_inv _ ({[(x, h)]} ∪ w_born w) HC').
  - intros (n & Hn & Ew)%bind_Some HK. destruct (HI x n Hn) as [Hi _].
    destruct (ni_cat _ _ _ Hi) as (s & Hc & Hr & _). pose proof (removed_effect x clk n s path Hc Hr) as Hw.
    destruct (watched n _) as [k n'] eqn:Ek. injection Ew as <-.
    eapply watched_inv; [done|done|done|exact Hw|done|]. intros s' Hs'. eapply HK; [apply lookup_insert_eq|exact Hs'].
  - intros (n & Hn & E)%bind_Some HK. destruct (HI x n Hn) as [Hi _]. destruct (ni_cat _ _ _ Hi) as (s & Hc & _).
    destruct (can_begin ends x c u n) eqn:Eb; [|done]. destruct Hcl as [Hs Hone].
    destruct (accepted_conn _ _ _ _) as [n1|er|] eqn:Ea; [|done|done]. injection E as <-.
    apply accepted_proto in Ea. by eapply begin_inv.
  - intros (n & Hn & E)%bind_Some HK. destruct (HI x n Hn) as [Hi _]. destruct (ni_cat _ _ _ Hi) as (s & Hc & _).
    destruct (can_begin ends x c u n) eqn:Eb; [|done]. destruct Hcl as [Hs Hone]. injection E as <-.
    by eapply begin_inv.
  - intros E _. by eapply copy_inv.
  - intros E _. by eapply list_inv.
  - intros E _. by eapply transmit_inv.
  - intros (n & Hn & (env & Henv & E)%bind_Some)%bind_Some HK. destruct (in_loop w x c) eqn:Hl; [|done]. injection E as <-.
    apply deliver_inv; [done|done|by apply in_loop_serving|done|intros t es Ht ->; by eapply Hcl|].
    intros t Ht. eapply HK; [apply lookup_insert_eq|exact Ht].
  - intros (n & Hn & E)%bind_Some _. destruct (in_loop w x c) eqn:Hl; [|done]. injection E as <-.
    apply end_inv; [done|done|by apply in_loop_serving].
Qed.

Lemma run_CInv acts : ∀ w w',
  CInv w → along ends (clean ends) w acts → along ends in_order w acts → run ends w acts = Some w' →
  (∀ acts1 w1, acts1 `prefix_of` acts → run ends w acts1 = Some w1 →
     ∀ x n s, w_nodes w1 !! x = Some n → catalog (n_proto n) = Some s → K x s) → CInv w'.
Proof.
  induction acts as [|a acts IH]; intros w w' HI; cbn [run along]; [by intros _ _ [= <-]|].
  intros [Hcl Hcr] [Hor Horr] (w1 & Ea & Er)%bind_Some HK. rewrite Ea in Hcr, Horr.
  assert (∀ acts1 w2, acts1 `prefix_of` acts → run ends w1 acts1 = Some w2 →
     ∀ x n s, w_nodes w2 !! x = Some n → catalog (n_proto n) = Some s → K x s) as HK'.
  { intros acts1 w2 Hp Hr. apply (HK (a :: acts1)); [by apply prefix_cons|]. cbn [run]. by rewrite Ea. }
  eapply (IH w1); [|done|done|done|done].
  eapply step_CInv; [exact HI|done|done|done|]. apply (HK' []); [apply prefix_nil|done].
Qed.

Lemma start_CInv nodes :
  (∀ x n, nodes !! x = Some n → fresh_node x n) →
  (∀ x n s, nodes !! x = Some n → catalog (n_proto n) = Some s → K x s) → CInv (start nodes).
Proof.
  intros Hf HK. split; [by intros x c ?%elem_of_empty|].
  intros x n Hn. destruct (Hf x n Hn) as (Hco & Hw & s & Hc & Hr). split; [split; try done|].
  - exists s. eauto.
  - intros c env. unfold sent_on. rewrite Hw, lookup_empty. by intros ?%elem_of_nil.
  - intros y c. rewrite Hco, lookup_empty. done.
  - exists 0%nat. split; [done|]. intros s0 _. split; [by intros g k es t []%elem_of_nil|done|by intros c ?%elem_of_empty].
Qed.

(** When the goroutines of [x] are done, the last offer on each of its connections has the
    files that [x] shares. *)
Lemma quiet_current w x n s c :
  CInv w → quiet w x → w_nodes w !! x = Some n → catalog (n_proto n) = Some s → (x, c) ∈ w_serving w →
  ∃ env s0, last_offer (sent_on c (n_proto n)) = Some env ∧ snapshot x (far ends x c) env s0 ∧ same_own x s0 s.
Proof.
  intros [_ HI] Hq Hn Hs Hc. destruct (HI x n Hn) as [_ (t0 & _ & Hto)]. destruct (Hto s Hs) as [_ Hof Hea].
  destruct (Hea c Hc) as [(g & Hg & Hx & Hpe)|(t & Ht & Hle)].
  - specialize (Hq g Hg Hx). unfold idle in Hq.
    apply andb_true_iff in Hq as [[Hcp%negb_true_iff Hle%bool_decide_eq_true]%andb_true_iff Hgl].
    destruct Hpe as [?|[?|(es & t & El & _)]]; [congruence|set_solver|by rewrite El in Hgl].
  - destruct (Hof c t Ht) as [_ (env & s0 & Hla & Hsn & Hown)]. exists env, s0. auto.
Qed.

End Convergence.

(** * Properties *)


(** C39. Offers can overtake each other: [sendCatalogOfferTo] lists the catalog and then
    sends, and only the sending is under the connection's lock. When one goroutine (a new
    connection, or a second changed file) has listed, a file is indexed and announced,
    and only then the first one sends what it had listed, the peer reads the new offer
    and then the old one. With everything read it does not list the file that the node
    shares. *)
Theorem offers_overtake {B : Type} `{BoltLaws B} `{JPeer : JsonCodec Peer} `{CatalogJson}
    `{JEv : JsonCodec Event} `{IpcCodecs} (ends : nat → node_id * node_id) (a b : node_id) (k : nat)
    (clk clk1 clk2 : nat → Z) (ctx : nat → option error) (fs fs1 fs2 : FS) (modtime : bytes → Z) (path content : bytes)
    (n nB : Node B) (s sB : Catalog.Store B) (u uB : Conn) (es0 : list Entry) :
  (* A, one of whose goroutines has listed the catalog for B *)
  reachable any_op a s → catalog (n_proto n) = Some s → registered_works (far ends a) n →
  far ends a k = b → a ≠ b → conns (n_proto n) !! b = Some k → wires (n_proto n) !! k = Some u →
  ListForPeer s b = Ok es0 →
  (* a file is written, which nobody had *)
  faultless fs → nodes fs !! path = Some (File content) →
  fst (indexFile clk fs modtime (mk_Watcher s (n_index n) ∅ 0) path) = Ok tt →
  (∀ o, ¬ live_in s o (Sum256 content)) →
  (* B *)
  reachable any_op b sB → catalog (n_proto nB) = Some sB → far ends b k = a →
  wires (n_proto nB) !! k = Some uB → sends uB →
  let n1 := file_written (far ends a) clk fs modtime n path in
  let h2 := snd (conn_Send (n_proto n1) k (catalog_offer es0)) in
  sendCatalogOfferTo (H := store_exchanger (λ _, 0)) (far ends a) (n_proto n) k = conn_Send (n_proto n) k (catalog_offer es0) ∧
  (∃ s1, catalog h2 = Some s1 ∧ live_in s1 a (Sum256 content)) ∧
  ∃ es1, wires h2 !! k = Some (deliver u [catalog_offer es1; catalog_offer es0]) ∧
    let n2 := message (far ends b) ctx clk1 fs1 nB k (catalog_offer es1) in
    let n3 := message (far ends b) ctx clk2 fs2 n2 k (catalog_offer es0) in
    ∀ t, catalog (n_proto n2) = Some t → fst (PutPeerEntries clk2 t a (map wire_entry es0)) = Ok tt →
      ∃ t', catalog (n_proto n3) = Some t' ∧ ¬ live_in t' a (Sum256 content).
Proof.
  intros Hr Hc Hreg Hfar Hab Hk Hu Hes Hf Hn Hok Hnew HrB HcB HfB HuB HsB n1 h2.
  assert (∃ s1, catalog (n_proto n1) = Some s1 ∧ reachable any_op a s1 ∧ live_in s1 a (Sum256 content) ∧
            ∃ es1, ListForPeer s1 b = Ok es1 ∧ wires (n_proto n1) !! k = Some (deliver u [catalog_offer es1]))
    as (s1 & Hc1 & Hr1 & Hlive & es1 & Hes1 & Hw1).
  { unfold n1, file_written, watch. rewrite (watched_eq n s _ Hc).
    destruct (indexFile clk fs modtime (mk_Watcher s (n_index n) ∅ 0) path) as [r v'] eqn:Ei. cbn [fst snd] in Hok |- *. subst r.
    destruct (indexFile_success a clk fs modtime (mk_Watcher s (n_index n) ∅ 0) path content v' Hr Hf Hn Ei) as (Hr1 & _ & Hget & _).
    rewrite (indexFile_changes clk fs modtime (mk_Watcher s (n_index n) ∅ 0) path content v' Hf Hn Ei).
    cbn [w_changes Nat.iter nat_rect]. set (m0 := mk_Node _ _ _ _).
    destruct (onChange_offers (far ends a) any_op a m0 (w_catalog v') Hr1 eq_refl Hreg) as (_ & _ & Hc1 & Hoff).
    exists (w_catalog v'). split_and!; [exact Hc1|done|by eexists|]. by apply Hoff. }
  assert (sends u) as Hsu by (destruct (Hreg b k Hk) as [_ (u' & Hu' & ?)]; rewrite Hu in Hu'; by injection Hu' as ->).
  split_and!.
  - unfold sendCatalogOfferTo. rewrite Hc. cbn. by rewrite Hfar, Hes.
  - exists s1. split; [|done]. unfold h2, conn_Send. by rewrite on_wire_catalog.
  - exists es1. split.
    + unfold h2, conn_Send, on_wire. rewrite Hw1, Send_deliver by done. cbn [snd with_wire wires].
      by rewrite lookup_insert_eq, deliver_app.
    + intros n2 n3 t Ht Hput.
      destruct (dispatch_effect (far ends b) fs1 (n_index nB) ctx clk1 any_op b (n_proto nB) sB k (catalog_offer es1) HrB HcB)
        as (t0 & Ht0 & Hrt & _); [done|].
      change (catalog (serve_message (H := store_exchanger clk1) (far ends b) fs1 (n_index nB) ctx (n_proto nB) k (catalog_offer es1)) = Some t0) in Ht0.
      rewrite <- message_proto in Ht0. fold n2 in Ht0. rewrite Ht in Ht0. injection Ht0 as <-.
      assert (emitted (λ _ e, is_query e = false) (n_proto nB) (n_proto n2)) as He2
        by (unfold n2; rewrite message_proto; apply (answered_emitted k), serve_message_answered).
      destruct (emitted_wire _ _ _ _ _ He2 HuB) as (u2 & ms & Hu2 & _ & _ & Hfault).
      destruct (offer_stored ends (λ _ _, True) clk2 fs2 (n_index n2) ctx b a t s (catalog_offer es0) k u2 (n_proto n2))
        as (t' & Ht' & Hids); [done|done|done|done|intros i; rewrite Hfault; apply HsB|split; [done|by exists es0]| |].
      { intros es E. assert (map wire_entry es = map wire_entry es0) as ->; [|done].
        rewrite <- !accepted_offer. by injection E as ->. }
      exists t'. unfold n3. rewrite message_proto. split; [done|]. rewrite Hids, offer_ids_offer.
      intros (e & Heq & Hin)%list_elem_of_fmap.
      destruct (ListForPeer_elems any_op a s b Hr) as (l & Hl & Hel). rewrite Hes in Hl. injection Hl as <-.
      apply Hel in Hin as (Hd & _ & Hg). apply (Hnew (Entry_OwnerNodeID e)). rewrite Heq. by exists e.
Qed.
