(* ===== verification/Circulate.v ===== *)
(** Files that go round a ring of nodes after their owner has removed them, and a cluster of
    three nodes in which that happens, at which the theorems about clusters are also
    instantiated. *)

From S2P Require Import Prelude GoStd Wire Codec Bolt Catalog CatalogSpec CatalogProps Peerstore Sha256 Path Fs Transfer TransferProps Handler HandlerProps Exchange Watcher Folder Ipc Daemon Node Cluster Converge.

(** * Files that go round *)

Section Circulation.
Context {B : Type} `{BoltLaws B} `{JPeer : JsonCodec Peer} `{CatalogJson} `{JEv : JsonCodec Event} `{IpcCodecs}.
Context (ends : nat → node_id * node_id).
Implicit Types (n : Node B) (s : Catalog.Store B) (w : World B).

(** Every node of [R] has another one before it, and no two are each before the other. *)
Definition ring (R : gset node_id) (prev : node_id → node_id) : Prop :=
  ∀ y, y ∈ R → prev y ∈ R ∧ prev y ≠ y ∧ prev (prev y) ≠ y.

Definition offers (f : file_id) (es : list Entry) : Prop :=
  f ∈ map Entry_FileID es ∧ Forall (λ e, Entry_Deleted e = false) es.

Definition at_end (x : node_id) (c : nat) : Prop := x = (ends c).1 ∨ x = (ends c).2.

(** Every node of [R] lists [f] under the node before it; the offers from there that it has
    not read have the file, and so has what was listed for it there. *)
Record circulating (R : gset node_id) (prev : node_id → node_id) (f : file_id) w : Prop := {
  ci_lists y : y ∈ R → ∃ n s, w_nodes w !! y = Some n ∧ catalog (n_proto n) = Some s ∧ live_in s (prev y) f;
  ci_unread y c i env : y ∈ R → at_end y c → far ends y c = prev y → (read_pos w y c ≤ i)%nat →
    incoming ends w y c !! i = Some env → is_offer env = true → ∃ es, env = catalog_offer es ∧ offers f es;
  ci_listed y g k es t : y ∈ R → g ∈ w_threads w → g_node g = prev y → far ends (prev y) k = y →
    g_listed g = Some (k, es, t) → offers f es
}.

Lemma live_listed x s y o f es :
  reachable any_op x s → live_in s o f → o ≠ y → ListForPeer s y = Ok es → offers f es.
Proof.
  intros Hr (e & He & Hd) Ho Hes. destruct (ListForPeer_elems any_op x s y Hr) as (l & Hl & Hel).
  rewrite Hes in Hl. injection Hl as <-. split.
  - pose proof Hr as (_ & a & HA & HI & _)%reachable_abs. pose proof He as He'.
    rewrite (GetEntry_abs _ _ _ _ HA) in He'. injection He' as He'. destruct (inv_stored _ HI _ _ _ He') as (<- & <- & _).
    apply list_elem_of_fmap_2, Hel. done.
  - apply Forall_forall. by intros e' (? & _)%Hel.
Qed.

(** What is listed under a node stays listed, when an offer of that node has it. *)
Lemma offer_keeps clk fs idx ctx x s o f env k (h : Handler.Handler (Catalog.Store B)) :
  reachable any_op x s → catalog h = Some s → live_in s o f →
  (is_offer env = true → far ends x k = o → ∃ es, env = catalog_offer es ∧ offers f es) →
  ∃ s', catalog (serve_message (H := store_exchanger clk) (far ends x) fs idx ctx h k env) = Some s' ∧ live_in s' o f.
Proof.
  intros Hr Hc Hl Henv. destruct (is_offer env) eqn:Hoff.
  2: { exists s. by rewrite serve_message_no_offer. }
  destruct (decide (far ends x k = o)) as [Heq|Hne].
  - destruct (Henv eq_refl Heq) as (es & -> & (e & -> & Hin)%list_elem_of_fmap & Hdel). subst o.
    unfold serve_message, dispatch. cbn [Payload catalog_offer envelope]. unfold handleCatalogOffer. rewrite Hc.
    cbn [CatalogOffer_Files]. rewrite accepted_offer. cbn [cx_PutPeerEntries store_exchanger].
    destruct (PutPeerEntries clk s (far ends x k) (map wire_entry es)) as [res s'] eqn:E.
    exists s'. split; [destruct res as [[]|er|]; [|done|done]; unfold conn_Send; by rewrite on_wire_catalog|].
    destruct (decide (res = Ok tt)) as [->|Hres]; [|by rewrite (db_Update_rollback _ _ _ _ _ E Hres)].
    destruct (PutPeerEntries_effect any_op x clk s s' _ _ (Entry_FileID e) Hr E) as [_ Hf].
    destruct (offered (map wire_entry es) (Entry_FileID e)) as [e1|] eqn:Ho.
    2: { destruct (offered_None _ _ (wire_entry e) Ho); [by apply list_elem_of_fmap_2|done]. }
    destruct Hf as [now Hg]. eexists. split; [exact Hg|]. apply offered_Some in Ho as [(e2 & -> & Hin2)%list_elem_of_fmap _].
    rewrite Forall_forall in Hdel. exact (Hdel e2 Hin2).
  - destruct (dispatch_effect (far ends x) fs idx ctx clk any_op x h s k env Hr Hc) as (s' & Hc' & _ & Hiso & _); [done|].
    exists s'. split; [exact Hc'|]. eapply live_in_eq; [|exact Hl]. apply Hiso. by apply not_eq_sym.
Qed.

Context (R : gset node_id) (prev : node_id → node_id) (f : file_id) (Hring : ring R prev).

(** One node does something: it keeps its entry, and what it sends and lists has the file. *)
Lemma circulating_put w w' x n n' :
  circulating R prev f w → w_nodes w !! x = Some n → w_nodes w' = <[x := n']> (w_nodes w) →
  (x ∈ R → ∃ s', catalog (n_proto n') = Some s' ∧ live_in s' (prev x) f) →
  (∀ c, ∃ ms, sent_on c (n_proto n') = sent_on c (n_proto n) ++ ms ∧
     ∀ env, env ∈ ms → is_offer env = true → far ends x c ∈ R → prev (far ends x c) = x → ∃ es, env = catalog_offer es ∧ offers f es) →
  (∀ y c, read_pos w y c ≤ read_pos w' y c)%nat →
  (∀ g k es t, g ∈ w_threads w' → g_listed g = Some (k, es, t) →
     (∃ g0, g0 ∈ w_threads w ∧ g_node g0 = g_node g ∧ g_listed g0 = Some (k, es, t)) ∨
     (far ends (g_node g) k ∈ R → prev (far ends (g_node g) k) = g_node g → offers f es)) →
  circulating R prev f w'.
Proof.
  intros [Hl Hu Hg] Hn Hn' Hx Hsent Hread Hth. split.
  - intros y Hy. rewrite Hn'. destruct (decide (y = x)) as [->|Hne].
    + destruct (Hx Hy) as (s' & ? & ?). exists n', s'. by rewrite lookup_insert_eq.
    + destruct (Hl y Hy) as (m & s & ? & ?). exists m, s. by rewrite lookup_insert_ne.
  - intros y c i env Hy Hend Hfar Hle Hi Hoff. pose proof (Hread y c).
    assert (incoming ends w y c !! i = Some env → ∃ es, env = catalog_offer es ∧ offers f es) as Hold
      by (intros Hi'; eapply (Hu y c i env Hy Hend Hfar); [lia|exact Hi'|done]).
    unfold incoming in Hi, Hold. rewrite Hn' in Hi. destruct (decide (far ends y c = x)) as [Hfx|Hfx].
    + rewrite Hfx, lookup_insert_eq in Hi. rewrite Hfx, Hn in Hold. cbn in Hi, Hold.
      destruct (Hsent c) as (ms & Hms & HQ). rewrite Hms, lookup_app in Hi.
      destruct (sent_on c (n_proto n) !! i) as [e0|]; [by apply Hold|].
      pose proof (far_far ends y c Hend) as Hback. rewrite Hfx in Hback.
      apply (HQ env); [by eapply list_elem_of_lookup_2|done|by rewrite Hback|by rewrite Hback, <- Hfar].
    + rewrite lookup_insert_ne in Hi by done. by apply Hold.
  - intros y g k es t Hy Hgin Hgx Hfar El. destruct (Hth g k es t Hgin El) as [(g0 & Hg0 & Hx0 & El0)|Hnew].
    + eapply (Hg y g0 k es t); [done|done|congruence|done|done].
    + rewrite Hgx, Hfar in Hnew. by apply Hnew.
Qed.

(** The common cases of the last three hypotheses. *)
Lemma sent_same n n' (Q : nat → Envelope → Prop) :
  (∀ c, sent_on c (n_proto n') = sent_on c (n_proto n)) →
  ∀ c, ∃ ms, sent_on c (n_proto n') = sent_on c (n_proto n) ++ ms ∧ ∀ env, env ∈ ms → Q c env.
Proof. intros Hs c. exists []. rewrite app_nil_r, Hs. split; [done|]. by intros env []%elem_of_nil. Qed.

Lemma sent_emitted n n' (Q : nat → Envelope → Prop) :
  emitted Q (n_proto n) (n_proto n') →
  ∀ c, ∃ ms, sent_on c (n_proto n') = sent_on c (n_proto n) ++ ms ∧ ∀ env, env ∈ ms → Q c env.
Proof.
  intros He c. specialize (He c). unfold sent_on. destruct (wires (n_proto n) !! c) as [u|], (wires (n_proto n') !! c) as [u'|]; try done.
  - destruct He as (ms & Hms & HF & _). exists ms. split; [done|]. by apply Forall_forall.
  - exists []. split; [done|]. by intros env []%elem_of_nil.
Qed.

Definition kept w w' : Prop :=
  ∀ g k es t, g ∈ w_threads w' → g_listed g = Some (k, es, t) →
    ∃ g0, g0 ∈ w_threads w ∧ g_node g0 = g_node g ∧ g_listed g0 = Some (k, es, t).

Lemma kept_spawn w w' l : w_threads w' = w_threads w ++ l → (∀ g, g ∈ l → g_listed g = None) → kept w w'.
Proof. intros Hw Hl g k es t. rewrite Hw. intros [Hg|Hg]%elem_of_app El; [by exists g|by rewrite (Hl g Hg) in El]. Qed.

Lemma kept_set w w' i g0 th :
  w_threads w !! i = Some g0 → w_threads w' = <[i := th]> (w_threads w) →
  g_node th = g_node g0 → g_listed th = g_listed g0 ∨ g_listed th = None → kept w w'.
Proof.
  intros Hi Hw Hx Hl g k es t. rewrite Hw. intros [->|Hg]%elem_of_set El; [|by exists g].
  exists g0. split_and!; [by eapply list_elem_of_lookup_2|done|destruct Hl; congruence].
Qed.

(** A node that keeps its catalog's entry and sends no offer. *)
Lemma circulating_quiet w w' x n n' :
  circulating R prev f w → w_nodes w !! x = Some n → w_nodes w' = <[x := n']> (w_nodes w) →
  (x ∈ R → ∃ s', catalog (n_proto n') = Some s' ∧ live_in s' (prev x) f) →
  (∀ c, ∃ ms, sent_on c (n_proto n') = sent_on c (n_proto n) ++ ms ∧ ∀ env, env ∈ ms → is_offer env = false) →
  (∀ y c, read_pos w y c ≤ read_pos w' y c)%nat → kept w w' → circulating R prev f w'.
Proof.
  intros HC Hn Hn' Hx Hs Hrd Hk. eapply circulating_put; [done|done|done|done| |done|intros; left; by eapply Hk].
  intros c. destruct (Hs c) as (ms & Hms & HF). exists ms. split; [done|]. intros env Hin. by rewrite (HF env Hin).
Qed.

Lemma circulating_watched w x n n' s P silent k :
  circulating R prev f w → w_nodes w !! x = Some n → catalog (n_proto n) = Some s → changed x P silent s n n' →
  circulating R prev f (spawn (put_node w x n') (replicate k (announcer x))).
Proof.
  intros HC Hn Hc (s' & Hp & _ & Hown & _). eapply (circulating_quiet w _ x n n'); [done|done|reflexivity| | |done|].
  - intros Hx. destruct (ci_lists _ _ _ _ HC x Hx) as (n0 & s0 & Hn0 & Hc0 & Hl). rewrite Hn in Hn0. injection Hn0 as <-.
    rewrite Hc in Hc0. injection Hc0 as <-. exists s'. split; [by rewrite Hp|]. eapply live_in_eq; [|exact Hl].
    apply Hown. left. by apply Hring.
  - apply sent_same. intros c. by rewrite Hp.
  - eapply kept_spawn; [reflexivity|]. by intros g [-> _]%elem_of_replicate.
Qed.

Lemma ci_node w x n : circulating R prev f w → w_nodes w !! x = Some n → x ∈ R →
  ∃ s, catalog (n_proto n) = Some s ∧ live_in s (prev x) f.
Proof. intros HC Hn Hx. destruct (ci_lists _ _ _ _ HC x Hx) as (m & s & Hm & ? & ?). rewrite Hn in Hm. injection Hm as <-. by exists s. Qed.

Lemma circulating_begin w x n n1 c u :
  circulating R prev f w → w_nodes w !! x = Some n → can_begin ends x c u n = true → n_proto n1 = n_proto (attach n c u) →
  circulating R prev f (begin_serving ends w x c n1).
Proof.
  intros HC Hn (Hu & _ & Hw)%can_begin_sent Hp. eapply (circulating_quiet w _ x n); [done|done|reflexivity| | |done|].
  - intros Hx. cbn. rewrite Hp. exact (ci_node w x n HC Hn Hx).
  - apply sent_same. intros k. unfold sent_on. cbn. rewrite Hp. cbn.
    destruct (decide (c = k)) as [<-|Hne]; [by rewrite lookup_insert_eq, Hw|by rewrite lookup_insert_ne].
  - eapply kept_spawn; [reflexivity|]. by intros g ->%list_elem_of_singleton.
Qed.

Lemma circulating_copy w i w' : circulating R prev f w → copy_step w i = Some w' → circulating R prev f w'.
Proof.
  intros HC (g & Hg & (n & Hn & E)%bind_Some)%bind_Some. destruct (g_copy g); [|done]. injection E as <-.
  eapply (circulating_quiet w _ (g_node g) n); [done|done|reflexivity|exact (ci_node w _ n HC Hn)|by apply sent_same|done|].
  eapply kept_set; [exact Hg|reflexivity|done|by left].
Qed.

Lemma circulating_list nodes w i k w' :
  PInv nodes w → circulating R prev f w → list_step ends w i k = Some w' → circulating R prev f w'.
Proof.
  intros HI HC (g & Hg & (n & Hn & (s & Hs & E)%bind_Some)%bind_Some)%bind_Some. destruct (_ && _); [|done].
  destruct (no_catalog _ _ _ (pi_nodes _ _ HI _ n Hn)) as (s0 & Hc & Hr & _). rewrite Hs in Hc. injection Hc as <-.
  assert (∀ th, g_node th = g_node g → g_listed th = None ∨ (∃ es t, g_listed th = Some (k, es, t) ∧
            ListForPeer s (far ends (g_node g) k) = Ok es) → circulating R prev f (set_thread w i th)) as Hset.
  { intros th Hx Hl. eapply (circulating_put w _ (g_node g) n n);
      [done|done|by symmetry; apply insert_id|exact (ci_node w _ n HC Hn)|by apply sent_same|done|].
    intros h k' es t [->|Hh]%elem_of_set El; [right|left; by exists h].
    destruct Hl as [Hl|(es' & t' & Hl & Hes)]; [congruence|]. rewrite El in Hl. injection Hl as -> -> ->.
    rewrite Hx. intros Hy Hp. destruct (Hring _ Hy) as (Hpy & _ & Hpp). rewrite Hp in Hpy, Hpp.
    destruct (ci_node w _ n HC Hn Hpy) as (s1 & Hs1 & Hl1). rewrite Hs in Hs1. injection Hs1 as <-.
    eapply live_listed; [exact Hr|exact Hl1|done|done]. }
  destruct (ListForPeer s (far ends (g_node g) k)) as [es|er|] eqn:El; [| |done]; injection E as <-;
    apply Hset; [done|right; by eexists _, _|done|by left].
Qed.

Lemma circulating_transmit w i w' : circulating R prev f w → transmit_step w i = Some w' → circulating R prev f w'.
Proof.
  intros HC (g & Hg & (n & Hn & ([[k es] t] & El & E)%bind_Some)%bind_Some)%bind_Some.
  pose proof (conn_Send_emitted (λ k' env, k' = k ∧ env = catalog_offer es) (n_proto n) k _ (conj eq_refl eq_refl)) as He.
  destruct (conn_Send_frame (n_proto n) k (catalog_offer es)) as [Hcat _].
  destruct (conn_Send (n_proto n) k (catalog_offer es)) as [res h]. cbn [fst snd] in *.
  eapply (circulating_put w _ (g_node g) n (with_proto n h)); [done|done|injection E as <-; by destruct res| | | |].
  - intros Hx. cbn. rewrite Hcat. exact (ci_node w _ n HC Hn Hx).
  - intros c. destruct (sent_emitted n (with_proto n h) _ He c) as (ms & Hms & HQ). exists ms. split; [done|].
    intros env [-> ->]%HQ _ Hy Hp. exists es. split; [done|].
    eapply (ci_listed _ _ _ _ HC _ g k es t Hy); [by eapply list_elem_of_lookup_2|done|by rewrite Hp|done].
  - intros y c. injection E as <-. by destruct res.
  - intros h' k' es' t' Hh' El'. left.
    eapply (kept_set w _ i g (mk_goroutine (g_node g) (g_start g) (g_copy g) (g_left g) None) Hg); [|done|by right|exact Hh'|exact El'].
    injection E as <-. by destruct res.
Qed.

Lemma circulating_deliver nodes w x n c ctx clk fs env :
  PInv nodes w → circulating R prev f w → w_nodes w !! x = Some n → at_end x c →
  incoming ends w x c !! read_pos w x c = Some env →
  circulating R prev f (read_one (put_node w x (message (far ends x) ctx clk fs n c env)) x c).
Proof.
  intros HI HC Hn Hend Henv. destruct (no_catalog _ _ _ (pi_nodes _ _ HI _ n Hn)) as (s & Hc & Hr & _).
  eapply (circulating_quiet w _ x n); [done|done|reflexivity| | | |].
  - intros Hx. destruct (ci_node w x n HC Hn Hx) as (s1 & Hs1 & Hl). rewrite Hc in Hs1. injection Hs1 as <-.
    rewrite message_proto. eapply offer_keeps; [done|done|done|]. intros Hoff Hfar.
    eapply (ci_unread _ _ _ _ HC x c _ env Hx Hend Hfar); [|exact Henv|done]. done.
  - intros k. destruct (sent_emitted n (message (far ends x) ctx clk fs n c env) (λ _ e, is_query e = false)) with (c := k) as (ms & Hms & HQ).
    { rewrite message_proto. apply (answered_emitted c), serve_message_answered. }
    exists ms. split; [done|]. intros e Hq%HQ. unfold is_query, is_offer in *. by destruct (Payload e) as [[]|].
  - intros y k. assert (read_pos (read_one (put_node w x (message (far ends x) ctx clk fs n c env)) x c) y k =
      if decide ((x, c) = (y, k)) then S (read_pos w x c) else read_pos w y k) as ->; [|case_decide as Heq; [injection Heq as -> ->|]; lia].
    unfold read_pos at 1. cbn. case_decide as Heq; [by rewrite Heq, lookup_insert_eq|by rewrite lookup_insert_ne].
  - intros g k es t Hg El. by exists g.
Qed.

Definition served_at_ends w : Prop := ∀ x c, (x, c) ∈ w_serving w → at_end x c.

Lemma step_serving w a w' : step ends w a = Some w' → served_at_ends w → served_at_ends w'.
Proof.
  intros (w1 & E & ->)%fmap_Some Hs. enough (served_at_ends w1) by done. revert E.
  assert (∀ x c u n n1, can_begin ends x c u n = true → served_at_ends (begin_serving ends w x c n1)) as Hb.
  { intros x c u n n1 Hb y k. cbn. rewrite elem_of_union, elem_of_singleton. intros [[= -> ->]|?]; [|by apply Hs].
    unfold can_begin in Hb. apply andb_true_iff in Hb as [[Hb _]%andb_true_iff _]. by apply bool_decide_eq_true in Hb. }
  destruct a as [x clk fs modtime path|x clk path|x c u now|x c u|i|i k|i|x c ctx clk fs|x c]; cbn [act].
  - intros (w2 & (n & Hn & Ew)%bind_Some & E)%bind_Some. destruct (watched n _). injection Ew as <-. injection E as <-.
    by destruct (watcher_hashFile fs path).
  - intros (n & Hn & Ew)%bind_Some. destruct (watched n _). by injection Ew as <-.
  - intros (n & Hn & E)%bind_Some. destruct (can_begin ends x c u n) eqn:Eb; [|done].
    destruct (accepted_conn _ _ _ _); [|done|done]. injection E as <-. by eapply Hb.
  - intros (n & Hn & E)%bind_Some. destruct (can_begin ends x c u n) eqn:Eb; [|done]. injection E as <-. by eapply Hb.
  - intros (g & Hg & (n & Hn & E)%bind_Some)%bind_Some. destruct (g_copy g); [|done]. by injection E as <-.
  - intros (g & Hg & (n & Hn & (s & Hc & E)%bind_Some)%bind_Some)%bind_Some. destruct (_ && _); [|done].
    destruct (ListForPeer _ _); [| |done]; by injection E as <-.
  - intros (g & Hg & (n & Hn & ([[k es] t] & El & E)%bind_Some)%bind_Some)%bind_Some.
    destruct (conn_Send _ _ _) as [[] h]; by injection E as <-.
  - intros (n & Hn & (env & Henv & E)%bind_Some)%bind_Some. destruct (in_loop w x c); [|done]. by injection E as <-.
  - intros (n & Hn & E)%bind_Some. destruct (in_loop w x c); [|done]. injection E as <-.
    intros y k. cbn. intros [? _]%elem_of_difference. by apply Hs.
Qed.

Lemma step_circulating nodes w a w' :
  PInv nodes w → served_at_ends w → circulating R prev f w → step ends w a = Some w' → circulating R prev f w'.
Proof.
  intros HI Hs HC (w1 & E & ->)%fmap_Some. enough (circulating R prev f w1) as [? ? ?] by by split. revert E.
  destruct a as [x clk fs modtime path|x clk path|x c u now|x c u|i|i k|i|x c ctx clk fs|x c]; cbn [act].
  - intros (w2 & (n & Hn & Ew)%bind_Some & E)%bind_Some.
    destruct (no_catalog _ _ _ (pi_nodes _ _ HI _ n Hn)) as (s & Hc & Hr & _).
    pose proof (written_effect x clk fs modtime n s path Hc Hr) as Hw. destruct (watched n _) as [k n']. injection Ew as <-.
    pose proof (circulating_watched w x n n' s _ _ k HC Hn Hc Hw) as HC'. injection E as <-.
    destruct (watcher_hashFile fs path); [|done|done]. destruct HC'. by split.
  - intros (n & Hn & Ew)%bind_Some. destruct (no_catalog _ _ _ (pi_nodes _ _ HI _ n Hn)) as (s & Hc & Hr & _).
    pose proof (removed_effect x clk n s path Hc Hr) as Hw. destruct (watched n _) as [k n']. injection Ew as <-.
    by eapply circulating_watched.
  - intros (n & Hn & E)%bind_Some. destruct (can_begin ends x c u n) eqn:Eb; [|done].
    destruct (accepted_conn (far ends x) now (attach n c u) c) as [n1|er|] eqn:Ea; [|done|done]. injection E as <-.
    apply accepted_proto in Ea. by eapply circulating_begin.
  - intros (n & Hn & E)%bind_Some. destruct (can_begin ends x c u n) eqn:Eb; [|done]. injection E as <-.
    by eapply circulating_begin.
  - by apply circulating_copy.
  - by eapply circulating_list.
  - by apply circulating_transmit.
  - intros (n & Hn & (env & Henv & E)%bind_Some)%bind_Some. destruct (in_loop w x c) eqn:Hl; [|done]. injection E as <-.
    eapply circulating_deliver; [done|done|done|by apply Hs, in_loop_serving|done].
  - intros (n & Hn & E)%bind_Some. destruct (in_loop w x c); [|done]. injection E as <-.
    eapply (circulating_quiet w _ x n); [done|done|reflexivity|exact (ci_node w x n HC Hn)|by apply sent_same|done|].
    intros g k es t Hg El. by exists g.
Qed.

Lemma run_circulating nodes acts : ∀ w w',
  PInv nodes w → served_at_ends w → circulating R prev f w → run ends w acts = Some w' → circulating R prev f w'.
Proof.
  induction acts as [|a acts IH]; intros w w' HI Hs HC; cbn [run]; [by intros [= <-]|].
  intros (w1 & Ea & Er)%bind_Some. eapply (IH w1); [by eapply step_PInv|by eapply step_serving|by eapply step_circulating|done].
Qed.

Lemma run_serving acts : ∀ w w', served_at_ends w → run ends w acts = Some w' → served_at_ends w'.
Proof.
  induction acts as [|a acts IH]; intros w w' Hs; cbn [run]; [by intros [= <-]|].
  intros (w1 & Ea & Er)%bind_Some. eapply (IH w1); [by eapply step_serving|done].
Qed.

End Circulation.

(** * Properties *)

(** C40. A deleted file can go round for ever. Once every node of a ring (at least three
    nodes) lists a file under the one before it, and the offers on the way between them and
    the offers being made have it, no node of the ring ever stops listing it, whatever the
    nodes do and whatever fails: they write and remove files, the owner's removal of this
    one included, disconnect and connect again, list, send and receive. An offer leaves out
    only what is listed under its receiver, so each node keeps hearing of the file from the
    one before it. *)
Theorem listed_file_persists {B : Type} `{BoltLaws B} `{JPeer : JsonCodec Peer} `{CatalogJson}
    `{JEv : JsonCodec Event} `{IpcCodecs} (ends : nat → node_id * node_id) (nodes : gmap node_id (Node B))
    (acts0 acts : list action) (w0 w : World B) (R : gset node_id) (prev : node_id → node_id) (f : file_id) :
  (∀ z k, nodes !! z = Some k → fresh_node z k) → run ends (start nodes) acts0 = Some w0 →
  ring R prev → circulating ends R prev f w0 → run ends w0 acts = Some w →
  circulating ends R prev f w ∧
  ∀ y, y ∈ R → ∃ n s, w_nodes w !! y = Some n ∧ catalog (n_proto n) = Some s ∧ live_in s (prev y) f.
Proof.
  intros Hf Hrun0 Hring HC Hrun.
  assert (circulating ends R prev f w) as HC'; [|split; [done|by apply HC']].
  eapply (run_circulating ends R prev f Hring nodes acts w0); [| |done|done].
  2: { eapply run_serving; [|exact Hrun0]. by intros x c ?%elem_of_empty. }
  exact (run_PInv ends nodes acts0 _ _ (start_PInv nodes Hf) Hrun0).
Qed.

(** * Three nodes *)

(** Evaluating a run: tests for the conditions on it, and what a node lists. *)
Section Eval.
Context {B : Type} `{Bolt B} `{JsonCodec Peer} `{JsonCodec Entry} `{JsonCodec (list OwnerHint)}.
Context `{JsonCodec Event} `{IpcCodecs} (ends : nat → node_id * node_id).

Definition unfailing (a : action) : Prop :=
  match a with
  | Write _ _ fs _ _ => faultless fs
  | Accept _ _ u _ | Joined _ _ u => sends u
  | _ => True
  end.

Definition cleanb (w : World B) (a : action) : bool :=
  match a with
  | Write x clk fs modtime path =>
      match w_nodes w !! x with
      | Some n =>
          match catalog (n_proto n) with
          | Some s => is_Ok (fst (indexFile clk fs modtime (mk_Watcher s (n_index n) ∅ 0) path))
          | None => true
          end
      | None => true
      end
  | Accept x c _ _ | Joined x c _ =>
      forallb (λ p, negb (bool_decide (p.1 = x)) || negb (bool_decide (far ends x p.2 = far ends x c)))
        (elements (w_serving w))
  | Deliver x c _ clk _ =>
      match w_nodes w !! x, incoming ends w x c !! read_pos w x c with
      | Some n, Some env =>
          match catalog (n_proto n), Payload env with
          | Some s, Some (Envelope_CatalogOffer m) =>
              is_Ok (fst (PutPeerEntries clk s (far ends x c) (accepted (CatalogOffer_Files m))))
          | _, _ => true
          end
      | _, _ => true
      end
  | _ => true
  end.

Definition in_orderb (w : World B) (a : action) : bool :=
  match a with
  | Transmit i =>
      match w_threads w !! i with
      | Some g =>
          match g_listed g with
          | Some (k, _, t) => match w_offered w !! (g_node g, k) with Some t' => Nat.leb t' t | None => true end
          | None => true
          end
      | None => true
      end
  | _ => true
  end.

Fixpoint alongb (P : World B → action → bool) (w : World B) (acts : list action) : bool :=
  match acts with
  | [] => true
  | a :: acts => P w a && match step ends w a with Some w => alongb P w acts | None => true end
  end.

Definition quietb (w : World B) (x : node_id) : bool :=
  forallb (λ g, negb (bool_decide (g_node g = x)) || idle g) (w_threads w).

Definition lists (w : World B) (x o : node_id) (f : file_id) : bool :=
  match n ← w_nodes w !! x; catalog (n_proto n) with
  | Some s => match GetEntry s o f with Ok (Some e) => negb (Entry_Deleted e) | _ => false end
  | None => false
  end.

(** Everything sent on [c] to [x] was read. *)
Definition all_read (w : World B) (x : node_id) (c : nat) : bool :=
  Nat.eqb (read_pos w x c) (length (incoming ends w x c)).

(** Everything that the node [o] has sent to [x] was read. *)
Definition all_read_from (w : World B) (x o : node_id) : bool :=
  match w_nodes w !! o with
  | Some n =>
      forallb (λ cu, negb (bool_decide (x = (ends cu.1).1 ∨ x = (ends cu.1).2)) ||
                     Nat.leb (length (sent cu.2)) (read_pos w x cu.1))
        (map_to_list (wires (n_proto n)))
  | None => false
  end.

Lemma is_Ok_unit (r : outcome unit) : is_Ok r = true → r = Ok tt.
Proof. by destruct r as [[]| |]. Qed.

Lemma cleanb_clean w a : unfailing a → cleanb w a = true → clean ends w a.
Proof.
  assert (∀ x c, forallb (λ p, negb (bool_decide (p.1 = x)) || negb (bool_decide (far ends x p.2 = far ends x c)))
      (elements (w_serving w)) = true → ∀ c', (x, c') ∈ w_serving w → far ends x c' ≠ far ends x c) as Hone.
  { intros x c Hb c' Hc' Heq. rewrite forallb_forall in Hb.
    specialize (Hb (x, c')). rewrite <- list_elem_of_In, elem_of_elements in Hb. specialize (Hb Hc'). cbn in Hb.
    by rewrite !bool_decide_true in Hb by done. }
  destruct a as [x clk fs modtime path|x clk path|x c u now|x c u|i|i k|i|x c ctx clk fs|x c]; cbn [unfailing cleanb clean]; try done.
  - intros Hf Hb. split; [done|]. intros n s Hn Hs. rewrite Hn, Hs in Hb. by apply is_Ok_unit.
  - intros Hs Hb. split; [done|by apply Hone].
  - intros Hs Hb. split; [done|by apply Hone].
  - intros _ Hb n s es Hn Hs Henv. rewrite Hn, Hs, Henv in Hb. cbn in Hb. rewrite accepted_offer in Hb. by apply is_Ok_unit.
Qed.

Lemma in_orderb_in_order w a : True → in_orderb w a = true → in_order w a.
Proof.
  intros _. destruct a; try done. cbn [in_orderb in_order]. intros Hb g' k es t t' Hg Hl Ho.
  rewrite Hg, Hl, Ho in Hb. by apply Nat.leb_le.
Qed.

Lemma alongb_along (U : action → Prop) (Pb : World B → action → bool) (P : World B → action → Prop) acts :
  (∀ w a, U a → Pb w a = true → P w a) → ∀ w, Forall U acts → alongb Pb w acts = true → along ends P w acts.
Proof.
  intros HP. induction acts as [|a acts IH]; intros w HF; cbn [alongb along]; [done|]. apply Forall_cons in HF as [Ha HF].
  intros [Hc Hr]%andb_true_iff. split; [by apply HP|]. destruct (step ends w a); [by apply IH|done].
Qed.

Lemma quietb_quiet w x : quietb w x = true → quiet w x.
Proof.
  intros Hq g Hg Hx. unfold quietb in Hq. rewrite forallb_forall in Hq. specialize (Hq g (proj1 (list_elem_of_In _ _) Hg)).
  rewrite bool_decide_true in Hq by done. done.
Qed.

Lemma lists_live w x n s o f :
  w_nodes w !! x = Some n → catalog (n_proto n) = Some s → lists w x o f = true ↔ live_in s o f.
Proof.
  intros Hn Hs. unfold lists, live_in. rewrite Hn. cbn. rewrite Hs. split.
  - destruct (GetEntry s o f) as [[e|]| |]; try done. intros ?%negb_true_iff. eauto.
  - intros (e & -> & ->). done.
Qed.

Lemma lists_catalog w x o f :
  lists w x o f = true → ∃ n s, w_nodes w !! x = Some n ∧ catalog (n_proto n) = Some s ∧ live_in s o f.
Proof.
  intros Hl. pose proof Hl as Hl'. unfold lists in Hl'. destruct (w_nodes w !! x) as [n|] eqn:Hn; [|done].
  cbn [mbind option_bind] in Hl'. destruct (catalog (n_proto n)) as [s|] eqn:Hc; [|done].
  exists n, s. split_and!; [done|done|]. by apply (lists_live w x n s).
Qed.

Lemma run_app acts acts' (w : World B) : run ends w (acts ++ acts') = (w' ← run ends w acts; run ends w' acts').
Proof.
  revert w. induction acts as [|a acts IH]; intros w; [done|]. cbn [app run]. destruct (step ends w a); [apply IH|done].
Qed.

(** A file circulates when it is listed and nothing is on the way. *)
Definition settledb (w : World B) (R : gset node_id) (prev : node_id → node_id) (f : file_id) : bool :=
  forallb (λ y, lists w y (prev y) f && all_read_from w y (prev y)) (elements R) &&
  forallb (λ g, match g_listed g with None => true | Some _ => false end) (w_threads w).

Lemma settled_circulating w R prev f : settledb w R prev f = true → circulating ends R prev f w.
Proof.
  intros [HR Hth]%andb_true_iff. rewrite forallb_forall in HR, Hth.
  assert (∀ y, y ∈ R → lists w y (prev y) f = true ∧ all_read_from w y (prev y) = true) as HR'.
  { intros y Hy. apply andb_true_iff, HR, list_elem_of_In. by apply elem_of_elements. }
  split.
  - intros y Hy. destruct (HR' y Hy) as [Hl _]. by apply lists_catalog.
  - intros y c i env Hy Hend Hfar Hle Hi _. destruct (HR' y Hy) as [_ Hr]. exfalso. unfold all_read_from in Hr.
    unfold incoming in Hi. rewrite Hfar in Hi. destruct (w_nodes w !! prev y) as [n|]; [|done]. cbn in Hi. unfold sent_on in Hi.
    destruct (wires (n_proto n) !! c) as [u|] eqn:Hu; [|done]. cbn in Hi. rewrite forallb_forall in Hr.
    specialize (Hr (c, u)). rewrite <- list_elem_of_In, elem_of_map_to_list in Hr. specialize (Hr Hu). cbn [fst snd] in Hr.
    rewrite bool_decide_true in Hr by done. apply Nat.leb_le in Hr. apply lookup_lt_Some in Hi. lia.
  - intros y g k es t _ Hg _ _ El. specialize (Hth g (proj1 (list_elem_of_In _ _) Hg)). by rewrite El in Hth.
Qed.

End Eval.

Module Ring.
Import MapBolt CatalogInstance PeerInstance IpcInstance WatcherWitness.
#[local] Existing Instance DaemonWitness.codecs.

Abbreviation TestWorld := (World (gmap bytes bytes)).

Definition ann : node_id := copy_arr 32 (str "ann").
Definition bob : node_id := copy_arr 32 (str "bob").
Definition cleo : node_id := copy_arr 32 (str "cleo").

Definition new_node (x : node_id) : Node (gmap bytes bytes) :=
  mk_Node PeerInstance.new_store (Handler.mk_Handler (Some (CatalogProps.new_store x)) ∅ ∅ true 0)
    NewLocalIndex Ipc.NewServer.
Definition nodes3 : gmap node_id (Node (gmap bytes bytes)) :=
  {[ ann := new_node ann; bob := new_node bob; cleo := new_node cleo ]}.
Definition ends3 (c : nat) : node_id * node_id :=
  match c with 0%nat | 3%nat => (ann, bob) | 1%nat | 4%nat => (bob, cleo) | _ => (cleo, ann) end.
Definition ctx (i : nat) : option error := None.

(** The goroutines [i] and [i + 1] are those of the two ends; they take turns. *)
Definition meet (x y : node_id) (c i : nat) : list action :=
  [Joined x c (fresh_conn []); Accept y c (fresh_conn []) 7; List i c; List (S i) c; Transmit (S i); Transmit i].
Definition take (x : node_id) (c k : nat) : list action := replicate k (Deliver x c ctx clk fs1).

(** Ann shares a file; the three connect in a ring, each reading what it is sent. *)
Definition before : list action :=
  [Write ann clk fs1 modtime path; Copy 0] ++
  meet ann bob 0 1 ++ take bob 0 1 ++ take ann 0 2 ++
  meet bob cleo 1 3 ++ take cleo 1 1 ++ take bob 1 2 ++
  meet cleo ann 2 5 ++ take ann 2 1 ++ take cleo 2 2 ++ take bob 0 1 ++ take cleo 1 1 ++ take ann 2 1.

(** Ann removes the file, and everything is read. *)
Definition removed : list action :=
  [Remove ann clk path; Copy 7; List 7 2; Transmit 7; List 7 0; Transmit 7] ++
  take bob 0 1 ++ take cleo 2 1 ++ take ann 0 1 ++ take ann 2 1.

(** All three disconnect, connect again and read. *)
Definition leave (x y : node_id) (c : nat) : list action := [End x c; End y c].
Definition again : list action :=
  leave ann bob 0 ++ leave bob cleo 1 ++ leave cleo ann 2 ++
  meet ann bob 3 8 ++ meet bob cleo 4 10 ++ meet cleo ann 5 12 ++
  take bob 3 1 ++ take ann 3 2 ++ take cleo 4 1 ++ take bob 4 2 ++ take ann 5 1 ++ take cleo 5 2.

Definition ring3 : gset node_id := {[ ann; bob; cleo ]}.
Definition prev3 (x : node_id) : node_id :=
  if decide (x = ann) then cleo else if decide (x = bob) then ann else bob.

(** What holds after each part. *)
Definition evaluated (f : file_id) : bool :=
  alongb ends3 (cleanb ends3) (start nodes3) before && alongb ends3 in_orderb (start nodes3) before &&
  match run ends3 (start nodes3) before with
  | Some w0 =>
      (lists w0 ann ann f && lists w0 bob ann f && lists w0 cleo bob f) &&
      forallb (λ p, bool_decide (p ∈ w_serving w0)) [(ann, 0%nat); (bob, 0%nat)] && all_read ends3 w0 bob 0 &&
      quietb w0 ann &&
      match run ends3 w0 removed with
      | Some w1 =>
          settledb ends3 w1 ring3 prev3 f && forallb (λ x, negb (lists w1 x x f)) [ann; bob; cleo] &&
          match run ends3 w1 again with Some _ => true | None => false end
      | None => false
      end
  | None => false
  end.

Lemma evaluation : evaluated (Sum256 old) = true.
Proof. by vm_compute. Qed.

Lemma fresh3 x n : nodes3 !! x = Some n → fresh_node x n.
Proof.
  assert (∀ y, fresh_node y (new_node y)) as Hnew.
  { intros y. split_and!; [done|done|]. exists (CatalogProps.new_store y). split; [done|apply reach_new]. }
  unfold nodes3. intros [[<- <-]|[_ [[<- <-]|[_ [<- <-]%lookup_singleton_Some]]%lookup_insert_Some]]%lookup_insert_Some;
    apply Hnew.
Qed.

Lemma unfailing_before : Forall unfailing before.
Proof. repeat constructor. Qed.

(** The world before the removal. *)
Lemma ring_before : ∃ w0, run ends3 (start nodes3) before = Some w0 ∧
  (along ends3 (clean ends3) (start nodes3) before ∧ along ends3 in_order (start nodes3) before) ∧
  (lists w0 ann ann (Sum256 old) = true ∧ lists w0 bob ann (Sum256 old) = true ∧ lists w0 cleo bob (Sum256 old) = true) ∧
  (ann, 0%nat) ∈ w_serving w0 ∧ (bob, 0%nat) ∈ w_serving w0 ∧ all_read ends3 w0 bob 0 = true ∧ quiet w0 ann.
Proof.
  pose proof evaluation as Hev. unfold evaluated in Hev. apply andb_true_iff in Hev as [[Hcl Hor]%andb_true_iff Hev].
  destruct (run ends3 (start nodes3) before) as [w0|]; [|discriminate Hev]. exists w0.
  apply andb_true_iff in Hev as [[[[[[Ha Hb]%andb_true_iff Hc]%andb_true_iff Hs]%andb_true_iff Hr]%andb_true_iff Hq]%andb_true_iff _].
  rewrite forallb_forall in Hs. refine (conj eq_refl (conj (conj _ _) (conj (conj Ha (conj Hb Hc)) (conj _ (conj _ (conj Hr _)))))).
  - exact (alongb_along ends3 unfailing _ _ before (cleanb_clean ends3) _ unfailing_before Hcl).
  - exact (alongb_along ends3 (λ _, True) _ _ before in_orderb_in_order _ (Forall_true _ _ (λ _, I)) Hor).
  - exact (proj1 (bool_decide_eq_true _) (Hs (ann, 0%nat) (or_introl eq_refl))).
  - exact (proj1 (bool_decide_eq_true _) (Hs (bob, 0%nat) (or_intror (or_introl eq_refl)))).
  - exact (quietb_quiet _ _ Hq).
Qed.

(** The worlds after the removal. *)
Lemma ring_removed : ∃ w1 w2, run ends3 (start nodes3) (before ++ removed) = Some w1 ∧ run ends3 w1 again = Some w2 ∧
  circulating ends3 ring3 prev3 (Sum256 old) w1 ∧
  forallb (λ x, negb (lists w1 x x (Sum256 old))) [ann; bob; cleo] = true.
Proof.
  pose proof evaluation as Hev. unfold evaluated in Hev. apply andb_true_iff in Hev as [_ Hev].
  pose proof (run_app ends3 before removed (start nodes3)) as Happ.
  destruct (run ends3 (start nodes3) before) as [w0|]; [|discriminate Hev]. cbn [mbind option_bind] in Happ.
  apply andb_true_iff in Hev as [_ Hev]. destruct (run ends3 w0 removed) as [w1|]; [|discriminate Hev].
  apply andb_true_iff in Hev as [[Hset Hown]%andb_true_iff Hev].
  destruct (run ends3 w1 again) as [w2|] eqn:H2; [|discriminate Hev].
  exact (ex_intro _ w1 (ex_intro _ w2 (conj Happ (conj H2 (conj (settled_circulating ends3 w1 _ _ _ Hset) Hown))))).
Qed.

Lemma ring_prev3 : ring ring3 prev3.
Proof.
  assert (forallb (λ y, bool_decide (prev3 y ∈ ring3 ∧ prev3 y ≠ y ∧ prev3 (prev3 y) ≠ y)) (elements ring3) = true) as Hb
    by (by vm_compute).
  intros y Hy. rewrite forallb_forall in Hb. apply elem_of_elements, list_elem_of_In in Hy.
  exact (proj1 (bool_decide_eq_true _) (Hb y Hy)).
Qed.

(** ** Witnesses *)

(** Ann has removed the file, and nobody shares it; after everybody has connected again it
    is still listed. *)
Lemma listed_file_persists_witness :
  ∃ w1 w2, run ends3 (start nodes3) (before ++ removed) = Some w1 ∧ run ends3 w1 again = Some w2 ∧
    forallb (λ x, negb (lists w1 x x (Sum256 old))) [ann; bob; cleo] = true ∧
    ∀ y, y ∈ ring3 → ∃ n s, w_nodes w2 !! y = Some n ∧ catalog (n_proto n) = Some s ∧ live_in s (prev3 y) (Sum256 old).
Proof.
  destruct ring_removed as (w1 & w2 & H1 & H2 & HC & Hown).
  refine (ex_intro _ w1 (ex_intro _ w2 (conj H1 (conj H2 (conj Hown _))))).
  exact (proj2 (listed_file_persists ends3 nodes3 (before ++ removed) again w1 w2 ring3 prev3 (Sum256 old) fresh3 H1 ring_prev3 HC H2)).
Defined.

Lemma nothing_at_start y m s o f e :
  nodes3 !! y = Some m → catalog (n_proto m) = Some s → GetEntry s o f = Ok (Some e) → False.
Proof.
  unfold nodes3.
  intros [[<- <-]|[_ [[<- <-]|[_ [<- <-]%lookup_singleton_Some]]%lookup_insert_Some]]%lookup_insert_Some; intros [= <-]; done.
Qed.

Lemma entries_come_from_folders_witness :
  ∃ w, run ends3 (start nodes3) before = Some w ∧ ∃ y, (y, Sum256 old) ∈ w_born w.
Proof.
  destruct ring_before as (w0 & H0 & _ & (_ & _ & Hl) & _). exists w0. split; [exact H0|].
  destruct (lists_catalog _ _ _ _ Hl) as (n & s & Hn & Hc & e & He & _).
  destruct (entries_come_from_folders ends3 nodes3 before w0 cleo n s bob (Sum256 old) e fresh3 H0 Hn Hc He)
    as [Hy|(y & m & s1 & o1 & e1 & Hm & Hs1 & He1)]; [exact Hy|destruct (nothing_at_start _ _ _ _ _ _ Hm Hs1 He1)].
Defined.

Lemma far_bob : far ends3 ann 0 = bob.
Proof. apply (bool_decide_unpack _). by vm_compute. Qed.


(** Ann has a connection with Bob and has listed her empty catalog for it. *)
Definition ann1 : Node (gmap bytes bytes) :=
  mk_Node PeerInstance.new_store
    (Handler.mk_Handler (Some (CatalogProps.new_store ann)) {[ bob := 0%nat ]} {[ 0%nat := fresh_conn [] ]} true 0)
    NewLocalIndex Ipc.NewServer.
Definition bob1 : Node (gmap bytes bytes) :=
  mk_Node PeerInstance.new_store
    (Handler.mk_Handler (Some (CatalogProps.new_store bob)) {[ ann := 0%nat ]} {[ 0%nat := fresh_conn [] ]} true 0)
    NewLocalIndex Ipc.NewServer.

Lemma clear_peer (s : Catalog.Store (gmap bytes bytes)) p : fst (PutPeerEntries clk s p []) = Ok tt.
Proof.
  unfold PutPeerEntries, Catalog.Update, db_Update, deleteByPrefix.
  pose proof (delete_keys_Ok (Catalog.entries s) (scan_prefix (bucket_items (Catalog.entries s)) (arr_bytes p))) as Hdel.
  by destruct (delete_keys _ _).
Qed.

Lemma registered1 : registered_works (far ends3 ann) ann1.
Proof.
  intros p k Hk. change (({[ bob := 0%nat ]} : gmap node_id nat) !! p = Some k) in Hk. apply lookup_singleton_Some in Hk as [<- <-]. split; [apply far_bob|]. exists (fresh_conn []). done.
Qed.

Lemma far_ann : far ends3 bob 0 = ann.
Proof. apply (bool_decide_unpack _). by vm_compute. Qed.

Lemma ann_ne_bob : ann ≠ bob.
Proof. apply (bool_decide_unpack _). by vm_compute. Qed.

Lemma indexed1 : fst (indexFile clk fs1 modtime (mk_Watcher (CatalogProps.new_store ann) NewLocalIndex ∅ 0) path) = Ok tt.
Proof. by vm_compute. Qed.

Lemma offers_overtake_witness :
  let n1 := file_written (far ends3 ann) clk fs1 modtime ann1 path in
  let h2 := snd (conn_Send (n_proto n1) 0 (catalog_offer [])) in
  (∃ s1, catalog h2 = Some s1 ∧ live_in s1 ann (Sum256 old)) ∧
  ∃ es1, wires h2 !! 0%nat = Some (deliver (fresh_conn []) [catalog_offer es1; catalog_offer []]) ∧
    let n2 := message (far ends3 bob) ctx clk fs1 bob1 0 (catalog_offer es1) in
    ∃ t', catalog (n_proto (message (far ends3 bob) ctx clk fs1 n2 0 (catalog_offer []))) = Some t' ∧
      ¬ live_in t' ann (Sum256 old).
Proof.
  destruct (offers_overtake ends3 ann bob 0 clk clk clk ctx fs1 fs1 fs1 modtime path old ann1 bob1
    (CatalogProps.new_store ann) (CatalogProps.new_store bob) (fresh_conn []) (fresh_conn []) []) as (_ & H1 & es1 & H2 & H3).
  - apply reach_new.
  - reflexivity.
  - exact registered1.
  - exact far_bob.
  - exact ann_ne_bob.
  - reflexivity.
  - reflexivity.
  - reflexivity.
  - done.
  - reflexivity.
  - exact indexed1.
  - intros o (e & He & _). discriminate He.
  - apply reach_new.
  - reflexivity.
  - exact far_ann.
  - reflexivity.
  - done.
  - destruct (dispatch_effect (far ends3 bob) fs1 NewLocalIndex ctx clk any_op bob (n_proto bob1) (CatalogProps.new_store bob) 0
      (catalog_offer es1) (reach_new any_op bob) eq_refl (λ _, I)) as (t & Ht & _).
    refine (conj H1 (ex_intro _ es1 (conj H2 (H3 t _ (clear_peer t ann))))). rewrite message_proto. exact Ht.
Defined.

End Ring.
