(* ===== verification/Boot.v ===== *)
(** The start of a node: how [daemon.Run] puts the components together, from
    [daemon.go], [handler.go] and the constructors of the packages, and what the node has
    told its peers when the watcher's initial scan is over, which interleaves with the
    connections that are already accepted and with their messages. *)

From S2P Require Import Prelude GoStd Wire Codec Bolt Catalog CatalogSpec CatalogProps Peerstore Crypto Sha256 Path Fs Transfer TransferProps Handler HandlerProps Identity Transport Endpoint Exchange Watcher Folder Connmgr Ipc Daemon Node Cluster Converge Circulate.

(** * Construction *)

(** [daemon.Daemon]; [d_ReadyCh] is whether somebody waits for the start. *)
Record Daemon := mk_Daemon {
  d_cfgDir : bytes;
  d_sharedDir : bytes;
  d_listenAddr : bytes;
  d_relayAddr : bytes;
  d_Embedded : bool;
  d_ReadyCh : bool
}.

Definition New (cfgDir sharedDir listenAddr relayAddr : bytes) : Daemon := {|
  d_cfgDir := cfgDir; d_sharedDir := sharedDir; d_listenAddr := listenAddr; d_relayAddr := relayAddr;
  d_Embedded := false; d_ReadyCh := false
|}.

(** [transfer.Sender]: the index it serves from. *)
Record Sender := mk_Sender { sender_idx : LocalIndex }.

Definition NewSender (idx : LocalIndex) : Sender := mk_Sender idx.

(** [protocol.NewHandler] and [SetOnCatalogUpdate]. *)
Definition proto_NewHandler {C} (cat : option C) : Handler.Handler C :=
  Handler.mk_Handler cat ∅ ∅ false 0.

Definition SetOnCatalogUpdate {C} (h : Handler.Handler C) : Handler.Handler C :=
  Handler.mk_Handler (catalog h) (conns h) (wires h) true (updates h).

(** [watcher.New], with the timers that its loop begins with. *)
Definition newDebouncer : timers := ∅.

Definition watcher_New {B} (cat : Catalog.Store B) (idx : LocalIndex) : Watcher B :=
  mk_Watcher cat idx newDebouncer 0.

Section Boot.
Context {B : Type} `{Bolt B} `{JsonCodec Peer} `{JsonCodec Entry} `{JsonCodec (list OwnerHint)}.
Context `{JsonCodec Event} `{IpcCodecs}.

(** [daemon.HandlerConfig] and [daemon.NewHandler]. *)
Record HandlerConfig := mk_HandlerConfig {
  hc_ID : Identity;
  hc_Store : Peerstore.Store B;
  hc_Catalog : Catalog.Store B;
  hc_Net : Network;
  hc_ListenAddr : bytes;
  hc_SharedDir : bytes;
  hc_RelayAddr : bytes
}.

Definition NewHandler (cfg : HandlerConfig) : Daemon.Handler B := {|
  h_id := hc_ID cfg; h_store := hc_Store cfg; h_catalog := hc_Catalog cfg; h_net := hc_Net cfg;
  h_listenAddr := hc_ListenAddr cfg; h_sharedDir := hc_SharedDir cfg; h_relayAddr := hc_RelayAddr cfg;
  h_joined := []
|}.

(** The control handler and the node that [Run] makes of what it has opened; [addr] is the
    listener's address. *)
Definition assemble (d : Daemon) (net : Network) (addr : bytes) (st : Started (B := B)) :
    Daemon.Handler B * Node B :=
  let sender := NewSender (st_index st) in
  let protoHandler := proto_NewHandler (Some (st_catalog st)) in
  let ipcHandler := NewHandler {|
    hc_ID := st_id st; hc_Store := st_store st; hc_Catalog := st_catalog st; hc_Net := net;
    hc_ListenAddr := addr; hc_SharedDir := d_sharedDir d; hc_RelayAddr := d_relayAddr d |} in
  (ipcHandler,
   mk_Node (st_store st) (SetOnCatalogUpdate protoHandler) (sender_idx sender) Ipc.NewServer).

(** What [Run] prints; nothing when it is embedded in the interface. *)
Definition start_banner (d : Daemon) (id : Identity) (addr : bytes) : list bytes :=
  if d_Embedded d then []
  else [str "kin running"; str "  NodeID: " ++ NodeIDHex id; str "  Listen: " ++ addr;
        str "  Shared: " ++ d_sharedDir d] ++
       (if bool_decide (d_relayAddr d = []) then [] else [str "  Relay:  " ++ d_relayAddr d]).

End Boot.
Arguments HandlerConfig : clear implicits.

(** The database of the catalog is new, or an earlier run of this node has left it. *)
Definition previous {B} `{Bolt B} `{JsonCodec Entry} `{JsonCodec (list OwnerHint)} (self : node_id)
    (disk : outcome (option B * option B)) : Prop :=
  disk = Ok (None, None) ∨
  ∃ s, reachable any_op self s ∧ disk = Ok (Some (Catalog.entries s), Some (availability s)).

(** * The scan in a cluster *)

(** The paths that the watcher of [self] comes to. *)
Definition indexed (self : node_id) (acts : list Cluster.action) : list bytes :=
  omap (λ a, match a with Write y _ _ _ p => if decide (y = self) then Some p else None | _ => None end) acts.

(** The folder of [self] stays as it is in [fs]. *)
Definition folder_stays (self : node_id) (fs : FS) (a : Cluster.action) : Prop :=
  match a with
  | Write y _ fs' _ _ => y = self → fs' = fs
  | Remove y _ _ => y ≠ self
  | _ => True
  end.

Section Facts.
Context {B : Type} `{BoltLaws B} `{JPeer : JsonCodec Peer} `{CatalogJson} `{JEv : JsonCodec Event} `{IpcCodecs}.
Context (ends : nat → node_id * node_id) (self : node_id) (fs : FS).
Implicit Types (n : Node B) (w : World B) (F : file_id → Prop).

Lemma Run_opened `{Ed25519} `{CertOps} (x : Surroundings (B := B)) cfgDir sharedDir st log :
  Run x cfgDir sharedDir = (Ok st, log) →
  Catalog.Open (sur_catalog x) (Id_NodeID (st_id st)) = Ok (st_catalog st).
Proof.
  unfold Run, start_step, opening, logged, NewServer.
  destruct (LoadOrGenerate _ _ _) as [[id| |] fs1]; [|done|done].
  destruct (Peerstore.Open _) as [store| |]; [|done|done].
  destruct (MkdirAll fs1 sharedDir) as [[[]| |] fs']; [|done|done].
  destruct (Catalog.Open _ _) as [cat| |] eqn:Hc; [|done|done].
  destruct (Scan _ _ _) as [[[]| |] idx]; [| |done].
  all: destruct (Listen _ _ _ _) as [[l| |] udp]; [|done|done].
  all: destruct (sur_stale x); [|done|done].
  all: destruct (sur_bind x); [|done|done].
  all: destruct (sur_chmod x); [|done|done].
  all: by intros [= <- _].
Qed.

Lemma Open_reachable disk s :
  previous self disk → Catalog.Open disk self = Ok s → reachable any_op self s.
Proof.
  unfold Catalog.Open. intros [->|(s0 & Hr & ->)]; cbn [wrap default]; destruct (tx_commit _ _); try done;
    cbn [wrap]; intros [= <-]; [apply reach_new|].
  pose proof (proj1 (reachable_abs _ _ _ Hr)) as Hid. destruct s0 as [eb ab id]. cbn [selfID Catalog.entries availability] in *. by subst id.
Qed.

(** The node shares the files [F]: it lists them as its own, and its index leads to them. *)
Definition shares F n : Prop :=
  (∃ s, catalog (n_proto n) = Some s ∧ ∀ h, F h → live_in s self h) ∧ ∀ h, F h → served fs (n_index n) h.

Lemma shares_same F n n' :
  shares F n → n_index n' = n_index n →
  (∀ s, catalog (n_proto n) = Some s → ∃ s', catalog (n_proto n') = Some s' ∧ same_own self s' s) → shares F n'.
Proof.
  intros [(s & Hc & Hl) Hi] Hix Hs. split; [|by rewrite Hix]. destruct (Hs s Hc) as (s' & Hc' & Hsame).
  exists s'. split; [done|]. intros h Hh. eapply live_in_eq; [apply Hsame|by apply Hl].
Qed.

Lemma shares_catalog F n n' :
  shares F n → n_index n' = n_index n → catalog (n_proto n') = catalog (n_proto n) → shares F n'.
Proof. intros Hs Hi Hc. eapply shares_same; [done|done|]. intros s Hs'. exists s. by rewrite Hc. Qed.

Definition sharing F w : Prop := ∃ n, w_nodes w !! self = Some n ∧ shares F n.

Lemma sharing_put F w w' x n n' :
  sharing F w → w_nodes w !! x = Some n → w_nodes w' = <[x := n']> (w_nodes w) →
  (x = self → shares F n → shares F n') → sharing F w'.
Proof.
  intros (m & Hm & Hs) Hn Hw Hx. unfold sharing. rewrite Hw. destruct (decide (x = self)) as [->|Hne].
  - exists n'. rewrite lookup_insert_eq. split; [done|]. apply Hx; [done|congruence].
  - exists m. by rewrite lookup_insert_ne.
Qed.

(** The scan comes to a file. *)
Lemma index_shares F clk modtime n s p content :
  reachable any_op self s → catalog (n_proto n) = Some s → faultless fs → nodes fs !! p = Some (File content) →
  fst (indexFile clk fs modtime (mk_Watcher s (n_index n) ∅ 0) p) = Ok tt → shares F n →
  shares (λ h, F h ∨ h = Sum256 content) (snd (watched n (λ v, indexFile clk fs modtime v p))).
Proof.
  intros Hr Hc Hf Hn Hok [(s0 & Hc0 & Hl) Hi]. rewrite Hc in Hc0. injection Hc0 as <-.
  rewrite (watched_eq n s _ Hc). destruct (indexFile clk fs modtime (mk_Watcher s (n_index n) ∅ 0) p) as [r v'] eqn:E.
  cbn [fst snd] in *. subst r.
  destruct (indexFile_success self clk fs modtime (mk_Watcher s (n_index n) ∅ 0) p content v' Hr Hf Hn E) as (_ & Hix & Hget & Hrest).
  split; cbn [n_proto n_index].
  - exists (w_catalog v'). split; [done|]. intros h Hh. destruct (decide (h = Sum256 content)) as [->|Hne]; [by eexists|].
    destruct Hh as [Hh|?]; [|done]. eapply live_in_eq; [|by apply Hl]. apply Hrest. congruence.
  - intros h Hh. rewrite Hix. apply AddWithHash_served; [by apply hashFile_content|]. destruct Hh as [?| ->]; auto.
Qed.

(** What the scan comes to that is no file is skipped. *)
Lemma index_skips clk modtime n s p :
  catalog (n_proto n) = Some s → faultless fs → (∀ content, nodes fs !! p ≠ Some (File content)) →
  n_index (snd (watched n (λ v, indexFile clk fs modtime v p))) = n_index n ∧
  catalog (n_proto (snd (watched n (λ v, indexFile clk fs modtime v p)))) = catalog (n_proto n).
Proof.
  intros Hc Hf Hn. rewrite (watched_eq n s _ Hc). cbn [n_index n_proto snd]. unfold indexFile, Stat, Fs.attempt.
  rewrite Hf. destruct (nodes fs !! p) as [[c| |]|]; [by destruct (Hn c)|..]; done.
Qed.

Definition more F (a : Cluster.action) (h : file_id) : Prop :=
  F h ∨ ∃ p content, p ∈ indexed self [a] ∧ nodes fs !! p = Some (File content) ∧ h = Sum256 content.

Lemma more_write clk modtime path h :
  (∃ p content, p ∈ indexed self [Write self clk fs modtime path] ∧ nodes fs !! p = Some (File content) ∧ h = Sum256 content) →
  ∃ content, nodes fs !! path = Some (File content) ∧ h = Sum256 content.
Proof.
  intros (p & c & Hin & ?). cbn in Hin. rewrite decide_True in Hin by done. apply list_elem_of_singleton in Hin as ->. by exists c.
Qed.

Lemma shares_mono F F' n : (∀ h, F' h → F h) → shares F n → shares F' n.
Proof. intros HF [(s & Hc & Hl) Hi]. split; [exists s; split; [done|]|]; auto. Qed.

Lemma write_sharing nodes0 F w x clk modtime fs' path w' :
  PInv nodes0 w → clean ends w (Write x clk fs' modtime path) → (x = self → fs' = fs) →
  watcher_step w x (λ v, indexFile clk fs' modtime v path) = Some w' → sharing F w →
  sharing (more F (Write x clk fs' modtime path)) w'.
Proof.
  intros HI [Hf Hok] Hst (n & Hn & E)%bind_Some (m & Hm & Hs).
  destruct (watched n _) as [k n'] eqn:Ek. injection E as <-. unfold sharing. cbn [spawn with_threads put_node w_nodes].
  destruct (decide (x = self)) as [->|Hne].
  - rewrite (Hst eq_refl) in *. rewrite Hn in Hm. injection Hm as <-. exists n'. rewrite lookup_insert_eq. split; [done|].
    destruct (no_catalog _ _ _ (pi_nodes _ _ HI _ n Hn)) as (s & Hc & Hr & _).
    assert (n' = snd (watched n (λ v, indexFile clk fs modtime v path))) as -> by (by rewrite Ek).
    assert ((∀ content, nodes fs !! path ≠ Some (File content)) →
      shares (more F (Write self clk fs modtime path)) (snd (watched n (λ v, indexFile clk fs modtime v path)))) as Hskip.
    { intros Hno. destruct (index_skips clk modtime n s path Hc Hf Hno) as [Hi Hc'].
      eapply shares_mono; [|by eapply shares_catalog]. intros h [?|(c & Hpc & _)%more_write]; [done|by destruct (Hno c)]. }
    destruct (nodes fs !! path) as [[content| |]|] eqn:Hp; [|by apply Hskip..].
    eapply shares_mono; [|exact (index_shares F clk modtime n s path content Hr Hc Hf Hp (Hok n s Hn Hc) Hs)].
    intros h [?|(c & Hpc & ->)%more_write]; [by left|right; congruence].
  - exists m. rewrite lookup_insert_ne by done. split; [done|]. eapply shares_mono; [|exact Hs].
    intros h [?|(p & c & Hin & _)]; [done|]. cbn in Hin. rewrite decide_False in Hin by done. by apply elem_of_nil in Hin.
Qed.

Lemma message_index PeerID ctx clk fs' n k env : n_index (message PeerID ctx clk fs' n k env) = n_index n.
Proof.
  unfold message. generalize (updates (serve_message (H := store_exchanger clk) PeerID fs' (n_index n) ctx (n_proto n) k env)
    - updates (n_proto n))%nat as u. induction u as [|u IH]; [done|]. exact IH.
Qed.

Lemma accepted_index PeerID now n k n' : accepted_conn PeerID now n k = Ok n' → n_index n' = n_index n.
Proof.
  unfold accepted_conn. destruct (UpdateLastSeen now (n_store n) (PeerID k)) as [r st'].
  destruct r; try done; by intros [= <-].
Qed.

(** Nothing but the scan changes what the node shares. *)
Lemma other_sharing nodes0 F w a w' :
  PInv nodes0 w → (∀ x c, (x, c) ∈ w_serving w → far ends x c ≠ x) → folder_stays self fs a →
  act ends w a = Some w' → sharing F w → match a with Write _ _ _ _ _ => True | _ => sharing F w' end.
Proof.
  intros HI Hfar Hst.
  destruct a as [x clk fs' modtime path|x clk path|x c u now|x c u|i|i k|i|x c ctx clk fs'|x c]; cbn [act]; [done|..].
  - intros (n & Hn & Ew)%bind_Some HS. destruct (watched n _). injection Ew as <-.
    eapply sharing_put; [done|exact Hn|reflexivity|]. by intros ->.
  - intros (n & Hn & E)%bind_Some HS. destruct (can_begin ends x c u n); [|done].
    destruct (accepted_conn _ _ _ _) as [n1| |] eqn:Ea; [|done|done]. injection E as <-.
    pose proof (accepted_index _ _ _ _ _ Ea) as Hi. apply accepted_proto in Ea.
    eapply sharing_put; [done|exact Hn|reflexivity|]. intros _ Hs. eapply shares_catalog; [exact Hs|exact Hi|by cbn; rewrite Ea].
  - intros (n & Hn & E)%bind_Some HS. destruct (can_begin ends x c u n); [|done]. injection E as <-.
    eapply sharing_put; [done|exact Hn|reflexivity|]. intros _ Hs. by eapply shares_catalog.
  - intros (g & Hg & (n & Hn & E)%bind_Some)%bind_Some HS. destruct (g_copy g); [|done]. injection E as <-.
    eapply sharing_put; [done|exact Hn|reflexivity|]. intros _ Hs. by eapply shares_catalog.
  - intros (g & Hg & (n & Hn & (s & Hc & E)%bind_Some)%bind_Some)%bind_Some HS. destruct (_ && _); [|done].
    destruct (ListForPeer _ _); [| |done]; by injection E as <-.
  - intros (g & Hg & (n & Hn & ([[k es] t] & El & E)%bind_Some)%bind_Some)%bind_Some HS.
    destruct (conn_Send_frame (n_proto n) k (catalog_offer es)) as [Hcat _].
    destruct (conn_Send (n_proto n) k (catalog_offer es)) as [res h]. cbn [snd] in Hcat.
    eapply (sharing_put F w w' (g_node g) n (with_proto n h)); [done|exact Hn|injection E as <-; by destruct res|].
    intros _ Hs. by eapply shares_catalog.
  - intros (n & Hn & (env & Henv & E)%bind_Some)%bind_Some HS. destruct (in_loop w x c) eqn:Hl; [|done]. injection E as <-.
    eapply sharing_put; [done|exact Hn|reflexivity|]. intros -> Hs.
    destruct (no_catalog _ _ _ (pi_nodes _ _ HI _ n Hn)) as (s & Hc & Hr & _).
    destruct (dispatch_effect (far ends self) fs' (n_index n) ctx clk any_op self (n_proto n) s c env Hr Hc) as (s' & Hc' & _ & Hiso & _); [done|].
    eapply shares_same; [exact Hs|apply message_index|]. intros s1 Hs1. rewrite Hc in Hs1. injection Hs1 as <-.
    exists s'. split; [by rewrite message_proto|]. intros h. apply Hiso. apply not_eq_sym, Hfar. by apply in_loop_serving.
  - intros (n & Hn & E)%bind_Some HS. destruct (in_loop w x c); [|done]. injection E as <-.
    eapply sharing_put; [done|exact Hn|reflexivity|]. intros _ Hs. by eapply shares_catalog.
Qed.

Lemma indexed_cons a acts p : p ∈ indexed self (a :: acts) ↔ p ∈ indexed self [a] ∨ p ∈ indexed self acts.
Proof. unfold indexed. rewrite !list_elem_of_omap. setoid_rewrite elem_of_cons. setoid_rewrite elem_of_nil. naive_solver. Qed.

Lemma CInv_far w x c : CInv ends (λ _ _, True) w → (x, c) ∈ w_serving w → far ends x c ≠ x.
Proof. intros [HS HI] Hc. destruct (HS x c Hc) as [n Hn]. by apply (ni_end _ _ _ _ _ (proj1 (HI x n Hn)) c). Qed.

Lemma step_sharing nodes0 F w a w' :
  PInv nodes0 w → CInv ends (λ _ _, True) w → clean ends w a → folder_stays self fs a → step ends w a = Some w' →
  sharing F w → sharing (more F a) w'.
Proof.
  intros HI HC Hcl Hst (w1 & E & ->)%fmap_Some HS. enough (sharing (more F a) w1) by done.
  pose proof (other_sharing nodes0 F w a w1 HI (λ x c, CInv_far w x c HC) Hst E HS) as Hother.
  destruct a as [x clk fs' modtime path|x clk path|x c u now|x c u|i|i k|i|x c ctx clk fs'|x c].
  1: { cbn [act] in E. apply bind_Some in E as (w2 & Ew & E).
    pose proof (write_sharing nodes0 F w x clk modtime fs' path w2 HI Hcl Hst Ew HS) as HS'. injection E as <-.
    by destruct (watcher_hashFile fs' path). }
  all: destruct Hother as (n & Hn & Hs); exists n; (split; [done|]); (eapply shares_mono; [|exact Hs]);
    intros h [?|(p & c' & Hin & _)]; [done|cbn in Hin; by apply elem_of_nil in Hin].
Qed.

Lemma run_sharing nodes0 acts : ∀ F w w',
  PInv nodes0 w → CInv ends (λ _ _, True) w → along ends (clean ends) w acts → along ends in_order w acts →
  Forall (folder_stays self fs) acts → run ends w acts = Some w' → sharing F w →
  CInv ends (λ _ _, True) w' ∧
  sharing (λ h, F h ∨ ∃ p content, p ∈ indexed self acts ∧ nodes fs !! p = Some (File content) ∧ h = Sum256 content) w'.
Proof.
  induction acts as [|a acts IH]; intros F w w' HI HC; cbn [run along].
  { intros _ _ _ [= <-] (n & Hn & Hs). split; [done|]. exists n. split; [done|]. eapply shares_mono; [|exact Hs].
    intros h [?|(p & c & Hin & _)]; [done|by apply elem_of_nil in Hin]. }
  intros [Hcl Hcr] [Hor Horr] [Hst HF]%Forall_cons (w1 & Ea & Er)%bind_Some HS. rewrite Ea in Hcr, Horr.
  assert (CInv ends (λ _ _, True) w1) as HC1 by (by eapply step_CInv).
  assert (PInv nodes0 w1) as HI1 by (by eapply step_PInv).
  destruct (IH (more F a) w1 w' HI1 HC1 Hcr Horr HF Er) as [HC' (n & Hn & Hs)]; [exact (step_sharing nodes0 F w a w1 HI HC Hcl Hst Ea HS)|].
  split; [done|]. exists n. split; [done|]. eapply shares_mono; [|exact Hs].
  intros h [?|(p & c & Hin & Hpc)]; [by left; left|]. apply indexed_cons in Hin as [Hin|Hin].
  - left. right. by exists p, c.
  - right. by exists p, c.
Qed.

Lemma hashFile_file path h :
  faultless fs → hashFile fs path = Ok h → ∃ c, nodes fs !! path = Some (File c) ∧ Sum256 c = h.
Proof.
  intros Hf. unfold hashFile, os_Open, ReadAll, Fs.attempt. rewrite Hf.
  destruct (nodes fs !! path) as [[c| |]|]; simpl; rewrite ?Hf; simpl; try done. intros [= <-]. by exists c.
Qed.

(** A live entry of this node is in the offer to any other. *)
Lemma offer_lists s h y es :
  reachable any_op self s → live_in s self h → self ≠ y → ListForPeer s y = Ok es →
  ∃ e, e ∈ es ∧ Entry_FileID e = h ∧ Entry_OwnerNodeID e = self.
Proof.
  intros Hr (e & He & Hd) Hy Hes. destruct (ListForPeer_elems any_op self s y Hr) as (l & Hl & Hin).
  rewrite Hes in Hl. injection Hl as <-. apply reachable_abs in Hr as (_ & a & HA & HI & _). pose proof He as He'.
  rewrite (GetEntry_abs _ _ _ _ HA) in He'. injection He' as He'. destruct (inv_stored _ HI _ _ _ He') as (Ho & Hfid & _).
  exists e. split_and!; [apply Hin; rewrite Ho, Hfid; done|done|done].
Qed.

End Facts.

(** * Properties *)


(** * Witnesses *)

Module BootWitness.
Import MapBolt CatalogInstance PeerInstance IpcInstance ToySig WatcherWitness Ring.
#[local] Existing Instance DaemonWitness.codecs.
#[local] Existing Instance EndpointWitness.x509.
#[local] Existing Instance EndpointWitness.certs.

(** A new node with one file in its folder; Bob connects before the scan, and the first
    offer is listed before the file is indexed. *)
Definition seed : bytes := replicate 32 Byte.x07.
Definition net1 : Net :=
  mk_Net (λ a, Ok a) (λ _, Ok tt) 7777 (λ _ _, Ok tt) (λ _ _ _, Err io_EOF).
Definition x0 : Surroundings (B := gmap bytes bytes) :=
  mk_Surroundings (mk_FS {[ str "/c" := Dir ]} (λ _, None)) (Ok seed) (Ok (None, None)) (Ok (None, None)) []
    (str ":7777") 0 net1 (Ok tt) (Ok tt) (Ok tt).
Definition d0 : Daemon := New (str "/c") (str "/s") (str ":7777") [].
Definition net0 : Network :=
  mk_Network (λ _ _, Err io_EOF) (λ _, Err io_EOF) 7777 (λ _, Ok tt) (λ _, None) (λ _ _, Err io_EOF) (λ _ _, Err io_EOF).
Definition none : Started (B := gmap bytes bytes) :=
  mk_Started {| Id_PrivKey := []; Id_PubKey := []; Id_NodeID := zero_arr 32 |} PeerInstance.new_store
    (CatalogProps.new_store (zero_arr 32)) NewLocalIndex.
Definition st0 : Started (B := gmap bytes bytes) :=
  match fst (Run x0 (d_cfgDir d0) (d_sharedDir d0)) with Ok st => st | _ => none end.
Definition self0 : node_id := Id_NodeID (st_id st0).
Definition log0 : list Node.action := snd (Run x0 (d_cfgDir d0) (d_sharedDir d0)).
Definition walk0 : list (bytes * (node + error)) := [(path, inl (File old))].
Definition nodes0 : gmap node_id (Node (gmap bytes bytes)) :=
  {[ self0 := snd (assemble d0 net0 (str ":7777") st0); bob := new_node bob ]}.
Definition ends0 (c : nat) : node_id * node_id := (bob, self0).
Definition acts0 : list Cluster.action :=
  [Accept self0 0 (fresh_conn []) 7; Joined bob 0 (fresh_conn []); List 0 0; Write self0 clk fs1 modtime path;
   List 1 0; Transmit 1; Copy 2; Transmit 0; Deliver self0 0 ctx clk fs1; List 2 0; Transmit 2].

Lemma run0 : Run x0 (d_cfgDir d0) (d_sharedDir d0) = (Ok st0, log0).
Proof.
  assert (is_Ok (fst (Run x0 (d_cfgDir d0) (d_sharedDir d0))) = true) as Hok by (by vm_compute).
  unfold log0. apply pair_fst. unfold st0. by destruct (fst _).
Qed.

Definition evaluated0 : bool :=
  alongb ends0 (cleanb ends0) (start nodes0) acts0 && alongb ends0 in_orderb (start nodes0) acts0 &&
  bool_decide (bob ≠ self0) && forallb (λ p, bool_decide (p ∈ indexed self0 acts0)) [path] &&
  match run ends0 (start nodes0) acts0 with
  | Some w => quietb w self0 && bool_decide ((self0, 0%nat) ∈ w_serving w)
  | None => false
  end.

Lemma evaluation0 : evaluated0 = true.
Proof. by vm_compute. Qed.

Lemma unfailing0 : Forall unfailing acts0.
Proof. repeat constructor. Qed.

Lemma others0 z m : z ≠ self0 → nodes0 !! z = Some m → fresh_node z m.
Proof.
  intros Hz. unfold nodes0. intros [[<- _]|[_ [<- <-]%lookup_singleton_Some]]%lookup_insert_Some; [done|].
  split_and!; [done|done|]. exists (CatalogProps.new_store bob). split; [done|apply reach_new].
Qed.

Lemma stays0 : Forall (folder_stays self0 fs1) acts0.
Proof. repeat constructor. Qed.

Lemma faultless0 : faultless fs1.
Proof. done. Qed.

Lemma walk_of0 : walk_of fs1 walk0.
Proof. repeat constructor. Qed.

Lemma live0 : live ctx.
Proof. done. Qed.

Lemma scanned0 p c :
  forallb (λ p, bool_decide (p ∈ indexed self0 acts0)) [path] = true → (p, inl (File c)) ∈ walk0 → p ∈ indexed self0 acts0.
Proof.
  intros Hidx [[= -> _]|[]%elem_of_nil]%elem_of_cons. rewrite forallb_forall in Hidx.
  exact (proj1 (bool_decide_eq_true _) (Hidx path (or_introl eq_refl))).
Qed.


End BootWitness.
