(* ===== verification/Cli.v ===== *)
(** The commands of [cmd/kin]: [invite], [join] and [status], each through a running
    daemon or, when there is none, directly on the files of the node; and the catalog
    exchange of a direct join. [try_daemon] is the result of [ipc.TryDaemon] with the
    answers of the daemon; [wire] gives the messages that a dialed connection
    carries; what is printed is the list of lines. *)

From S2P Require Import Prelude GoStd GoText Wire Codec Bolt Crypto Sha256 Catalog Peerstore Invite Identity Path Fs Config Transfer Handler Connmgr Ipc Daemon.

(** How a command ends: the lines printed on standard output, or the message of
    [fatalf], after which the process exits with status 1. *)
Inductive exit := Done (out : list bytes) | Fatal (out : list bytes) (format : string) (err : option error) | Crash.

(** The answers of a running daemon. *)
Record DaemonAnswers := mk_DaemonAnswers {
  ans_Invite : outcome InviteResponse;
  ans_Join : bytes → outcome JoinResponse;
  ans_Status : outcome StatusResponse;
  ans_Peers : outcome PeersResponse
}.

(** * The catalog exchange of a direct join *)

Section Exchange.
Context {B : Type} `{Bolt B} `{JsonCodec Entry} `{JsonCodec (list OwnerHint)}.

Definition sendCatalogOffer (cat : Catalog.Store B) (conn : Transfer.Conn) (peerID : node_id) :
    outcome unit * Transfer.Conn :=
  match wrap "list for peer: %w" (ListForPeer cat peerID) with
  | Ok entries => Send conn (catalog_offer entries)
  | Err e => (Err e, conn)
  | Panic => (Panic, conn)
  end.

(** Errors are only logged; a panic ends the process. *)
Definition handleReceivedOffer (clk : nat → Z) (cat : Catalog.Store B) (conn : Transfer.Conn)
    (peerID : node_id) (offer : CatalogOffer) : outcome unit * Catalog.Store B * Transfer.Conn :=
  let entries := accepted (CatalogOffer_Files offer) in
  let '(res, cat) := PutPeerEntries clk cat peerID entries in
  match res with
  | Panic => (Panic, cat, conn)
  | _ => (Ok tt, cat, snd (Send conn (catalog_ack (len entries))))
  end.

Definition with_inbox (conn : Transfer.Conn) (ms : list (Envelope + error)) : Transfer.Conn :=
  {| inbox := ms; sent := sent conn; send_fault := send_fault conn |}.

(** The receive loop over the messages that arrive; [ctx i] is [ctx.Err()] at its
    [i]-th check. *)
Fixpoint receive_loop (ctx : nat → option error) (i : nat) (clk : nat → Z) (cat : Catalog.Store B)
    (conn : Transfer.Conn) (peerID : node_id) (ms : list (Envelope + error)) :
    outcome unit * Catalog.Store B * Transfer.Conn :=
  match ctx i, ms with
  | Some _, _ => (Ok tt, cat, with_inbox conn ms)
  | None, [] => (Ok tt, cat, with_inbox conn [])
  | None, inr _ :: ms' => (Ok tt, cat, with_inbox conn ms')
  | None, inl env :: ms' =>
      match Payload env with
      | Some (Envelope_CatalogOffer offer) => handleReceivedOffer clk cat (with_inbox conn ms') peerID offer
      | Some (Envelope_CatalogAck _) => receive_loop ctx (S i) clk cat conn peerID ms'
      | _ => (Ok tt, cat, with_inbox conn ms')
      end
  end.

Definition receivePeerCatalog (ctx : nat → option error) (clk : nat → Z) (cat : Catalog.Store B)
    (conn : Transfer.Conn) (peerID : node_id) : outcome unit * Catalog.Store B * Transfer.Conn :=
  receive_loop ctx 0 clk cat conn peerID (inbox conn).

Definition exchangeCatalog (ctx : nat → option error) (clk : nat → Z) (cat : Catalog.Store B)
    (conn : Transfer.Conn) (peerID : node_id) : outcome unit * Catalog.Store B * Transfer.Conn :=
  match sendCatalogOffer cat conn peerID with
  | (Ok _, conn) => receivePeerCatalog ctx clk cat conn peerID
  | (Err _, conn) => (Ok tt, cat, conn)
  | (Panic, conn) => (Panic, cat, conn)
  end.

End Exchange.

(** * The commands *)

Section Commands.
Context {B : Type} `{Bolt B} `{JsonCodec Peer} `{JsonCodec Entry} `{JsonCodec (list OwnerHint)}.
Context `{Ed25519} (err_text : error → bytes).

(** What a command without a daemon finds: the random source of a new identity, the
    databases, the listener, and the network. *)
Record Local := mk_Local {
  loc_fs : FS;
  loc_rand : outcome bytes;
  loc_peers : outcome (option B * option B);
  loc_catalog : outcome (option B * option B);
  loc_listen : outcome unit;
  loc_net : Network;
  loc_wire : Transport.Conn → Transfer.Conn;
  loc_ctx : nat → option error
}.

(** A call whose error is fatal. *)
Definition must {A R} (out : list bytes) (format : string) (r : outcome A) (rest : R)
    (k : A → exit * R) : exit * R :=
  match r with
  | Ok a => k a
  | Err e => (Fatal out format (Some e), rest)
  | Panic => (Crash, rest)
  end.

(** The endpoints of an invite made without a daemon. *)
Definition cli_endpoints (listenAddr relayAddr : bytes) : list bytes :=
  (match SplitHostPort listenAddr with
   | Ok (host, _) =>
       if negb (bool_decide (host = str "0.0.0.0")) && negb (bool_decide (host = [])) &&
          negb (bool_decide (host = str "::"))
       then [listenAddr] else []
   | _ => []
   end) ++
  (if negb (bool_decide (relayAddr = [])) then [relay_scheme ++ relayAddr] else []).

Definition cmdInvite (daemon : outcome DaemonAnswers) (loc : Local) (e : Call)
    (cfgDir listenAddr relayAddr : bytes) : exit :=
  match daemon with
  | Ok client => fst (must [] "invite via daemon: %v" (ans_Invite client) tt (λ resp, (Done [InviteResponse_Token resp], tt)))
  | Panic => Crash
  | Err _ =>
      fst (must [] "identity: %v" (fst (LoadOrGenerate (loc_rand loc) (loc_fs loc) cfgDir)) tt (λ id,
      must [] "create invite: %v"
        (Create (call_rand e) (call_now e) (Id_PrivKey id) (cli_endpoints listenAddr relayAddr) DefaultTTL) tt (λ tok,
      must [] "encode invite: %v" (Encode tok (Id_PrivKey id)) tt (λ raw, (Done [raw], tt)))))
  end.

(** The lines of a direct join. *)
Definition connecting (id : node_id) : bytes := str "connecting to peer " ++ hex_encode (take 8 (arr_bytes id)) ++ str "...".
Definition connected (id : node_id) : bytes := str "connected to " ++ hex_encode (take 8 (arr_bytes id)).

(** A direct join from the point where the peer is dialed: [s] is the peer store. *)
Definition join_direct (loc : Local) (e : Call) (clk : nat → Z) (id : Identity) (s : Peerstore.Store B) (tok : Token) :
    exit * (Peerstore.Store B * option (Catalog.Store B)) :=
  let peerNodeID := Sum256 (Token_PublicKey tok) in
  match Token_Endpoints tok with
  | [] => (Fatal [] "invite has no endpoints" None, (s, None))
  | _ =>
      must [] "listen: %v" (loc_listen loc) (s, None) (λ _,
      let out := [connecting peerNodeID] in
      must out "connect: %v" (fst (Dial (loc_net loc) peerNodeID (Token_Endpoints tok))) (s, None) (λ conn,
      let peerID := Transport.PeerNodeID conn in
      let '(res, s) := PutPeer (call_put e) s
        {| Peer_NodeID := peerID; Peer_PublicKey := Token_PublicKey tok;
           Peer_Endpoints := Token_Endpoints tok; Peer_TrustState := TrustTOFU;
           Peer_LastSeen := zero_time |} in
      match res with
      | Panic => (Crash, (s, None))
      | _ =>   (* an error is only logged *)
          must out "catalog: %v" (Catalog.Open (loc_catalog loc) (Id_NodeID id)) (s, None) (λ cat,
          let '(r, cat, _) := exchangeCatalog (loc_ctx loc) clk cat (loc_wire loc conn) peerID in
          match r with
          | Panic => (Crash, (s, Some cat))
          | _ => (Done (out ++ [connected peerID]), (s, Some cat))
          end)
      end))
  end.

(** Without a daemon, on the opened peer store [s]. *)
Definition join_token (loc : Local) (e : Call) (clk : nat → Z) (id : Identity) (s : Peerstore.Store B) (rawToken : bytes) :
    exit * (Peerstore.Store B * option (Catalog.Store B)) :=
  must [] "decode invite: %v" (Decode rawToken) (s, None) (λ tok,
  let '(res, s) := Validate (call_now e) tok rawToken s in
  must [] "validate invite: %v" res (s, None) (λ _,
  if negb (len (Token_PublicKey tok) =? 32)
  then (Fatal [] "invalid invite: unexpected public key length %d" None, (s, None))
  else join_direct loc e clk id s tok)).

(** [resp.PeerNodeID[:16]] panics when the daemon's answer is shorter. *)
Definition cmdJoin (daemon : outcome DaemonAnswers) (loc : Local) (e : Call) (clk : nat → Z)
    (cfgDir rawToken : bytes) : exit :=
  match daemon with
  | Ok client =>
      fst (must [] "join via daemon: %v" (ans_Join client rawToken) tt (λ resp,
      match slice (JoinResponse_PeerNodeID resp) 0 16 with
      | Ok short => (Done [str "connected to " ++ short], tt)
      | _ => (Crash, tt)
      end))
  | Panic => Crash
  | Err _ =>
      match fst (LoadOrGenerate (loc_rand loc) (loc_fs loc) cfgDir) with
      | Ok id =>
          match Peerstore.Open (loc_peers loc) with
          | Ok s => fst (join_token loc e clk id s rawToken)
          | Err err => Fatal [] "peerstore: %v" (Some err)
          | Panic => Crash
          end
      | Err err => Fatal [] "identity: %v" (Some err)
      | Panic => Crash
      end
  end.

(** The lines of [status]; without a daemon the times have another format. *)
Definition line (label value : bytes) : bytes := label ++ value.
Definition peer_line (short trust seen : bytes) : bytes := str "  " ++ short ++ str "  " ++ trust ++ str "  " ++ seen.

Definition status_lines (r : StatusResponse) : list bytes :=
  [line (str "NodeID: ") (Status_NodeID r); line (str "Listen: ") (Status_ListenAddr r);
   line (str "Shared: ") (Status_SharedDir r)] ++
  (if negb (bool_decide (Status_RelayAddr r = []))
   then [str "Relay:  " ++ Status_RelayAddr r ++ str " (online=" ++
         (if Status_RelayOnline r then str "true" else str "false") ++ str ")"] else []) ++
  [line (str "Peers:  ") (Itoa (Status_PeerCount r))].

(** [t.Format("2006-01-02 15:04:05")]. *)
Definition Format_status (t : Z) : bytes :=
  let sec := t / 10 ^ 9 in
  let '(y, m, d) := civil (sec / 86400) in
  let s := sec mod 86400 in
  padded 4 y ++ str "-" ++ padded 2 m ++ str "-" ++ padded 2 d ++ str " " ++
  padded 2 (s / 3600) ++ str ":" ++ padded 2 (s / 60 mod 60) ++ str ":" ++ padded 2 (s mod 60).

Definition stored_peer_line (p : Peer) : bytes :=
  peer_line (hex_encode (take 8 (arr_bytes (Peer_NodeID p)))) (Peer_TrustState p) (Format_status (Peer_LastSeen p)).

Definition cmdStatus (daemon : outcome DaemonAnswers) (loc : Local) (cfgDir : bytes) : exit :=
  match daemon with
  | Ok client =>
      fst (must [] "status via daemon: %v" (ans_Status client) tt (λ resp,
      let out := status_lines resp in
      match ans_Peers client with
      | Ok peers =>
          (Done (out ++ map (λ p, peer_line (PeerInfo_NodeIDShort p) (PeerInfo_TrustState p) (PeerInfo_LastSeen p))
                          (PeersResponse_Peers peers)), tt)
      | Err _ => (Done out, tt)
      | Panic => (Crash, tt)
      end))
  | Panic => Crash
  | Err _ =>
      fst (must [] "identity: %v" (fst (LoadOrGenerate (loc_rand loc) (loc_fs loc) cfgDir)) tt (λ id,
      let out := [line (str "NodeID: ") (NodeIDHex id)] in
      match OpenReadOnly (loc_peers loc) with
      | Ok store =>
          must out "list peers: %v" (ListPeers store) tt (λ peers,
          (Done (out ++ [line (str "Peers:  ") (Itoa (len peers))] ++ map stored_peer_line peers), tt))
      | Err _ => (Done (out ++ [str "Peers:  (unavailable while kin run is active)"]), tt)
      | Panic => (Crash, tt)
      end))
  end.

(** What the command line asks for. *)
Inductive command := CmdTui | CmdRun | CmdInvite | CmdJoin (token : bytes) | CmdStatus | CmdUsage | CmdJoinUsage.

Definition parse_args (args : list bytes) : command :=
  match args with
  | [] => CmdTui
  | c :: rest =>
      if bool_decide (c = str "run") then CmdRun
      else if bool_decide (c = str "invite") then CmdInvite
      else if bool_decide (c = str "join") then match rest with [] => CmdJoinUsage | t :: _ => CmdJoin t end
      else if bool_decide (c = str "status") then CmdStatus
      else CmdUsage
  end.

End Commands.

(** * Properties *)

(** A direct join treats the peer's offer as the daemon does: on the same catalog
    and connection, the command's [handleReceivedOffer] and the daemon's handler
    leave the same catalog, and when the store accepts the offer they send the same
    acknowledgement. When the store refuses it, the daemon sends nothing, while the
    command acknowledges the entries all the same. *)
Theorem offer_handled_alike {B : Type} `{Bolt B} `{JsonCodec Entry} `{JsonCodec (list OwnerHint)}
    (PeerID : nat → node_id) (fs : FS) (idx : LocalIndex) (ctx : nat → option error) (clk : nat → Z)
    (h : Handler.Handler (Catalog.Store B)) (cat : Catalog.Store B) (k : nat) (w : Transfer.Conn)
    (offer : CatalogOffer) :
  catalog h = Some cat → wires h !! k = Some w →
  let entries := accepted (CatalogOffer_Files offer) in
  let '(r, cat', w') := handleReceivedOffer clk cat w (PeerID k) offer in
  let '(res, h') := dispatch (H := store_exchanger clk) PeerID fs idx ctx h k
                      (envelope (Envelope_CatalogOffer offer)) in
  catalog h' = Some cat' ∧
  match fst (PutPeerEntries clk cat (PeerID k) entries) with
  | Ok _ => wires h' !! k = Some w' ∧ (r, w') = (Ok tt, snd (Send w (catalog_ack (len entries))))
  | Err _ => wires h' !! k = Some w ∧ (r, w') = (Ok tt, snd (Send w (catalog_ack (len entries))))
  | Panic => res = Panic ∧ r = Panic
  end.
Proof.
  intros Hc Hw. cbv zeta. unfold handleReceivedOffer, dispatch. cbn [Payload envelope].
  unfold handleCatalogOffer. rewrite Hc. cbn [cx_PutPeerEntries store_exchanger].
  destruct (PutPeerEntries clk cat (PeerID k) _) as [[[]|e|] cat']; cbn [fst]; [|done|done].
  unfold conn_Send, on_wire. cbn [wires notify Handler.with_catalog]. rewrite Hw.
  destruct (Send w _) as [res w']. cbn [snd]. split; [done|]. simpl. by rewrite lookup_insert_eq.
Qed.

Section JoinFacts.
Context {B : Type} `{Bolt B} `{JsonCodec Peer} `{JsonCodec Entry} `{JsonCodec (list OwnerHint)}.
Context `{Ed25519} `{IpcCodecs} (err_text : error → bytes).

(** The daemon's answer to a join is a success. *)
Definition joined_ok (r : outcome Response) : bool :=
  match r with Ok resp => match Response_Error resp with None => true | Some _ => false end | _ => false end.

Definition is_done (x : exit) : bool := match x with Done _ => true | _ => false end.

(** The exchange of catalogs with whoever is dialed does not panic. *)
Definition exchange_ok (loc : Local (B := B)) (clk : nat → Z) (id : Identity) : Prop :=
  ∃ cat, Catalog.Open (loc_catalog loc) (Id_NodeID id) = Ok cat ∧
    ∀ conn, (exchangeCatalog (loc_ctx loc) clk cat (loc_wire loc conn) (Transport.PeerNodeID conn)).1.1 ≠ Panic.

Lemma join_direct_alike loc e clk (h : Daemon.Handler B) reqID tok :
  loc_listen loc = Ok tt → loc_net loc = h_net h → exchange_ok loc clk (h_id h) →
  let d := join_connect err_text e h reqID tok in
  let c := join_direct loc e clk (h_id h) (h_store h) tok in
  h_store (snd d) = fst (snd c) ∧ joined_ok (fst d) = is_done (fst c).
Proof.
  intros Hln Hnet (cat & Hcat & Hex). cbv zeta. unfold join_connect, join_direct.
  destruct (Token_Endpoints tok) as [|ep eps]; [done|]. rewrite Hln, Hnet. cbn [must].
  destruct (fst (Dial _ _ _)) as [conn|err|]; cbn [must]; [|done|done].
  destruct (PutPeer (call_put e) (h_store h) _) as [res s].
  specialize (Hex conn).
  destruct res as [u|err|]; cbn [fst snd]; [| |done]; rewrite Hcat; cbn [must];
    destruct (exchangeCatalog _ _ _ _ _) as [[[]]]; done.
Qed.

Lemma join_token_alike loc e clk (h : Daemon.Handler B) reqID params raw :
  json_Unmarshal params json_zero = Ok (mk_JoinParams raw) →
  loc_listen loc = Ok tt → loc_net loc = h_net h → exchange_ok loc clk (h_id h) →
  let d := handleJoin err_text e h reqID params in
  let c := join_token loc e clk (h_id h) (h_store h) raw in
  h_store (snd d) = fst (snd c) ∧ joined_ok (fst d) = is_done (fst c).
Proof.
  intros Hp Hln Hnet Hex. cbv zeta. unfold handleJoin, join_token. rewrite Hp. cbn [JoinParams_Token].
  case_bool_decide as Hr; [by subst raw|].
  destruct (Decode raw) as [tok|err|]; cbn [must]; [|done|done].
  destruct (Validate (call_now e) tok raw (h_store h)) as [[[]|err|] s]; cbn [must]; [|done|done].
  destruct (negb _); [done|]. by apply (join_direct_alike loc e clk (with_store h s) reqID tok).
Qed.

End JoinFacts.

(** C23. Joining with and without a daemon is the same: for the same token, peer store,
    clock and network, [kin join] without a daemon leaves exactly the peer store that
    the daemon's join leaves (the nonce used up, the peer pinned), and it succeeds
    exactly when the daemon's join does. *)
Theorem join_alike {B : Type} `{Bolt B} `{JsonCodec Peer} `{JsonCodec Entry} `{JsonCodec (list OwnerHint)}
    `{Ed25519} `{IpcCodecs} (err_text : error → bytes) (loc : Local (B := B)) (e : Call) (clk : nat → Z)
    (h : Daemon.Handler B) (reqID : Z) (params raw : bytes) :
  json_Unmarshal params json_zero = Ok (mk_JoinParams raw) →
  loc_listen loc = Ok tt → loc_net loc = h_net h → exchange_ok loc clk (h_id h) →
  let '(resp, h') := handleJoin err_text e h reqID params in
  let '(x, (s', _)) := join_token loc e clk (h_id h) (h_store h) raw in
  h_store h' = s' ∧ ((∃ r, resp = Ok r ∧ Response_Error r = None) ↔ ∃ out, x = Done out).
Proof.
  intros Hp Hln Hnet Hex. pose proof (join_token_alike err_text loc e clk h reqID params raw Hp Hln Hnet Hex) as [Hs Hj].
  destruct (handleJoin err_text e h reqID params) as [resp h'].
  destruct (join_token loc e clk (h_id h) (h_store h) raw) as [x [s' c]]. simpl in *. split; [done|].
  unfold joined_ok, is_done in Hj.
  destruct resp as [r| |]; [destruct (Response_Error r) eqn:Er|..]; destruct x; naive_solver.
Qed.

(** * Witnesses *)

Module CliWitness.
Import MapBolt CatalogSpec.CatalogInstance PeerInstance ToySig DaemonWitness.
#[local] Existing Instance DaemonWitness.codecs.

Definition quiet : Transfer.Conn := {| inbox := []; sent := []; send_fault := λ _, None |}.

Definition loc : Local (B := gmap bytes bytes) :=
  mk_Local (mk_FS ∅ (λ _, None)) (Err io_EOF) (Ok (None, None)) (Ok (None, None)) (Ok tt) (net true)
    (λ _, quiet) (λ _, None).
Definition clk (k : nat) : Z := Z.of_nat k.

Lemma exchange_loc : exchange_ok loc clk idB.
Proof.
  eexists. split; [reflexivity|]. intros [w r p].
  unfold exchangeCatalog, sendCatalogOffer. destruct (ListForPeer _ _) as [es|err|] eqn:E; [done|done|].
  by vm_compute in E.
Qed.

(** Bob joins with Alice's invite, without a daemon. *)
Definition direct := join_token loc eB clk idB PeerInstance.new_store raw.

Lemma direct_value : match fst direct with Done out => len out | _ => 0 end = 2.
Proof. by vm_compute. Qed.

Lemma join_alike_witness :
  let '(resp, h') := handleJoin text eB (hB true) 2 raw in
  let '(x, (s', _)) := join_token loc eB clk (h_id (hB true)) (h_store (hB true)) raw in
  h_store h' = s' ∧ ((∃ r, resp = Ok r ∧ Response_Error r = None) ↔ ∃ out, x = Done out).
Proof.
  pose proof (join_alike text loc eB clk (hB true) 2 raw raw eq_refl eq_refl eq_refl exchange_loc) as Hj.
  exact Hj.
Defined.

(** An offer of one file. *)
Definition cat0 : Catalog.Store (gmap bytes bytes) := CatalogSpec.CatalogInstance.new_store (zero_arr 32).
Definition h0 : Handler.Handler (Catalog.Store (gmap bytes bytes)) :=
  Handler.mk_Handler (Some cat0) ∅ {[ 1%nat := quiet ]} true 0.
Definition PeerID (k : nat) : node_id := Sum256 seed.
Definition offer : CatalogOffer :=
  {| CatalogOffer_Files := [Build_CatalogFile (replicate 32 Byte.x01) (str "a.txt") 3 0 seed false] |}.

Lemma offer_accepted : len (accepted (CatalogOffer_Files offer)) = 1.
Proof. by vm_compute. Qed.

Lemma offer_handled_alike_witness :
  let entries := accepted (CatalogOffer_Files offer) in
  let '(r, cat', w') := handleReceivedOffer clk cat0 quiet (PeerID 1) offer in
  let '(res, h') := dispatch (H := store_exchanger clk) PeerID (mk_FS ∅ (λ _, None)) NewLocalIndex (λ _, None) h0 1
                      (envelope (Envelope_CatalogOffer offer)) in
  catalog h' = Some cat' ∧
  match fst (PutPeerEntries clk cat0 (PeerID 1) entries) with
  | Ok _ => wires h' !! 1%nat = Some w' ∧ (r, w') = (Ok tt, snd (Send quiet (catalog_ack (len entries))))
  | Err _ => wires h' !! 1%nat = Some quiet ∧ (r, w') = (Ok tt, snd (Send quiet (catalog_ack (len entries))))
  | Panic => res = Panic ∧ r = Panic
  end.
Proof.
  pose proof (offer_handled_alike PeerID (mk_FS ∅ (λ _, None)) NewLocalIndex (λ _, None) clk h0 cat0 1 quiet offer
    eq_refl eq_refl) as Ho. exact Ho.
Defined.

End CliWitness.
