(* ===== verification/Launch.v ===== *)
(** Starting the program: [ipc.Dial] and [TryDaemon] ([internal/ipc]), the interface on
    a running daemon or on one that it starts itself ([internal/tui/tui.go]), and the
    dispatch of [main] and [cmdRun] ([cmd/kin/main.go]). The log lists the clients
    that are opened and closed and the end of an embedded daemon, with the daemon's
    own log ([Node.Run]). *)

From S2P Require Import Prelude GoStd Bolt Crypto Peerstore Path Fs Config Identity Codec Endpoint Node Cli.

Inductive event :=
| ClientOpened
| ClientClosed
| InterfaceRan
| DaemonCancelled
| DaemonEnded (log : list action).

(** [tui.Config]. *)
Record TuiConfig := mk_TuiConfig {
  cfg_ConfigDir : bytes;
  cfg_SharedDir : bytes;
  cfg_ListenAddr : bytes;
  cfg_RelayAddr : bytes;
  cfg_Debug : bool
}.

Section Launch.
Context {B : Type} `{Bolt B} `{JsonCodec Peer} `{Ed25519} `{CertOps}.

(** What the start meets: the control socket at each attempt, the subscription, the
    terminal program, the home directory, the debug log and, for an embedded daemon
    with its shared folder and listen address, its surroundings. *)
Record World := mk_World {
  w_socket : nat → bytes → outcome unit;
  w_subscribe : outcome unit;
  w_program : outcome unit;
  w_home : outcome bytes;
  w_log : outcome unit;
  w_daemon : bytes → bytes → Surroundings (B := B)
}.

(** [x, err := r; if err != nil { return fmt.Errorf(format, err) }]; [close] are the
    deferred calls. *)
Definition attempt {A} (format : string) (r : outcome A) (close : list event)
    (k : A → outcome unit * list event) : outcome unit * list event :=
  match wrap format r with
  | Ok a => k a
  | Err e => (Err e, close)
  | Panic => (Panic, close)
  end.

Definition seen {A} (evs : list event) (r : outcome A * list event) : outcome A * list event :=
  let '(res, log) := r in (res, evs ++ log).

(** [ipc.Dial], attempt number [i]. *)
Definition Dial (w : World) (i : nat) (sockPath : bytes) : outcome unit :=
  wrap "ipc dial: %w" (w_socket w i sockPath).

Definition TryDaemon (w : World) (i : nat) (cfgDir : bytes) : outcome unit := Dial w i (SocketPath cfgDir).

Definition runTUI (w : World) (i : nat) (cfgDir : bytes) : outcome unit * list event :=
  attempt "event connection failed: %w" (TryDaemon w i cfgDir) [] (λ _,
  seen [ClientOpened]
    (attempt "subscribe to events: %w" (w_subscribe w) [ClientClosed] (λ _,
     seen [InterfaceRan]
       (attempt "tui: %w" (w_program w) [ClientClosed] (λ _, (Ok tt, [ClientClosed])))))).

Definition runEmbedded (w : World) (cfg : TuiConfig) : outcome unit * list event :=
  attempt "shared dir: %w"
    (if bool_decide (cfg_SharedDir cfg = []) then DefaultSharedDir (w_home w) else Ok (cfg_SharedDir cfg)) []
    (λ sharedDir,
  let listenAddr := if bool_decide (cfg_ListenAddr cfg = []) then DefaultListenAddr else cfg_ListenAddr cfg in
  let '(started, log) := Run (w_daemon w sharedDir listenAddr) (cfg_ConfigDir cfg) sharedDir in
  (* the daemon is ready, or it has failed and [cancel] is deferred *)
  attempt "daemon: %w" started [DaemonEnded log; DaemonCancelled] (λ _,
  match TryDaemon w 1 (cfg_ConfigDir cfg) with
  | Ok _ =>
      let '(tuiErr, ui) := runTUI w 2 (cfg_ConfigDir cfg) in
      match tuiErr with
      | Panic => (Panic, [ClientOpened] ++ ui ++ [ClientClosed; DaemonCancelled])
      | _ => (tuiErr, [ClientOpened] ++ ui ++ [DaemonCancelled; DaemonEnded log; ClientClosed])
      end
  | Err e => (Err (Wrapf "connect to embedded daemon: %w" e), [DaemonCancelled])
  | Panic => (Panic, [DaemonCancelled])
  end)).

(** [tui.Run]. *)
Definition tui_Run (w : World) (cfg : TuiConfig) : outcome unit * list event :=
  attempt "debug log: %w" (if cfg_Debug cfg then w_log w else Ok tt) [] (λ _,
  match TryDaemon w 0 (cfg_ConfigDir cfg) with
  | Ok _ =>
      let '(res, log) := runTUI w 1 (cfg_ConfigDir cfg) in (res, [ClientOpened] ++ log ++ [ClientClosed])
  | Err _ => runEmbedded w cfg
  | Panic => (Panic, [])
  end).

(** [cmdRun]: [daemon.New] and [Run], with the shared folder resolved. *)
Definition cmdRun (w : World) (cfgDir sharedDirOverride listenAddr : bytes) : exit :=
  match resolveSharedDir (w_home w) sharedDirOverride with
  | Err e => Fatal [] "shared dir: %v" (Some e)
  | Panic => Crash
  | Ok sharedDir =>
      match fst (Run (w_daemon w sharedDir listenAddr) cfgDir sharedDir) with
      | Ok _ => Done [[]; str "shutting down"]
      | Err e => Fatal [] "%v" (Some e)
      | Panic => Crash
      end
  end.

(** ** Facts *)

(** Clients that are open after a log. *)
Fixpoint open_clients (log : list event) : Z :=
  match log with
  | [] => 0
  | ClientOpened :: log' => 1 + open_clients log'
  | ClientClosed :: log' => -1 + open_clients log'
  | _ :: log' => open_clients log'
  end.

Lemma open_clients_app l1 l2 : open_clients (l1 ++ l2) = open_clients l1 + open_clients l2.
Proof. induction l1 as [|e l1 IH]; [done|]. destruct e; cbn [app open_clients]; lia. Qed.

Lemma runTUI_clients w i cfgDir : open_clients (snd (runTUI w i cfgDir)) = 0.
Proof.
  unfold runTUI, attempt, seen. destruct (wrap _ (TryDaemon w i cfgDir)); [|done|done].
  destruct (wrap _ (w_subscribe w)); [|done|done]. by destruct (wrap _ (w_program w)).
Qed.

Lemma runTUI_keeps w i cfgDir : DaemonCancelled ∉ snd (runTUI w i cfgDir).
Proof.
  unfold runTUI, attempt, seen. destruct (wrap _ (TryDaemon w i cfgDir)); simpl; [|set_solver..].
  destruct (wrap _ (w_subscribe w)); simpl; [|set_solver..]. destruct (wrap _ (w_program w)); simpl; set_solver.
Qed.

(** How an embedded daemon was left: it ended with everything released, or it could
    not be reached and was told to stop. *)
Definition daemon_left (res : outcome unit) (log : list event) : Prop :=
  (∃ l, DaemonEnded l ∈ log ∧ replay [] l = Some []) ∨
  (DaemonCancelled ∈ log ∧ ∃ e, res = Err (Wrapf "connect to embedded daemon: %w" e)).

Lemma runEmbedded_clients w cfg :
  match runEmbedded w cfg with
  | (Panic, _) => True
  | (res, log) => open_clients log = 0 ∧ (log = [] ∨ daemon_left res log)
  end.
Proof.
  unfold runEmbedded, attempt at 1. destruct (wrap _ _) as [sharedDir|e|]; [|by auto|done]. cbv zeta.
  set (addr := if bool_decide (cfg_ListenAddr cfg = []) then DefaultListenAddr else cfg_ListenAddr cfg).
  pose proof (Run_log (w_daemon w sharedDir addr) (cfg_ConfigDir cfg) sharedDir) as Hlog.
  destruct (Run _ _ _) as [started log]. destruct Hlog as (Hlog & _ & _).
  unfold attempt. destruct (wrap _ started) as [st|e|]; [|split; [done|]; right; left; exists log; set_solver|done].
  destruct (TryDaemon w 1 (cfg_ConfigDir cfg)) as [u|e|]; [|split; [done|]; right; right; set_solver|done].
  pose proof (runTUI_clients w 2 (cfg_ConfigDir cfg)) as Hc.
  destruct (runTUI w 2 (cfg_ConfigDir cfg)) as [res ui]. simpl in Hc.
  destruct res as [r|e|]; [..|done]; (split; [rewrite !open_clients_app, Hc; done|]); right; left; exists log; set_solver.
Qed.

End Launch.

(** Starting the interface leaks nothing: whatever the control socket, the daemon
    and the terminal answer, when [tui.Run] returns every client that it opened is
    closed, and a daemon that it started itself has ended with its databases, its
    listener and its control socket released, unless it could not be reached through its own
    socket, in which case it has been told to stop. A running daemon is never
    stopped. *)
Theorem launch_releases {B : Type} `{Bolt B} `{JsonCodec Peer} `{Ed25519} `{CertOps} (w : World (B := B)) (cfg : TuiConfig) :
  match tui_Run w cfg with
  | (Panic, _) => True
  | (res, log) =>
      open_clients log = 0 ∧
      (log = [] ∨ (is_Ok (TryDaemon w 0 (cfg_ConfigDir cfg)) = true ∧ DaemonCancelled ∉ log) ∨
       daemon_left res log)
  end.
Proof.
  unfold tui_Run, attempt. destruct (wrap _ _) as [u|e|]; [|by auto|done].
  destruct (TryDaemon w 0 (cfg_ConfigDir cfg)) as [u'|e|]; [| |done].
  - pose proof (runTUI_clients w 1 (cfg_ConfigDir cfg)) as Hc.
    pose proof (runTUI_keeps w 1 (cfg_ConfigDir cfg)) as Hk.
    destruct (runTUI w 1 (cfg_ConfigDir cfg)) as [res ui]. simpl in Hc, Hk.
    destruct res as [r|e|]; [..|done];
      (split; [rewrite !open_clients_app, Hc; done|]); right; left; (split; [done|set_solver]).
  - pose proof (runEmbedded_clients w cfg) as He. destruct (runEmbedded w cfg) as [[r|e'|] log]; [..|done]; naive_solver.
Qed.
