(* ===== verification/RelayMain.v ===== *)
(** The relay program, [cmd/relay/main.go]: the start up to the two sockets, the accept
    loop and the wait for a signal. The goroutine of the loop and [main] share the
    channel [stop], which holds one signal. The results of the network calls are the
    fields of [Surface]; flags are given parsed. *)

From S2P Require Import Prelude GoStd Crypto Sha256 Path Fs Config Identity Transport Endpoint Discovery.

(** * Start *)

(** [flag.String("listen", ...)] and the others, with their defaults. *)
Record Flags := mk_Flags { listenAddr : bytes; configDir : bytes; debug : bool }.

Definition default_flags : Flags :=
  {| listenAddr := str "0.0.0.0:7778"; configDir := []; debug := false |}.

(** [tls.Listen], [net.ResolveUDPAddr] and [net.ListenUDP]. *)
Record Surface := mk_Surface {
  tls_Listen : bytes → Config → outcome unit;
  resolve_UDP : bytes → outcome Addr;
  listen_UDP : Addr → outcome unit
}.

Inductive socket := TCPListener | UDPSocket.

(** A start that failed, with the message of [fatalf] and the sockets that were open
    when the process exited; or a running relay, with what it printed, its
    certificate's configuration and its two sockets. *)
Inductive started :=
| FatalAt (format : string) (e : error) (opened : list socket)
| Crashed
| Running (id : Identity) (cfg : Config) (out : list bytes).

Section Start.
Context `{Ed25519} `{CertOps}.

Definition relayTLSConfig (cert : TLSCert) : Config := mk_Config [cert] NoClientCert false [] None.

Definition banner (id : Identity) (addr : bytes) : list bytes :=
  [str "relay running"; str "  NodeID: " ++ NodeIDHex id; str "  Listen: " ++ addr].

(** [main] up to [signal.Notify]. *)
Definition relay_start (windows : bool) (home appdata rand : outcome bytes) (now : Z) (sf : Surface)
    (fs : FS) (flags : Flags) : started * FS :=
  match relay_resolveConfigDir windows home appdata (configDir flags) with
  | Err e => (FatalAt "config dir: %v" e [], fs)
  | Panic => (Crashed, fs)
  | Ok cfgDir =>
      let '(loaded, fs) := LoadOrGenerate rand fs cfgDir in
      match loaded with
      | Err e => (FatalAt "identity: %v" e [], fs)
      | Panic => (Crashed, fs)
      | Ok id =>
          match GenerateSelfSignedCert now (Id_PrivKey id) with
          | Err e => (FatalAt "generate cert: %v" e [], fs)
          | Panic => (Crashed, fs)
          | Ok cert =>
              let tlsCfg := relayTLSConfig cert in
              match tls_Listen sf (listenAddr flags) tlsCfg with
              | Err e => (FatalAt "listen: %v" e [], fs)
              | Panic => (Crashed, fs)
              | Ok _ =>
                  match resolve_UDP sf (listenAddr flags) with
                  | Err e => (FatalAt "resolve udp listen addr: %v" e [TCPListener], fs)
                  | Panic => (Crashed, fs)
                  | Ok udpAddr =>
                      match listen_UDP sf udpAddr with
                      | Err e => (FatalAt "udp listen: %v" e [TCPListener], fs)
                      | Panic => (Crashed, fs)
                      | Ok _ => (Running id tlsCfg (banner id (listenAddr flags)), fs)
                      end
                  end
              end
          end
      end
  end.

End Start.

(** * The accept loop and the signal *)

(** [rl_stop]: a signal is in the channel; [rl_main]: [main] waits for one;
    [rl_accepting]: the goroutine's loop is running; [rl_served]: the connections handed
    to [srv.Serve] with the address of their node, and [rl_warned] the accept errors that
    were logged; [rl_signals]: how many signals the process has got. *)
Record relay := mk_relay {
  rl_stop : bool;
  rl_main : bool;
  rl_accepting : bool;
  rl_served : list (nat * bytes);
  rl_warned : list error;
  rl_signals : nat
}.

Definition relay_init : relay := mk_relay false true true [] [] 0.

(** [signal.Notify] does not block: a signal that finds the channel full is dropped. *)
Definition on_signal (r : relay) : relay :=
  mk_relay true (rl_main r) (rl_accepting r) (rl_served r) (rl_warned r) (S (rl_signals r)).

(** [<-stop] in [main], which then returns and closes the sockets. *)
Definition main_stops (r : relay) : relay :=
  mk_relay false false (rl_accepting r) (rl_served r) (rl_warned r) (rl_signals r).

(** One iteration of the loop, with the result of [ln.Accept()]: the connection and its
    remote address. *)
Definition accept_step (r : relay) (res : nat * bytes + error) : relay :=
  match res with
  | inl (k, remote) =>
      mk_relay (rl_stop r) (rl_main r) (rl_accepting r) (rl_served r ++ [(k, remoteIP remote)])
        (rl_warned r) (rl_signals r)
  | inr e =>
      if rl_stop r
      then mk_relay false (rl_main r) false (rl_served r) (rl_warned r) (rl_signals r)
      else mk_relay false (rl_main r) (rl_accepting r) (rl_served r) (rl_warned r ++ [e]) (rl_signals r)
  end.

Inductive rlstep : relay → relay → Prop :=
| rl_signal r : rl_main r = true → rlstep r (on_signal r)
| rl_stops r : rl_main r = true → rl_stop r = true → rlstep r (main_stops r)
| rl_accept r res : rl_main r = true → rl_accepting r = true → rlstep r (accept_step r res).

(** * Facts *)

(** Signals that have arrived are in the channel unless one of the two receivers
    has taken them. *)
Definition signal_ok (r : relay) : Prop :=
  (rl_signals r ≠ 0%nat → rl_stop r = true ∨ rl_main r = false ∨ rl_accepting r = false) ∧
  (rl_signals r = 0%nat → rl_stop r = false ∧ rl_main r = true ∧ rl_accepting r = true).

Lemma rlstep_ok r r' : signal_ok r → rlstep r r' → signal_ok r'.
Proof.
  intros [Hpos Hzero] Hs. destruct Hs as [r _|r _ Hst|r [[k a]|e] _ Ha]; unfold signal_ok; simpl; [naive_solver..|].
  destruct (rl_stop r) eqn:Hst; simpl; naive_solver.
Qed.

Lemma rlrun_ok r : rtc rlstep relay_init r → signal_ok r.
Proof.
  intros Hr. assert (signal_ok relay_init) as H0 by (by split).
  revert H0. induction Hr; eauto using rlstep_ok.
Qed.

(** * Properties *)

(** A relay that has started keeps its identity: it presents a certificate for the
    key of the node id that it prints and asks no client for one, both its sockets are
    open, and a later start on the same directory has the same id. *)
Theorem relay_start_stable `{Ed25519Laws} `{CertOps} (windows : bool) (home appdata rand' : outcome bytes)
    (seed : bytes) (now now' : Z) (sf : Surface) (fs fs' : FS) (flags : Flags) (dir : bytes)
    (id : Identity) (cfg : Config) (out : list bytes) :
  (∀ c, fault fs c = None) → len seed = 32 →
  relay_resolveConfigDir windows home appdata (configDir flags) = Ok dir → nodes fs !! Join dir keyFile = None →
  relay_start windows home appdata (Ok seed) now sf fs flags = (Running id cfg out, fs') →
  fromSeed seed = Ok id ∧
  (∃ cert, GenerateSelfSignedCert now (Id_PrivKey id) = Ok cert ∧ cfg_Certificates cfg = [cert]) ∧
  cfg_ClientAuth cfg = NoClientCert ∧
  out = banner id (listenAddr flags) ∧
  (∃ addr, tls_Listen sf (listenAddr flags) cfg = Ok tt ∧ resolve_UDP sf (listenAddr flags) = Ok addr ∧
     listen_UDP sf addr = Ok tt) ∧
  match fst (relay_start windows home appdata rand' now' sf fs' flags) with
  | Running id' _ _ => id' = id
  | FatalAt _ _ _ => True
  | Crashed => GenerateSelfSignedCert now' (Id_PrivKey id) = Panic ∨
               (∃ c, tls_Listen sf (listenAddr flags) c = Panic) ∨
               resolve_UDP sf (listenAddr flags) = Panic ∨ (∃ a, listen_UDP sf a = Panic)
  end.
Proof.
  intros Hf Hs Hdir Hnone. unfold relay_start at 1. rewrite Hdir.
  destruct (LoadOrGenerate (Ok seed) fs dir) as [loaded fs1] eqn:El. destruct loaded as [id1|e|]; [|done|done].
  destruct (LoadOrGenerate_stable seed rand' fs fs1 dir id1 Hf Hs Hnone El) as (Hid & Hagain & _).
  destruct (GenerateSelfSignedCert now (Id_PrivKey id1)) as [cert|e|] eqn:Ec; [|done|done].
  destruct (tls_Listen sf _ _) as [[]|e|] eqn:Et; [|done|done].
  destruct (resolve_UDP sf _) as [addr|e|] eqn:Er; [|done|done].
  destruct (listen_UDP sf addr) as [[]|e|] eqn:Eu; [|done|done].
  intros [= -> <- <- ->]. split_and!; [done|by exists cert|done|done|by exists addr|].
  unfold relay_start. rewrite Hdir, Hagain.
  destruct (GenerateSelfSignedCert now' _) as [cert'|e|] eqn:Ec'; [|done|by left].
  destruct (tls_Listen sf _ (relayTLSConfig cert')) eqn:Et'; [|done|by right; left; eexists].
  by rewrite Er, Eu.
Qed.

(** A signal ends the relay or is in the channel, unless a failing [Accept] has taken
    it: then the accept loop has ended and [main] still waits, so the relay goes on
    running, serves no new connection and needs a second signal. That state can be
    reached. *)
Theorem relay_signal (r : relay) :
  (rtc rlstep relay_init r → rl_signals r ≠ 0%nat → rl_main r = true →
   rl_stop r = true ∨
   (rl_accepting r = false ∧ ∀ r', rlstep r r' → r' = on_signal r ∨ (rl_stop r = true ∧ r' = main_stops r))) ∧
  (∃ r e, rtc rlstep relay_init r ∧ r = accept_step (on_signal relay_init) (inr e) ∧
     rl_signals r = 1%nat ∧ rl_stop r = false ∧ rl_main r = true ∧ rl_accepting r = false).
Proof.
  split.
  - intros [Hpos _]%rlrun_ok Hn Hm. destruct (Hpos Hn) as [?|[?|Ha]]; [by left|congruence|right].
    split; [done|]. intros r' Hs. destruct Hs; [by left|by right|congruence].
  - exists (accept_step (on_signal relay_init) (inr net_ErrClosed)), net_ErrClosed.
    split; [|by vm_compute]. eapply rtc_l; [by apply rl_signal|]. apply rtc_once. by apply rl_accept.
Qed.

(** * Witnesses *)

Module RelayMainWitness.
Import ToySig.

#[local] Instance certs : CertOps := {|
  CreateCertificate _ pub _ := Ok pub;
  MarshalPKCS8PrivateKey k := Ok k;
  EncodeToMemory _ b := b;
  X509KeyPair c _ := Ok (mk_TLSCert [c])
|}.

Definition seed : bytes := replicate 32 Byte.x07.
Definition fs0 : FS := mk_FS {[ str "/h" := Dir ]} (λ _, None).
Definition sf : Surface :=
  mk_Surface (λ _ _, Ok tt) (λ _, Ok (mk_Addr (V4 0 0 0 0) 7778)) (λ _, Ok tt).
Definition node : Identity := {| Id_PrivKey := seed ++ seed; Id_PubKey := seed; Id_NodeID := Sum256 seed |}.
Definition fs1 : FS := snd (relay_start false (Ok (str "/h")) (Ok []) (Ok seed) 0 sf fs0 default_flags).

Lemma dir_value :
  relay_resolveConfigDir false (Ok (str "/h")) (Ok []) [] = Ok (str "/h/.config/kin-relay") ∧
  relay_resolveConfigDir false (Ok (str "/h")) (Ok []) (str "/x") = Ok (str "/x") ∧
  fst (relay_start false (Err io_EOF) (Ok []) (Ok seed) 0 sf fs0 default_flags) =
    FatalAt "config dir: %v" io_EOF [].
Proof. by vm_compute. Qed.

Lemma relay_start_stable_witness :
  fromSeed seed = Ok node ∧
  match fst (relay_start false (Ok (str "/h")) (Ok []) (Err io_EOF) 5 sf fs1 default_flags) with
  | Running id' _ _ => id' = node
  | _ => True
  end.
Proof.
  assert (relay_start false (Ok (str "/h")) (Ok []) (Ok seed) 0 sf fs0 default_flags =
    (Running node (relayTLSConfig (mk_TLSCert [seed])) (banner node (listenAddr default_flags)), fs1)) as E
    by (apply pair_fst; by vm_compute).
  destruct (relay_start_stable false (Ok (str "/h")) (Ok []) (Err io_EOF) seed 0 5 sf fs0 fs1 default_flags
    (str "/h/.config/kin-relay") node _ _ ltac:(done) eq_refl (proj1 dir_value) ltac:(by vm_compute) E)
    as (Hid & _ & _ & _ & _ & Hagain).
  split; [exact Hid|]. revert Hagain. by destruct (fst _).
Defined.

Lemma relay_signal_witness :
  ∃ r e, rtc rlstep relay_init r ∧ r = accept_step (on_signal relay_init) (inr e) ∧
    rl_signals r = 1%nat ∧ rl_stop r = false ∧ rl_main r = true ∧ rl_accepting r = false.
Proof. exact (proj2 (relay_signal relay_init)). Defined.

End RelayMainWitness.
