(* ===== verification/Flags.v ===== *)
(** The command lines of the two programs: [flag.Parse] of the standard library for string
    and boolean flags, the flags of [cmd/kin/main.go] and [cmd/relay/main.go], and
    [main] of [kin] up to the command it runs. *)

From S2P Require Import Prelude GoStd Path Config Cli RelayMain.

(** * Package flag *)

Inductive fkind := FString | FBool.

(** A defined flag: its name, its kind and its default. A boolean is kept as its text. *)
Record formal := mk_formal { fm_name : bytes; fm_kind : fkind; fm_default : bytes }.

Abbreviation fvals := (gmap bytes bytes).

(** Where parsing ends: with the values and the remaining arguments; at a request for
    help, after which the process exits with status 0; or at a malformed argument,
    status 2. *)
Inductive parsed := Parsed (vals : fvals) (args : list bytes) | Help | Malformed (format : string) (arg : bytes).

Definition minus : byte := Byte.x2d.
Definition equals : byte := Byte.x3d.
Definition f_true : bytes := str "true".
Definition f_false : bytes := str "false".

(** [strconv.ParseBool], as the text of the value. *)
Definition ParseBool (s : bytes) : option bytes :=
  if bool_decide (s ∈ map str ["1"; "t"; "T"; "true"; "TRUE"; "True"]) then Some f_true
  else if bool_decide (s ∈ map str ["0"; "f"; "F"; "false"; "FALSE"; "False"]) then Some f_false
  else None.

(** The name and, after the first equals sign that is not its first character, the
    value. *)
Fixpoint cut_equals (s : bytes) : bytes * option bytes :=
  match s with
  | [] => ([], None)
  | c :: s' =>
      if bool_decide (c = equals) then ([], Some s')
      else let '(n, v) := cut_equals s' in (c :: n, v)
  end.

Definition cut_name (name : bytes) : bytes * option bytes :=
  match name with
  | [] => ([], None)
  | c :: s => let '(n, v) := cut_equals s in (c :: n, v)
  end.

(** An argument: not a flag, the terminator, a flag with its text after the dashes, or
    one that is malformed. *)
Inductive arg := Plain | Terminator | Flag (text : bytes) | BadSyntax.

Definition classify (s : bytes) : arg :=
  match s with
  | a :: b :: t =>
      if negb (bool_decide (a = minus)) then Plain
      else
        let check (name : bytes) :=
          match name with
          | [] => BadSyntax
          | c :: _ => if bool_decide (c = minus) || bool_decide (c = equals) then BadSyntax else Flag name
          end in
        if bool_decide (b = minus) then match t with [] => Terminator | _ => check t end
        else check (b :: t)
  | _ => Plain
  end.

Definition find_formal (formals : list formal) (name : bytes) : option formal :=
  List.find (λ f, bool_decide (fm_name f = name)) formals.

Definition defaults (formals : list formal) : fvals :=
  list_to_map (map (λ f, (fm_name f, fm_default f)) formals).

(** [FlagSet.parseOne] in the loop of [FlagSet.Parse]. *)
Fixpoint Parse (formals : list formal) (vals : fvals) (args : list bytes) : parsed :=
  match args with
  | [] => Parsed vals []
  | s :: rest =>
      match classify s with
      | Plain => Parsed vals args
      | Terminator => Parsed vals rest
      | BadSyntax => Malformed "bad flag syntax: %s" s
      | Flag text =>
          let '(name, value) := cut_name text in
          match find_formal formals name with
          | None =>
              if bool_decide (name = str "help") || bool_decide (name = str "h") then Help
              else Malformed "flag provided but not defined: -%s" name
          | Some f =>
              match fm_kind f, value with
              | FBool, Some v =>
                  match ParseBool v with
                  | Some b => Parse formals (<[name := b]> vals) rest
                  | None => Malformed "invalid boolean value %q for -%s: %v" name
                  end
              | FBool, None => Parse formals (<[name := f_true]> vals) rest
              | FString, Some v => Parse formals (<[name := v]> vals) rest
              | FString, None =>
                  match rest with
                  | v :: rest' => Parse formals (<[name := v]> vals) rest'
                  | [] => Malformed "flag needs an argument: -%s" name
                  end
              end
          end
      end
  end.

(** * The two programs *)

Definition kin_flags : list formal :=
  [mk_formal (str "config-dir") FString []; mk_formal (str "shared-dir") FString [];
   mk_formal (str "listen") FString DefaultListenAddr; mk_formal (str "relay") FString [];
   mk_formal (str "debug") FBool f_false].

Definition relay_flags : list formal :=
  [mk_formal (str "listen") FString (str "0.0.0.0:7778"); mk_formal (str "config-dir") FString [];
   mk_formal (str "debug") FBool f_false].

Definition get (vals : fvals) (name : string) : bytes := default [] (vals !! str name).

Definition relay_Flags (vals : fvals) : Flags :=
  {| listenAddr := get vals "listen"; configDir := get vals "config-dir";
     debug := bool_decide (get vals "debug" = f_true) |}.

(** What [main] of [kin] goes on to do: the interface, or a command with the flags it is
    given; or the message it stops with, and the status. *)
Inductive invocation :=
| RunTUI (cfgDir sharedDir listen relay : bytes) (debug : bool)
| RunCommand (debug : bool) (c : command) (cfgDir sharedDir listen relay : bytes)
| Exit (status : Z) (format : string).

Definition usage : list bytes :=
  [str "usage: kin [flags] <command>"; str "commands: run, invite, join <token>, status"].

(** [setup] is the result of [config.SetupDebugLog]. *)
Definition main (windows : bool) (home appdata : outcome bytes) (setup : bytes → outcome unit)
    (argv : list bytes) : invocation :=
  match Parse kin_flags (defaults kin_flags) argv with
  | Help => Exit 0 "Usage of %s:"
  | Malformed format _ => Exit 2 format
  | Parsed vals args =>
      match resolveConfigDir windows home appdata (get vals "config-dir") with
      | Err _ => Exit 1 "config dir: %v"
      | Panic => Exit 2 "panic"
      | Ok cfgDir =>
          let sharedDir := get vals "shared-dir" in
          let listen := get vals "listen" in
          let relay := get vals "relay" in
          let debug := bool_decide (get vals "debug" = f_true) in
          match args with
          | [] => RunTUI cfgDir sharedDir listen relay debug
          | _ =>
              match (if debug then setup cfgDir else Ok tt) with
              | Err _ => Exit 1 "debug log: %v"
              | Panic => Exit 2 "panic"
              | Ok _ =>
                  match parse_args args with
                  | CmdUsage => Exit 1 "usage: kin [flags] <command>"
                  | CmdJoinUsage => Exit 1 "usage: kin join <kin:token>"
                  | c => RunCommand debug c cfgDir sharedDir listen relay
                  end
              end
          end
      end
  end.

(** * Facts *)

(** A flag and its value in one argument. *)
Definition render (fv : formal * bytes) : bytes := [minus; minus] ++ fm_name fv.1 ++ equals :: fv.2.

(** A name that a flag can have, and the values that a flag takes unchanged. *)
Definition good_name (n : bytes) : Prop := n ≠ [] ∧ head n ≠ Some minus ∧ equals ∉ n.
Definition takes (fv : formal * bytes) : Prop :=
  match fm_kind fv.1 with FString => True | FBool => fv.2 = f_true ∨ fv.2 = f_false end.

Definition plain_rest (args : list bytes) : Prop :=
  match args with [] => True | s :: _ => classify s = Plain end.

Definition assign (vals : fvals) (fvs : list (formal * bytes)) : fvals :=
  foldl (λ m fv, <[fm_name fv.1 := fv.2]> m) vals fvs.

Lemma cut_equals_app n v : equals ∉ n → cut_equals (n ++ equals :: v) = (n, Some v).
Proof.
  induction n as [|c n IH]; intros Hn; [done|]. cbn [app cut_equals].
  rewrite bool_decide_false by (intros ->; apply Hn; by left). rewrite IH; [done|].
  intros Hin. apply Hn. by right.
Qed.

Lemma classify_render f v : good_name (fm_name f) →
  classify (render (f, v)) = Flag (fm_name f ++ equals :: v) ∧
  cut_name (fm_name f ++ equals :: v) = (fm_name f, Some v).
Proof.
  intros (Hne & Hhd & Heq). unfold render. cbn [fst snd]. destruct (fm_name f) as [|c n]; [done|].
  assert (c ≠ minus) as Hc by (intros ->; by apply Hhd). assert (c ≠ equals) as Hc' by (intros ->; apply Heq; by left).
  split.
  - cbn [classify app]. rewrite !(bool_decide_true (minus = minus)) by done. cbn [negb app].
    by rewrite !bool_decide_false by done.
  - cbn [cut_name app]. rewrite cut_equals_app; [done|]. intros Hin. apply Heq. by right.
Qed.

Lemma Parse_plain formals vals args : plain_rest args → Parse formals vals args = Parsed vals args.
Proof. destruct args as [|s args]; [done|]. cbn. by intros ->. Qed.

Lemma Parse_render formals fvs vals rest :
  Forall (λ fv, find_formal formals (fm_name fv.1) = Some fv.1 ∧ good_name (fm_name fv.1) ∧ takes fv) fvs →
  plain_rest rest →
  Parse formals vals (map render fvs ++ rest) = Parsed (assign vals fvs) rest.
Proof.
  intros Hfvs Hrest. revert vals. induction Hfvs as [|[f v] fvs (Hf & Hn & Ht) _ IH]; intros vals.
  { by apply Parse_plain. }
  cbn [map app Parse]. destruct (classify_render f v Hn) as [-> ->]. cbn [fst snd] in *. rewrite Hf.
  unfold takes in Ht. cbn [fst snd] in Ht. destruct (fm_kind f); [apply IH|].
  destruct Ht as [-> | ->]; apply IH.
Qed.

(** The flags of both programs can be found under their names. *)
Lemma flags_good formals : formals = kin_flags ∨ formals = relay_flags →
  ∀ f, f ∈ formals → find_formal formals (fm_name f) = Some f ∧ good_name (fm_name f).
Proof.
  assert (∀ n : bytes, bool_decide (n ≠ []) && bool_decide (head n ≠ Some minus) && bool_decide (equals ∉ n) = true →
            good_name n) as Hgood.
  { intros n. rewrite !andb_true_iff, !bool_decide_eq_true. intros [[? ?] ?]. done. }
  intros [-> | ->] f Hf; unfold kin_flags, relay_flags in Hf; rewrite !elem_of_cons in Hf;
    repeat destruct Hf as [-> |Hf]; try (by apply elem_of_nil in Hf);
    (split; [by vm_compute|apply Hgood; by vm_compute]).
Qed.

(** * Properties *)

(** What is given before the command is what the program gets: for any values of any
    flags of [kin] or the relay, in any order and number, each written as one argument,
    and any arguments after them that do not begin with a flag, parsing ends with the
    last value of every flag, the default of the others, and exactly these arguments. What
    is given after a command is not parsed: [kin run --relay addr] runs without a
    relay. *)
Theorem command_line (formals : list formal) (fvs : list (formal * bytes)) (rest : list bytes)
    (windows : bool) (home appdata : outcome bytes) (setup : bytes → outcome unit) (extra : list bytes) :
  formals = kin_flags ∨ formals = relay_flags →
  Forall (λ fv, fv.1 ∈ formals ∧ takes fv) fvs → plain_rest rest →
  Parse formals (defaults formals) (map render fvs ++ rest) = Parsed (assign (defaults formals) fvs) rest ∧
  main windows home appdata setup (str "run" :: extra) = main windows home appdata setup [str "run"] ∧
  (∀ cfg, resolveConfigDir windows home appdata [] = Ok cfg →
     main windows home appdata setup (str "run" :: extra) =
       RunCommand false CmdRun cfg [] DefaultListenAddr []).
Proof.
  intros Hformals Hfvs Hrest. split.
  - apply Parse_render; [|done]. eapply Forall_impl; [exact Hfvs|]. intros [f v] [Hf Ht]. cbn [fst] in *.
    destruct (flags_good formals Hformals f Hf). done.
  - assert (∀ extra, Parse kin_flags (defaults kin_flags) (str "run" :: extra) =
              Parsed (defaults kin_flags) (str "run" :: extra)) as Hp by done.
    unfold main. rewrite !Hp. split; [done|]. intros cfg Hcfg.
    change (get (defaults kin_flags) "config-dir") with (@nil byte). by rewrite Hcfg.
Qed.

(** * Witnesses *)

Module FlagsWitness.

Definition relay_f : formal := mk_formal (str "relay") FString [].
Definition debug_f : formal := mk_formal (str "debug") FBool f_false.
Definition fvs : list (formal * bytes) := [(relay_f, str "r:1"); (debug_f, f_true); (relay_f, str "--r:2")].

Lemma parse_values :
  match Parse kin_flags (defaults kin_flags) (map str ["-listen"; "a:1"; "--debug"; "--"; "-x"]) with
  | Parsed vals rest => Some (get vals "listen", get vals "debug", get vals "relay", rest)
  | _ => None
  end = Some (str "a:1", f_true, [], [str "-x"]) ∧
  Parse kin_flags (defaults kin_flags) (map str ["-debug=maybe"]) =
    Malformed "invalid boolean value %q for -%s: %v" (str "debug") ∧
  Parse kin_flags (defaults kin_flags) (map str ["-relay"]) = Malformed "flag needs an argument: -%s" (str "relay") ∧
  Parse kin_flags (defaults kin_flags) (map str ["--=x"]) = Malformed "bad flag syntax: %s" (str "--=x") ∧
  Parse kin_flags (defaults kin_flags) (map str ["-h"]) = Help.
Proof. by vm_compute. Qed.

Lemma command_line_witness :
  Parse kin_flags (defaults kin_flags) (map render fvs ++ [str "join"; str "kin:t"]) =
    Parsed (assign (defaults kin_flags) fvs) [str "join"; str "kin:t"] ∧
  main false (Ok (str "/h")) (Ok []) (λ _, Ok tt) (map str ["run"; "--relay"; "r:1"]) =
    RunCommand false CmdRun (str "/h/.config/kin") [] DefaultListenAddr [].
Proof.
  destruct (command_line kin_flags fvs [str "join"; str "kin:t"] false (Ok (str "/h")) (Ok []) (λ _, Ok tt)
    (map str ["--relay"; "r:1"])) as (Hp & _ & Hm).
  - by left.
  - repeat constructor; try (by apply (bool_decide_unpack _)); cbn; auto.
  - done.
  - split; [exact Hp|]. by apply (Hm (str "/h/.config/kin")).
Defined.

End FlagsWitness.
