(* ===== verification/Tui.v ===== *)
(** The state of the terminal interface, [internal/tui]: the file list
    ([catalog_model.go]) and the transfers ([progress.go]). Rendering is not modelled, except for which rows of the file list
    are drawn. A key press is its name ([KeyMsg.String()]) with its type and runes;
    [ToLower] is [strings.ToLower]. *)

From S2P Require Import Prelude GoStd Ipc Daemon.

Inductive key_type := KeyBackspace | KeyRunes | KeyEnter | KeyCtrlC | KeyOther.

Record KeyMsg := mk_KeyMsg {
  key_String : bytes;
  key_Type : key_type;
  key_Runes : bytes
}.

(** [key.Matches(msg, binding)]. *)
Definition Matches (msg : KeyMsg) (binding : list bytes) : bool :=
  bool_decide (key_String msg ∈ binding).

(** * keys.go *)

Module keys.
Definition Quit : list bytes := [str "q"].
Definition Tab : list bytes := [str "tab"].
Definition Help : list bytes := [str "?"; str "f1"].
Definition Up : list bytes := [str "k"; str "up"].
Definition Down : list bytes := [str "j"; str "down"].
Definition First : list bytes := [str "g"; str "home"].
Definition Last : list bytes := [str "G"; str "end"].
Definition HalfUp : list bytes := [str "ctrl+u"].
Definition HalfDown : list bytes := [str "ctrl+d"].
Definition Enter : list bytes := [str "enter"; str "l"].
Definition Search : list bytes := [str "/"].
Definition Escape : list bytes := [str "esc"].
Definition Select : list bytes := [str " "; str "x"].
Definition Download : list bytes := [str "D"].
Definition Progress : list bytes := [str "p"].
Definition Invite : list bytes := [str "i"].
Definition Join : list bytes := [str "J"].
Definition Disconnect : list bytes := [str "d"].
End keys.

(** * Cursor and viewport, the same in both lists *)

Definition clamp (cursor n : Z) : Z := if n =? 0 then 0 else Z.max 0 (Z.min cursor (n - 1)).

Definition scroll (height cursor offset : Z) : Z :=
  if height <=? 0 then offset
  else
    let offset := if cursor <? offset then cursor else offset in
    if offset + height <=? cursor then cursor - height + 1 else offset.

(** * catalog_model.go *)

Section Catalog.
Context (ToLower : bytes → bytes).

Record CatalogModel := mk_CatalogModel {
  files : list FileInfo;
  cursor : Z;
  offset : Z;
  selected : gset bytes;
  search : bytes;
  searching : bool;
  filtered : list FileInfo;
  height : Z;
  width : Z
}.

Definition NewCatalogModel : CatalogModel := mk_CatalogModel [] 0 0 ∅ [] false [] 0 0.

Definition Visible (m : CatalogModel) : list FileInfo :=
  if searching m && negb (bool_decide (search m = [])) then filtered m else files m.

(** [strings.Contains(s, substr)]. *)
Fixpoint Contains (s substr : bytes) : bool :=
  HasPrefix s substr || match s with [] => false | _ :: s' => Contains s' substr end.

Definition matching (fs : list FileInfo) (text : bytes) : list FileInfo :=
  List.filter (λ f, Contains (ToLower (FileInfo_Name f)) (ToLower text)) fs.

Definition applyFilter (m : CatalogModel) : CatalogModel :=
  mk_CatalogModel (files m) (cursor m) (offset m) (selected m) (search m) (searching m)
    (if bool_decide (search m = []) then [] else matching (files m) (search m)) (height m) (width m).

Definition with_cursor (m : CatalogModel) (c : Z) : CatalogModel :=
  mk_CatalogModel (files m) c (offset m) (selected m) (search m) (searching m) (filtered m) (height m) (width m).
Definition with_offset (m : CatalogModel) (o : Z) : CatalogModel :=
  mk_CatalogModel (files m) (cursor m) o (selected m) (search m) (searching m) (filtered m) (height m) (width m).
Definition with_search (m : CatalogModel) (on : bool) (s : bytes) : CatalogModel :=
  mk_CatalogModel (files m) (cursor m) (offset m) (selected m) s on (filtered m) (height m) (width m).
Definition with_selected (m : CatalogModel) (s : gset bytes) : CatalogModel :=
  mk_CatalogModel (files m) (cursor m) (offset m) s (search m) (searching m) (filtered m) (height m) (width m).
Definition with_files (m : CatalogModel) (fs : list FileInfo) : CatalogModel :=
  mk_CatalogModel fs (cursor m) (offset m) (selected m) (search m) (searching m) (filtered m) (height m) (width m).

Definition clampCursor (m : CatalogModel) : CatalogModel :=
  with_cursor m (clamp (cursor m) (len (Visible m))).

Definition scrollToCursor (m : CatalogModel) : CatalogModel :=
  with_offset m (scroll (height m) (cursor m) (offset m)).

Definition SetFiles (m : CatalogModel) (fs : list FileInfo) : CatalogModel :=
  clampCursor (applyFilter (with_files m fs)).

Definition SetSize (m : CatalogModel) (w h : Z) : CatalogModel :=
  mk_CatalogModel (files m) (cursor m) (offset m) (selected m) (search m) (searching m) (filtered m) h w.

Definition IsSelected (m : CatalogModel) (i : nat) : bool :=
  match Visible m !! i with
  | Some f => bool_decide (FileInfo_FileID f ∈ selected m)
  | None => false
  end.

Definition SelectedFiles (m : CatalogModel) : list FileInfo :=
  List.filter (λ f, bool_decide (FileInfo_FileID f ∈ selected m)) (Visible m).

(** The index is within the slice when the guard lets it through. *)
Definition toggleSelection (m : CatalogModel) : CatalogModel :=
  let visible := Visible m in
  if (cursor m <? 0) || (len visible <=? cursor m) then m
  else
    match visible !! Z.to_nat (cursor m) with
    | None => m
    | Some f =>
        let fileID := FileInfo_FileID f in
        if bool_decide (fileID ∈ selected m) then with_selected m (selected m ∖ {[fileID]})
        else with_selected m ({[fileID]} ∪ selected m)
    end.

Definition move (m : CatalogModel) (c : Z) : CatalogModel :=
  scrollToCursor (clampCursor (with_cursor m c)).

Definition updateSearch (m : CatalogModel) (msg : KeyMsg) : CatalogModel :=
  if Matches msg keys.Escape then clampCursor (applyFilter (with_search m false []))
  else
    match key_Type msg with
    | KeyBackspace =>
        if 0 <? len (search m)
        then clampCursor (applyFilter (with_search m (searching m) (removelast (search m))))
        else m
    | KeyRunes =>
        with_offset (with_cursor (applyFilter (with_search m (searching m) (search m ++ key_Runes msg))) 0) 0
    | _ =>
        if Matches msg keys.Down then move m (cursor m + 1)
        else if Matches msg keys.Up then move m (cursor m - 1)
        else m
    end.

Definition Update (m : CatalogModel) (msg : KeyMsg) : CatalogModel :=
  if searching m then updateSearch m msg
  else if Matches msg keys.Down then move m (cursor m + 1)
  else if Matches msg keys.Up then move m (cursor m - 1)
  else if Matches msg keys.First then scrollToCursor (with_cursor m 0)
  else if Matches msg keys.Last then scrollToCursor (with_cursor m (Z.max 0 (len (Visible m) - 1)))
  else if Matches msg keys.HalfDown then move m (cursor m + Z.quot (height m) 2)
  else if Matches msg keys.HalfUp then move m (cursor m - Z.quot (height m) 2)
  else if Matches msg keys.Search then with_search m true []
  else if Matches msg keys.Select then toggleSelection m
  else m.

(** The rows that [CatalogView] draws: the indexes from [offset] up to the end of the
    list or of the panel. *)
Definition rows (m : CatalogModel) : list FileInfo :=
  let visible := Visible m in
  let last := Z.min (offset m + height m) (len visible) in
  take (Z.to_nat (last - offset m)) (drop (Z.to_nat (offset m)) visible).

(** What happens to the list. *)
Inductive catalog_op :=
| OpSetFiles (fs : list FileInfo)
| OpSetSize (w h : Z)
| OpKey (msg : KeyMsg).

Definition apply_op (m : CatalogModel) (o : catalog_op) : CatalogModel :=
  match o with
  | OpSetFiles fs => SetFiles m fs
  | OpSetSize w h => SetSize m w h
  | OpKey msg => Update m msg
  end.

(** The cursor is on a row of a list that matches the search. *)
Record model_ok (m : CatalogModel) : Prop := {
  ok_filtered : filtered m = if bool_decide (search m = []) then [] else matching (files m) (search m);
  ok_search : searching m = false → search m = [];
  ok_cursor : 0 ≤ cursor m ∧ (cursor m < len (Visible m) ∨ cursor m = 0);
  ok_offset : 0 ≤ offset m
}.

Lemma clamp_ok c n : 0 ≤ n → 0 ≤ clamp c n ∧ (clamp c n < n ∨ clamp c n = 0).
Proof. intros Hn. unfold clamp. destruct (Z.eqb_spec n 0); lia. Qed.

Lemma scroll_nonneg h c o : 0 ≤ c → 0 ≤ o → 0 ≤ scroll h c o.
Proof.
  intros Hc Ho. unfold scroll. destruct (Z.leb_spec h 0); [done|].
  cbv zeta. destruct (Z.ltb_spec c o).
  - destruct (Z.leb_spec (c + h) c); lia.
  - destruct (Z.leb_spec (o + h) c); lia.
Qed.

Lemma scroll_shows h c o : 0 < h → scroll h c o ≤ c < scroll h c o + h.
Proof.
  intros Hh. unfold scroll. destruct (Z.leb_spec h 0); [lia|].
  cbv zeta. destruct (Z.ltb_spec c o).
  - destruct (Z.leb_spec (c + h) c); lia.
  - destruct (Z.leb_spec (o + h) c); lia.
Qed.

Lemma clampCursor_ok m :
  filtered m = (if bool_decide (search m = []) then [] else matching (files m) (search m)) →
  (searching m = false → search m = []) → 0 ≤ offset m → model_ok (clampCursor m).
Proof. intros Hf Hs Ho. split; [done|done| |done]. apply clamp_ok, len_nonneg. Qed.

Lemma scroll_ok m : model_ok m → model_ok (scrollToCursor m).
Proof. intros [Hf Hs Hc Ho]. split; [done|done|done|]. apply scroll_nonneg; [apply Hc|done]. Qed.

Lemma move_ok m c : model_ok m → model_ok (move m c).
Proof. intros [Hf Hs Hc Ho]. apply scroll_ok, clampCursor_ok; done. Qed.

Lemma cursor_ok m c :
  model_ok m → 0 ≤ c → c < len (Visible m) ∨ c = 0 → model_ok (with_cursor m c).
Proof. intros [Hf Hs Hc Ho] H0 H1. by split. Qed.

Lemma updateSearch_ok m msg : searching m = true → model_ok m → model_ok (updateSearch m msg).
Proof.
  intros Es Hok. pose proof Hok as [Hf Hs Hc Ho]. unfold updateSearch.
  destruct (Matches msg keys.Escape); [by apply clampCursor_ok|].
  destruct (key_Type msg).
  { destruct (0 <? len (search m)); [|done].
    apply clampCursor_ok; [done|simpl; congruence|done]. }
  { split; [done|simpl; congruence| |done]. simpl. lia. }
  all: destruct (Matches msg keys.Down); [by apply move_ok|].
  all: destruct (Matches msg keys.Up); [by apply move_ok|done].
Qed.

Lemma toggleSelection_ok m : model_ok m → model_ok (toggleSelection m).
Proof.
  intros Hok. unfold toggleSelection. cbv zeta.
  destruct (_ || _); [done|]. destruct (_ !! _) as [f|]; [|done].
  destruct (bool_decide _); by destruct Hok.
Qed.

Lemma Update_ok m msg : model_ok m → model_ok (Update m msg).
Proof.
  intros Hok. unfold Update. destruct (searching m) eqn:Es; [by apply updateSearch_ok|].
  repeat match goal with
  | |- model_ok (if Matches msg _ then _ else _) => destruct (Matches msg _)
  end; try first [by apply move_ok|by apply toggleSelection_ok|done].
  - apply scroll_ok, cursor_ok; [done|lia|by right].
  - apply scroll_ok, cursor_ok; [done|lia|]. pose proof (len_nonneg (Visible m)). lia.
  - destruct Hok as [Hf Hs Hc Ho]. rewrite Hs in Hf by done. split; [done|done| |done].
    unfold Visible in *. rewrite Es in Hc. done.
Qed.

Lemma apply_op_ok m o : model_ok m → model_ok (apply_op m o).
Proof.
  intros Hok. destruct o as [fs|w h|msg]; simpl.
  - destruct Hok as [Hf Hs Hc Ho]. by apply clampCursor_ok.
  - by destruct Hok.
  - by apply Update_ok.
Qed.

Lemma run_ok ops m : model_ok m → model_ok (foldl apply_op m ops).
Proof. revert m. induction ops as [|o ops IH]; intros m Hok; [done|]. apply IH, apply_op_ok, Hok. Qed.

Lemma new_ok : model_ok NewCatalogModel.
Proof. split; [done|done|by split; [|right]|done]. Qed.

End Catalog.

(** * progress.go *)

Record transferState := mk_transferState {
  tr_fileID : bytes;
  tr_fileName : bytes;
  tr_done : bool;
  tr_err : option error
}.

Record ProgressModel := mk_ProgressModel {
  transfers : list transferState;
  progress_visible : bool;
  progress_width : Z
}.

Definition progress_SetWidth (m : ProgressModel) (w : Z) : ProgressModel :=
  mk_ProgressModel (transfers m) (progress_visible m) w.

Definition Toggle (m : ProgressModel) : ProgressModel :=
  mk_ProgressModel (transfers m) (negb (progress_visible m)) (progress_width m).

Definition AddTransfer (m : ProgressModel) (f : FileInfo) : ProgressModel :=
  mk_ProgressModel (transfers m ++ [mk_transferState (FileInfo_FileID f) (FileInfo_Name f) false None])
    (progress_visible m) (progress_width m).

(** The first transfer with the id is marked, whether or not it is done. *)
Fixpoint mark_done (ts : list transferState) (fileID : bytes) (err : option error) : list transferState :=
  match ts with
  | [] => []
  | t :: ts' =>
      if bool_decide (tr_fileID t = fileID)
      then mk_transferState (tr_fileID t) (tr_fileName t) true err :: ts'
      else t :: mark_done ts' fileID err
  end.

Definition MarkDone (m : ProgressModel) (fileID : bytes) (err : option error) : ProgressModel :=
  mk_ProgressModel (mark_done (transfers m) fileID err) (progress_visible m) (progress_width m).

Definition HasActive (m : ProgressModel) : bool := existsb (λ t, negb (tr_done t)) (transfers m).

(** A file that was in the list before keeps its later transfers running. *)
Lemma mark_done_app ts ts' n e :
  n ∈ map tr_fileID ts → mark_done (ts ++ ts') n e = mark_done ts n e ++ ts'.
Proof.
  induction ts as [|t ts IH]; simpl; [by intros ?%not_elem_of_nil|].
  case_bool_decide as Heq; [done|]. intros [?|?]%elem_of_cons; [congruence|]. by rewrite IH.
Qed.

(** * Properties *)

(** The file list is consistent after any sequence of refreshes, resizes and
    keys: what is shown is exactly the files whose name contains the search text, in
    order (all files when there is none), the cursor is on one of them (or 0 when
    there are none), and the viewport does not begin before the first row; it can lie
    beyond the last one ([refresh_hides_rows]). *)
Theorem catalog_model_consistent (ToLower : bytes → bytes) (ops : list catalog_op) :
  let m := foldl (apply_op ToLower) NewCatalogModel ops in
  Visible m = (if bool_decide (search m = []) then files m else matching ToLower (files m) (search m)) ∧
  0 ≤ cursor m ∧ (Visible m ≠ [] → cursor m < len (Visible m)) ∧ (Visible m = [] → cursor m = 0) ∧
  0 ≤ offset m.
Proof.
  pose proof (run_ok ToLower ops NewCatalogModel (new_ok ToLower)) as [Hf Hs [Hc0 Hc] Ho].
  set (m := foldl _ _ _) in *. clearbody m. simpl. split_and!; [|done| | |done].
  - unfold Visible. destruct (searching m); simpl.
    + by destruct (bool_decide (search m = [])).
    + by rewrite bool_decide_true by auto.
  - intros Hne%len_pos. lia.
  - intros He. rewrite He in Hc. unfold len in Hc. simpl in Hc. lia.
Qed.

(** A navigation key shows the cursor: after it the cursor's row is within the
    panel, whatever the viewport was before. *)
Theorem navigation_shows_cursor (ToLower : bytes → bytes) (m : CatalogModel) (msg : KeyMsg) :
  0 < height m → searching m = false →
  Matches msg (keys.Down ++ keys.Up ++ keys.First ++ keys.Last ++ keys.HalfDown ++ keys.HalfUp) = true →
  let m' := Update ToLower m msg in offset m' ≤ cursor m' < offset m' + height m'.
Proof.
  intros Hh Hs Hk. unfold Update, Matches in *. rewrite Hs. apply bool_decide_eq_true in Hk.
  rewrite !elem_of_app in Hk.
  repeat (case_bool_decide; [by apply scroll_shows|]). naive_solver.
Qed.

(** A refresh can hide every file: when the viewport was scrolled past the end of
    the new list, [SetFiles] moves the cursor but not the viewport, and no row is
    drawn although there are files. *)
Theorem refresh_hides_rows (ToLower : bytes → bytes) (m : CatalogModel) (fs : list FileInfo) :
  searching m = false → fs ≠ [] → len fs ≤ offset m →
  let m' := SetFiles ToLower m fs in Visible m' = fs ∧ cursor m' < offset m' ∧ rows m' = [].
Proof.
  intros Hs Hne Ho. assert (Visible (SetFiles ToLower m fs) = fs) as Hv.
  { unfold SetFiles, clampCursor, Visible. simpl. by rewrite Hs. }
  apply len_pos in Hne. simpl. split_and!; [done| |].
  - simpl. unfold Visible. simpl. rewrite Hs. simpl. unfold clamp.
    destruct (Z.eqb_spec (len fs) 0); lia.
  - unfold rows. rewrite Hv. cbn [offset SetFiles clampCursor applyFilter with_files with_cursor].
    rewrite drop_ge by (unfold len in Ho; lia). by rewrite take_nil.
Qed.

(** A file that is downloaded twice stays in progress: when a transfer of the
    file is already listed, finishing the second one marks the first again. *)
Theorem repeated_download_active (m : ProgressModel) (f : FileInfo) (err : option error) :
  FileInfo_FileID f ∈ map tr_fileID (transfers m) →
  HasActive (MarkDone (AddTransfer m f) (FileInfo_FileID f) err) = true.
Proof.
  intros Hin. unfold HasActive, MarkDone, AddTransfer. simpl. rewrite mark_done_app by done.
  rewrite existsb_app. simpl. by rewrite orb_true_r.
Qed.

(** * Witnesses *)

Module TuiWitness.

Definition key (name : string) : KeyMsg := mk_KeyMsg (str name) KeyOther [].
Definition file (id : string) : FileInfo := mk_FileInfo (str id) (str id) 1 [] [] false.
Definition m3 : CatalogModel :=
  foldl (apply_op id) NewCatalogModel
    [OpSetSize 80 2; OpSetFiles [file "a"; file "b"; file "c"]; OpKey (key "G")].

Lemma m3_value : cursor m3 = 2 ∧ offset m3 = 1 ∧ rows m3 = [file "b"; file "c"].
Proof. by vm_compute. Qed.

Lemma navigation_shows_cursor_witness :
  let m' := Update id m3 (key "up") in offset m' ≤ cursor m' < offset m' + height m'.
Proof. apply (navigation_shows_cursor id m3 (key "up")); by vm_compute. Defined.

Lemma refresh_hides_rows_witness :
  let m' := SetFiles id m3 [file "a"] in Visible m' = [file "a"] ∧ cursor m' < offset m' ∧ rows m' = [].
Proof. apply (refresh_hides_rows id m3 [file "a"]); by vm_compute. Defined.

Definition p1 : ProgressModel :=
  MarkDone (AddTransfer (mk_ProgressModel [] false 0) (file "a")) (str "a") None.

Lemma repeated_download_active_witness :
  HasActive (MarkDone (AddTransfer p1 (file "a")) (str "a") None) = true.
Proof. apply (repeated_download_active p1 (file "a") None). simpl. left. Defined.

End TuiWitness.

