(* ===== verification/TuiPeers.v ===== *)
(** The peer list of the terminal interface, [internal/tui/peer_model.go]: navigation,
    and the online and offline events that arrive from the daemon. *)

From S2P Require Import Prelude GoStd Ipc Daemon Tui.

Record PeerModel := mk_PeerModel {
  peers : list PeerInfo;
  cursor : Z;
  offset : Z;
  height : Z;
  width : Z
}.

Definition with_peers (m : PeerModel) (ps : list PeerInfo) : PeerModel :=
  mk_PeerModel ps (cursor m) (offset m) (height m) (width m).
Definition with_cursor (m : PeerModel) (c : Z) : PeerModel :=
  mk_PeerModel (peers m) c (offset m) (height m) (width m).

Definition clampCursor (m : PeerModel) : PeerModel :=
  with_cursor m (clamp (cursor m) (len (peers m))).

Definition scrollToCursor (m : PeerModel) : PeerModel :=
  mk_PeerModel (peers m) (cursor m) (scroll (height m) (cursor m) (offset m)) (height m) (width m).

Definition SetPeers (m : PeerModel) (ps : list PeerInfo) : PeerModel := clampCursor (with_peers m ps).

Definition SetSize (m : PeerModel) (w h : Z) : PeerModel :=
  mk_PeerModel (peers m) (cursor m) (offset m) h w.

(** [&m.peers[m.cursor]] panics when the cursor is negative. *)
Definition SelectedPeer (m : PeerModel) : outcome (option PeerInfo) :=
  if (len (peers m) =? 0) || (len (peers m) <=? cursor m) then Ok None
  else if cursor m <? 0 then Panic
  else Ok (peers m !! Z.to_nat (cursor m)).

Definition with_online (p : PeerInfo) (on : bool) : PeerInfo :=
  mk_PeerInfo (PeerInfo_NodeID p) (PeerInfo_NodeIDShort p) (PeerInfo_TrustState p)
    (PeerInfo_LastSeen p) (PeerInfo_Endpoints p) on.

(** The loop that marks the first peer with the id: [None] when there is none. *)
Fixpoint mark (ps : list PeerInfo) (nodeID : bytes) (on : bool) : option (list PeerInfo) :=
  match ps with
  | [] => None
  | p :: ps' =>
      if bool_decide (PeerInfo_NodeID p = nodeID) then Some (with_online p on :: ps')
      else (λ l, p :: l) <$> mark ps' nodeID on
  end.

Definition UpdatePeerOnline (m : PeerModel) (info : PeerInfo) : PeerModel :=
  match mark (peers m) (PeerInfo_NodeID info) true with
  | Some ps => with_peers m ps
  | None => with_peers m (peers m ++ [with_online info true])
  end.

Definition UpdatePeerOffline (m : PeerModel) (nodeID : bytes) : PeerModel :=
  match mark (peers m) nodeID false with
  | Some ps => with_peers m ps
  | None => m
  end.

Definition Update (m : PeerModel) (msg : KeyMsg) : PeerModel :=
  if Matches msg keys.Down then scrollToCursor (clampCursor (with_cursor m (cursor m + 1)))
  else if Matches msg keys.Up then scrollToCursor (clampCursor (with_cursor m (cursor m - 1)))
  else if Matches msg keys.First then scrollToCursor (with_cursor m 0)
  else if Matches msg keys.Last then scrollToCursor (with_cursor m (Z.max 0 (len (peers m) - 1)))
  else m.

(** What happens to the list. *)
Inductive peer_op :=
| OpSetPeers (ps : list PeerInfo)
| OpSetSize (w h : Z)
| OpOnline (info : PeerInfo)
| OpOffline (nodeID : bytes)
| OpKey (msg : KeyMsg).

Definition apply_op (m : PeerModel) (o : peer_op) : PeerModel :=
  match o with
  | OpSetPeers ps => SetPeers m ps
  | OpSetSize w h => SetSize m w h
  | OpOnline info => UpdatePeerOnline m info
  | OpOffline nodeID => UpdatePeerOffline m nodeID
  | OpKey msg => Update m msg
  end.

Definition ids (ps : list PeerInfo) : list bytes := map PeerInfo_NodeID ps.

(** Whether the peer with an id is shown as online; [None] when it is not listed. *)
Fixpoint online (ps : list PeerInfo) (nodeID : bytes) : option bool :=
  match ps with
  | [] => None
  | p :: ps' =>
      if bool_decide (PeerInfo_NodeID p = nodeID) then Some (PeerInfo_Online p) else online ps' nodeID
  end.

Lemma mark_spec ps n on :
  match mark ps n on with
  | Some ps' => ids ps' = ids ps ∧ length ps' = length ps ∧ online ps n ≠ None ∧
      ∀ k, online ps' k = if bool_decide (k = n) then Some on else online ps k
  | None => online ps n = None ∧ n ∉ ids ps
  end.
Proof.
  induction ps as [|p ps IH]; simpl; [by split; [|set_solver]|].
  case_bool_decide as Heq; simpl.
  - split_and!; [done|done|done|]. intros k. subst n. case_bool_decide as Hk.
    + by rewrite bool_decide_true by done.
    + by rewrite bool_decide_false by congruence.
  - destruct (mark ps n on) as [ps'|]; simpl.
    + destruct IH as (Hid & Hl & Hne & Hon). unfold ids in *. simpl.
      split_and!; [by rewrite Hid|by rewrite Hl|done|]. intros k. rewrite Hon.
      destruct (decide (PeerInfo_NodeID p = k)) as [<-|Hk].
      * rewrite !(bool_decide_true (PeerInfo_NodeID p = PeerInfo_NodeID p)) by done.
        by rewrite (bool_decide_false (PeerInfo_NodeID p = n)) by done.
      * by rewrite (bool_decide_false (PeerInfo_NodeID p = k)) by done.
    + destruct IH as [Hn Hin]. split; [done|]. apply not_elem_of_cons. by split.
Qed.

Lemma online_app ps p k :
  online (ps ++ [p]) k =
    match online ps k with
    | Some b => Some b
    | None => if bool_decide (PeerInfo_NodeID p = k) then Some (PeerInfo_Online p) else None
    end.
Proof. induction ps as [|q ps IH]; simpl; [done|]. by destruct (bool_decide (PeerInfo_NodeID q = k)). Qed.

(** Online and offline events only change the status of their peer, and an online
    event adds a peer that was not listed. *)
Lemma online_event m info k :
  online (peers (UpdatePeerOnline m info)) k =
    if bool_decide (k = PeerInfo_NodeID info) then Some true else online (peers m) k.
Proof.
  unfold UpdatePeerOnline. pose proof (mark_spec (peers m) (PeerInfo_NodeID info) true) as Hm.
  destruct (mark _ _ _) as [ps|]; simpl; [by apply Hm|]. rewrite online_app. simpl.
  destruct Hm as [Hm _]. case_bool_decide as Hk.
  - subst k. by rewrite Hm, bool_decide_true.
  - rewrite bool_decide_false by congruence. by destruct (online (peers m) k).
Qed.

Lemma offline_event m n k :
  online (peers (UpdatePeerOffline m n)) k =
    if bool_decide (k = n ∧ online (peers m) n ≠ None) then Some false else online (peers m) k.
Proof.
  unfold UpdatePeerOffline. pose proof (mark_spec (peers m) n false) as Hm.
  destruct (mark _ _ _) as [ps|]; simpl.
  - destruct Hm as (_ & _ & Hne & Hon). rewrite Hon.
    by rewrite (bool_decide_ext (k = n ∧ online (peers m) n ≠ None) (k = n)) by naive_solver.
  - destruct Hm as [Hm _]. rewrite bool_decide_false; [done|]. by intros [_ ?].
Qed.

(** What an operation does to the status of one peer. *)
Definition status_after (k : bytes) (prev : option bool) (o : peer_op) : option bool :=
  match o with
  | OpSetPeers ps => online ps k
  | OpOnline info => if bool_decide (k = PeerInfo_NodeID info) then Some true else prev
  | OpOffline n => if bool_decide (k = n ∧ prev ≠ None) then Some false else prev
  | OpSetSize _ _ | OpKey _ => prev
  end.

Definition cursor_ok (m : PeerModel) : Prop :=
  0 ≤ cursor m ∧ (cursor m < len (peers m) ∨ cursor m = 0) ∧ 0 ≤ offset m.

Lemma cursor_ok_clamp m : 0 ≤ offset m → cursor_ok (clampCursor m).
Proof.
  intros Ho. destruct (clamp_ok (cursor m) (len (peers m)) (len_nonneg _)). by split_and!.
Qed.

Lemma cursor_ok_scroll m : cursor_ok m → cursor_ok (scrollToCursor m).
Proof. intros (Hc & Hl & Ho). split_and!; [done|done|]. by apply scroll_nonneg. Qed.

Lemma Update_peers m msg : peers (Update m msg) = peers m.
Proof. unfold Update. repeat case_match; done. Qed.

Lemma Update_cursor m msg : cursor_ok m → cursor_ok (Update m msg).
Proof.
  intros Hok. pose proof Hok as (Hc & Hl & Ho). pose proof (len_nonneg (peers m)). unfold Update.
  repeat case_match; try done; apply cursor_ok_scroll; try by apply cursor_ok_clamp.
  - unfold cursor_ok; simpl. lia.
  - unfold cursor_ok; simpl. lia.
Qed.

(** Marking a listed peer changes neither the number of rows nor the cursor. *)
Lemma cursor_ok_mark m k on ps : mark (peers m) k on = Some ps → cursor_ok m → cursor_ok (with_peers m ps).
Proof.
  intros E (H0 & H1 & H2). pose proof (mark_spec (peers m) k on) as Hm. rewrite E in Hm.
  destruct Hm as (_ & Hl & _). split_and!; [done| |done]. simpl. unfold len in *. lia.
Qed.

Lemma apply_op_cursor m o : cursor_ok m → cursor_ok (apply_op m o).
Proof.
  intros Hok. pose proof Hok as (H0 & H1 & H2).
  destruct o as [ps|w h|info|n|msg]; simpl; [by apply cursor_ok_clamp|done| | |by apply Update_cursor].
  - unfold UpdatePeerOnline. destruct (mark _ _ _) as [ps|] eqn:E; [by eapply cursor_ok_mark|].
    split_and!; [done| |done]. simpl. rewrite len_app. pose proof (len_nonneg [with_online info true]). lia.
  - unfold UpdatePeerOffline. destruct (mark _ _ _) as [ps|] eqn:E; [by eapply cursor_ok_mark|done].
Qed.

Lemma apply_op_status m o k :
  online (peers (apply_op m o)) k = status_after k (online (peers m) k) o.
Proof.
  destruct o as [ps|w h|info|n|msg]; simpl; [done|done|apply online_event| |by rewrite Update_peers].
  rewrite offline_event. destruct (decide (k = n)) as [->|Hk]; [done|].
  by rewrite !bool_decide_false by naive_solver.
Qed.

Lemma run_status ops m k :
  cursor_ok m →
  cursor_ok (foldl apply_op m ops) ∧
  online (peers (foldl apply_op m ops)) k = foldl (status_after k) (online (peers m) k) ops.
Proof.
  revert m. induction ops as [|o ops IH]; intros m Hok; [done|]. cbn [foldl].
  rewrite <- apply_op_status. apply IH, apply_op_cursor, Hok.
Qed.

Definition zero : PeerModel := mk_PeerModel [] 0 0 0 0.

(** * Properties *)

(** Peer events are shown exactly: after any sequence of refreshes, events and
    keys a peer is listed as online or offline according to the last of them that
    concerns it (an offline event for a peer that is not listed does nothing), and
    the selected peer never is an index out of range. *)
Theorem peer_status_exact (ops : list peer_op) (k : bytes) :
  let m := foldl apply_op zero ops in
  online (peers m) k = foldl (status_after k) None ops ∧
  SelectedPeer m ≠ Panic.
Proof.
  destruct (run_status ops zero k) as [[H0 _] Hst]; [by split_and!; [|right|]|].
  split; [done|]. unfold SelectedPeer. case_match; [done|].
  by rewrite (proj2 (Z.ltb_ge _ _)) by done.
Qed.
