(* ===== verification/TuiModel.v ===== *)
(** The screen of the terminal interface, [internal/tui]: the top-level model
    ([model.go]), its commands and messages ([commands.go], [client.go]), the
    overlays ([overlay*.go]) and the status bar ([statusbar.go]); and the program
    that runs them. [screen] tells which of its screens [View] draws.

    A command is the value that [Update] returns: what running it does is
    [run_cmd]. [tea.Batch] is the list of its commands. The text field of the join
    overlay ([bubbles/textinput]) is the class [TextInput]. *)

From S2P Require Import Prelude GoStd Codec Ipc Daemon Tui TuiPeers.

(** * statusbar.go *)

Record StatusBarModel := mk_StatusBarModel {
  bar_nodeID : bytes;
  bar_peerCount : Z;
  bar_relayAddr : bytes;
  bar_relayOnline : bool;
  bar_width : Z
}.

Definition SetStatus (s : StatusBarModel) (resp : StatusResponse) : StatusBarModel :=
  mk_StatusBarModel (Status_NodeIDShort resp) (Status_PeerCount resp) (Status_RelayAddr resp)
    (Status_RelayOnline resp) (bar_width s).

Definition SetWidth (s : StatusBarModel) (w : Z) : StatusBarModel :=
  mk_StatusBarModel (bar_nodeID s) (bar_peerCount s) (bar_relayAddr s) (bar_relayOnline s) w.

Definition SetPeerCount (s : StatusBarModel) (n : Z) : StatusBarModel :=
  mk_StatusBarModel (bar_nodeID s) n (bar_relayAddr s) (bar_relayOnline s) (bar_width s).

Section Screen.
Context {TI TC TM : Type}.

(** * commands.go *)

(** [TextCmd] is a command of the text field, [Action] the action of a confirmation. *)
Inductive Cmd :=
| FetchStatus
| FetchPeers
| FetchCatalog
| DoInvite
| DoJoin (token : bytes)
| DoDownload (fileID : bytes)
| WaitForEvent
| Action
| Quit
| TextCmd (c : TC).

(** A result is a response or nil, and an error or nil. *)
Inductive Msg :=
| WindowSizeMsg (w h : Z)
| Key (msg : KeyMsg)
| StatusResult (resp : option StatusResponse) (err : option error)
| PeersResult (resp : option PeersResponse) (err : option error)
| CatalogResult (resp : option CatalogResponse) (err : option error)
| InviteResult (resp : option InviteResponse) (err : option error)
| JoinResult (resp : option JoinResponse) (err : option error)
| DownloadResult (fileID : bytes) (err : option error)
| DaemonEvent (ev : Event)
| DaemonDisconnected
| TextMsg (m : TM).

(** What the daemon answers when a command runs ([client.go]). *)
Record DaemonClient := mk_DaemonClient {
  client_Status : outcome StatusResponse;
  client_Peers : outcome PeersResponse;
  client_Invite : outcome InviteResponse;
  client_Join : bytes → outcome JoinResponse;
  client_Catalog : outcome CatalogResponse;
  client_Download : bytes → outcome unit
}.

(** A method of the client returns a response or an error. *)
Definition resp_of {A} (r : outcome A) : option A :=
  match r with Ok a => Some a | _ => None end.
Definition err_of {A} (r : outcome A) : option error :=
  match r with Err e => Some e | _ => None end.

(** [run_text] runs a command of the text field. A command may give no message.
    [WaitForEvent] receives [ev], [None] when the channel is closed. *)
Definition run_cmd (client : DaemonClient) (run_text : TC → option TM) (ev : option Event) (c : Cmd) :
    option Msg :=
  match c with
  | FetchStatus => Some (StatusResult (resp_of (client_Status client)) (err_of (client_Status client)))
  | FetchPeers => Some (PeersResult (resp_of (client_Peers client)) (err_of (client_Peers client)))
  | FetchCatalog => Some (CatalogResult (resp_of (client_Catalog client)) (err_of (client_Catalog client)))
  | DoInvite => Some (InviteResult (resp_of (client_Invite client)) (err_of (client_Invite client)))
  | DoJoin token =>
      Some (JoinResult (resp_of (client_Join client token)) (err_of (client_Join client token)))
  | DoDownload fileID => Some (DownloadResult fileID (err_of (client_Download client fileID)))
  | WaitForEvent => Some match ev with Some ev => DaemonEvent ev | None => DaemonDisconnected end
  | Action => None
  | Quit => None
  | TextCmd c => TextMsg <$> run_text c
  end.

(** * Overlays *)

(** [textinput.New] as [NewJoinOverlay] configures it, [Update], [Value] and [View]. *)
Class TextInput := {
  ti_New : TI;
  ti_Update : TI → Msg → TI * option TC;
  ti_Value : TI → bytes;
  ti_View : TI → bytes
}.

Inductive Overlay :=
| HelpOverlay
| InviteOverlay (token : bytes) (err : option error) (loading : bool)
| JoinOverlay (input : TI) (err : option error) (success : bytes) (loading : bool)
| ConfirmOverlay (message : bytes)
| DetailOverlay (peer : PeerInfo).

Definition errDaemonDisconnected : error := Errorf "daemon disconnected" [].
Definition errEmptyToken : error := Errorf "token is required" [].

Context `{TextInput}.

Definition NewInviteOverlay : Overlay := InviteOverlay [] None true.
Definition NewJoinOverlay : Overlay := JoinOverlay ti_New None [] false.

Definition help_Update (msg : Msg) : option Overlay :=
  match msg with
  | Key k => if Matches k keys.Escape || Matches k keys.Help then None else Some HelpOverlay
  | _ => Some HelpOverlay
  end.

Definition detail_Update (peer : PeerInfo) (msg : Msg) : option Overlay :=
  match msg with
  | Key k => if Matches k keys.Escape || Matches k keys.Enter then None else Some (DetailOverlay peer)
  | _ => Some (DetailOverlay peer)
  end.

Definition confirm_Update (message : bytes) (msg : Msg) : option Overlay * list Cmd :=
  match msg with
  | Key k =>
      if Matches k [str "y"; str "Y"] then (None, [Action])
      else if Matches k [str "n"; str "N"; str "esc"] then (None, [])
      else (Some (ConfirmOverlay message), [])
  | _ => (Some (ConfirmOverlay message), [])
  end.

Definition invite_Update (token : bytes) (err : option error) (loading : bool) (msg : Msg) :
    option Overlay :=
  match msg with
  | Key k => if Matches k keys.Escape then None else Some (InviteOverlay token err loading)
  | InviteResult resp err' =>
      match err', resp with
      | Some e, _ => Some (InviteOverlay token (Some e) false)
      | None, Some r => Some (InviteOverlay (InviteResponse_Token r) err false)
      | None, None => Some (InviteOverlay token err false)
      end
  | _ => Some (InviteOverlay token err loading)
  end.

(** The end of [JoinOverlay.Update]. *)
Definition forward_input (input : TI) (err : option error) (success : bytes) (loading : bool) (msg : Msg) :
    option Overlay * list Cmd :=
  if negb loading && bool_decide (success = []) then
    let '(input, cmd) := ti_Update input msg in
    (Some (JoinOverlay input err success loading), match cmd with Some c => [TextCmd c] | None => [] end)
  else (Some (JoinOverlay input err success loading), []).

Definition is_enter (k : KeyMsg) : bool := match key_Type k with KeyEnter => true | _ => false end.

Definition join_Update (input : TI) (err : option error) (success : bytes) (loading : bool) (msg : Msg) :
    option Overlay * list Cmd :=
  match msg with
  | Key k =>
      if Matches k keys.Escape then (None, [])
      else if is_enter k && negb loading then
        let token := ti_Value input in
        if bool_decide (token = []) then (Some (JoinOverlay input (Some errEmptyToken) success loading), [])
        else (Some (JoinOverlay input None success true), [DoJoin token])
      else forward_input input err success loading msg
  | JoinResult resp err' =>
      match err', resp with
      | Some e, _ => (Some (JoinOverlay input (Some e) success false), [])
      | None, Some r => (Some (JoinOverlay input err (JoinResponse_PeerNodeID r) false), [])
      | None, None => (Some (JoinOverlay input err success false), [])
      end
  | _ => forward_input input err success loading msg
  end.

(** The [Update] of the interface [Overlay]; no overlay means that it closes. *)
Definition overlay_Update (o : Overlay) (msg : Msg) : option Overlay * list Cmd :=
  match o with
  | HelpOverlay => (help_Update msg, [])
  | InviteOverlay token err loading => (invite_Update token err loading msg, [])
  | JoinOverlay input err success loading => join_Update input err success loading msg
  | ConfirmOverlay message => confirm_Update message msg
  | DetailOverlay peer => (detail_Update peer msg, [])
  end.

(** * model.go *)

Inductive panel := panelCatalog | panelPeers.

Record Model := mk_Model {
  m_catalog : CatalogModel;
  m_peers : PeerModel;
  m_status : StatusBarModel;
  m_progress : ProgressModel;
  m_focus : panel;
  m_overlay : option Overlay;
  m_width : Z;
  m_height : Z;
  m_err : option error;
  m_quitting : bool
}.

Definition NewModel : Model :=
  mk_Model NewCatalogModel TuiPeers.zero (mk_StatusBarModel [] 0 [] false 0) (mk_ProgressModel [] false 0)
    panelCatalog None 0 0 None false.

Definition Init : list Cmd := [FetchStatus; FetchPeers; FetchCatalog; WaitForEvent].

Definition set_catalog (m : Model) (x : CatalogModel) : Model :=
  mk_Model x (m_peers m) (m_status m) (m_progress m) (m_focus m) (m_overlay m) (m_width m) (m_height m) (m_err m) (m_quitting m).
Definition set_peers (m : Model) (x : PeerModel) : Model :=
  mk_Model (m_catalog m) x (m_status m) (m_progress m) (m_focus m) (m_overlay m) (m_width m) (m_height m) (m_err m) (m_quitting m).
Definition set_status (m : Model) (x : StatusBarModel) : Model :=
  mk_Model (m_catalog m) (m_peers m) x (m_progress m) (m_focus m) (m_overlay m) (m_width m) (m_height m) (m_err m) (m_quitting m).
Definition set_progress (m : Model) (x : ProgressModel) : Model :=
  mk_Model (m_catalog m) (m_peers m) (m_status m) x (m_focus m) (m_overlay m) (m_width m) (m_height m) (m_err m) (m_quitting m).
Definition set_focus (m : Model) (x : panel) : Model :=
  mk_Model (m_catalog m) (m_peers m) (m_status m) (m_progress m) x (m_overlay m) (m_width m) (m_height m) (m_err m) (m_quitting m).
Definition set_overlay (m : Model) (x : option Overlay) : Model :=
  mk_Model (m_catalog m) (m_peers m) (m_status m) (m_progress m) (m_focus m) x (m_width m) (m_height m) (m_err m) (m_quitting m).
Definition set_err (m : Model) (x : error) : Model :=
  mk_Model (m_catalog m) (m_peers m) (m_status m) (m_progress m) (m_focus m) (m_overlay m) (m_width m) (m_height m) (Some x) (m_quitting m).
Definition set_quitting (m : Model) : Model :=
  mk_Model (m_catalog m) (m_peers m) (m_status m) (m_progress m) (m_focus m) (m_overlay m) (m_width m) (m_height m) (m_err m) true.

Definition catalogWidthPct : Z := 70.
Definition minWidth : Z := 80.
Definition statusBarHeight : Z := 1.

Definition panelWidths (width : Z) : Z * Z :=
  if width <? minWidth then (width, 0)
  else
    let catalogW := Z.quot (width * catalogWidthPct) 100 in
    (catalogW, width - catalogW).

(** The window size is set, then [recalcLayout]. *)
Definition recalcLayout (m : Model) (w h : Z) : Model :=
  let '(catalogW, peerW) := panelWidths w in
  let panelH := h - statusBarHeight - 2 in
  mk_Model (Tui.SetSize (m_catalog m) catalogW panelH) (TuiPeers.SetSize (m_peers m) peerW panelH)
    (SetWidth (m_status m) w) (progress_SetWidth (m_progress m) w)
    (m_focus m) (m_overlay m) w h (m_err m) (m_quitting m).

Context (ToLower : bytes → bytes) `{IpcCodecs}.

Definition decodePeerInfo (data : bytes) : option PeerInfo :=
  resp_of (json_Unmarshal data json_zero).

Definition decodePeerOffline (data : bytes) : option PeerOfflineEvent :=
  resp_of (json_Unmarshal data json_zero).

Definition handleEvent (m : Model) (ev : Event) : Model * list Cmd :=
  if bool_decide (Event_Type ev = EventPeerOnline) then
    (match decodePeerInfo (Event_Data ev) with
     | Some info =>
         let m := set_peers m (UpdatePeerOnline (m_peers m) info) in
         set_status m (SetPeerCount (m_status m) (len (peers (m_peers m))))
     | None => m
     end, [WaitForEvent])
  else if bool_decide (Event_Type ev = EventPeerOffline) then
    (match decodePeerOffline (Event_Data ev) with
     | Some off => set_peers m (UpdatePeerOffline (m_peers m) (PeerOffline_NodeID off))
     | None => m
     end, [WaitForEvent])
  else if bool_decide (Event_Type ev = EventCatalogUpdated) then (m, [FetchCatalog; WaitForEvent])
  else (m, [WaitForEvent]).

Definition handleOverlayResult (m : Model) (msg : Msg) : Model * list Cmd :=
  match m_overlay m with
  | Some o => let '(o, cmds) := overlay_Update o msg in (set_overlay m o, cmds)
  | None => (m, [])
  end.

(** The files of [SelectedFiles] that are not local. *)
Definition downloads (m : Model) : list FileInfo :=
  List.filter (λ f, negb (FileInfo_IsLocal f)) (SelectedFiles (m_catalog m)).

Definition show_progress (p : ProgressModel) : ProgressModel :=
  mk_ProgressModel (transfers p) true (progress_width p).

Definition startDownloads (m : Model) : Model * list Cmd :=
  let fs := downloads m in
  let p := foldl AddTransfer (m_progress m) fs in
  let cmds := map (λ f, DoDownload (FileInfo_FileID f)) fs in
  (set_progress m (if bool_decide (cmds = []) then p else show_progress p), cmds).

Definition is_ctrl_c (k : KeyMsg) : bool := match key_Type k with KeyCtrlC => true | _ => false end.

(** The keys of the peer panel that open an overlay; [SelectedPeer] may panic. *)
Definition peer_overlays (m : Model) (k : KeyMsg) : outcome Model :=
  m ← (if Matches k keys.Enter then
         p ← SelectedPeer (m_peers m);
         Ok match p with Some p => set_overlay m (Some (DetailOverlay p)) | None => m end
       else Ok m);
  if Matches k keys.Disconnect then
    p ← SelectedPeer (m_peers m);
    Ok match p with
       | Some p =>
           set_overlay m (Some (ConfirmOverlay
             (str "Remove peer " ++ PeerInfo_NodeIDShort p ++ str "?")))
       | None => m
       end
  else Ok m.

Definition handleKey (m : Model) (k : KeyMsg) : outcome (Model * list Cmd) :=
  if is_ctrl_c k then Ok (set_quitting m, [Quit])
  else
    match m_overlay m with
    | Some o => let '(o, cmds) := overlay_Update o (Key k) in Ok (set_overlay m o, cmds)
    | None =>
        if Matches k keys.Quit && negb (searching (m_catalog m)) then Ok (set_quitting m, [Quit])
        else if Matches k keys.Tab then
          Ok (set_focus m match m_focus m with panelCatalog => panelPeers | panelPeers => panelCatalog end, [])
        else if Matches k keys.Help then Ok (set_overlay m (Some HelpOverlay), [])
        else if Matches k keys.Progress then Ok (set_progress m (Toggle (m_progress m)), [])
        else if Matches k keys.Download then Ok (startDownloads m)
        else if Matches k keys.Invite then Ok (set_overlay m (Some NewInviteOverlay), [DoInvite])
        else if Matches k keys.Join then Ok (set_overlay m (Some NewJoinOverlay), [])
        else
          match m_focus m with
          | panelCatalog => Ok (set_catalog m (Tui.Update ToLower (m_catalog m) k), [])
          | panelPeers =>
              m ← peer_overlays (set_peers m (TuiPeers.Update (m_peers m) k)) k;
              Ok (m, [])
          end
    end.

Definition Update (m : Model) (msg : Msg) : outcome (Model * list Cmd) :=
  match msg with
  | WindowSizeMsg w h => Ok (recalcLayout m w h, [])
  | Key k => handleKey m k
  | StatusResult resp err =>
      Ok (match err, resp with
          | None, Some r => set_status m (SetStatus (m_status m) r)
          | Some e, _ => set_err m e
          | None, None => m
          end, [])
  | PeersResult resp err =>
      Ok (match err, resp with
          | Some e, _ => set_err m e
          | None, Some r =>
              set_status (set_peers m (SetPeers (m_peers m) (PeersResponse_Peers r)))
                (SetPeerCount (m_status m) (len (PeersResponse_Peers r)))
          | None, None => m
          end, [])
  | CatalogResult resp err =>
      Ok (match err, resp with
          | Some e, _ => set_err m e
          | None, Some r => set_catalog m (SetFiles ToLower (m_catalog m) (CatalogResponse_Files r))
          | None, None => m
          end, [])
  | DaemonEvent ev => Ok (handleEvent m ev)
  | DaemonDisconnected => Ok (set_err m errDaemonDisconnected, [])
  | InviteResult _ _ | JoinResult _ _ => Ok (handleOverlayResult m msg)
  | DownloadResult fileID err =>
      Ok (set_progress m (MarkDone (m_progress m) fileID err),
          match err with None => [FetchCatalog] | Some _ => [] end)
  | TextMsg _ => Ok (m, [])
  end.

(** Which screen [View] draws. *)
Inductive Screen := Blank | Initializing | ErrorScreen (e : error) | Panels.

Definition screen (m : Model) : Screen :=
  if m_quitting m then Blank
  else if (m_width m =? 0) || (m_height m =? 0) then Initializing
  else
    match m_err m with
    | Some e => ErrorScreen e
    | None => Panels
    end.

End Screen.
Arguments Cmd : clear implicits.
Arguments Msg : clear implicits.
Arguments Overlay : clear implicits.
Arguments Model : clear implicits.
Arguments TextInput : clear implicits.

(** * The program *)

(** What [tea.Program] does with the model: every command runs in its own goroutine
    and its message is delivered when the loop takes it, in any order; keys and
    resizes arrive at any time. [p_ch] is the channel of [Subscribe], [p_read]
    the events that its goroutine has read from the daemon, each with whether it found
    room on the channel, and [p_handled] those that [Update] got. *)
Record Program (TI TC TM : Type) := mk_Program {
  p_model : Model TI;
  p_cmds : list (Cmd TC);
  p_msgs : list (Msg TM);
  p_ch : list Event;
  p_closed : bool;
  p_read : list (Event * bool);
  p_handled : list Event;
  p_running : bool
}.
Arguments mk_Program {TI TC TM}.
Arguments p_model {TI TC TM}.
Arguments p_cmds {TI TC TM}.
Arguments p_msgs {TI TC TM}.
Arguments p_ch {TI TC TM}.
Arguments p_closed {TI TC TM}.
Arguments p_read {TI TC TM}.
Arguments p_handled {TI TC TM}.
Arguments p_running {TI TC TM}.

(** The events that were put on the channel, and those that were dropped. *)
Definition p_sent {TI TC TM} (p : Program TI TC TM) : list Event := map fst (List.filter snd (p_read p)).
Definition p_dropped {TI TC TM} (p : Program TI TC TM) : list Event :=
  map fst (List.filter (λ r, negb r.2) (p_read p)).

(** The capacity of the channel. *)
Definition event_slots : nat := 64.

Section Program.
Context {TI TC TM : Type} `{TextInput TI TC TM} (ToLower : bytes → bytes) `{IpcCodecs}.
Abbreviation Program := (Program TI TC TM).
Abbreviation Cmd := (Cmd TC).
Abbreviation Msg := (Msg TM).
Implicit Types (p : Program) (m : Model TI) (c : Cmd) (msg : Msg).

Definition start : Program := mk_Program NewModel Init [] [] false [] [] true.

Definition is_input msg : Prop :=
  match msg with WindowSizeMsg _ _ | Key _ => True | _ => False end.

Definition event_of msg : list Event := match msg with DaemonEvent ev => [ev] | _ => [] end.

Definition is_wait c : bool := match c with WaitForEvent => true | _ => false end.
Definition is_quit c : bool := match c with Quit => true | _ => false end.

(** The result of [Update] on a message that is delivered. *)
Definition updated p msgs msg m' cmds : Program :=
  mk_Program m' (p_cmds p ++ cmds) msgs (p_ch p) (p_closed p) (p_read p)
    (p_handled p ++ event_of msg) (p_running p).

Definition emitted p cmds (r : option Msg) ch : Program :=
  mk_Program (p_model p) cmds (p_msgs p ++ option_list r) ch (p_closed p) (p_read p) (p_handled p) (p_running p).

(** Handling events: [waitForEvent] receives, or its message is delivered. *)
Inductive pump_step : Program → Program → Prop :=
| step_wait p l1 l2 ev ch :
    p_running p = true → p_cmds p = l1 ++ WaitForEvent :: l2 → p_ch p = ev :: ch →
    pump_step p (emitted p (l1 ++ l2) (Some (DaemonEvent ev)) ch)
| step_event p l1 l2 ev m' cmds :
    p_running p = true → p_msgs p = l1 ++ DaemonEvent ev :: l2 →
    Update ToLower (p_model p) (DaemonEvent ev) = Ok (m', cmds) →
    pump_step p (updated p (l1 ++ l2) (DaemonEvent ev) m' cmds).

Inductive step : Program → Program → Prop :=
| step_pump p p' : pump_step p p' → step p p'
| step_input p msg m' cmds :
    p_running p = true → is_input msg → Update ToLower (p_model p) msg = Ok (m', cmds) →
    step p (updated p (p_msgs p) msg m' cmds)
| step_run p client run_text l1 c l2 :
    p_running p = true → p_cmds p = l1 ++ c :: l2 → is_wait c = false → is_quit c = false →
    step p (emitted p (l1 ++ l2) (run_cmd client run_text None c) (p_ch p))
| step_deliver p l1 msg l2 m' cmds :
    p_running p = true → p_msgs p = l1 ++ msg :: l2 → event_of msg = [] →
    Update ToLower (p_model p) msg = Ok (m', cmds) →
    step p (updated p (l1 ++ l2) msg m' cmds)
| step_disconnected p l1 l2 :
    p_running p = true → p_cmds p = l1 ++ WaitForEvent :: l2 → p_ch p = [] → p_closed p = true →
    step p (emitted p (l1 ++ l2) (Some DaemonDisconnected) [])
| step_arrive p ev :
    p_closed p = false → (length (p_ch p) < event_slots)%nat →
    step p (mk_Program (p_model p) (p_cmds p) (p_msgs p) (p_ch p ++ [ev]) false
              (p_read p ++ [(ev, true)]) (p_handled p) (p_running p))
| step_drop p ev :   (* the channel is full *)
    p_closed p = false → (event_slots ≤ length (p_ch p))%nat →
    step p (mk_Program (p_model p) (p_cmds p) (p_msgs p) (p_ch p) false
              (p_read p ++ [(ev, false)]) (p_handled p) (p_running p))
| step_close p :
    step p (mk_Program (p_model p) (p_cmds p) (p_msgs p) (p_ch p) true
              (p_read p) (p_handled p) (p_running p))
| step_quit p :
    existsb is_quit (p_cmds p) = true →
    step p (mk_Program (p_model p) (p_cmds p) (p_msgs p) (p_ch p) (p_closed p)
              (p_read p) (p_handled p) false).

(** ** Facts *)

Definition screen_ok m : Prop := model_ok ToLower (m_catalog m) ∧ TuiPeers.cursor_ok (m_peers m).

Definition waits (cs : list Cmd) : list Cmd := List.filter is_wait cs.

Definition is_pump msg : bool :=
  match msg with DaemonEvent _ | DaemonDisconnected => true | _ => false end.
Definition pumps (ms : list Msg) : list Msg := List.filter is_pump ms.

Definition events (ms : list Msg) : list Event := concat (map event_of ms).

(** Where the one event waiter of the program is. *)
Inductive waiter : list Cmd → list Msg → bool → list Event → Prop :=
| waiting closed ch : waiter [WaitForEvent] [] closed ch
| received ev closed ch : waiter [] [DaemonEvent ev] closed ch
| ended ms : ms = [] ∨ ms = [DaemonDisconnected] → waiter [] ms true [].

Record program_ok p : Prop := {
  po_screen : screen_ok (p_model p);
  po_waiter : waiter (waits (p_cmds p)) (pumps (p_msgs p)) (p_closed p) (p_ch p);
  po_sent : p_sent p = p_handled p ++ events (p_msgs p) ++ p_ch p;
  po_room : (length (p_ch p) ≤ event_slots)%nat
}.

Lemma handleEvent_cmds m ev : waits (snd (handleEvent m ev)) = [WaitForEvent].
Proof. unfold handleEvent. repeat case_bool_decide; done. Qed.

Lemma forward_input_no_wait input err success loading msg :
  waits (snd (forward_input input err success loading msg)) = [].
Proof.
  unfold forward_input. destruct (_ && _); [|done].
  by destruct (ti_Update input msg) as [input' [c|]].
Qed.

Lemma overlay_no_wait (o : Overlay TI) msg : waits (snd (overlay_Update o msg)) = [].
Proof.
  destruct o as [|tok err ld|input err ok ld|text|peer]; [done|done| | |done].
  - destruct msg as [|k| | | | |[r|] [e|]| | | |]; cbn [overlay_Update join_Update]; try done;
      try apply forward_input_no_wait.
    destruct (Matches k keys.Escape); [done|]. destruct (_ && _); [|apply forward_input_no_wait].
    cbv zeta. by destruct (bool_decide _).
  - destruct msg as [|k| | | | | | | | |]; try done. cbn [overlay_Update confirm_Update].
    by repeat destruct (Matches k _).
Qed.

Lemma downloads_no_wait (fs : list FileInfo) :
  waits (map (λ f, DoDownload (FileInfo_FileID f)) fs) = [].
Proof. by induction fs. Qed.

Lemma SelectedPeer_Ok (m : PeerModel) : TuiPeers.cursor_ok m → ∃ o, SelectedPeer m = Ok o.
Proof.
  intros [H0' _]. unfold SelectedPeer. case_match; [by eexists|].
  rewrite (proj2 (Z.ltb_ge _ _)) by done. by eexists.
Qed.

(** An overlay opens without any other change. *)
Definition same_lists m m' : Prop :=
  m_catalog m' = m_catalog m ∧ m_peers m' = m_peers m ∧ m_err m' = m_err m.

Lemma open_overlay m (f : PeerInfo → Overlay TI) (b : bool) :
  TuiPeers.cursor_ok (m_peers m) →
  ∃ m', (if b then
           q ← SelectedPeer (m_peers m);
           Ok match q with Some q => set_overlay m (Some (f q)) | None => m end
         else Ok m) = Ok m' ∧ same_lists m m'.
Proof.
  intros Hok. destruct (SelectedPeer_Ok _ Hok) as [o Ho]. destruct b; [|by eexists].
  rewrite Ho. simpl. destruct o; by eexists.
Qed.

Lemma peer_overlays_Ok m k :
  TuiPeers.cursor_ok (m_peers m) → ∃ m', peer_overlays m k = Ok m' ∧ same_lists m m'.
Proof.
  intros Hok. unfold peer_overlays.
  destruct (open_overlay m DetailOverlay (Matches k keys.Enter) Hok) as (m1 & -> & Hc & Hp & He).
  simpl. rewrite <- Hp in Hok.
  destruct (open_overlay m1 (λ q, ConfirmOverlay (str "Remove peer " ++ PeerInfo_NodeIDShort q ++ str "?"))
              (Matches k keys.Disconnect) Hok) as (m2 & E & Hc2 & Hp2 & He2).
  exists m2. split; [exact E|]. unfold same_lists. by rewrite Hc2, Hp2, He2.
Qed.

(** [Update] never panics on a consistent screen, keeps it consistent, starts a new
    wait exactly after an event, and never takes back an error. *)
Definition update_ok m msg (r : outcome (Model TI * list Cmd)) : Prop :=
  ∃ m' cmds, r = Ok (m', cmds) ∧ screen_ok m' ∧
    waits cmds = match msg with DaemonEvent _ => [WaitForEvent] | _ => [] end ∧
    (m_err m ≠ None → m_err m' ≠ None).

Lemma handleKey_ok m k : screen_ok m → update_ok m (Key k) (handleKey ToLower m k).
Proof.
  intros [Hc Hp]. unfold handleKey, update_ok. destruct (is_ctrl_c k); [by do 2 eexists|].
  destruct (m_overlay m) as [o|].
  { pose proof (overlay_no_wait o (Key k)) as Hw. destruct (overlay_Update o (Key k)) as [o' cmds].
    by do 2 eexists. }
  repeat match goal with
  | |- context [if ?b then _ else _] =>
      lazymatch b with context [Matches k _] => destruct b; [do 2 eexists; split_and!; [done|done| |done]|] end
  end; try done.
  { apply downloads_no_wait. }
  destruct (m_focus m).
  - do 2 eexists. split_and!; [done| |done|done]. split; [by apply Tui.Update_ok|done].
  - destruct (peer_overlays_Ok (set_peers m (TuiPeers.Update (m_peers m) k)) k)
      as (m' & -> & Hc' & Hp' & He'); [by apply Update_cursor|].
    do 2 eexists. split_and!; [done| |done|by rewrite He'].
    split; [by rewrite Hc'|rewrite Hp'; by apply Update_cursor].
Qed.

Lemma handleEvent_ok m ev :
  screen_ok m →
  let m' := fst (handleEvent (TC := TC) m ev) in screen_ok m' ∧ m_err m' = m_err m.
Proof.
  intros [Hc Hp]. cbv zeta. unfold handleEvent. repeat case_bool_decide; simpl; [| |done|done].
  - destruct (decodePeerInfo _) as [info|]; [|done]. split; [|done]. split; [done|].
    by apply (apply_op_cursor _ (OpOnline info)).
  - destruct (decodePeerOffline _) as [off|]; [|done]. split; [|done]. split; [done|].
    by apply (apply_op_cursor _ (OpOffline (PeerOffline_NodeID off))).
Qed.

Lemma update_ok_intro m msg m' cmds :
  screen_ok m' → waits cmds = match msg with DaemonEvent _ => [WaitForEvent] | _ => [] end →
  (m_err m ≠ None → m_err m' ≠ None) → update_ok m msg (Ok (m', cmds)).
Proof. intros ???. by exists m', cmds. Qed.

Lemma overlay_result_ok m msg :
  event_of msg = [] → screen_ok m → update_ok m msg (Ok (handleOverlayResult m msg)).
Proof.
  intros Hev Hok. unfold handleOverlayResult. destruct (m_overlay m) as [o|].
  - pose proof (overlay_no_wait o msg) as Hw. destruct (overlay_Update o msg) as [o' cmds].
    apply update_ok_intro; [done| |done]. by destruct msg.
  - apply update_ok_intro; [done| |done]. by destruct msg.
Qed.

Lemma Update_total m msg : screen_ok m → update_ok m msg (Update ToLower m msg).
Proof.
  intros Hok. pose proof Hok as [Hc Hp].
  destruct msg as [w h|k|[r|] [e|]|[r|] [e|]|[r|] [e|]|r e|r e|f [e|]|ev| |t]; cbn [Update];
    try by apply update_ok_intro.
  - unfold recalcLayout. destruct (panelWidths w) as [w1 w2]. apply update_ok_intro; [|done|done].
    split; [by apply (apply_op_ok _ _ (Tui.OpSetSize w1 (h - statusBarHeight - 2)))|done].
  - by apply handleKey_ok.
  - apply update_ok_intro; [|done|done]. split; [done|].
    by apply (apply_op_cursor _ (OpSetPeers (PeersResponse_Peers r))).
  - apply update_ok_intro; [|done|done]. split; [|done].
    by apply (apply_op_ok _ _ (OpSetFiles (CatalogResponse_Files r))).
  - by apply overlay_result_ok.
  - by apply overlay_result_ok.
  - pose proof (handleEvent_cmds m ev) as Hw. destruct (handleEvent_ok m ev Hok) as [Hs He].
    destruct (handleEvent m ev) as [m' cmds]. apply update_ok_intro; [done|done|].
    simpl in He. by rewrite He.
Qed.

(** ** The invariant *)

Lemma waits_app (l k : list Cmd) : waits (l ++ k) = waits l ++ waits k.
Proof. apply List.filter_app. Qed.

Lemma pumps_app (l k : list Msg) : pumps (l ++ k) = pumps l ++ pumps k.
Proof. apply List.filter_app. Qed.

Lemma events_app (l k : list Msg) : events (l ++ k) = events l ++ events k.
Proof. unfold events. by rewrite map_app, concat_app. Qed.

Lemma pumps_events (ms : list Msg) : pumps ms = [] → events ms = [].
Proof. induction ms as [|[] ms IH]; simpl; auto; by intros [=]. Qed.

Lemma short_split {A} (k1 k2 : list A) x : (length (k1 ++ x :: k2) ≤ 1)%nat → k1 = [] ∧ k2 = [].
Proof. destruct k1, k2; simpl; rewrite ?length_app; simpl; intros ?; try lia. done. Qed.

Lemma waiter_short cs ms closed ch : waiter cs ms closed ch → (length cs ≤ 1 ∧ length ms ≤ 1)%nat.
Proof. destruct 1 as [| |ms [-> | ->]]; simpl; lia. Qed.

Lemma events_pumps (ms : list Msg) : events (pumps ms) = events ms.
Proof. induction ms as [|[] ms IH]; try done. unfold events in *. simpl. by f_equal. Qed.

Lemma waiter_at_cmd l1 l2 ms closed ch :
  waiter (waits (l1 ++ WaitForEvent :: l2)) ms closed ch → waits (l1 ++ l2) = [] ∧ ms = [].
Proof.
  rewrite !waits_app. cbn [waits List.filter is_wait]. intros Hw.
  destruct (waiter_short _ _ _ _ Hw) as [Hl _]. apply short_split in Hl as [E1 E2].
  fold (waits l2) in *. rewrite E1, E2 in *. by inversion Hw.
Qed.

Lemma waiter_at_msg cs l1 l2 ev closed ch :
  waiter cs (pumps (l1 ++ DaemonEvent ev :: l2)) closed ch → cs = [] ∧ pumps l1 = [] ∧ pumps l2 = [].
Proof.
  rewrite !pumps_app. cbn [pumps List.filter is_pump]. intros Hw.
  destruct (waiter_short _ _ _ _ Hw) as [_ Hl]. apply short_split in Hl as [E1 E2].
  fold (pumps l2) in *. rewrite E1, E2 in *. by inversion Hw.
Qed.

(** Dropping the disconnect message leaves a waiter that has ended. *)
Lemma waiter_drop cs l1 msg l2 closed ch :
  event_of msg = [] → waiter cs (pumps (l1 ++ msg :: l2)) closed ch →
  waiter cs (pumps (l1 ++ l2)) closed ch.
Proof.
  intros Hev. rewrite !pumps_app. cbn [pumps List.filter]. destruct msg; try done. cbn [is_pump].
  intros Hw. destruct (waiter_short _ _ _ _ Hw) as [_ Hl]. apply short_split in Hl as [E1 E2].
  fold (pumps l2) in *. rewrite E1, E2 in *. inversion Hw. apply ended. by left.
Qed.

Lemma program_ok_start : program_ok start.
Proof.
  split; [|apply waiting|done|simpl; lia]. split; [apply new_ok|]. by split_and!; [|right|].
Qed.

Ltac proj :=
  unfold p_sent; cbn [updated emitted p_model p_cmds p_msgs p_ch p_closed p_read p_handled p_running option_list];
  repeat match goal with |- context [map fst (List.filter snd (p_read ?p))] => fold (p_sent p) end.

Lemma program_ok_pump p p' : program_ok p → pump_step p p' → program_ok p'.
Proof.
  intros [Hs Hw Hsent Hroom] Hst. destruct Hst as [p l1 l2 ev ch Hr Hc Hch|p l1 l2 ev m' cmds Hr Hm Hu].
  - rewrite Hc in Hw. apply waiter_at_cmd in Hw as [Hw Hp]. split; [done| | |]; proj.
    + rewrite Hw, pumps_app, Hp. apply received.
    + by rewrite events_app, Hsent, Hch, <- app_assoc.
    + rewrite Hch in Hroom. simpl in Hroom. lia.
  - rewrite Hm in Hw, Hsent. apply waiter_at_msg in Hw as (Hw & Hp1 & Hp2).
    destruct (Update_total (p_model p) (DaemonEvent ev) Hs) as (? & ? & Hu' & Hs' & Hw' & _).
    rewrite Hu in Hu'. injection Hu' as <- <-. split; [done| | |done]; proj.
    + rewrite waits_app, Hw, Hw', pumps_app, Hp1, Hp2. apply waiting.
    + rewrite Hsent, !events_app.
      change (events (DaemonEvent ev :: l2)) with (ev :: events l2).
      rewrite !pumps_events by done. cbn [app event_of]. by rewrite <- app_assoc.
Qed.

Lemma program_ok_update p msgs msg m' cmds :
  program_ok p → event_of msg = [] → Update ToLower (p_model p) msg = Ok (m', cmds) →
  waiter (waits (p_cmds p)) (pumps msgs) (p_closed p) (p_ch p) → events msgs = events (p_msgs p) →
  program_ok (updated p msgs msg m' cmds).
Proof.
  intros [Hs Hw Hsent Hroom] Hev Hu Hwm Hem.
  destruct (Update_total (p_model p) msg Hs) as (? & ? & Hu' & Hs' & Hw' & _).
  rewrite Hu in Hu'. injection Hu' as <- <-. split; [done| | |done]; proj.
  - rewrite waits_app, Hw'. destruct msg; try done; simpl; by rewrite app_nil_r.
  - rewrite Hev, app_nil_r. by rewrite Hem.
Qed.

Lemma run_cmd_no_pump client run_text c :
  is_wait c = false → pumps (option_list (run_cmd client run_text None c)) = [].
Proof. destruct c as [| | | | | | | | |t]; try done. simpl. by destruct (run_text t). Qed.

Lemma program_ok_step p p' : program_ok p → step p p' → program_ok p'.
Proof.
  intros Hok Hst. revert Hok.
  destruct Hst as [p p' Hst|p msg m' cmds Hr Hi Hu|p client rt l1 c l2 Hr Hc Hcw Hcq
    |p l1 msg l2 m' cmds Hr Hm Hev Hu|p l1 l2 Hr Hc Hch Hcl|p ev Hcl Hlen|p ev Hcl Hlen|p|p Hq]; intros Hok.
  - by eapply program_ok_pump.
  - apply program_ok_update; [done|by destruct msg|done|apply Hok|done].
  - pose proof Hok as [Hs Hw Hsent Hroom]. pose proof (run_cmd_no_pump client rt c Hcw) as Hp.
    split; [done| | |done]; proj.
    + rewrite pumps_app, Hp, app_nil_r. rewrite Hc, waits_app in Hw. cbn [waits List.filter] in Hw.
      rewrite Hcw in Hw. by rewrite waits_app.
    + by rewrite events_app, (pumps_events _ Hp), app_nil_r.
  - pose proof Hok as [Hs Hw Hsent Hroom]. rewrite Hm in Hw.
    apply program_ok_update; [done|done|done|by eapply waiter_drop|].
    rewrite Hm, !events_app. f_equal. unfold events at 2. cbn [map concat]. by rewrite Hev.
  - destruct Hok as [Hs Hw Hsent Hroom]. rewrite Hc in Hw. apply waiter_at_cmd in Hw as [Hw Hp].
    split; [done| | |simpl; lia]; proj.
    + rewrite Hw, pumps_app, Hp, Hcl. apply ended. by right.
    + rewrite Hsent, Hch, events_app. cbn [events map concat event_of app]. by rewrite !app_nil_r.
  - destruct Hok as [Hs Hw Hsent Hroom]. split; [done| | |]; proj.
    + rewrite Hcl in Hw. inversion Hw; constructor.
    + rewrite List.filter_app, map_app. fold (p_sent p). cbn. by rewrite Hsent, <- !app_assoc.
    + rewrite length_app. simpl. lia.
  - destruct Hok as [Hs Hw Hsent Hroom]. split; [done| | |done]; proj.
    + by rewrite Hcl in Hw.
    + rewrite List.filter_app, map_app. fold (p_sent p). cbn. by rewrite app_nil_r.
  - destruct Hok as [Hs Hw Hsent Hroom]. split; [done| |done|done]. proj. inversion Hw; by constructor.
  - by destruct Hok.
Qed.

Lemma program_ok_run p p' : program_ok p → rtc step p p' → program_ok p'.
Proof. intros Hok Hrtc. induction Hrtc as [|p1 p2 p3 Hst _ IH]; [done|]. by eapply IH, program_ok_step. Qed.

(** The events that were sent and are not handled yet. *)
Definition backlog p : nat := (2 * length (p_ch p) + length (events (p_msgs p)))%nat.

Lemma pump_decreases p p' : pump_step p p' → (backlog p' < backlog p)%nat.
Proof.
  intros Hst. destruct Hst as [p l1 l2 ev ch Hr Hc Hch|p l1 l2 ev m' cmds Hr Hm Hu]; unfold backlog; proj.
  - rewrite Hch, events_app, length_app. simpl. lia.
  - rewrite Hm, !events_app, !length_app.
    change (events (DaemonEvent ev :: l2)) with (ev :: events l2). simpl. lia.
Qed.

Lemma filter_singleton {A} (f : A → bool) l x : List.filter f l = [x] → x ∈ l.
Proof.
  intros E. assert (In x (List.filter f l)) as Hin by (rewrite E; by left).
  apply list_elem_of_In. by apply List.filter_In in Hin as [? _].
Qed.

(** While something is left, the waiter has a step. *)
Lemma pump_enabled p :
  program_ok p → p_running p = true → backlog p ≠ O → ∃ p', pump_step p p'.
Proof.
  intros [Hs Hw _ _] Hr Hb. unfold backlog in Hb. inversion Hw as [closed ch Ew Em|ev closed ch Ew Em|ms Hms Ew Em Hcl Hch].
  - rewrite pumps_events in Hb by done. destruct (p_ch p) as [|ev ch'] eqn:Ech; [done|].
    assert (WaitForEvent ∈ p_cmds p) as (l1 & l2 & Hc)%list_elem_of_split.
    { by apply (filter_singleton is_wait). }
    eexists. by eapply step_wait.
  - assert (DaemonEvent ev ∈ p_msgs p) as (l1 & l2 & Hm)%list_elem_of_split.
    { by apply (filter_singleton is_pump). }
    destruct (Update_total (p_model p) (DaemonEvent ev) Hs) as (m' & cmds & Hu & _).
    eexists. by eapply step_event.
  - exfalso. rewrite <- Hch in Hb. simpl in Hb. apply Hb.
    rewrite <- events_pumps. by destruct Hms as [-> | ->].
Qed.

Lemma pump_running p p' : rtc pump_step p p' → p_running p' = p_running p ∧ p_sent p' = p_sent p.
Proof.
  induction 1 as [|p1 p2 p3 Hst _ [IHr IHs]]; [done|]. rewrite IHr, IHs. by destruct Hst.
Qed.

Lemma pump_drains p :
  program_ok p → p_running p = true → ∃ p', rtc pump_step p p' ∧ program_ok p' ∧ backlog p' = O.
Proof.
  remember (backlog p) as n eqn:Hn. revert p Hn.
  induction (lt_wf n) as [n _ IH]. intros p -> Hok Hr.
  destruct (decide (backlog p = O)) as [Hz|Hnz]; [by exists p|].
  destruct (pump_enabled p Hok Hr Hnz) as [p1 Hst].
  destruct (IH (backlog p1) (pump_decreases _ _ Hst) p1 eq_refl) as (p' & Hrtc & Hok' & Hz).
  - by eapply program_ok_pump.
  - by destruct Hst.
  - exists p'. split_and!; [by eapply rtc_l|done|done].
Qed.

Lemma backlog_zero p : program_ok p → backlog p = O → p_handled p = p_sent p.
Proof.
  intros [_ _ -> _] Hz. unfold backlog in Hz. rewrite (nil_length_inv (p_ch p)), (nil_length_inv (events (p_msgs p))) by lia.
  by rewrite !app_nil_r.
Qed.

Lemma err_sticky p p' : program_ok p → step p p' → m_err (p_model p) ≠ None → m_err (p_model p') ≠ None.
Proof.
  intros Hok Hst. revert Hok.
  destruct Hst as [p p' Hst|p msg m' cmds Hr Hi Hu|p client rt l1 c l2 Hr Hc Hcw Hcq
    |p l1 msg l2 m' cmds Hr Hm Hev Hu|p l1 l2 Hr Hc Hch Hcl|p ev Hcl Hlen|p ev Hcl Hlen|p|p Hq];
    intros [Hs _ _ _]; try done.
  - destruct Hst as [|p l1 l2 ev m' cmds Hr Hm Hu]; [done|].
    destruct (Update_total _ (DaemonEvent ev) Hs) as (? & ? & Hu' & _ & _ & He).
    rewrite Hu in Hu'. by injection Hu' as <- <-.
  - destruct (Update_total _ msg Hs) as (? & ? & Hu' & _ & _ & He).
    rewrite Hu in Hu'. by injection Hu' as <- <-.
  - destruct (Update_total _ msg Hs) as (? & ? & Hu' & _ & _ & He).
    rewrite Hu in Hu'. by injection Hu' as <- <-.
Qed.

Lemma drops_when_full p p' :
  (length (p_ch p) ≤ event_slots)%nat → step p p' →
  p_dropped p' = p_dropped p ∨
  length (p_ch p) = event_slots ∧ ∃ ev, p_dropped p' = p_dropped p ++ [ev] ∧ p_sent p' = p_sent p.
Proof.
  intros Hroom Hst. destruct Hst as [p p' Hst| | | | |p ev Hcl Hlen|p ev Hcl Hlen| |]; try by left.
  - left. by destruct Hst.
  - left. unfold p_dropped. cbn. by rewrite List.filter_app, app_nil_r.
  - right. split; [lia|]. exists ev. unfold p_dropped, p_sent. cbn.
    rewrite !List.filter_app, !map_app. cbn. by rewrite app_nil_r.
Qed.

End Program.

(** * Properties *)

(** C16. The interface keeps up with the daemon, as far as events find room: in every
    reachable state the events that were put on the channel are the handled ones followed
    by those still on their way, in order, none duplicated or reordered; an event that is
    read from the daemon is dropped only while 64 others wait on the channel; each step
    of the event pump (receiving an event or handling it) shortens the backlog; and while
    the program runs those steps alone lead to a state in which every event put on the
    channel so far has been handled. *)
Theorem event_pump {TI TC TM : Type} `{TextInput TI TC TM} (ToLower : bytes → bytes) `{IpcCodecs}
    (p : Program TI TC TM) :
  rtc (step ToLower) start p → p_running p = true →
  p_sent p = p_handled p ++ events (p_msgs p) ++ p_ch p ∧
  (∀ p', step ToLower p p' → p_dropped p' = p_dropped p ∨
     length (p_ch p) = event_slots ∧ ∃ ev, p_dropped p' = p_dropped p ++ [ev] ∧ p_sent p' = p_sent p) ∧
  (∀ p', pump_step ToLower p p' → (backlog p' < backlog p)%nat) ∧
  ∃ p', rtc (pump_step ToLower) p p' ∧ backlog p' = O ∧ p_handled p' = p_sent p.
Proof.
  intros Hrtc Hr. pose proof (program_ok_run _ _ _ (program_ok_start ToLower) Hrtc) as Hok.
  split_and!; [apply Hok|intros p'; apply drops_when_full, Hok|intros p'; apply pump_decreases|].
  destruct (pump_drains _ _ Hok Hr) as (p' & Hp & Hok' & Hz). exists p'. split_and!; [done|done|].
  destruct (pump_running _ _ _ Hp) as [_ <-]. by eapply backlog_zero.
Qed.

(** An error screen is final: once any fetch has failed, whatever happens
    afterwards (successful fetches included) the panels are never drawn again. *)
Theorem error_screen_final {TI TC TM : Type} `{TextInput TI TC TM} (ToLower : bytes → bytes) `{IpcCodecs}
    (p p' : Program TI TC TM) :
  rtc (step ToLower) start p → m_err (p_model p) ≠ None → rtc (step ToLower) p p' →
  m_err (p_model p') ≠ None ∧ screen (p_model p') ≠ Panels.
Proof.
  intros Hrtc He Hrtc'. pose proof (program_ok_run _ _ _ (program_ok_start ToLower) Hrtc) as Hok.
  assert (m_err (p_model p') ≠ None) as He'.
  { clear Hrtc. induction Hrtc' as [|p1 p2 p3 Hst _ IH]; [done|].
    apply IH; [by eapply err_sticky|by eapply program_ok_step]. }
  split; [done|]. unfold screen. destruct (m_err (p_model p')); [|done].
  by repeat case_match.
Qed.

(** The file list can go stale: two refreshes that run at the same time can be
    delivered in the opposite order, and the older list stays on the screen with
    nothing left to run that would replace it. *)
Theorem refresh_can_go_back {TI TC TM : Type} `{TextInput TI TC TM} (ToLower : bytes → bytes) `{IpcCodecs}
    (p : Program TI TC TM) (older newer : CatalogResponse) (l1 l2 l3 : list (Cmd TC))
    (c1 c2 : DaemonClient) (run_text : TC → option TM) :
  p_running p = true →
  p_cmds p = l1 ++ FetchCatalog :: l2 ++ FetchCatalog :: l3 → p_msgs p = [] →
  client_Catalog c1 = Ok older → client_Catalog c2 = Ok newer →
  ∃ p', rtc (step ToLower) p p' ∧ files (m_catalog (p_model p')) = CatalogResponse_Files older ∧
    p_cmds p' = l1 ++ l2 ++ l3 ∧ p_msgs p' = [].
Proof.
  intros Hr Hc Hm H1 H2.
  eexists. split_and!.
  - eapply rtc_l.
    { by eapply (step_run _ _ c1 run_text l1 FetchCatalog). }
    eapply rtc_l.
    { eapply (step_run _ _ c2 run_text (l1 ++ l2) FetchCatalog l3); [done| |done|done].
      simpl. by rewrite <- app_assoc. }
    eapply rtc_l.
    { eapply (step_deliver _ _ [CatalogResult (Some older) None] (CatalogResult (Some newer) None) []);
        [done| |done|done]. simpl. by rewrite Hm, H1, H2. }
    eapply rtc_once.
    eapply (step_deliver _ _ [] (CatalogResult (Some older) None) []); done.
  - done.
  - simpl. by rewrite !app_nil_r, <- app_assoc.
  - done.
Qed.

(** * Witnesses *)

Module ScreenWitness.

(** A text field that appends the runes of a key. *)
#[export] Instance field : TextInput bytes unit unit := {|
  ti_New := [];
  ti_Update := λ t msg, match msg with Key k => (t ++ key_Runes k, None) | _ => (t, None) end;
  ti_Value := λ t, t;
  ti_View := λ t, t
|}.

#[export] Existing Instance DaemonWitness.codecs.

Abbreviation Prog := (Program bytes unit unit).
Abbreviation run := (rtc (step (TI := bytes) (TC := unit) (TM := unit) id)).

Definition down : error := Sentinel "down".

Definition client (fs : list FileInfo) : DaemonClient :=
  mk_DaemonClient (Err down) (Err down) (Err down) (λ _, Err down) (Ok (mk_CatalogResponse fs)) (λ _, Err down).

(** The files have changed: the event is on the channel. *)
Definition p1 : Prog :=
  mk_Program NewModel Init [] [catalog_updated_event] false [(catalog_updated_event, true)] [] true.

Lemma screen_run1 : run start p1.
Proof. apply rtc_once, (step_arrive id start catalog_updated_event); [done|unfold event_slots; simpl; lia]. Qed.

Lemma event_pump_witness :
  ∃ p', rtc (pump_step id) p1 p' ∧ backlog p' = O ∧ p_handled p' = [catalog_updated_event].
Proof. apply (event_pump id p1 screen_run1 eq_refl). Defined.

(** [fetchStatus] has failed. *)
Definition p2 : Prog :=
  mk_Program NewModel [FetchPeers; FetchCatalog; WaitForEvent] [StatusResult None (Some down)] [] false [] [] true.
Definition p3 : Prog :=
  mk_Program (set_err NewModel down) [FetchPeers; FetchCatalog; WaitForEvent] [] [] false [] [] true.

Lemma screen_run3 : run start p3.
Proof.
  eapply (rtc_l _ _ p2).
  - by apply (step_run id start (client []) (λ _, None) [] FetchStatus [FetchPeers; FetchCatalog; WaitForEvent]).
  - apply rtc_once.
    by apply (step_deliver id p2 [] (StatusResult None (Some down)) [] (set_err NewModel down) []).
Qed.

(** A resize after the failure, and the catalog has arrived. *)
Definition p4 : Prog :=
  mk_Program (recalcLayout (set_err NewModel down) 80 24) [FetchPeers; FetchCatalog; WaitForEvent] [] [] false [] [] true.

Lemma screen_run4 : run p3 p4.
Proof. apply rtc_once. by apply (step_input id p3 (WindowSizeMsg 80 24) (p_model p4) []). Qed.

Lemma error_screen_final_witness :
  screen (p_model p4) = ErrorScreen down ∧ screen (p_model p4) ≠ Panels.
Proof.
  split; [done|].
  exact (proj2 (error_screen_final id p3 p4 screen_run3 ltac:(done) screen_run4)).
Defined.

(** A second refresh was started before the first one ran. *)
Definition p5 : Prog :=
  mk_Program NewModel [FetchStatus; FetchPeers; FetchCatalog; FetchCatalog; WaitForEvent] [] [] false
    [(catalog_updated_event, true)] [catalog_updated_event] true.

Lemma refresh_can_go_back_witness :
  ∃ p', run p5 p' ∧ files (m_catalog (p_model p')) = [] ∧
    p_cmds p' = [FetchStatus; FetchPeers; WaitForEvent] ∧ p_msgs p' = [].
Proof.
  apply (refresh_can_go_back id p5 (mk_CatalogResponse []) (mk_CatalogResponse [TuiWitness.file "a"])
    [FetchStatus; FetchPeers] [] [WaitForEvent] (client []) (client [TuiWitness.file "a"]) (λ _, None));
    done.
Defined.

End ScreenWitness.
