(* ===== verification/TuiView.v ===== *)
(** Rendering, [internal/tui]: the two panels ([catalog_view.go], [peer_view.go]), the
    transfers ([progress.go]), the status bar ([statusbar.go]), the overlays
    ([overlay_*.go]) and [Model.View] ([model.go]).

    The text is modelled byte for byte; what a style does to it (colours, borders,
    wrapping to a width) is the class [Lipgloss], a parameter, and the text of an
    error is the function [err_text]. *)

From S2P Require Import Prelude GoStd GoText Codec Ipc Daemon Tui TuiPeers TuiModel.

(** * fmt *)

(** [utf8.RuneCountInString]; [skip] counts the bytes left of a rune. *)
Fixpoint rune_count_from (skip : nat) (s : bytes) : Z :=
  match s with
  | [] => 0
  | _ :: r =>
      match skip with
      | S k => rune_count_from k r
      | O => 1 + rune_count_from (default 1%nat (rune_size s) - 1) r
      end
  end.

Definition RuneCount (s : bytes) : Z := rune_count_from 0 s.

Definition spaces (n : Z) : bytes := repeat Byte.x20 (Z.to_nat n).

(** The verbs [%8s] and [%-*s]: the width counts runes. *)
Definition pad_left (w : Z) (s : bytes) : bytes := spaces (w - RuneCount s) ++ s.
Definition pad_right (w : Z) (s : bytes) : bytes := s ++ spaces (w - RuneCount s).

(** The quotient rounded to the nearest integer, a tie to the even one. *)
Definition round_div (n d : Z) : Z :=
  let q := n / d in
  let r := 2 * (n mod d) in
  if r <? d then q else if d <? r then q + 1 else if Z.even q then q else q + 1.

(** [float64(n)] of a positive integer, which has 53 significant bits. *)
Definition float64_of (n : Z) : Z :=
  let e := Z.log2 n - 52 in
  if e <=? 0 then n else round_div n (2 ^ e) * 2 ^ e.

(** [fmt.Sprintf("%.1f", float64(n)/float64(1<<k))]: the division is exact. *)
Definition Sprintf_1f (n k : Z) : bytes :=
  let tenths := round_div (10 * float64_of n) (2 ^ k) in
  Itoa (tenths / 10) ++ str "." ++ Itoa (tenths mod 10).

(** * catalog_view.go *)

Definition formatSize (n : Z) : bytes :=
  if 2 ^ 30 <=? n then Sprintf_1f n 30 ++ str " GB"
  else if 2 ^ 20 <=? n then Sprintf_1f n 20 ++ str " MB"
  else if 2 ^ 10 <=? n then Sprintf_1f n 10 ++ str " KB"
  else Itoa n ++ str " B".

Lemma formatSize_examples :
  formatSize 0 = str "0 B" ∧ formatSize 1023 = str "1023 B" ∧ formatSize 1024 = str "1.0 KB" ∧
  formatSize 1280 = str "1.2 KB" ∧ formatSize 1048575 = str "1024.0 KB" ∧
  formatSize 5368709120 = str "5.0 GB" ∧ formatSize (2 ^ 63 - 1) = str "8589934592.0 GB".
Proof. by vm_compute. Qed.

(** The styles of [styles.go]. *)
Inductive style :=
| borderStyle | focusedBorderStyle | statusBarStyle | statusKeyStyle | selectedItemStyle
| normalItemStyle | dimItemStyle | overlayStyle | overlayTitleStyle | titleStyle | errorStyle
| checkboxOnStyle | checkboxOffStyle.

(** [s.Render(t)], [s.Width(w).Render(t)], [lipgloss.Width] and the layout functions. *)
Class Lipgloss := {
  Render : style → bytes → bytes;
  RenderWidth : style → Z → bytes → bytes;
  CellWidth : bytes → Z;
  JoinHorizontal : list bytes → bytes;
  JoinVertical : list bytes → bytes;
  Place : Z → Z → bytes → bytes
}.

Definition newline : bytes := [Byte.x0a].

(** [strings.Count(s, "\n")]. *)
Definition count_newlines (s : bytes) : Z := len (List.filter (Byte.eqb Byte.x0a) s).

Section View.
Context `{Lipgloss} (err_text : error → bytes).

Definition checkboxOn : bytes := Render checkboxOnStyle (str "[x]").
Definition checkboxOff : bytes := Render checkboxOffStyle (str "[ ]").

Definition file_suffix (f : FileInfo) : bytes :=
  str "  " ++ pad_left 8 (formatSize (FileInfo_Size f)) ++ str "  " ++
  (if FileInfo_IsLocal f then str "local" else str "remote").

Definition formatFileEntry (f : FileInfo) (maxWidth : Z) : outcome bytes :=
  let suffix := file_suffix f in
  let available := maxWidth - CellWidth suffix - 6 in
  let name := FileInfo_Name f in
  name ← (if (0 <? available) && (available <? len name) then
            cut ← slice name 0 (available - 1);
            Ok (cut ++ str "~")
          else Ok name);
  Ok (pad_right (Z.max 0 available) name ++ suffix).

(** [s[i]]. *)
Definition index {A} (l : list A) (i : Z) : outcome A :=
  if i <? 0 then Panic
  else match l !! Z.to_nat i with Some x => Ok x | None => Panic end.

(** The loop over the rows [i .. last-1], [n] of them. *)
Fixpoint draw_rows (row : Z → outcome bytes) (n : nat) (i last : Z) : outcome bytes :=
  match n with
  | O => Ok []
  | S n' =>
      line ← row i;
      rest ← draw_rows row n' (i + 1) last;
      Ok (line ++ (if i <? last - 1 then newline else []) ++ rest)
  end.

(** The content of a panel with [n] items: the rows in view, or [empty], padded to
    the height of the panel. Both panels have this code. *)
Definition panel_content (row : Z → outcome bytes) (n offset height : Z) (empty : bytes) : outcome bytes :=
  let last := Z.min (offset + height) n in
  b ← draw_rows row (Z.to_nat (last - offset)) offset last;
  let '(b, rendered) :=
    if n =? 0 then (b ++ Render dimItemStyle empty, 1) else (b, count_newlines b + 1) in
  Ok (b ++ repeat Byte.x0a (Z.to_nat (height - rendered))).

Definition catalog_row (m : CatalogModel) (i : Z) : outcome bytes :=
  f ← index (Visible m) i;
  line ← formatFileEntry f (Tui.width m - 4);
  let line := (if IsSelected m (Z.to_nat i) then checkboxOn else checkboxOff) ++ str " " ++ line in
  Ok (if i =? Tui.cursor m then RenderWidth selectedItemStyle (Tui.width m - 4) line
      else if negb (FileInfo_IsLocal f) then Render dimItemStyle line
      else Render normalItemStyle line).

Definition catalog_header (m : CatalogModel) : bytes :=
  let visible := Visible m in
  Render titleStyle (str " Files") ++
  (if searching m then str "  " ++ Render dimItemStyle (str "/") ++ search m ++ Render dimItemStyle (str "_")
   else []) ++
  (if 0 <? len visible then
     Render dimItemStyle (str "  " ++ Itoa (len visible) ++ str "/" ++ Itoa (len (files m)))
   else []).

Definition catalog_content (m : CatalogModel) : outcome bytes :=
  panel_content (catalog_row m) (len (Visible m)) (Tui.offset m) (Tui.height m) (str "  (no files)").

Definition border (focused : bool) : style := if focused then focusedBorderStyle else borderStyle.

Definition CatalogView (m : CatalogModel) (focused : bool) : outcome bytes :=
  content ← catalog_content m;
  Ok (RenderWidth (border focused) (Tui.width m) (catalog_header m ++ newline ++ content)).

(** * peer_view.go *)

Definition formatPeerEntry (p : PeerInfo) : outcome bytes :=
  let status := if PeerInfo_Online p then str "online" else str "offline" in
  let id := PeerInfo_NodeIDShort p in
  id ← (if 12 <? len id then slice id 0 12 else Ok id);
  Ok (str " " ++ id ++ str "  " ++ status).

Definition peer_row (m : PeerModel) (i : Z) : outcome bytes :=
  p ← index (peers m) i;
  line ← formatPeerEntry p;
  Ok (if i =? cursor m then RenderWidth selectedItemStyle (width m - 4) line
      else if negb (PeerInfo_Online p) then Render dimItemStyle line
      else Render normalItemStyle line).

Definition peer_content (m : PeerModel) : outcome bytes :=
  panel_content (peer_row m) (len (peers m)) (offset m) (height m) (str "  (no peers)").

Definition peer_header (m : PeerModel) : bytes :=
  Render titleStyle (str " Peers") ++ Render dimItemStyle (str "  " ++ Itoa (len (peers m))).

Definition PeerView (m : PeerModel) (focused : bool) : outcome bytes :=
  content ← peer_content m;
  Ok (RenderWidth (border focused) (width m) (peer_header m ++ newline ++ content)).

(** * progress.go, statusbar.go *)

Definition transfer_line (t : transferState) : bytes :=
  let status :=
    if tr_done t then
      match tr_err t with
      | Some e => Render errorStyle (str "error: " ++ err_text e)
      | None => Render statusKeyStyle (str "done")
      end
    else Render dimItemStyle (str "downloading...") in
  str "  " ++ tr_fileName t ++ str "  " ++ status ++ newline.

Definition progress_View (m : ProgressModel) : bytes :=
  if negb (progress_visible m) || (len (transfers m) =? 0) then []
  else
    RenderWidth borderStyle (progress_width m)
      (Render titleStyle (str " Transfers") ++ newline ++ concat (map transfer_line (transfers m))).

Definition status_View (s : StatusBarModel) : bytes :=
  let relay :=
    Render statusKeyStyle (str "relay:") ++
    (if bar_relayOnline s && negb (bool_decide (bar_relayAddr s = [])) then bar_relayAddr s
     else str "disconnected") in
  let peers := Render statusKeyStyle (str "peers:") ++ Itoa (bar_peerCount s) in
  let nodeID := Render statusKeyStyle (str "node:") ++ bar_nodeID s in
  RenderWidth statusBarStyle (bar_width s)
    (str " " ++ relay ++ str "  " ++ peers ++ str "  " ++ nodeID).

(** * overlay_*.go *)

Definition help_bindings : list (bytes * bytes) :=
  [(str "j/k", str "move cursor up/down"); (str "g/G", str "first/last item");
   (str "Ctrl+d/u", str "half page down/up"); (str "/", str "search/filter files");
   (str "Esc", str "cancel search / close overlay"); (str "Tab", str "switch panel focus");
   (str "Space/x", str "toggle file selection"); (str "D", str "download selected files");
   (str "i", str "generate invite link"); (str "J", str "join via invite token");
   (str "d", str "disconnect peer"); (str "Enter", str "peer details / open");
   (str "p", str "show transfer progress"); (str "?", str "toggle this help"); (str "q", str "quit")].

Definition blank_line : bytes := newline ++ newline.

Definition help_View (w : Z) : bytes :=
  RenderWidth overlayStyle (Z.min (w - 4) 50)
    (Render overlayTitleStyle (str "Keybindings") ++ blank_line ++
     concat (map (λ b, str "  " ++ Render statusKeyStyle (fst b) ++ str "  " ++ snd b ++ newline) help_bindings) ++
     newline ++ Render dimItemStyle (str "Press ? or Esc to close")).

Definition confirm_View (message : bytes) (w : Z) : bytes :=
  RenderWidth overlayStyle (Z.min (w - 4) 50)
    (Render overlayTitleStyle (str "Confirm") ++ blank_line ++ message ++ blank_line ++
     Render statusKeyStyle (str "y") ++ str " yes  " ++ Render statusKeyStyle (str "n") ++ str " no").

Definition detail_line (label value : bytes) : bytes :=
  str "  " ++ Render statusKeyStyle label ++ str "  " ++ value ++ newline.

Definition detail_View (p : PeerInfo) (w : Z) : bytes :=
  let status := if PeerInfo_Online p then str "online" else str "offline" in
  RenderWidth overlayStyle (Z.min (w - 4) 65)
    (Render overlayTitleStyle (str "Peer Details") ++ blank_line ++
     detail_line (str "NodeID:") (PeerInfo_NodeID p) ++ detail_line (str "Status:") status ++
     detail_line (str "Trust: ") (PeerInfo_TrustState p) ++ detail_line (str "Seen:  ") (PeerInfo_LastSeen p) ++
     (if 0 <? len (PeerInfo_Endpoints p) then
        str "  " ++ Render statusKeyStyle (str "Endpoints:") ++ newline ++
        concat (map (λ ep, str "    " ++ ep ++ newline) (PeerInfo_Endpoints p))
      else []) ++
     newline ++ Render dimItemStyle (str "Press Esc to close")).

Definition invite_View (token : bytes) (err : option error) (loading : bool) (w : Z) : bytes :=
  let content :=
    Render overlayTitleStyle (str "Invite") ++ blank_line ++
    (if loading then Render dimItemStyle (str "Generating...")
     else match err with
          | Some e => Render errorStyle (str "Error: " ++ err_text e)
          | None => str "Share this token with a peer:" ++ blank_line ++ token
          end) in
  RenderWidth overlayStyle (Z.min (w - 4) 70)
    (content ++ blank_line ++ Render dimItemStyle (str "Press Esc to close")).

Context {TI TC TM : Type} `{TextInput TI TC TM}.

Definition join_View (input : TI) (err : option error) (success : bytes) (loading : bool) (w : Z) :
    outcome bytes :=
  content ←
    (if bool_decide (success ≠ []) then
       id ← slice success 0 (Z.min 16 (len success));
       Ok (Render overlayTitleStyle (str "Join") ++ blank_line ++ str "Connected to peer " ++ id ++
           blank_line ++ Render dimItemStyle (str "Press Esc to close"))
     else
       Ok (Render overlayTitleStyle (str "Join") ++ blank_line ++ str "Paste invite token:" ++ blank_line ++
           ti_View input ++
           (if loading then blank_line ++ Render dimItemStyle (str "Connecting...") else []) ++
           match err with
           | Some e => blank_line ++ Render errorStyle (str "Error: " ++ err_text e)
           | None => []
           end ++
           blank_line ++ Render dimItemStyle (str "Enter=join  Esc=cancel")));
  Ok (RenderWidth overlayStyle (Z.min (w - 4) 60) content).

Definition overlay_View (o : Overlay TI) (w : Z) : outcome bytes :=
  match o with
  | HelpOverlay => Ok (help_View w)
  | InviteOverlay token err loading => Ok (invite_View token err loading w)
  | JoinOverlay input err success loading => join_View input err success loading w
  | ConfirmOverlay message => Ok (confirm_View message w)
  | DetailOverlay peer => Ok (detail_View peer w)
  end.

(** * model.go *)

Definition is_focused (m : Model TI) (x : panel) : bool :=
  match m_focus m, x with
  | panelCatalog, panelCatalog | panelPeers, panelPeers => true
  | _, _ => false
  end.

Definition View (m : Model TI) : outcome bytes :=
  match screen m with
  | Blank => Ok []
  | Initializing => Ok (str "Initializing...")
  | ErrorScreen e =>
      Ok (Render errorStyle (str "Error: " ++ err_text e) ++ blank_line ++
          Render dimItemStyle (str "Press q to quit"))
  | Panels =>
      catalogView ← CatalogView (m_catalog m) (is_focused m panelCatalog);
      peerView ← PeerView (m_peers m) (is_focused m panelPeers);
      let panels := JoinHorizontal [catalogView; peerView] in
      let progressView := progress_View (m_progress m) in
      let all :=
        JoinVertical ([panels] ++ (if bool_decide (progressView = []) then [] else [progressView]) ++
                      [status_View (m_status m)]) in
      match m_overlay m with
      | Some o =>
          overlayView ← overlay_View o (m_width m);
          Ok (Place (m_width m) (m_height m) overlayView)
      | None => Ok all
      end
  end.

End View.

(** * Facts *)

Lemma count_newlines_app s t : count_newlines (s ++ t) = count_newlines s + count_newlines t.
Proof. unfold count_newlines. by rewrite List.filter_app, len_app. Qed.

Lemma count_newlines_repeat n : count_newlines (repeat Byte.x0a n) = Z.of_nat n.
Proof. induction n as [|n IH]; [done|]. change (repeat _ _) with (newline ++ repeat Byte.x0a n).
  rewrite count_newlines_app, IH. change (count_newlines newline) with 1. lia. Qed.

Lemma index_Ok {A} (l : list A) i : 0 ≤ i < len l → ∃ x, index l i = Ok x ∧ x ∈ l.
Proof.
  intros Hi. unfold index. rewrite (proj2 (Z.ltb_ge _ _)) by lia.
  destruct (lookup_lt_is_Some_2 l (Z.to_nat i)) as [x Hx]; [unfold len in Hi; lia|].
  rewrite Hx. exists x. split; [done|]. by eapply list_elem_of_lookup_2.
Qed.

(** Rows that are drawn and have no line break of their own are [n] lines. *)
Lemma draw_rows_Ok (row : Z → outcome bytes) (P : bytes → Prop) n i :
  (∀ k, i ≤ k < i + Z.of_nat n → ∃ l, row k = Ok l ∧ P l) →
  ∃ b, draw_rows row n i (i + Z.of_nat n) = Ok b ∧
    ((∀ l, P l → count_newlines l = 0) → count_newlines b = Z.max 0 (Z.of_nat n - 1)).
Proof.
  revert i. induction n as [|n IH]; intros i Hrow; [by exists []|]. cbn [draw_rows].
  destruct (Hrow i) as (l & -> & Hl); [lia|]. cbn [mbind outcome_bind].
  destruct (IH (i + 1)) as (b & Hb & Hc); [intros k Hk; apply Hrow; lia|].
  replace (i + 1 + Z.of_nat n) with (i + Z.of_nat (S n)) in Hb by lia. rewrite Hb.
  eexists. split; [reflexivity|]. intros HP. rewrite !count_newlines_app, (HP l Hl), (Hc HP).
  destruct (Z.ltb_spec i (i + Z.of_nat (S n) - 1));
    [change (count_newlines newline) with 1|change (count_newlines []) with 0]; lia.
Qed.

Definition printable_byte (b : byte) : bool := byte_in 32 126 b.
Definition printable (s : bytes) : bool := forallb printable_byte s.

Lemma printable_app s t : printable (s ++ t) = printable s && printable t.
Proof. apply forallb_app. Qed.

Lemma printable_newlines s : printable s = true → count_newlines s = 0.
Proof.
  unfold printable, count_newlines. induction s as [|b s IH]; [done|]. cbn [forallb List.filter].
  intros [Hb Hs]%andb_true_iff. destruct (Byte.eqb Byte.x0a b) eqn:E; [|by apply IH].
  apply Byte.byte_dec_bl in E. by subst.
Qed.

Lemma RuneCount_printable s : printable s = true → RuneCount s = len s.
Proof.
  unfold RuneCount. induction s as [|b s IH]; [done|]. cbn [printable forallb].
  intros [Hb Hs]%andb_true_iff. cbn [rune_count_from].
  assert (rune_size (b :: s) = Some 1%nat) as ->.
  { unfold printable_byte, byte_in in Hb. unfold rune_size.
    by rewrite (proj2 (Z.ltb_lt _ _)) by (apply andb_true_iff in Hb as [_ ?%Z.leb_le]; lia). }
  rewrite len_cons, <- IH by done. done.
Qed.

Lemma printable_spaces n : printable (spaces n) = true.
Proof. unfold spaces. by induction (Z.to_nat n). Qed.

Lemma len_spaces n : len (spaces n) = Z.max 0 n.
Proof. unfold spaces, len. rewrite repeat_length. lia. Qed.

Lemma printable_Itoa n : 0 ≤ n → printable (Itoa n) = true.
Proof.
  intros Hn. apply forallb_forall. intros b Hb%list_elem_of_In%Itoa_chars; [|done].
  destruct Hb as [d Hd]. revert Hd. by destruct b.
Qed.

Lemma round_div_nonneg n d : 0 ≤ n → 0 < d → 0 ≤ round_div n d.
Proof.
  intros Hn Hd. pose proof (Z.div_pos n d Hn Hd). unfold round_div. repeat case_match; lia.
Qed.

Lemma float64_of_nonneg n : 0 ≤ n → 0 ≤ float64_of n.
Proof.
  intros Hn. unfold float64_of. destruct (Z.leb_spec (Z.log2 n - 52) 0); [done|].
  apply Z.mul_nonneg_nonneg; [|lia]. apply round_div_nonneg; [done|]. apply Z.pow_pos_nonneg; lia.
Qed.

Lemma printable_1f n k : 0 ≤ n → 0 ≤ k → printable (Sprintf_1f n k) = true.
Proof.
  intros Hn Hk. pose proof (float64_of_nonneg n Hn).
  pose proof (round_div_nonneg (10 * float64_of n) (2 ^ k) ltac:(lia) ltac:(apply Z.pow_pos_nonneg; lia)).
  unfold Sprintf_1f. rewrite !printable_app, !printable_Itoa; [done|apply Z.mod_pos_bound; lia|].
  apply Z.div_pos; lia.
Qed.

Lemma printable_formatSize n : 0 ≤ n → printable (formatSize n) = true.
Proof.
  intros Hn. unfold formatSize.
  repeat case_match; by rewrite printable_app, ?printable_1f, ?printable_Itoa.
Qed.

Lemma printable_suffix f : 0 ≤ FileInfo_Size f → printable (file_suffix f) = true.
Proof.
  intros Hs. unfold file_suffix, pad_left. rewrite !printable_app, printable_spaces, printable_formatSize by done.
  by destruct (FileInfo_IsLocal f).
Qed.

(** Styles that neither draw a border nor pad. *)
Definition inline (s : style) : bool :=
  match s with
  | borderStyle | focusedBorderStyle | statusBarStyle | overlayStyle => false
  | _ => true
  end.

(** What the layout relies on: an inline style adds no line break, with a width it
    wraps only text that is wider, and colours take no cell. *)
Class LipglossLaws (L : Lipgloss) : Prop := {
  render_lines s t : inline s = true → count_newlines (Render s t) = count_newlines t;
  render_width_lines s w t :
    inline s = true → count_newlines t = 0 → CellWidth t ≤ w → count_newlines (RenderWidth s w t) = 0;
  cell_width_printable t : printable t = true → CellWidth t = len t;
  cell_width_styled s t u :
    inline s = true → printable t = true → CellWidth (Render s t ++ u) = len t + CellWidth u
}.

Section Facts.
Context {L : Lipgloss}.

(** A file whose row fits into a panel of width [w]: the size column leaves room
    for a name. *)
Definition file_fits (w : Z) (f : FileInfo) : Prop :=
  printable (FileInfo_Name f) = true ∧ 0 ≤ FileInfo_Size f ∧ len (file_suffix f) + 10 < w.

Lemma formatFileEntry_total f w : ∃ l, formatFileEntry f w = Ok l.
Proof.
  unfold formatFileEntry. cbv zeta. destruct (_ && _) eqn:E; [|by eexists].
  apply andb_true_iff in E as [?%Z.ltb_lt ?%Z.ltb_lt]. rewrite slice_Ok by lia. by eexists.
Qed.

(** An entry takes exactly its share of the line. *)
Lemma formatFileEntry_fits `{!LipglossLaws L} f w :
  file_fits (w + 4) f → ∃ l, formatFileEntry f w = Ok l ∧ printable l = true ∧ len l = w - 6.
Proof.
  intros (Hn & Hs & Hw). pose proof (printable_suffix f Hs) as Hsuf. unfold formatFileEntry. cbv zeta.
  rewrite (cell_width_printable _ Hsuf). set (a := w - len (file_suffix f) - 6).
  rewrite (proj2 (Z.ltb_lt 0 a)) by (subst a; lia). rewrite Z.max_r by (subst a; lia).
  assert (∃ name, (if true && (a <? len (FileInfo_Name f)) then
                     cut ← slice (FileInfo_Name f) 0 (a - 1); Ok (cut ++ str "~")
                   else Ok (FileInfo_Name f)) = Ok name ∧ printable name = true ∧ len name ≤ a)
    as (name & -> & Hp & Hl).
  { destruct (Z.ltb_spec a (len (FileInfo_Name f))) as [Hlt|Hge]; [|by eexists].
    rewrite slice_Ok by (subst a; lia). eexists. split; [reflexivity|]. rewrite drop_0.
    rewrite <- (take_drop (Z.to_nat (a - 1 - 0)) (FileInfo_Name f)), printable_app in Hn.
    apply andb_true_iff in Hn as [Hn _]. split; [by rewrite printable_app, Hn|].
    rewrite len_app. change (len (str "~")) with 1. unfold len in *. rewrite length_take. subst a. lia. }
  cbn [mbind outcome_bind]. eexists. split; [reflexivity|]. unfold pad_right.
  rewrite !printable_app, Hp, Hsuf, printable_spaces. split; [done|].
  rewrite !len_app, len_spaces, RuneCount_printable by done. subst a. lia.
Qed.

Lemma formatPeerEntry_total p : ∃ l, formatPeerEntry p = Ok l.
Proof.
  unfold formatPeerEntry. cbv zeta. destruct (Z.ltb_spec 12 (len (PeerInfo_NodeIDShort p))); [|by eexists].
  rewrite slice_Ok by lia. by eexists.
Qed.

(** A peer whose row fits: its short id is printable, cut to 12 characters. *)
Definition peer_fits (w : Z) (p : PeerInfo) : Prop :=
  printable (PeerInfo_NodeIDShort p) = true ∧ 26 ≤ w.

Lemma formatPeerEntry_fits p w :
  peer_fits w p → ∃ l, formatPeerEntry p = Ok l ∧ printable l = true ∧ len l ≤ w - 4.
Proof.
  intros (Hp & Hw). unfold formatPeerEntry. cbv zeta.
  assert (∃ id, (if 12 <? len (PeerInfo_NodeIDShort p) then slice (PeerInfo_NodeIDShort p) 0 12
                 else Ok (PeerInfo_NodeIDShort p)) = Ok id ∧ printable id = true ∧ len id ≤ 12)
    as (id & -> & Hid & Hl).
  { destruct (Z.ltb_spec 12 (len (PeerInfo_NodeIDShort p))); [|by eexists].
    rewrite slice_Ok by lia. eexists. split; [reflexivity|]. rewrite drop_0.
    rewrite <- (take_drop (Z.to_nat (12 - 0)) (PeerInfo_NodeIDShort p)), printable_app in Hp.
    apply andb_true_iff in Hp as [Hp _]. split; [done|]. unfold len. rewrite length_take. lia. }
  eexists. split; [reflexivity|]. rewrite !printable_app, Hid.
  split; [by destruct (PeerInfo_Online p)|]. rewrite !len_app.
  change (len (str " ")) with 1. change (len (str "  ")) with 2.
  destruct (PeerInfo_Online p); [change (len (str "online")) with 6|change (len (str "offline")) with 7]; lia.
Qed.

(** The three ways a row is styled. *)
Lemma styled_line `{!LipglossLaws L} (sel dim : bool) w l :
  CellWidth l ≤ w → count_newlines l = 0 →
  count_newlines (if sel then RenderWidth selectedItemStyle w l
                  else if dim then Render dimItemStyle l else Render normalItemStyle l) = 0.
Proof.
  intros Hw Hl. destruct sel; [by apply render_width_lines|]. by destruct dim; rewrite render_lines.
Qed.

Lemma panel_content_Ok row (P : bytes → Prop) n off h empty :
  0 ≤ n → 0 ≤ off → (∀ k, 0 ≤ k < n → ∃ l, row k = Ok l ∧ P l) →
  ∃ c, panel_content row n off h empty = Ok c ∧
    (LipglossLaws L → (∀ l, P l → count_newlines l = 0) → count_newlines empty = 0 → 1 ≤ h →
     count_newlines c = h - 1).
Proof.
  intros Hn Ho Hrow. unfold panel_content. cbv zeta. set (last := Z.min (off + h) n).
  assert (∃ b, draw_rows row (Z.to_nat (last - off)) off last = Ok b ∧
            ((∀ l, P l → count_newlines l = 0) → count_newlines b = Z.max 0 (last - off - 1)))
    as (b & -> & Hb).
  { destruct (Z.le_gt_cases last off) as [Hle|Hgt].
    { replace (Z.to_nat (last - off)) with O by lia. exists []. split; [done|]. intros _.
      change (count_newlines []) with 0. lia. }
    destruct (draw_rows_Ok row P (Z.to_nat (last - off)) off) as (b & Hb & Hc).
    { intros k Hk. apply Hrow. subst last. lia. }
    rewrite Z2Nat.id in Hb, Hc by lia. replace (off + (last - off)) with last in Hb by lia. by exists b. }
  cbn [mbind outcome_bind]. destruct (Z.eqb_spec n 0) as [->|Hne].
  - eexists. split; [reflexivity|]. intros HL HP He Hh.
    rewrite !count_newlines_app, count_newlines_repeat, render_lines, (Hb HP), He by done. subst last. lia.
  - eexists. split; [reflexivity|]. intros HL HP He Hh.
    rewrite count_newlines_app, count_newlines_repeat, (Hb HP). subst last. lia.
Qed.

Lemma checkbox_width `{!LipglossLaws L} (on : bool) l :
  CellWidth ((if on then checkboxOn else checkboxOff) ++ l) = 3 + CellWidth l.
Proof. by destruct on; unfold checkboxOn, checkboxOff; rewrite cell_width_styled. Qed.

Lemma checkbox_lines `{!LipglossLaws L} (on : bool) : count_newlines (if on then checkboxOn else checkboxOff) = 0.
Proof. by destruct on; unfold checkboxOn, checkboxOff; rewrite render_lines. Qed.

Lemma catalog_row_Ok m i :
  0 ≤ i < len (Visible m) →
  ∃ l, catalog_row m i = Ok l ∧ (LipglossLaws L → Forall (file_fits (Tui.width m)) (Visible m) → count_newlines l = 0).
Proof.
  intros Hi. unfold catalog_row. destruct (index_Ok _ i Hi) as (f & -> & Hf). cbn [mbind outcome_bind].
  destruct (formatFileEntry_total f (Tui.width m - 4)) as [l Hl]. rewrite Hl. cbn [mbind outcome_bind].
  eexists. split; [reflexivity|]. intros HL Hfit. rewrite Forall_forall in Hfit.
  destruct (formatFileEntry_fits f (Tui.width m - 4)) as (l' & Hl' & Hp & Hlen).
  { replace (Tui.width m - 4 + 4) with (Tui.width m) by lia. by apply Hfit. }
  rewrite Hl in Hl'. injection Hl' as <-.
  apply styled_line.
  - rewrite checkbox_width, cell_width_printable; [|by rewrite printable_app, Hp].
    rewrite len_app. change (len (str " ")) with 1. lia.
  - rewrite !count_newlines_app, checkbox_lines, (printable_newlines l Hp). done.
Qed.

Lemma peer_row_Ok m i :
  0 ≤ i < len (peers m) →
  ∃ l, peer_row m i = Ok l ∧ (LipglossLaws L → Forall (peer_fits (width m)) (peers m) → count_newlines l = 0).
Proof.
  intros Hi. unfold peer_row. destruct (index_Ok _ i Hi) as (p & -> & Hp). cbn [mbind outcome_bind].
  destruct (formatPeerEntry_total p) as [l Hl]. rewrite Hl. cbn [mbind outcome_bind].
  eexists. split; [reflexivity|]. intros HL Hfit. rewrite Forall_forall in Hfit.
  destruct (formatPeerEntry_fits p (width m)) as (l' & Hl' & Hpr & Hlen); [by apply Hfit|].
  rewrite Hl in Hl'. injection Hl' as <-.
  apply styled_line; [by rewrite cell_width_printable|by apply printable_newlines].
Qed.

Lemma catalog_content_Ok m :
  0 ≤ Tui.offset m →
  ∃ c, catalog_content m = Ok c ∧
    (LipglossLaws L → Forall (file_fits (Tui.width m)) (Visible m) → 1 ≤ Tui.height m → count_newlines c = Tui.height m - 1).
Proof.
  intros Ho. unfold catalog_content.
  destruct (panel_content_Ok (catalog_row m)
    (λ l, LipglossLaws L → Forall (file_fits (Tui.width m)) (Visible m) → count_newlines l = 0)
    (len (Visible m)) (Tui.offset m) (Tui.height m) (str "  (no files)"))
    as (c & Hc & Hlines); [apply len_nonneg|done|intros k; apply catalog_row_Ok|].
  exists c. split; [done|]. intros HL Hfit Hh. apply Hlines; [done| |done|done]. intros l Hl. by apply Hl.
Qed.

Lemma peer_content_Ok m :
  0 ≤ offset m →
  ∃ c, peer_content m = Ok c ∧
    (LipglossLaws L → Forall (peer_fits (width m)) (peers m) → 1 ≤ height m → count_newlines c = height m - 1).
Proof.
  intros Ho. unfold peer_content.
  destruct (panel_content_Ok (peer_row m)
    (λ l, LipglossLaws L → Forall (peer_fits (width m)) (peers m) → count_newlines l = 0)
    (len (peers m)) (offset m) (height m) (str "  (no peers)"))
    as (c & Hc & Hlines); [apply len_nonneg|done|intros k; apply peer_row_Ok|].
  exists c. split; [done|]. intros HL Hfit Hh. apply Hlines; [done| |done|done]. intros l Hl. by apply Hl.
Qed.

Lemma overlay_View_total {TI TC TM : Type} `{TextInput TI TC TM} err_text (o : Overlay TI) w :
  ∃ text, overlay_View err_text o w = Ok text.
Proof.
  destruct o as [|tok err ld|input err ok ld|text|peer]; try by eexists.
  cbn [overlay_View]. unfold join_View. destruct (bool_decide _); [|by eexists].
  pose proof (len_nonneg ok). rewrite slice_Ok by lia. by eexists.
Qed.

Lemma View_total {TI TC TM : Type} `{TextInput TI TC TM} err_text ToLower (m : Model TI) :
  screen_ok ToLower m → ∃ text, View err_text m = Ok text.
Proof.
  intros [[_ _ _ Ho] (_ & _ & Ho')]. unfold View. destruct (screen m); try by eexists.
  unfold CatalogView, PeerView.
  destruct (catalog_content_Ok _ Ho) as (c & -> & _). destruct (peer_content_Ok _ Ho') as (c' & -> & _).
  cbn [mbind outcome_bind]. destruct (m_overlay m) as [o|]; [|by eexists].
  destruct (overlay_View_total err_text o (m_width m)) as [text ->]. by eexists.
Qed.

End Facts.

(** * Properties *)

(** The panels fill their boxes exactly: when the rows in the lists are printable
    and leave room for the columns, the text that [CatalogView] and [PeerView] put
    into their borders is a header line and exactly as many lines as the panel is
    high, wherever the cursor and the viewport are and however short the lists. *)
Theorem panels_fill {L : Lipgloss} `{!LipglossLaws L} (ToLower : bytes → bytes)
    (m : CatalogModel) (q : PeerModel) (focused focused' : bool) :
  model_ok ToLower m → TuiPeers.cursor_ok q →
  1 ≤ Tui.height m → Forall (file_fits (Tui.width m)) (Visible m) →
  1 ≤ height q → Forall (peer_fits (width q)) (peers q) →
  (∃ c, CatalogView m focused =
          Ok (RenderWidth (border focused) (Tui.width m) (catalog_header m ++ newline ++ c)) ∧
        count_newlines c = Tui.height m - 1) ∧
  (∃ c, PeerView q focused' =
          Ok (RenderWidth (border focused') (width q) (peer_header q ++ newline ++ c)) ∧
        count_newlines c = height q - 1).
Proof.
  intros [_ _ _ Ho] (_ & _ & Ho') Hh Hf Hh' Hf'. unfold CatalogView, PeerView.
  destruct (catalog_content_Ok m Ho) as (c & -> & Hc). destruct (peer_content_Ok q Ho') as (c' & -> & Hc').
  split; eexists; (split; [reflexivity|]); auto.
Qed.

(** C26. Nothing can crash the interface: in every reachable state [View] draws a
    screen and [Update] returns whatever message arrives next; the file list is what the
    search selects, and each cursor is on a row of its list, or 0 when the list is empty.
    Nothing is said of where the viewports are but that they do not begin before the first
    row: one can lie beyond the end of the list ([refresh_hides_rows]). *)
Theorem screen_no_panic {TI TC TM : Type} `{TextInput TI TC TM} {L : Lipgloss} (err_text : error → bytes)
    (ToLower : bytes → bytes) `{IpcCodecs} (p : Program TI TC TM) (msg : Msg TM) :
  rtc (step ToLower) start p →
  screen_ok ToLower (p_model p) ∧
  (∃ text, View err_text (p_model p) = Ok text) ∧
  ∃ m' cmds, Update ToLower (p_model p) msg = Ok (m', cmds) ∧ screen_ok ToLower m'.
Proof.
  intros Hrtc. destruct (program_ok_run _ _ _ (program_ok_start ToLower) Hrtc) as [Hs _ _ _].
  split_and!; [done|by eapply View_total|].
  destruct (Update_total _ _ msg Hs) as (m' & cmds & Hu & Hs' & _). by exists m', cmds.
Qed.

(** * Witnesses *)

Module ViewWitness.
Import ScreenWitness.

(** A terminal without colours or borders. *)
#[local] Instance plain : Lipgloss := {|
  Render := λ _ t, t; RenderWidth := λ _ _ t, t; CellWidth := len;
  JoinHorizontal := @concat _; JoinVertical := @concat _; Place := λ _ _ t, t
|}.

#[local] Instance plain_laws : LipglossLaws plain.
Proof. split; intros; simpl; try done. apply len_app. Qed.

Definition files2 : list FileInfo := [TuiWitness.file "a"; TuiWitness.file "b"].
Definition list2 : CatalogModel := foldl (Tui.apply_op id) NewCatalogModel [Tui.OpSetSize 56 5; Tui.OpSetFiles files2].
Definition peers0 : PeerModel := foldl TuiPeers.apply_op TuiPeers.zero [TuiPeers.OpSetSize 30 5].

Lemma panels_fill_witness :
  CatalogView list2 true =
    Ok (str " Files  2/2" ++ newline ++
        str "[ ] a                                  1 B  remote" ++ newline ++
        str "[ ] b                                  1 B  remote" ++ repeat Byte.x0a 3) ∧
  ∃ c, PeerView peers0 false = Ok (str " Peers  0" ++ newline ++ c) ∧ count_newlines c = 4.
Proof.
  split; [by vm_compute|].
  refine (proj2 (panels_fill id list2 peers0 true false _ _ _ _ _ _)).
  - apply run_ok, new_ok.
  - by apply (run_status _ TuiPeers.zero []); split_and!; [|right|].
  - vm_compute. done.
  - repeat constructor; by vm_compute.
  - vm_compute. done.
  - constructor.
Defined.

Lemma screen_no_panic_witness :
  ∃ m' cmds, Update id (p_model p1) (Key (mk_KeyMsg (str "d") KeyRunes (str "d"))) = Ok (m', cmds) ∧
    screen_ok id m'.
Proof. apply (screen_no_panic (λ _, []) id p1 _ screen_run1). Defined.

End ViewWitness.
