(* ===== verification/Rpc.v ===== *)
(** The typed methods of the control socket's client ([internal/ipc/client.go]) and the
    loop that accepts its connections ([internal/daemon/server.go]), joined with the
    daemon's handler ([Daemon.Handle]) and the interface: what a client gets is what
    the daemon answered. *)

From S2P Require Import Prelude GoStd Io Codec Framing Bolt Crypto Sha256 Identity Catalog CatalogSpec CatalogProps Peerstore Connmgr Ipc Daemon Tui TuiPeers TuiModel.

Record DownloadResponse := mk_DownloadResponse { DownloadResponse_Path : bytes }.

(** The methods; no parameters are [nil]. *)
Module Methods.
Section Methods.
Context `{JsonCodec Request} `{JsonCodec Response} `{IpcCodecs} `{JsonCodec DownloadResponse}.

Definition Status (c : Client) : outcome StatusResponse * Client := callAndDecode c MethodStatus (Ok []).
Definition Peers (c : Client) : outcome PeersResponse * Client := callAndDecode c MethodPeers (Ok []).
Definition Invite (c : Client) : outcome InviteResponse * Client := callAndDecode c MethodInvite (Ok []).
Definition Join (c : Client) (token : bytes) : outcome JoinResponse * Client :=
  callAndDecode c MethodJoin (json_Marshal (mk_JoinParams token)).
Definition Catalog (c : Client) : outcome CatalogResponse * Client := callAndDecode c MethodCatalog (Ok []).
Definition Download (c : Client) (fileID : bytes) : outcome DownloadResponse * Client :=
  callAndDecode c MethodDownload (json_Marshal (mk_DownloadParams fileID)).

End Methods.
End Methods.

(** [Server.Serve]: the connections that get a goroutine, in order. An error of
    [Accept] ends the loop only when the server is closed. *)
Fixpoint Serve {C} (closed : nat → bool) (i : nat) (accepts : list (outcome C)) : list C :=
  match accepts with
  | [] => []
  | Ok conn :: rest => conn :: Serve closed (S i) rest
  | _ :: rest => if closed i then [] else Serve closed (S i) rest
  end.

Section Rpc.
Context {B : Type} `{Bolt B} `{JPeer : JsonCodec Peer} `{JEntry : JsonCodec Entry}
  `{JHints : JsonCodec (list OwnerHint)}.
Context `{Ed25519} `{IpcCodecs} (err_text : error → bytes).
Context `{JReq : JsonLaws Request} `{JResp : JsonLaws Response}.

(** The daemon's handler on a connection; a panic ends the process, so that nothing
    is written. *)
Definition daemon_handle (e : Call) (h : Daemon.Handler B) (req : Request) : Response * Daemon.Handler B :=
  match Handle err_text e h req with
  | (Ok resp, h') => (resp, h')
  | (_, h') => (json_zero, h')
  end.

(** What decoding keeps: a request without parameters whose method is text, and a
    response whose data was marshalled from a [T]. *)
Class RpcLaws (T : Type) `{JsonCodec T} : Prop := {
  request_kept id m : utf8_ok m = true → json_canon (mk_Request id m []) = mk_Request id m [];
  response_kept id (v : T) : json_canon (okResponse id v) = okResponse id v
}.

(** One call on a connection that a server serves. *)
Lemma call_served {HS} (Handle : HS → Request → Response * HS) (c : Client) method params data h h' w w' r' rest err :
  let req := mk_Request (next_id c) method params in
  sendable req data → w_room (c_w c) = None → w_out w = [] →
  handleConn Handle h {| r_in := frame data; r_end := io_EOF |} w = (ReadFailed, h', r', w') →
  c_r c = {| r_in := w_out w' ++ rest; r_end := err |} →
  ∃ c', call c method (Ok params) = (Ok (json_canon (fst (Handle h (json_canon req)))), c') ∧
    h' = snd (Handle h (json_canon req)) ∧
    w_out (c_w c') = w_out (c_w c) ++ frame data ∧ c_r c' = {| r_in := rest; r_end := err |}.
Proof.
  intros req Hs Hroom Hw Hh Hr. unfold handleConn in Hh.
  assert (frame data = frames [data]) as Hfr by (unfold frames; simpl; by rewrite app_nil_r).
  rewrite Hfr in Hh.
  apply (handleConn_loop_frames Handle [req] [data]) in Hh; [|constructor; [done|constructor]|].
  2: { pose proof (frames_length [data]). simpl in *. lia. }
  cbn [map handle_all] in Hh. destruct (Handle h (json_canon req)) as [resp h1].
  destruct Hh as (-> & rds & Hrds & Hout). rewrite Hout, Hw in Hr. simpl in Hr.
  destruct (calls_frames [(method, params)] c [req] [data] [resp] rds rest err) as (c' & Hc & Hw' & Hr');
    [done|constructor; [done|constructor]|done|done|done|done|].
  exists c'. cbn [calls] in Hc. destruct (call c method (Ok params)) as [res c1]. injection Hc as -> ->.
  split_and!; [done|done|by rewrite Hfr|done].
Qed.

(** A response decodes to what the daemon marshalled. *)
Lemma call_typed {T} `{JT : JsonLaws T} `{!RpcLaws T} {HS} (Handle : HS → Request → Response * HS)
    (c : Client) method params data h h' w w' r' rest err (v : T) id text :
  let req := mk_Request (next_id c) method params in
  sendable req data → w_room (c_w c) = None → w_out w = [] →
  handleConn Handle h {| r_in := frame data; r_end := io_EOF |} w = (ReadFailed, h', r', w') →
  c_r c = {| r_in := w_out w' ++ rest; r_end := err |} →
  fst (Handle h (json_canon req)) = okResponse id v → json_Marshal v = Ok text →
  ∃ c', callAndDecode c method (Ok params) = (Ok (json_canon v), c') ∧
    w_out (c_w c') = w_out (c_w c) ++ frame data ∧ c_r c' = {| r_in := rest; r_end := err |}.
Proof.
  intros req Hs Hroom Hw Hh Hr Hv Ht. subst req.
  destruct (call_served Handle c method params data h h' w w' r' rest err) as (c' & Hc & _ & Hw' & Hr'); [done..|].
  exists c'. split_and!; [|done|done]. unfold callAndDecode. rewrite Hc, Hv, response_kept. simpl.
  unfold marshalData. rewrite Ht. by rewrite (json_roundtrip v text Ht).
Qed.

End Rpc.

(** The live entries of a reachable store. *)
Lemma ListAll_live {B : Type} `{BoltLaws B} `{CatalogJson} (P : CatalogSpec.op → Prop) (self : node_id)
    (s : Catalog.Store B) :
  reachable P self s →
  ∃ l, ListAll s = Ok l ∧ NoDup (map entry_key l) ∧
    ∀ x, x ∈ l ↔ Entry_Deleted x = false ∧ GetEntry s (Entry_OwnerNodeID x) (Entry_FileID x) = Ok (Some x).
Proof.
  intros (_ & a & HA & HI & _)%reachable_abs.
  destruct (collect_abs s a (λ e, negb (Entry_Deleted e)) HA) as (l & Hl & Hin). exists l. split_and!; [done|by eapply collect_once|].
  intros x. rewrite Hin, negb_true_iff. split.
  - intros (Hd & o & f & Hf). destruct (inv_stored _ HI _ _ _ Hf) as (-> & -> & _).
    split; [done|]. by rewrite (GetEntry_abs _ _ _ _ HA), Hf.
  - intros [Hd Hg]. split; [done|]. rewrite (GetEntry_abs _ _ _ _ HA) in Hg. injection Hg as Hg. eauto.
Qed.

(** * Properties *)

(** C24. The interface shows the daemon's catalog: when a client calls [Catalog] on a
    connection that the daemon serves, it gets exactly one file for each live entry of
    the daemon's store, with the entry's name, size and owner and marked as local
    exactly when the daemon itself owns it; and when the interface handles that
    result, these are the files of its list. *)
Theorem catalog_shown {B : Type} `{BoltLaws B} `{JPeer : JsonCodec Peer} `{CatalogJson} `{Ed25519} `{IpcCodecs}
    `{JReq : JsonLaws Request} `{JResp : JsonLaws Response} `{JCat : !JsonLaws CatalogResponse}
    `{!RpcLaws CatalogResponse} {TI TC TM : Type} `{TextInput TI TC TM}
    (err_text : error → bytes) (ToLower : bytes → bytes) (P : CatalogSpec.op → Prop) (self : node_id) (e : Call)
    (h h' : Daemon.Handler B) (c : Client) (data rest : bytes) (w w' : Writer) (r' : Reader) (err : error)
    (m : Model TI) :
  reachable P self (h_catalog h) →
  (∀ l, is_Ok (json_Marshal (mk_CatalogResponse (map (file_info h) l))) = true) →
  sendable (mk_Request (next_id c) MethodCatalog []) data → w_room (c_w c) = None → w_out w = [] →
  handleConn (daemon_handle err_text e) h {| r_in := frame data; r_end := io_EOF |} w = (ReadFailed, h', r', w') →
  c_r c = {| r_in := w_out w' ++ rest; r_end := err |} →
  ∃ l c' resp m',
    NoDup (map entry_key l) ∧
    (∀ x, x ∈ l ↔ Entry_Deleted x = false ∧
                  GetEntry (h_catalog h) (Entry_OwnerNodeID x) (Entry_FileID x) = Ok (Some x)) ∧
    resp = json_canon (mk_CatalogResponse (map (file_info h) l)) ∧
    Methods.Catalog c = (Ok resp, c') ∧ c_r c' = {| r_in := rest; r_end := err |} ∧
    Update (TM := TM) ToLower m (CatalogResult (Some resp) None) = Ok (m', []) ∧
    files (m_catalog m') = CatalogResponse_Files resp.
Proof.
  intros Hreach Hmar Hs Hroom Hw Hh Hr. destruct (ListAll_live P self _ Hreach) as (l & Hl & Hnd & Hlive).
  specialize (Hmar l). destruct (json_Marshal (mk_CatalogResponse _)) as [text| |] eqn:Ht; [|done|done].
  destruct (call_typed (daemon_handle err_text e) c MethodCatalog [] data h h' w w' r' rest err
    (mk_CatalogResponse (map (file_info h) l)) (next_id c) text) as (c' & Hc & _ & Hr'); [done..| |done|].
  - rewrite request_kept by (by vm_compute). unfold daemon_handle, Handle. simpl.
    unfold handleCatalog. by rewrite Hl.
  - exists l, c'. do 2 eexists. split_and!; [done|done|done|done|done|reflexivity|reflexivity].
Qed.

(** * Witnesses *)

Module RpcWitness.
Import MapBolt PeerInstance CatalogInstance ToySig ScreenWitness.

#[local] Instance FileInfo_eq_dec : EqDecision FileInfo.
Proof. solve_decision. Defined.
#[local] Instance FileInfo_countable : Countable FileInfo.
Proof.
  refine (inj_countable' (λ f, (FileInfo_FileID f, FileInfo_Name f, FileInfo_Size f, FileInfo_ModTime f,
                                FileInfo_OwnerNodeID f, FileInfo_IsLocal f))
            (λ t, let '(i, n, s, d, o, l) := t in mk_FileInfo i n s d o l) _). by intros [].
Defined.
#[local] Instance CatalogResponse_eq_dec : EqDecision CatalogResponse.
Proof. solve_decision. Defined.
#[local] Instance CatalogResponse_countable : Countable CatalogResponse.
Proof. refine (inj_countable' CatalogResponse_Files mk_CatalogResponse _). by intros []. Defined.

(** Requests as in [IpcInstance]; of a response the raw data is appended as it is. *)
#[local] Existing Instances IpcInstance.req_codec IpcInstance.req_laws IpcInstance.ErrorInfo_count IpcInstance.ErrorInfo_eq_dec.

Fixpoint cut (b : bytes) : bytes * bytes :=
  match b with
  | [] => ([], [])
  | Byte.x02 :: b' => ([], b')
  | x :: b' => let '(u, v) := cut b' in (x :: u, v)
  end.

Lemma cut_app p d : cut (TinyJson.pos_bytes p ++ Byte.x02 :: d) = (TinyJson.pos_bytes p, d).
Proof. induction p as [p IH|p IH|]; [| |done]; cbn [TinyJson.pos_bytes app cut]; by rewrite IH. Qed.

#[local] Instance resp_codec : JsonCodec Response := {|
  json_zero := mk_Response 0 None [];
  json_Marshal r :=
    Ok (TinyJson.pos_bytes (encode (Response_ID r, Response_Error r)) ++ Byte.x02 :: Response_Data r);
  json_Unmarshal raw _ :=
    let '(u, d) := cut raw in
    match decode (TinyJson.bytes_pos u) with
    | Some (i, e) => Ok (mk_Response i e d)
    | None => Err (Errorf "malformed" [])
    end;
  json_canon r := r
|}.

#[local] Instance resp_laws : JsonLaws Response.
Proof.
  split; [|done|done|].
  - intros [i e d] data [= <-]. cbn [json_Unmarshal resp_codec Response_ID Response_Error Response_Data].
    by rewrite cut_app, TinyJson.bytes_pos_bytes, decode_encode.
  - intros [i e d] [=]. by destruct (TinyJson.pos_bytes _).
Qed.

Definition files_codec : JsonCodec CatalogResponse := TinyJson.codec (mk_CatalogResponse []) id.

(** As in [DaemonWitness], with a codec for catalogs. *)
#[local] Instance rpc_codecs : IpcCodecs :=
  {| status_codec := status_codec; peers_codec := peers_codec; invite_codec := invite_codec;
     join_params_codec := join_params_codec; join_codec := join_codec; catalog_codec := files_codec;
     download_params_codec := download_params_codec; peer_info_codec := peer_info_codec;
     peer_offline_codec := peer_offline_codec |}.

#[local] Instance files_laws : JsonLaws CatalogResponse.
Proof. by apply TinyJson.laws. Qed.
#[local] Instance rpc_laws : RpcLaws CatalogResponse.
Proof. by split. Qed.

Definition clk (k : nat) : Z := 0.
Definition any (o : CatalogSpec.op) : Prop := True.
Definition store1 : Catalog.Store (gmap bytes bytes) := snd (CatalogSpec.exec (OpPutLocal clk (entry file1 "a")) (CatalogProps.new_store self)).

Lemma store1_reachable : reachable any self store1.
Proof. unfold store1. apply reach_step; [apply reach_new|done]. Qed.

Definition node : Daemon.Handler (gmap bytes bytes) :=
  mk_Handler DaemonWitness.idA PeerInstance.new_store store1 (DaemonWitness.net false) [] [] [] [].
Definition call0 : Call := mk_Call 0 0 (Ok DaemonWitness.nonce).
Definition open_writer : Writer := {| w_out := []; w_room := None; w_err := io_EOF |}.
Definition request : bytes := marshalData (mk_Request 1 MethodCatalog []).
Definition text (e : error) : bytes := [].
Definition answered := handleConn (daemon_handle text call0) node {| r_in := frame request; r_end := io_EOF |} open_writer.
Definition client0 : Client :=
  {| c_r := {| r_in := w_out (snd answered) ++ []; r_end := io_EOF |}; c_w := open_writer; nextID := 0 |}.

Lemma answered_value :
  answered = (ReadFailed, answered.1.1.2, answered.1.2, answered.2).
Proof.
  assert (answered.1.1.1 = ReadFailed) as <- by (vm_compute; reflexivity). by destruct answered as [[[? ?] ?] ?].
Qed.

Lemma catalog_shown_witness :
  ∃ l c' resp m',
    NoDup (map entry_key l) ∧
    (∀ x, x ∈ l ↔ Entry_Deleted x = false ∧
                  GetEntry (h_catalog node) (Entry_OwnerNodeID x) (Entry_FileID x) = Ok (Some x)) ∧
    resp = json_canon (mk_CatalogResponse (map (file_info node) l)) ∧
    Methods.Catalog client0 = (Ok resp, c') ∧ c_r c' = {| r_in := []; r_end := io_EOF |} ∧
    Update (TM := unit) id (NewModel (TI := bytes)) (CatalogResult (Some resp) None) = Ok (m', []) ∧
    files (m_catalog m') = CatalogResponse_Files resp.
Proof.
  refine (catalog_shown text id any self call0 node answered.1.1.2 client0 request [] open_writer answered.2
            answered.1.2 io_EOF NewModel store1_reachable _ _ eq_refl eq_refl answered_value eq_refl).
  - intros l. reflexivity.
  - split; [vm_compute; reflexivity|]. vm_compute. intros [=].
Defined.

End RpcWitness.
